(** * Authenticated HTTP client, credential store and session manager

    A shallow embedding of the TypeScript sources of the application
    scaffold: the two storage services, the auth storage built on them, the
    auth service, the session provider, the axios interceptors with the HTTP
    client and the error handler, the logger and the error tracker, the role
    hooks and the route guard, followed by the properties proved about them.

    Promises are modelled by a state-and-exception monad over a [World]:
    [await] is sequencing, a rejected promise is [Rejected], [try]/[catch] is
    [try_catch].  The platform (storage backends, clock, remote end) is the
    [Device] and [Env] part of the world; everything the code itself emits (log lines,
    callback invocations, dispatches) is appended to its [trace].

    The auth service appears twice.  In [authService] and [AuthProvider] its
    HTTP client is an interface whose calls have settled, for the properties
    that start from the answer to a request.  In [Wired] the client is the
    intercepted axios instance of the sources, which calls back into the
    refresh and the logout of the auth service; there a promise may stay
    pending, and the properties say when the operations settle. *)

From Stdlib Require Import ZArith String Ascii List Lia DecimalString DecimalZ DecimalPos.
From stdpp Require Import base gmap strings.

Open Scope Z_scope.
Open Scope string_scope.

(* ================================================================== *)
(** * JavaScript values                                                *)
(* ================================================================== *)

(** A number that is not an integer.  Numbers are IEEE 754 doubles: one that
    is not an integer is a binary fraction [m / 2^p] with [m] odd, and a
    numeral beyond the range of doubles is read as an infinity. *)
Inductive Float : Type :=
| Dyadic (m : Z) (p : positive)
| Infinite (negative : bool).

(** The values that travel through [JSON.stringify]/[JSON.parse] and through
    response bodies.  A number is a [JNum] when it is an integer (timestamps,
    status and business codes are) and a [JFloat] otherwise; [-0] is kept as
    [0], from which no operation of this program tells it apart.  A string is
    kept in its UTF-8 encoding; an object is the list of its own properties in
    enumeration order. *)
#[local] Unset Elimination Schemes.
Inductive JSON : Type :=
| JNull
| JBool (b : bool)
| JNum (n : Z)
| JStr (s : string)
| JArr (items : list JSON)
| JObj (fields : list (string * JSON))
| JFloat (x : Float).
#[local] Set Elimination Schemes.

(** [Number.prototype.toString] on an integer: plain decimal digits with a
    leading minus sign for negatives, which is how JavaScript prints the
    integers it holds exactly, those up to 2^53 in magnitude. *)
Definition Number_toString (n : Z) : string :=
  NilZero.string_of_int (Z.to_int n).

(** ** [parseInt(s, 10)]

    Leading white space is skipped, one optional sign is read, then the
    longest prefix of decimal digits; anything after it is ignored.  With no
    digit at all the result is [NaN], here [None]. *)
Definition is_white_space (c : ascii) : bool :=
  let n := nat_of_ascii c in
  ((9 <=? n) && (n <=? 13))%nat || (n =? 32)%nat.

Definition digit_value (c : ascii) : option Z :=
  let n := nat_of_ascii c in
  if ((48 <=? n) && (n <=? 57))%nat then Some (Z.of_nat n - 48) else None.

Fixpoint trim_start (s : string) : string :=
  match s with
  | String c rest => if is_white_space c then trim_start rest else s
  | EmptyString => s
  end.

(** [read_digits s acc] reads the longest prefix of decimal digits of [s]:
    [acc] is the value of the digits read so far; what follows them is
    returned unread. *)
Fixpoint read_digits (s : string) (acc : Z) : Z * string :=
  match s with
  | String c rest =>
      match digit_value c with
      | Some d => read_digits rest (10 * acc + d)
      | None => (acc, s)
      end
  | EmptyString => (acc, EmptyString)
  end.

Definition starts_with_digit (s : string) : bool :=
  match s with
  | String c _ => bool_decide (is_Some (digit_value c))
  | EmptyString => false
  end.

Definition unsigned_prefix (s : string) : option Z :=
  if starts_with_digit s then Some (fst (read_digits s 0)) else None.

Definition parseInt (s : string) : option Z :=
  match trim_start s with
  | String "-" rest => Z.opp <$> unsigned_prefix rest
  | String "+" rest => unsigned_prefix rest
  | t => unsigned_prefix t
  end.

(** ** The Number value of a numeral

    A numeral with a fraction or an exponent stands for the double nearest to
    its mathematical value, ties going to the even significand; beyond the
    largest double it stands for an infinity, and below half the smallest
    one for zero. *)

(** The power of two at or below the positive rational [a / b]. *)
Definition binade (a b : Z) : Z :=
  let e := Z.log2 a - Z.log2 b in
  if (if 0 <=? e then b * 2 ^ e <=? a else b <=? a * 2 ^ (- e))%Z then e else e - 1.

(** [n / d] rounded to the nearest integer, a tie to the even one. *)
Definition round_half_even (n d : Z) : Z :=
  let q := n / d in
  let r := n mod d in
  if (2 * r <? d)%Z then q
  else if (d <? 2 * r)%Z then q + 1
  else if Z.even q then q else q + 1.

(** [m / 2^p] in lowest terms. *)
Fixpoint lowest_terms (m : positive) (p : nat) : positive * nat :=
  match m, p with
  | xO m', S p' => lowest_terms m' p'
  | _, _ => (m, p)
  end.

Definition signed (negative : bool) (n : Z) : Z := if negative then - n else n.

(** The double nearest to [a / b], for positive [a] and [b]: a significand of
    53 bits, or fewer at the bottom of the range, where the exponent stops
    at -1074. *)
Definition Number_of_ratio (negative : bool) (a b : Z) : JSON :=
  let q := Z.max (binade a b - 52) (-1074) in
  if (0 <=? q)%Z then
    let mant := round_half_even a (b * 2 ^ q) in
    if (2 ^ 1024 <=? mant * 2 ^ q)%Z then JFloat (Infinite negative)
    else JNum (signed negative (mant * 2 ^ q))
  else
    match round_half_even (a * 2 ^ (- q)) b with
    | Zpos mant =>
        match lowest_terms mant (Z.to_nat (- q)) with
        | (m, O) => JNum (signed negative (Zpos m))
        | (m, S p) => JFloat (Dyadic (signed negative (Zpos m)) (Pos.of_succ_nat p))
        end
    | _ => JNum 0
    end.

(** The Number value of the numeral with digits [D] and decimal exponent
    [E], that is of [D * 10^E]. *)
Definition Number_of_decimal (negative : bool) (D E : Z) : JSON :=
  if (D =? 0)%Z then JNum 0
  else if (0 <=? E)%Z then Number_of_ratio negative (D * 10 ^ E) 1
  else Number_of_ratio negative D (10 ^ (- E)).

(** ** [Number.prototype.toString] on a number that is not an integer

    The digits are those of the shortest numeral that is read back as the
    number, [s / 10^sc] with [sc] as small as possible, and of the two
    candidates with that many digits the one nearer to the number. *)
Definition reads_as (m p : positive) (s sc : Z) : bool :=
  match Number_of_decimal false s (- sc) with
  | JFloat (Dyadic m' p') => Z.eqb (Zpos m) m' && Pos.eqb p p'
  | _ => false
  end.

Fixpoint shortest (fuel : nat) (m p : positive) (sc : Z) : option (Z * Z) :=
  match fuel with
  | O => None
  | S n =>
      let a := Zpos m * 10 ^ sc in
      let b := 2 ^ Zpos p in
      let lo := a / b in
      let hi := lo + 1 in
      match reads_as m p lo sc, reads_as m p hi sc with
      | true, true =>
          let nearer_lo :=
            if (2 * a <? (2 * lo + 1) * b)%Z then true
            else if ((2 * lo + 1) * b <? 2 * a)%Z then false
            else Z.even lo in
          Some (if nearer_lo then lo else hi, sc)
      | true, false => Some (lo, sc)
      | false, true => Some (hi, sc)
      | false, false => shortest n m p (sc + 1)
      end
  end.

(** With [p] digits after the point the numeral is exact, so the search ends
    there at the latest. *)
Definition Float_digits (m p : positive) : Z * Z :=
  match shortest (Pos.to_nat p) m p 1 with
  | Some r => r
  | None => (Zpos m * 5 ^ Zpos p, Zpos p)
  end.

Fixpoint zeros (n : nat) : string :=
  match n with
  | O => ""
  | S k => String "0" (zeros k)
  end.

Fixpoint string_take (n : nat) (s : string) : string :=
  match n, s with
  | S k, String c r => String c (string_take k r)
  | _, _ => ""
  end.

Fixpoint string_drop (n : nat) (s : string) : string :=
  match n, s with
  | S k, String c r => string_drop k r
  | _, _ => s
  end.

(** The digits [ds] with the decimal point after the first [n] of them:
    plain up to 21 integer digits and down to six zeros after the point,
    with an exponent otherwise. *)
Definition format_decimal (ds : string) (n : Z) : string :=
  let k := Z.of_nat (String.length ds) in
  if ((k <=? n) && (n <=? 21))%Z then ds +:+ zeros (Z.to_nat (n - k))
  else if ((0 <? n) && (n <=? 21))%Z
  then string_take (Z.to_nat n) ds +:+ "." +:+ string_drop (Z.to_nat n) ds
  else if ((-6 <? n) && (n <=? 0))%Z then "0." +:+ zeros (Z.to_nat (- n)) +:+ ds
  else
    let e := n - 1 in
    match ds with
    | String d EmptyString => ds
    | String d r => String d ("." +:+ r)
    | EmptyString => ""
    end +:+ "e" +:+ (if (e <? 0)%Z then "-" else "+") +:+ Number_toString (Z.abs e).

Definition Float_toString (x : Float) : string :=
  match x with
  | Dyadic (Zpos m) p =>
      let '(s, sc) := Float_digits m p in
      let ds := Number_toString s in
      format_decimal ds (Z.of_nat (String.length ds) - sc)
  | Dyadic (Zneg m) p =>
      let '(s, sc) := Float_digits m p in
      let ds := Number_toString s in
      "-" +:+ format_decimal ds (Z.of_nat (String.length ds) - sc)
  | Dyadic Z0 _ => "0"
  | Infinite false => "Infinity"
  | Infinite true => "-Infinity"
  end.

(** [now > x] for an integer [now] and a number [x] that is not one. *)
Definition exceeds_float (now : Z) (x : Float) : bool :=
  match x with
  | Dyadic m p => (m <? now * 2 ^ Z.pos p)%Z
  | Infinite negative => negative
  end.

(** Truthiness of a value, as [if (v)], [!v] and [a && b] see it. *)
Definition truthy (v : JSON) : bool :=
  match v with
  | JNull => false
  | JBool b => b
  | JNum n => negb (Z.eqb n 0)
  | JStr s => negb (String.eqb s "")
  | JArr _ | JObj _ => true
  | JFloat _ => true
  end.

(** A [string | null] in a condition: [null] and the empty string are falsy. *)
Definition truthy_str (o : option string) : bool :=
  match o with
  | Some s => negb (String.eqb s "")
  | None => false
  end.

(** [String.prototype.includes]. *)
Fixpoint includes (needle hay : string) : bool :=
  String.prefix needle hay ||
  match hay with
  | String _ rest => includes needle rest
  | EmptyString => false
  end.

Definition upper_char (c : ascii) : ascii :=
  let n := nat_of_ascii c in
  if ((97 <=? n) && (n <=? 122))%nat then ascii_of_nat (n - 32) else c.

Fixpoint toUpperCase (s : string) : string :=
  match s with
  | String c rest => String (upper_char c) (toUpperCase rest)
  | EmptyString => EmptyString
  end.

Fixpoint join (sep : string) (l : list string) : string :=
  match l with
  | [] => ""
  | [x] => x
  | x :: rest => x +:+ sep +:+ join sep rest
  end.

(** String conversion of a value inside a template literal. *)
Fixpoint display (v : JSON) : string :=
  match v with
  | JNull => "null"
  | JBool true => "true"
  | JBool false => "false"
  | JNum n => Number_toString n
  | JStr s => s
  | JArr items =>
      join "," (map (fun x => match x with JNull => "" | _ => display x end) items)
  | JObj _ => "[object Object]"
  | JFloat x => Float_toString x
  end.

Definition display_opt (o : option JSON) : string :=
  match o with
  | Some v => display v
  | None => "undefined"
  end.

(** Own-property lookup in an object's property list. *)
Fixpoint assoc (k : string) (fields : list (string * JSON)) : option JSON :=
  match fields with
  | [] => None
  | (k', v) :: rest => if String.eqb k k' then Some v else assoc k rest
  end.

(* ================================================================== *)
(** * [JSON.stringify] and [JSON.parse]                                *)
(* ================================================================== *)

Definition hex_digit (n : nat) : ascii :=
  if (n <? 10)%nat then ascii_of_nat (48 + n) else ascii_of_nat (87 + n).

(** One code unit inside a quoted string: quote and backslash are escaped,
    the five short control escapes are used, any other control character
    becomes a four-digit unicode escape. *)
Definition quote_char (c : ascii) : string :=
  match c with
  | "034"%char => String "092" (String "034" "")
  | "092"%char => String "092" (String "092" "")
  | "008"%char => String "092" "b"
  | "012"%char => String "092" "f"
  | "010"%char => String "092" "n"
  | "013"%char => String "092" "r"
  | "009"%char => String "092" "t"
  | _ =>
      let n := nat_of_ascii c in
      if (n <? 32)%nat
      then String "092" (String "u" (String "0" (String "0"
             (String (hex_digit (n / 16)) (String (hex_digit (n mod 16)) "")))))
      else String c ""
  end.

Fixpoint quote_body (s : string) : string :=
  match s with
  | String c rest => quote_char c +:+ quote_body rest
  | EmptyString => EmptyString
  end.

Definition QuoteJSONString (s : string) : string :=
  String "034" (quote_body s +:+ String "034" "").

Fixpoint JSON_stringify (v : JSON) : string :=
  match v with
  | JNull => "null"
  | JBool true => "true"
  | JBool false => "false"
  | JNum n => Number_toString n
  | JStr s => QuoteJSONString s
  | JArr items => "[" +:+ join "," (map JSON_stringify items) +:+ "]"
  | JObj fields =>
      "{" +:+ join "," (map (fun kv => QuoteJSONString (fst kv) +:+ ":" +:+
                                       JSON_stringify (snd kv)) fields) +:+ "}"
  | JFloat (Infinite _) => "null"
  | JFloat x => Float_toString x
  end.

Definition is_json_ws (c : ascii) : bool :=
  match c with
  | " "%char | "009"%char | "010"%char | "013"%char => true
  | _ => false
  end.

Fixpoint skip_ws (s : string) : string :=
  match s with
  | String c rest => if is_json_ws c then skip_ws rest else s
  | EmptyString => EmptyString
  end.

Definition hex_value (c : ascii) : option nat :=
  let n := nat_of_ascii c in
  if ((48 <=? n) && (n <=? 57))%nat then Some (n - 48)%nat
  else if ((97 <=? n) && (n <=? 102))%nat then Some (n - 87)%nat
  else if ((65 <=? n) && (n <=? 70))%nat then Some (n - 55)%nat
  else None.

Definition cons_char (c : ascii) (o : option (string * string)) : option (string * string) :=
  match o with
  | Some (str, rest) => Some (String c str, rest)
  | None => None
  end.

Definition hex4 (h1 h2 h3 h4 : ascii) : option N :=
  match hex_value h1, hex_value h2, hex_value h3, hex_value h4 with
  | Some a, Some b, Some c, Some d => Some (N.of_nat (((a * 16 + b) * 16 + c) * 16 + d))
  | _, _, _, _ => None
  end.

(** The UTF-8 encoding of a code point, in front of [tail]; a surrogate
    that stands alone is encoded like any other 16-bit value. *)
Definition utf8 (code : N) (tail : string) : string :=
  (if code <? 128 then String (ascii_of_N code) tail
   else if code <? 2048 then
     String (ascii_of_N (192 + code / 64))
       (String (ascii_of_N (128 + code mod 64)) tail)
   else if code <? 65536 then
     String (ascii_of_N (224 + code / 4096))
       (String (ascii_of_N (128 + (code / 64) mod 64))
          (String (ascii_of_N (128 + code mod 64)) tail))
   else
     String (ascii_of_N (240 + code / 262144))
       (String (ascii_of_N (128 + (code / 4096) mod 64))
          (String (ascii_of_N (128 + (code / 64) mod 64))
             (String (ascii_of_N (128 + code mod 64)) tail))))%N.

Definition cons_code (code : N) (o : option (string * string)) : option (string * string) :=
  match o with
  | Some (str, rest) => Some (utf8 code str, rest)
  | None => None
  end.

Definition is_high_surrogate (code : N) : bool := ((55296 <=? code) && (code <? 56320))%N.
Definition is_low_surrogate (code : N) : bool := ((56320 <=? code) && (code <? 57344))%N.

(** The code point of a surrogate pair. *)
Definition surrogate_pair (high low : N) : N :=
  (65536 + (high - 55296) * 1024 + (low - 56320))%N.

(** The characters of a string literal after its opening quote, up to and
    including the closing quote.  A unicode escape gives the character it
    names, two escapes that form a surrogate pair give one character. *)
Fixpoint parse_string_body (s : string) : option (string * string) :=
  match s with
  | EmptyString => None
  | String c rest =>
      match c with
      | "034"%char => Some (EmptyString, rest)
      | "092"%char =>
          match rest with
          | String e rest1 =>
              match e with
              | "034"%char => cons_char "034" (parse_string_body rest1)
              | "092"%char => cons_char "092" (parse_string_body rest1)
              | "/"%char => cons_char "/" (parse_string_body rest1)
              | "b"%char => cons_char "008" (parse_string_body rest1)
              | "f"%char => cons_char "012" (parse_string_body rest1)
              | "n"%char => cons_char "010" (parse_string_body rest1)
              | "r"%char => cons_char "013" (parse_string_body rest1)
              | "t"%char => cons_char "009" (parse_string_body rest1)
              | "u"%char =>
                  match rest1 with
                  | String h1 (String h2 (String h3 (String h4 rest2))) =>
                      match hex4 h1 h2 h3 h4 with
                      | Some code =>
                          if is_high_surrogate code then
                            match rest2 with
                            | String "092" (String "u"
                                (String l1 (String l2 (String l3 (String l4 rest3))))) =>
                                match hex4 l1 l2 l3 l4 with
                                | Some low =>
                                    if is_low_surrogate low
                                    then cons_code (surrogate_pair code low)
                                           (parse_string_body rest3)
                                    else cons_code code (parse_string_body rest2)
                                | None => None
                                end
                            | _ => cons_code code (parse_string_body rest2)
                            end
                          else cons_code code (parse_string_body rest2)
                      | None => None
                      end
                  | _ => None
                  end
              | _ => None
              end
          | EmptyString => None
          end
      | _ =>
          if (nat_of_ascii c <? 32)%nat then None
          else cons_char c (parse_string_body rest)
      end
  end.

(** The fraction of a numeral whose integer digits have the value [n]: a
    point and at least one digit.  The result is the value of all digits
    read so far, the number of digits after the point and the text that
    follows them. *)
Definition parse_fraction (n : Z) (rest : string) : option (Z * Z * string) :=
  match rest with
  | String "." r =>
      if starts_with_digit r then
        let '(D, rest1) := read_digits r n in
        Some (D, Z.of_nat (String.length r) - Z.of_nat (String.length rest1), rest1)
      else None
  | _ => Some (n, 0, rest)
  end.

(** The exponent of a numeral: [e] or [E], an optional sign and at least one
    digit. *)
Definition parse_exponent (rest : string) : option (Z * string) :=
  match rest with
  | String c r =>
      if Ascii.eqb c "e" || Ascii.eqb c "E" then
        let '(negative, u) := match r with
                              | String "-" r' => (true, r')
                              | String "+" r' => (false, r')
                              | _ => (false, r)
                              end in
        if starts_with_digit u then
          let '(e, rest1) := read_digits u 0 in
          Some (if negative then - e else e, rest1)
        else None
      else Some (0, rest)
  | EmptyString => Some (0, rest)
  end.

Definition has_fraction_or_exponent (rest : string) : bool :=
  match rest with
  | String "." _ | String "e" _ | String "E" _ => true
  | _ => false
  end.

(** A number: an optional minus sign, decimal digits without a leading zero,
    an optional fraction and an optional exponent.  An integer written in
    plain digits is kept as it is written; with a fraction or an exponent the
    numeral is rounded to the nearest double. *)
Definition parse_unsigned (neg : bool) (u : string) : option (JSON * string) :=
  if starts_with_digit u then
    let '(n, rest) := read_digits u 0 in
    let leading_zero := match u with
                        | String "0" r => starts_with_digit r
                        | _ => false
                        end in
    if leading_zero then None
    else if has_fraction_or_exponent rest then
      '(D, len, rest1) ← parse_fraction n rest;
      '(e, rest2) ← parse_exponent rest1;
      Some (Number_of_decimal neg D (e - len), rest2)
    else Some (JNum (if neg then - n else n), rest)
  else None.

Definition parse_number (s : string) : option (JSON * string) :=
  match s with
  | String "-" r => parse_unsigned true r
  | _ => parse_unsigned false s
  end.

(** Defining a property while an object literal is read: a repeated name
    keeps its place and takes the later value. *)
Fixpoint obj_define (fields : list (string * JSON)) (k : string) (v : JSON)
  : list (string * JSON) :=
  match fields with
  | [] => [(k, v)]
  | (k', v') :: rest =>
      if String.eqb k k' then (k', v) :: rest else (k', v') :: obj_define rest k v
  end.

Definition obj_of_members (members : list (string * JSON)) : list (string * JSON) :=
  fold_left (fun acc kv => obj_define acc (fst kv) (snd kv)) members [].

(** Recursive descent; [fuel] bounds the number of nested calls. *)
Fixpoint parse_value (fuel : nat) (s : string) : option (JSON * string) :=
  match fuel with
  | O => None
  | S n =>
      match skip_ws s with
      | String "n" (String "u" (String "l" (String "l" rest))) => Some (JNull, rest)
      | String "t" (String "r" (String "u" (String "e" rest))) => Some (JBool true, rest)
      | String "f" (String "a" (String "l" (String "s" (String "e" rest)))) =>
          Some (JBool false, rest)
      | String "034" rest =>
          match parse_string_body rest with
          | Some (str, r) => Some (JStr str, r)
          | None => None
          end
      | String "[" rest =>
          match skip_ws rest with
          | String "]" r => Some (JArr [], r)
          | _ =>
              match parse_elements n rest with
              | Some (items, r) => Some (JArr items, r)
              | None => None
              end
          end
      | String "{" rest =>
          match skip_ws rest with
          | String "}" r => Some (JObj [], r)
          | _ =>
              match parse_members n rest with
              | Some (members, r) => Some (JObj (obj_of_members members), r)
              | None => None
              end
          end
      | t => parse_number t
      end
  end
with parse_elements (fuel : nat) (s : string) : option (list JSON * string) :=
  match fuel with
  | O => None
  | S n =>
      match parse_value n s with
      | Some (v, r) =>
          match skip_ws r with
          | String "," r1 =>
              match parse_elements n r1 with
              | Some (vs, r2) => Some (v :: vs, r2)
              | None => None
              end
          | String "]" r1 => Some ([v], r1)
          | _ => None
          end
      | None => None
      end
  end
with parse_members (fuel : nat) (s : string) : option (list (string * JSON) * string) :=
  match fuel with
  | O => None
  | S n =>
      match skip_ws s with
      | String "034" r =>
          match parse_string_body r with
          | Some (k, r1) =>
              match skip_ws r1 with
              | String ":" r2 =>
                  match parse_value n r2 with
                  | Some (v, r3) =>
                      match skip_ws r3 with
                      | String "," r4 =>
                          match parse_members n r4 with
                          | Some (ms, r5) => Some ((k, v) :: ms, r5)
                          | None => None
                          end
                      | String "}" r4 => Some ([(k, v)], r4)
                      | _ => None
                      end
                  | None => None
                  end
              | _ => None
              end
          | None => None
          end
      | _ => None
      end
  end.

(** [JSON.parse]: one value, then nothing but white space.  [None] stands
    for the [SyntaxError] it throws. *)
Definition JSON_parse (s : string) : option JSON :=
  match parse_value (String.length s) s with
  | Some (v, rest) =>
      match skip_ws rest with
      | EmptyString => Some v
      | _ => None
      end
  | None => None
  end.

(* ================================================================== *)
(** * Network types ([network/types.ts])                               *)
(* ================================================================== *)

Inductive NetworkErrorType : Type :=
| TIMEOUT | NO_NETWORK | SERVER_ERROR | CLIENT_ERROR | UNAUTHORIZED
| FORBIDDEN | NOT_FOUND | CANCEL | UNKNOWN.

Definition NetworkErrorType_name (t : NetworkErrorType) : string :=
  match t with
  | TIMEOUT => "TIMEOUT" | NO_NETWORK => "NO_NETWORK"
  | SERVER_ERROR => "SERVER_ERROR" | CLIENT_ERROR => "CLIENT_ERROR"
  | UNAUTHORIZED => "UNAUTHORIZED" | FORBIDDEN => "FORBIDDEN"
  | NOT_FOUND => "NOT_FOUND" | CANCEL => "CANCEL" | UNKNOWN => "UNKNOWN"
  end.

(** [NetworkError]; the opaque [originalError] field is not kept. *)
Record NetworkError : Type := mkNetworkError {
  ne_type : NetworkErrorType;
  ne_message : string;
  ne_code : option Z;
}.

(** The request configuration, with the fields the interceptors touch. *)
Record Config : Type := mkConfig {
  cfg_method : option string;
  cfg_url : option string;
  cfg_headers : gmap string string;
  cfg_data : option JSON;
  requestStartTime : option Z;
}.

(** [axios.request(undefined)] runs with [config || {}]. *)
Definition empty_config : Config :=
  {| cfg_method := None; cfg_url := None; cfg_headers := ∅;
     cfg_data := None; requestStartTime := None |}.

(** [AxiosResponse]: [data] is the parsed body, [None] when the body is
    [undefined]. *)
Record AxiosResponse : Type := mkResponse {
  resp_status : Z;
  resp_data : option JSON;
  resp_config : Config;
}.

(** The [response] of an [AxiosError]. *)
Record ErrorResponse : Type := mkErrorResponse {
  er_status : Z;
  er_data : option JSON;
}.

Inductive Backend : Type := AsyncStorage | SecureStore | LocalStorage.
Inductive StorageOp : Type := OpGet | OpSet | OpRemove.

(** What a promise can be rejected with. *)
Inductive JsError : Type :=
| AxiosError (config : Config) (code : option string) (message : string)
             (response : option ErrorResponse)          (* isAxiosError *)
| NetErr (ne : NetworkError)                            (* a NetworkError object *)
| Error (message : string)                              (* new Error(message) *)
| TypeError (message : string)
| NativeError (b : Backend) (op : StorageOp) (key : string).
                                       (* raised by a storage backend *)

(* ================================================================== *)
(** * The world                                                        *)
(* ================================================================== *)

Inductive Platform : Type := Web | Native.   (* Platform.OS === 'web' or not *)

Inductive LogLevel : Type := DEBUG | INFO | WARN | ERROR.

Inductive Callback : Type := TokenGetter | TokenRefresher | LogoutHandler.

(** What the code emits, most recent first in a [trace]. *)
Inductive Event : Type :=
| Logged (level : LogLevel) (message : string) (module : string)
| ConsoleError (message : string)
| TrackedApiError (message : string)
| HttpCall (method : string) (url : string)   (* the auth service calls [http] *)
| Dispatched (config : Config)                (* a request handed to the transport *)
| Invoked (cb : Callback).                    (* a registered callback is called *)

(** The device the application runs on: fixed during a run.  [faulty b op k]
    tells whether backend [b] raises on operation [op] for key [k]. *)
Record Device : Type := mkDevice {
  platform : Platform;
  faulty : Backend -> StorageOp -> string -> bool;
}.

(** The part of the platform that changes: the three key-value stores, the
    clock and the remote end. *)
Record Env : Type := mkEnv {
  asyncStorage : gmap string string;
  secureStore : gmap string string;
  localStorage : gmap string string;
  clock : Z;                                  (* Date.now() *)
  served : nat;                               (* requests answered by the remote end *)
}.

(** The state held by the [AuthProvider] component ([auth/types.ts]). *)
Inductive AuthStatus : Type := IDLE | LOADING | AUTHENTICATED | UNAUTHENTICATED.

Record Session : Type := mkSession {
  status : AuthStatus;
  user : option JSON;                         (* User | null *)
  token : option string;                      (* string | null *)
}.

Definition initial_session : Session :=
  {| status := IDLE; user := None; token := None |}.

Record World : Type := mkWorld {
  device : Device;
  env : Env;
  session : Session;
  trace : list Event;
}.

Definition with_env (e : Env) (w : World) : World :=
  mkWorld (device w) e (session w) (trace w).

Definition with_session (s : Session) (w : World) : World :=
  mkWorld (device w) (env w) s (trace w).

Definition with_trace (t : list Event) (w : World) : World :=
  mkWorld (device w) (env w) (session w) t.

Definition store_of (b : Backend) (e : Env) : gmap string string :=
  match b with
  | AsyncStorage => asyncStorage e
  | SecureStore => secureStore e
  | LocalStorage => localStorage e
  end.

Definition with_store (b : Backend) (m : gmap string string) (e : Env) : Env :=
  match b with
  | AsyncStorage => mkEnv m (secureStore e) (localStorage e) (clock e) (served e)
  | SecureStore => mkEnv (asyncStorage e) m (localStorage e) (clock e) (served e)
  | LocalStorage => mkEnv (asyncStorage e) (secureStore e) m (clock e) (served e)
  end.

(* ================================================================== *)
(** * Promises as a state-and-exception monad                          *)
(* ================================================================== *)

Inductive Outcome (A : Type) : Type :=
| Resolved (a : A)
| Rejected (e : JsError).
Arguments Resolved {A} a.
Arguments Rejected {A} e.

Definition M (A : Type) : Type := World -> Outcome A * World.

#[global] Instance M_ret : MRet M := fun A a w => (Resolved a, w).

#[global] Instance M_bind : MBind M := fun A B f m w =>
  match m w with
  | (Resolved a, w1) => f a w1
  | (Rejected e, w1) => (Rejected e, w1)
  end.

Definition throw {A : Type} (e : JsError) : M A := fun w => (Rejected e, w).

(** [try { m } catch (e) { h e }]. *)
Definition try_catch {A : Type} (m : M A) (h : JsError -> M A) : M A := fun w =>
  match m w with
  | (Resolved a, w1) => (Resolved a, w1)
  | (Rejected e, w1) => h e w1
  end.

(** [Promise.all([m1, m2])] for two operations on disjoint keys: both run to
    completion whatever the other does, and the result is rejected as soon as
    one of them is.  The world afterwards is the one in which both have
    settled. *)
Definition promise_all2 {A B : Type} (m1 : M A) (m2 : M B) : M (A * B) := fun w =>
  let '(r1, w1) := m1 w in
  let '(r2, w2) := m2 w1 in
  match r1, r2 with
  | Resolved a, Resolved b => (Resolved (a, b), w2)
  | Rejected e, _ => (Rejected e, w2)
  | _, Rejected e => (Rejected e, w2)
  end.

Definition emit (ev : Event) : M unit := fun w =>
  (Resolved tt, with_trace (ev :: trace w) w).

(** An operation of the platform: it sees and changes the [Env] only. *)
Definition Oracle (A : Type) : Type := Env -> Outcome A * Env.

Definition perform {A : Type} (o : Oracle A) : M A := fun w =>
  let '(r, e) := o (env w) in (r, with_env e w).

Definition Date_now : M Z := fun w => (Resolved (clock (env w)), w).

(** ** Logger and error tracker: fire and forget *)
Module logger.
Definition debug (msg module : string) : M unit := emit (Logged DEBUG msg module).
Definition info (msg module : string) : M unit := emit (Logged INFO msg module).
Definition warn (msg module : string) : M unit := emit (Logged WARN msg module).
Definition error (msg module : string) : M unit := emit (Logged ERROR msg module).
End logger.

Module errorTracker.
(** [trackApiError] queues the error and writes it to the log. *)
Definition trackApiError (msg : string) : M unit :=
  emit (TrackedApiError msg);;
  logger.error ("[API] " +:+ msg) "ErrorTracker".
End errorTracker.

Definition console_error (msg : string) : M unit := emit (ConsoleError msg).

(** Reading property [k] of [v]: a [TypeError] on [null], [undefined] (here
    [None]) when [v] has no such property. *)
Definition get_prop (v : JSON) (k : string) : M (option JSON) :=
  match v with
  | JNull => throw (TypeError "Cannot read properties of null")
  | JObj fields => mret (assoc k fields)
  | _ => mret None
  end.

(* ================================================================== *)
(** * Storage backends and keys                                        *)
(* ================================================================== *)

Definition native_get (b : Backend) (k : string) : M (option string) := fun w =>
  if faulty (device w) b OpGet k then (Rejected (NativeError b OpGet k), w)
  else (Resolved (store_of b (env w) !! k), w).

Definition native_set (b : Backend) (k v : string) : M unit := fun w =>
  if faulty (device w) b OpSet k then (Rejected (NativeError b OpSet k), w)
  else (Resolved tt, with_env (with_store b (<[k := v]> (store_of b (env w))) (env w)) w).

Definition native_remove (b : Backend) (k : string) : M unit := fun w =>
  if faulty (device w) b OpRemove k then (Rejected (NativeError b OpRemove k), w)
  else (Resolved tt, with_env (with_store b (delete k (store_of b (env w))) (env w)) w).

Definition Platform_OS : M Platform := fun w => (Resolved (platform (device w)), w).

(** [storage-keys.ts]. *)
Definition STORAGE_PREFIX : string := "@ExpoTemplate:".
Definition createKey (key : string) : string := STORAGE_PREFIX +:+ key.

Module STORAGE_KEYS.
Definition AUTH_TOKEN : string := createKey "auth_token".
Definition REFRESH_TOKEN : string := createKey "refresh_token".
Definition TOKEN_EXPIRE_TIME : string := createKey "token_expire_time".
Definition USER_INFO : string := createKey "user_info".
End STORAGE_KEYS.

(* ================================================================== *)
(** * [cache-storage.ts]: the general partition, on AsyncStorage       *)
(* ================================================================== *)

Module cacheStorage.

Definition setItem (key value : string) : M unit :=
  try_catch (native_set AsyncStorage key value)
    (fun error =>
       console_error ("[CacheStorage] Error saving " +:+ key +:+ ":");;
       throw error).

Definition getItem (key : string) : M (option string) :=
  try_catch (native_get AsyncStorage key)
    (fun error =>
       console_error ("[CacheStorage] Error reading " +:+ key +:+ ":");;
       mret None).

Definition removeItem (key : string) : M unit :=
  try_catch (native_remove AsyncStorage key)
    (fun error =>
       console_error ("[CacheStorage] Error removing " +:+ key +:+ ":");;
       throw error).

Definition setObject (key : string) (value : JSON) : M unit :=
  try_catch
    (let jsonValue := JSON_stringify value in
     setItem key jsonValue)
    (fun error =>
       console_error ("[CacheStorage] Error saving object " +:+ key +:+ ":");;
       throw error).

(** [jsonValue ? JSON.parse(jsonValue) : null]: the result is a value,
    [JNull] when nothing usable is stored. *)
Definition getObject (key : string) : M JSON :=
  try_catch
    (jsonValue ← getItem key;
     match jsonValue with
     | Some text =>
         if String.eqb text "" then mret JNull
         else match JSON_parse text with
              | Some v => mret v
              | None => throw (Error "SyntaxError")
              end
     | None => mret JNull
     end)
    (fun error =>
       console_error ("[CacheStorage] Error reading object " +:+ key +:+ ":");;
       mret JNull).

End cacheStorage.

(* ================================================================== *)
(** * [secure-storage.ts]: the secure partition                        *)
(* ================================================================== *)

Module secureStorage.

(** On the web the partition is [localStorage], elsewhere the secure store. *)
Definition backend (os : Platform) : Backend :=
  match os with
  | Web => LocalStorage
  | Native => SecureStore
  end.

Definition setItem (key value : string) : M unit :=
  try_catch
    (os ← Platform_OS;
     match os with
     | Web => native_set LocalStorage key value
     | Native => native_set SecureStore key value
     end)
    (fun error =>
       console_error ("[SecureStorage] Error saving " +:+ key +:+ ":");;
       throw error).

Definition getItem (key : string) : M (option string) :=
  try_catch
    (os ← Platform_OS;
     match os with
     | Web => native_get LocalStorage key
     | Native => native_get SecureStore key
     end)
    (fun error =>
       console_error ("[SecureStorage] Error reading " +:+ key +:+ ":");;
       mret None).

Definition removeItem (key : string) : M unit :=
  try_catch
    (os ← Platform_OS;
     match os with
     | Web => native_remove LocalStorage key
     | Native => native_remove SecureStore key
     end)
    (fun error =>
       console_error ("[SecureStorage] Error removing " +:+ key +:+ ":");;
       throw error).

Definition setObject (key : string) (value : JSON) : M unit :=
  try_catch
    (let jsonValue := JSON_stringify value in
     setItem key jsonValue)
    (fun error =>
       console_error ("[SecureStorage] Error saving object " +:+ key +:+ ":");;
       throw error).

Definition getObject (key : string) : M JSON :=
  try_catch
    (jsonValue ← getItem key;
     match jsonValue with
     | Some text =>
         if String.eqb text "" then mret JNull
         else match JSON_parse text with
              | Some v => mret v
              | None => throw (Error "SyntaxError")
              end
     | None => mret JNull
     end)
    (fun error =>
       console_error ("[SecureStorage] Error reading object " +:+ key +:+ ":");;
       mret JNull).

End secureStorage.

(* ================================================================== *)
(** * Auth types and endpoints                                         *)
(* ================================================================== *)

Record TokenInfo : Type := mkTokenInfo {
  accessToken : string;
  refreshToken : option string;
  expiresIn : option Z;                       (* seconds *)
  tokenType : option string;
}.

Record LoginParams : Type := mkLoginParams {
  lp_username : string;
  lp_password : string;
  lp_captcha : option string;
  lp_remember : option bool;
}.

Record RegisterParams : Type := mkRegisterParams {
  rp_username : string;
  rp_password : string;
  rp_email : option string;
  rp_phone : option string;
  rp_captcha : option string;
}.

(** [LoginResponse]; a [User] is the object the server sent. *)
Record LoginResponse : Type := mkLoginResponse {
  lr_user : JSON;
  lr_token : TokenInfo;
}.

Module API_ENDPOINTS.
Definition auth_login : string := "/auth/login".
Definition auth_logout : string := "/auth/logout".
Definition auth_register : string := "/auth/register".
Definition auth_refreshToken : string := "/auth/refresh-token".
End API_ENDPOINTS.

(* ================================================================== *)
(** * [auth-storage.ts]                                                *)
(* ================================================================== *)

Module authStorage.

Definition saveToken (tokenInfo : TokenInfo) : M unit :=
  try_catch
    (secureStorage.setItem STORAGE_KEYS.AUTH_TOKEN (accessToken tokenInfo);;
     match refreshToken tokenInfo with
     | Some rt =>
         if String.eqb rt "" then mret tt
         else secureStorage.setItem STORAGE_KEYS.REFRESH_TOKEN rt
     | None => mret tt
     end;;
     match expiresIn tokenInfo with
     | Some seconds =>
         if Z.eqb seconds 0 then mret tt
         else
           now ← Date_now;
           let expireTime := now + seconds * 1000 in
           cacheStorage.setItem STORAGE_KEYS.TOKEN_EXPIRE_TIME (Number_toString expireTime)
     | None => mret tt
     end;;
     logger.debug "Token saved successfully" "AuthStorage")
    (fun error =>
       logger.error "Failed to save token" "AuthStorage";;
       throw error).

Definition getAccessToken : M (option string) :=
  try_catch (secureStorage.getItem STORAGE_KEYS.AUTH_TOKEN)
    (fun error =>
       logger.error "Failed to get access token" "AuthStorage";;
       mret None).

Definition getRefreshToken : M (option string) :=
  try_catch (secureStorage.getItem STORAGE_KEYS.REFRESH_TOKEN)
    (fun error =>
       logger.error "Failed to get refresh token" "AuthStorage";;
       mret None).

(** A comparison with [NaN] (an unparsable record) is false. *)
Definition isTokenExpired : M bool :=
  try_catch
    (expireTimeStr ← cacheStorage.getItem STORAGE_KEYS.TOKEN_EXPIRE_TIME;
     if negb (truthy_str expireTimeStr) then mret false
     else
       let expireTime := parseInt (default "" expireTimeStr) in
       now ← Date_now;
       let bufferTime := 5 * 60 * 1000 in
       mret (match expireTime with
             | Some t => now >=? t - bufferTime
             | None => false
             end))
    (fun error =>
       logger.error "Failed to check token expiration" "AuthStorage";;
       mret false).

Definition clearToken : M unit :=
  try_catch
    (secureStorage.removeItem STORAGE_KEYS.AUTH_TOKEN;;
     secureStorage.removeItem STORAGE_KEYS.REFRESH_TOKEN;;
     cacheStorage.removeItem STORAGE_KEYS.TOKEN_EXPIRE_TIME;;
     logger.debug "Token cleared successfully" "AuthStorage")
    (fun error =>
       logger.error "Failed to clear token" "AuthStorage";;
       throw error).

Definition saveUser (user : JSON) : M unit :=
  try_catch
    (cacheStorage.setObject STORAGE_KEYS.USER_INFO user;;
     get_prop user "id";;
     logger.debug "User info saved successfully" "AuthStorage")
    (fun error =>
       logger.error "Failed to save user info" "AuthStorage";;
       throw error).

Definition getUser : M JSON :=
  try_catch (cacheStorage.getObject STORAGE_KEYS.USER_INFO)
    (fun error =>
       logger.error "Failed to get user info" "AuthStorage";;
       mret JNull).

Definition clearUser : M unit :=
  try_catch
    (cacheStorage.removeItem STORAGE_KEYS.USER_INFO;;
     logger.debug "User info cleared successfully" "AuthStorage")
    (fun error =>
       logger.error "Failed to clear user info" "AuthStorage";;
       throw error).

Definition clearAll : M unit :=
  try_catch
    (promise_all2 clearToken clearUser;;
     logger.info "All auth data cleared" "AuthStorage")
    (fun error =>
       logger.error "Failed to clear all auth data" "AuthStorage";;
       throw error).

End authStorage.

(* ================================================================== *)
(** * [auth-service.ts]                                                *)
(* ================================================================== *)

(** The HTTP client as the auth service sees a call that has settled:
    [http.post<T>(url, body)] at each call site, with [T] the response type
    declared there, resolved with the unwrapped data or rejected; on the way
    it may have changed the platform (the interceptors refresh or clear
    credentials).  What the client does until then, and whether a call
    settles at all, is the matter of [Wired] below. *)
Record HttpApi : Type := mkHttpApi {
  post_login : LoginParams -> Oracle LoginResponse;
  post_register : RegisterParams -> Oracle LoginResponse;
  post_refreshToken : string -> Oracle TokenInfo;
}.

Module authService.
Section WithHttp.

Variable http : HttpApi.

Definition http_post {A : Type} (url : string) (call : Oracle A) : M A :=
  emit (HttpCall "POST" url);;
  perform call.

Definition login (params : LoginParams) : M JSON :=
  try_catch
    (logger.info "Attempting login" "AuthService";;
     response ← http_post API_ENDPOINTS.auth_login (post_login http params);
     authStorage.saveToken (lr_token response);;
     authStorage.saveUser (lr_user response);;
     get_prop (lr_user response) "id";;
     logger.info "Login successful" "AuthService";;
     mret (lr_user response))
    (fun error =>
       logger.error "Login failed" "AuthService";;
       errorTracker.trackApiError "登录失败";;
       throw error).

Definition register (params : RegisterParams) : M JSON :=
  try_catch
    (logger.info "Attempting registration" "AuthService";;
     response ← http_post API_ENDPOINTS.auth_register (post_register http params);
     authStorage.saveToken (lr_token response);;
     authStorage.saveUser (lr_user response);;
     get_prop (lr_user response) "id";;
     logger.info "Registration successful" "AuthService";;
     mret (lr_user response))
    (fun error =>
       logger.error "Registration failed" "AuthService";;
       errorTracker.trackApiError "注册失败";;
       throw error).

Definition refreshToken : M unit :=
  try_catch
    (logger.info "Attempting to refresh token" "AuthService";;
     refreshToken ← authStorage.getRefreshToken;
     if negb (truthy_str refreshToken)
     then throw (Error "No refresh token available")
     else
       response ← http_post API_ENDPOINTS.auth_refreshToken
                    (post_refreshToken http (default "" refreshToken));
       authStorage.saveToken response;;
       logger.info "Token refreshed successfully" "AuthService")
    (fun error =>
       logger.error "Token refresh failed" "AuthService";;
       errorTracker.trackApiError "Token刷新失败";;
       authStorage.clearAll;;
       throw error).

Definition checkAuth : M bool :=
  try_catch
    (token ← authStorage.getAccessToken;
     if negb (truthy_str token) then mret false
     else
       isExpired ← authStorage.isTokenExpired;
       if (isExpired : bool)
       then try_catch (refreshToken;; mret true) (fun error => mret false)
       else mret true)
    (fun error =>
       logger.error "Auth check failed" "AuthService";;
       mret false).

End WithHttp.
End authService.

(* ================================================================== *)
(** * [auth-context.tsx]: the session provider                         *)
(* ================================================================== *)

Module AuthProvider.
Section WithHttp.

Variable http : HttpApi.

Definition setStatus (s : AuthStatus) : M unit := fun w =>
  (Resolved tt, with_session (mkSession s (user (session w)) (token (session w))) w).

Definition setUser (u : option JSON) : M unit := fun w =>
  (Resolved tt, with_session (mkSession (status (session w)) u (token (session w))) w).

Definition setToken (t : option string) : M unit := fun w =>
  (Resolved tt, with_session (mkSession (status (session w)) (user (session w)) t) w).

Definition initAuth : M unit :=
  try_catch
    (setStatus LOADING;;
     logger.debug "Initializing auth state" "AuthContext";;
     saved ← promise_all2 authStorage.getAccessToken authStorage.getUser;
     let '(savedToken, savedUser) := (saved : option string * JSON) in
     if truthy_str savedToken && truthy savedUser then
       isAuthenticated ← authService.checkAuth http;
       if (isAuthenticated : bool) then
         setToken savedToken;;
         setUser (Some savedUser);;
         setStatus AUTHENTICATED;;
         get_prop savedUser "id";;
         logger.info "Auth state restored" "AuthContext"
       else
         authStorage.clearAll;;
         setStatus UNAUTHENTICATED;;
         logger.info "Stored token invalid, cleared" "AuthContext"
     else
       setStatus UNAUTHENTICATED;;
       logger.debug "No stored auth data found" "AuthContext")
    (fun error =>
       logger.error "Failed to initialize auth" "AuthContext";;
       setStatus UNAUTHENTICATED).

Definition login (params : LoginParams) : M unit :=
  try_catch
    (setStatus LOADING;;
     logger.info "Login initiated" "AuthContext";;
     loggedInUser ← authService.login http params;
     newToken ← authStorage.getAccessToken;
     setUser (Some loggedInUser);;
     setToken newToken;;
     setStatus AUTHENTICATED;;
     get_prop loggedInUser "id";;
     logger.info "Login successful" "AuthContext")
    (fun error =>
       setStatus UNAUTHENTICATED;;
       logger.error "Login failed" "AuthContext";;
       throw error).

End WithHttp.
End AuthProvider.

(* ================================================================== *)
(** * [error-handler.ts]                                               *)
(* ================================================================== *)

Definition HTTP_ERROR_MESSAGES (status : Z) : option string :=
  match status with
  | 400 => Some "请求参数错误"
  | 401 => Some "未授权，请重新登录"
  | 403 => Some "拒绝访问"
  | 404 => Some "请求的资源不存在"
  | 405 => Some "请求方法不允许"
  | 408 => Some "请求超时"
  | 409 => Some "数据冲突"
  | 429 => Some "请求过于频繁，请稍后再试"
  | 500 => Some "服务器内部错误"
  | 501 => Some "服务未实现"
  | 502 => Some "网关错误"
  | 503 => Some "服务不可用"
  | 504 => Some "网关超时"
  | _ => None
  end.

Definition code_is (code : option string) (name : string) : bool :=
  match code with
  | Some c => String.eqb c name
  | None => false
  end.

(** [getErrorType], on the fields of an [AxiosError]. *)
Definition getErrorType (code : option string) (message : string)
    (response : option ErrorResponse) : NetworkErrorType :=
  match response with
  | None =>
      if code_is code "ECONNABORTED" || includes "timeout" message then TIMEOUT
      else if code_is code "ERR_NETWORK" || includes "Network Error" message then NO_NETWORK
      else if includes "cancel" message then CANCEL
      else UNKNOWN
  | Some r =>
      let status := er_status r in
      if status =? 401 then UNAUTHORIZED
      else if status =? 403 then FORBIDDEN
      else if status =? 404 then NOT_FOUND
      else if (400 <=? status) && (status <? 500) then CLIENT_ERROR
      else if 500 <=? status then SERVER_ERROR
      else UNKNOWN
  end%Z.

(** [responseData?.message]. *)
Definition response_message (response : option ErrorResponse) : option JSON :=
  match response with
  | Some r =>
      match er_data r with
      | Some (JObj fields) => assoc "message" fields
      | _ => None
      end
  | None => None
  end.

(** [getErrorMessage]; a server message is taken in its string form. *)
Definition getErrorMessage (message : string) (response : option ErrorResponse) : string :=
  let from_axios :=
    if String.eqb message "" then "未知错误"
    else if includes "timeout" message then "请求超时，请检查网络连接"
    else if includes "Network Error" message then "网络连接失败，请检查网络设置"
    else message in
  let from_status :=
    match response ≫= (fun r => HTTP_ERROR_MESSAGES (er_status r)) with
    | Some text => text
    | None => from_axios
    end in
  match response_message response with
  | Some m => if truthy m then display m else from_status
  | None => from_status
  end.

(** The [message] property of a thrown value. *)
Definition error_message (error : JsError) : string :=
  match error with
  | AxiosError _ _ message _ => message
  | NetErr ne => ne_message ne
  | Error message => message
  | TypeError message => message
  | NativeError _ _ _ => "native storage error"
  end.

Definition handleNetworkError (error : JsError) : M NetworkError :=
  match error with
  | AxiosError config code message response =>
      let errorType := getErrorType code message response in
      let errorMessage := getErrorMessage message response in
      logger.error ("Network Error [" +:+ NetworkErrorType_name errorType +:+ "]: "
                    +:+ errorMessage) "NetworkErrorHandler";;
      mret {| ne_type := errorType; ne_message := errorMessage;
              ne_code := er_status <$> response |}
  | _ =>
      match error with
      | NetErr ne =>
          if negb (String.eqb (ne_message ne) "") then mret ne
          else
            logger.error "Unknown network error:" "NetworkErrorHandler";;
            mret {| ne_type := UNKNOWN; ne_message := "未知错误"; ne_code := None |}
      | _ =>
          logger.error "Unknown network error:" "NetworkErrorHandler";;
          mret {| ne_type := UNKNOWN;
                  ne_message := if String.eqb (error_message error) "" then "未知错误"
                                else error_message error;
                  ne_code := None |}
      end
  end.

Definition shouldReLogin (error : NetworkError) : bool :=
  match ne_type error with
  | UNAUTHORIZED => true
  | _ => false
  end.

(* ================================================================== *)
(** * [interceptors.ts] and [http-client.ts]                           *)
(* ================================================================== *)

Module interceptors.

(** The three module-level registrations, [null] until set. *)
Record Registry : Type := mkRegistry {
  tokenGetter : option (Oracle (option string));
  tokenRefresher : option (Oracle unit);
  logoutHandler : option (Oracle unit);
}.

Definition unregistered : Registry :=
  {| tokenGetter := None; tokenRefresher := None; logoutHandler := None |}.

Definition setTokenGetter (getter : Oracle (option string)) (r : Registry) : Registry :=
  {| tokenGetter := Some getter; tokenRefresher := tokenRefresher r;
     logoutHandler := logoutHandler r |}.

Definition setTokenRefresher (refresher : Oracle unit) (r : Registry) : Registry :=
  {| tokenGetter := tokenGetter r; tokenRefresher := Some refresher;
     logoutHandler := logoutHandler r |}.

Definition setLogoutHandler (handler : Oracle unit) (r : Registry) : Registry :=
  {| tokenGetter := tokenGetter r; tokenRefresher := tokenRefresher r;
     logoutHandler := Some handler |}.

(** [error.config]: only an [AxiosError] carries one. *)
Definition error_config (error : JsError) : Config :=
  match error with
  | AxiosError config _ _ _ => config
  | _ => empty_config
  end.

(** How the rejected-response handler returns: with
    [axios.request(error.config)] or with [Promise.reject(networkError)]. *)
Inductive Verdict : Type :=
| Replay (config : Config)
| GiveUp (networkError : NetworkError).

Section Installed.

Variable registry : Registry.
(** The adapter behind the axios instance. *)
Variable transport : Config -> Oracle AxiosResponse.

Definition describe (config : Config) : string :=
  match cfg_method config with
  | Some m => toUpperCase m
  | None => "undefined"
  end +:+ " " +:+ default "undefined" (cfg_url config).

(** The fulfilled handler of the request interceptor. *)
Definition request_onFulfilled (config : Config) : M Config :=
  now ← Date_now;
  token ← match tokenGetter registry with
          | Some getter => emit (Invoked TokenGetter);; perform getter
          | None => mret None
          end;
  let headers1 :=
    if truthy_str token
    then <["Authorization" := "Bearer " +:+ default "" token]> (cfg_headers config)
    else cfg_headers config in
  let headers2 :=
    <["Content-Type" :=
        if truthy_str (headers1 !! "Content-Type")
        then default "" (headers1 !! "Content-Type")
        else "application/json"]> headers1 in
  let config' :=
    {| cfg_method := cfg_method config; cfg_url := cfg_url config;
       cfg_headers := headers2; cfg_data := cfg_data config;
       requestStartTime := Some now |} in
  logger.debug ("Request: " +:+ describe config') "NetworkInterceptor";;
  mret config'.

Definition get_prop_opt (o : option JSON) (k : string) : M (option JSON) :=
  match o with
  | Some v => get_prop v k
  | None => throw (TypeError "Cannot read properties of undefined")
  end.

(** [code !== undefined && code !== 0 && code !== 200]. *)
Definition is_business_error (code : option JSON) : bool :=
  match code with
  | None => false
  | Some (JNum n) => negb (Z.eqb n 0) && negb (Z.eqb n 200)
  | Some _ => true
  end.

(** The fulfilled handler of the response interceptor. *)
Definition response_onFulfilled (response : AxiosResponse) : M AxiosResponse :=
  match requestStartTime (resp_config response) with
  | Some start =>
      if Z.eqb start 0 then mret tt
      else
        now ← Date_now;
        logger.debug ("Response: " +:+ describe (resp_config response) +:+ " ("
                      +:+ Number_toString (now - start) +:+ "ms)") "NetworkInterceptor"
  | None => mret tt
  end;;
  code ← get_prop_opt (resp_data response) "code";
  (if is_business_error code then
     message ← get_prop_opt (resp_data response) "message";
     logger.warn ("API Error: " +:+ display_opt code +:+ " - " +:+ display_opt message)
                 "NetworkInterceptor"
   else mret tt);;
  mret response.

(** The rejected handler of the response interceptor, up to its [return]. *)
Definition response_onRejected (error : JsError) : M Verdict :=
  networkError ← handleNetworkError error;
  if shouldReLogin networkError then
    logger.info "Token expired, attempting to refresh..." "NetworkInterceptor";;
    match tokenRefresher registry with
    | Some refresher =>
        try_catch
          (emit (Invoked TokenRefresher);;
           perform refresher;;
           logger.info "Token refreshed, retrying request..." "NetworkInterceptor";;
           mret (Replay (error_config error)))
          (fun refreshError =>
             logger.error "Token refresh failed:" "NetworkInterceptor";;
             match logoutHandler registry with
             | Some handler => emit (Invoked LogoutHandler);; perform handler
             | None => mret tt
             end;;
             mret (GiveUp networkError))
    | None => mret (GiveUp networkError)
    end
  else mret (GiveUp networkError).

Definition dispatchRequest (config : Config) : M AxiosResponse :=
  emit (Dispatched config);;
  perform (transport config).

(** [instance.request(config)] with both interceptors installed: the
    request handler, the adapter, then one of the two response handlers.  A
    rejection of the request handler reaches the rejected-response handler
    like a rejection of the adapter.  The replay is a call of the same
    [instance.request]; [fuel] bounds the number of such calls, and [None]
    means that the promise has not settled within it. *)
Fixpoint instance_request (fuel : nat) (config : Config) (w : World)
  : option (Outcome AxiosResponse * World) :=
  match fuel with
  | O => None
  | S n =>
      match (config' ← request_onFulfilled config; dispatchRequest config') w with
      | (Resolved response, w1) => Some (response_onFulfilled response w1)
      | (Rejected error, w1) =>
          match response_onRejected error w1 with
          | (Resolved (Replay config'), w2) => instance_request n config' w2
          | (Resolved (GiveUp networkError), w2) => Some (Rejected (NetErr networkError), w2)
          | (Rejected e, w2) => Some (Rejected e, w2)
          end
      end
  end.

Definition settled {A : Type} (r : Outcome A) : M A := fun w => (r, w).

(** [HttpClient.request]: the data part of the envelope, or the classified
    error. *)
Definition request (fuel : nat) (config : Config) (w : World)
  : option (Outcome (option JSON) * World) :=
  match instance_request fuel config w with
  | Some (r, w1) =>
      Some (try_catch
              (response ← settled r;
               get_prop_opt (resp_data response) "data")
              (fun error =>
                 networkError ← handleNetworkError error;
                 throw (NetErr networkError)) w1)
  | None => None
  end.

Definition post (fuel : nat) (url : string) (data : option JSON) : World
  -> option (Outcome (option JSON) * World) :=
  request fuel {| cfg_method := Some "POST"; cfg_url := Some url; cfg_headers := ∅;
                  cfg_data := data; requestStartTime := None |}.

End Installed.
End interceptors.

(* ================================================================== *)
(** * The Credential Store as its callers see it                       *)
(* ================================================================== *)

Inductive Partition : Type := General | Secure.

Definition partition_backend (d : Device) (p : Partition) : Backend :=
  match p with
  | General => AsyncStorage
  | Secure => secureStorage.backend (platform d)
  end.






(** The four entries, where they live and what is stored under them. *)
Inductive Entry : Type := AccessTokenEntry | RefreshTokenEntry | TokenExpireAtEntry | UserEntry.

Definition entry_partition (e : Entry) : Partition :=
  match e with
  | AccessTokenEntry | RefreshTokenEntry => Secure
  | TokenExpireAtEntry | UserEntry => General
  end.

Definition entry_key (e : Entry) : string :=
  match e with
  | AccessTokenEntry => STORAGE_KEYS.AUTH_TOKEN
  | RefreshTokenEntry => STORAGE_KEYS.REFRESH_TOKEN
  | TokenExpireAtEntry => STORAGE_KEYS.TOKEN_EXPIRE_TIME
  | UserEntry => STORAGE_KEYS.USER_INFO
  end.

Definition entry_backend (d : Device) (e : Entry) : Backend :=
  partition_backend d (entry_partition e).

Definition stored (w : World) (e : Entry) : option string :=
  store_of (entry_backend (device w) e) (env w) !! entry_key e.

(** A device on which operation [op] does not fail for the four entries. *)
Definition reliable (d : Device) (op : StorageOp) : Prop :=
  forall e : Entry, faulty d (entry_backend d e) op (entry_key e) = false.

Definition settles_with {A : Type} (r : Outcome A * World) (a : A) : Prop :=
  fst r = Resolved a.



(** The platform after entry [e] has been removed, and after all four. *)
Definition remove_entry (d : Device) (e : Entry) (v : Env) : Env :=
  with_store (entry_backend d e)
    (delete (entry_key e) (store_of (entry_backend d e) v)) v.

Definition cleared (d : Device) (v : Env) : Env :=
  remove_entry d UserEntry
    (remove_entry d TokenExpireAtEntry
       (remove_entry d RefreshTokenEntry
          (remove_entry d AccessTokenEntry v))).

(** What a read of entry [e] returns: absent when the backend fails. *)
Definition readable (w : World) (e : Entry) : option string :=
  if faulty (device w) (entry_backend (device w) e) OpGet (entry_key e)
  then None else stored w e.

Definition is_http_call (ev : Event) : bool :=
  match ev with
  | HttpCall _ _ => true
  | _ => false
  end.

Fixpoint http_calls (t : list Event) : nat :=
  match t with
  | [] => 0
  | ev :: rest => (if is_http_call ev then 1 else 0) + http_calls rest
  end%nat.

(* ================================================================== *)
(** * Sample worlds                                                    *)
(* ================================================================== *)

Definition sound_device : Device :=
  {| platform := Native; faulty := fun _ _ _ => false |}.

Definition alice : JSON := JObj [("id", JStr "1"); ("username", JStr "alice")].

Definition empty_env : Env :=
  {| asyncStorage := ∅; secureStore := ∅; localStorage := ∅;
     clock := 1700000000000; served := 0 |}.

(** Alice signed in an hour-long session at time 1700000000000. *)
Definition signed_in_env : Env :=
  {| asyncStorage :=
       <[STORAGE_KEYS.USER_INFO := JSON_stringify alice]>
         (<[STORAGE_KEYS.TOKEN_EXPIRE_TIME := "1700003600000"]> ∅);
     secureStore :=
       <[STORAGE_KEYS.REFRESH_TOKEN := "R1"]> (<[STORAGE_KEYS.AUTH_TOKEN := "A1"]> ∅);
     localStorage := ∅;
     clock := 1700000000000;
     served := 0 |}.

Definition world_of (d : Device) (v : Env) : World :=
  {| device := d; env := v; session := initial_session; trace := [] |}.

Definition offline : JsError :=
  NetErr {| ne_type := NO_NETWORK; ne_message := "网络连接失败，请检查网络设置";
            ne_code := None |}.

(** A remote end that cannot be reached. *)
Definition http_offline : HttpApi :=
  {| post_login := fun _ v => (Rejected offline, v);
     post_register := fun _ v => (Rejected offline, v);
     post_refreshToken := fun _ v => (Rejected offline, v) |}.

(** Signed in, but without a refresh token. *)
Definition env_without_refresh_token : Env :=
  {| asyncStorage := asyncStorage signed_in_env;
     secureStore := <[STORAGE_KEYS.AUTH_TOKEN := "A1"]> ∅;
     localStorage := ∅;
     clock := 1700000000000;
     served := 0 |}.

(** A usable access token is on record: stored, readable and not empty. *)
Definition token_present (w : World) : bool :=
  truthy_str (readable w AccessTokenEntry).

(** The expiry record says that the token is within five minutes of its end,
    or past it. *)
Definition expired_now (w : World) : bool :=
  match readable w TokenExpireAtEntry with
  | Some text =>
      match parseInt text with
      | Some t => negb (String.eqb text "") && (clock (env w) >=? t - 5 * 60 * 1000)
      | None => false
      end
  | None => false
  end.

(** The platform after [value] has been written under entry [e]. *)
Definition put_entry (d : Device) (e : Entry) (value : string) (v : Env) : Env :=
  with_store (entry_backend d e)
    (<[entry_key e := value]> (store_of (entry_backend d e) v)) v.

(** The login scenario: what the server answers to alice. *)
Definition alice_token : TokenInfo :=
  {| accessToken := "A1"; refreshToken := Some "R1"; expiresIn := Some 3600;
     tokenType := None |}.

Definition alice_login_response : LoginResponse :=
  {| lr_user := alice; lr_token := alice_token |}.

Definition alice_registration : RegisterParams :=
  {| rp_username := "alice"; rp_password := "x"; rp_email := None; rp_phone := None;
     rp_captcha := None |}.

Definition alice_params : LoginParams :=
  {| lp_username := "alice"; lp_password := "x"; lp_captcha := None;
     lp_remember := None |}.

(** A remote end that answers every login and registration with alice's
    record and every refresh with a new token pair. *)
Definition http_alice : HttpApi :=
  {| post_login := fun _ v => (Resolved alice_login_response, v);
     post_register := fun _ v => (Resolved alice_login_response, v);
     post_refreshToken := fun _ v =>
       (Resolved {| accessToken := "A2"; refreshToken := Some "R2";
                    expiresIn := Some 3600; tokenType := None |}, v) |}.

(** What [getUser] yields: the parsed user record, [JNull] when nothing
    usable is stored. *)
Definition saved_user (w : World) : JSON :=
  match readable w UserEntry with
  | Some text =>
      if String.eqb text "" then JNull
      else match JSON_parse text with
           | Some v => v
           | None => JNull
           end
  | None => JNull
  end.

(** The world in which [initAuth] makes its reads: status Loading, one line
    logged. *)
Definition loading (w : World) : World :=
  with_trace (Logged DEBUG "Initializing auth state" "AuthContext" :: trace w)
    (with_session (mkSession LOADING (user (session w)) (token (session w))) w).

(* ================================================================== *)
(** * Reading the trace of the pipeline                                *)
(* ================================================================== *)

(** What [handleNetworkError] returns, without its log line. *)
Definition classify (error : JsError) : NetworkError :=
  match error with
  | AxiosError config code message response =>
      {| ne_type := getErrorType code message response;
         ne_message := getErrorMessage message response;
         ne_code := er_status <$> response |}
  | NetErr ne =>
      if negb (String.eqb (ne_message ne) "") then ne
      else {| ne_type := UNKNOWN; ne_message := "未知错误"; ne_code := None |}
  | _ =>
      {| ne_type := UNKNOWN;
         ne_message := if String.eqb (error_message error) "" then "未知错误"
                       else error_message error;
         ne_code := None |}
  end.

Fixpoint count_events (p : Event -> bool) (t : list Event) : nat :=
  match t with
  | [] => 0
  | ev :: rest => (if p ev then 1 else 0) + count_events p rest
  end%nat.

Definition is_refresh (ev : Event) : bool :=
  match ev with Invoked TokenRefresher => true | _ => false end.

Definition is_logout (ev : Event) : bool :=
  match ev with Invoked LogoutHandler => true | _ => false end.

Definition is_dispatch (ev : Event) : bool :=
  match ev with Dispatched _ => true | _ => false end.

(** The line logged each time a failure is classified as UNAUTHORIZED. *)
Definition is_unauthorized_seen (ev : Event) : bool :=
  match ev with
  | Logged INFO message "NetworkInterceptor" =>
      String.eqb message "Token expired, attempting to refresh..."
  | _ => false
  end.

(** The line logged each time a refresh has resolved, just before the replay. *)
Definition is_replay (ev : Event) : bool :=
  match ev with
  | Logged INFO message "NetworkInterceptor" =>
      String.eqb message "Token refreshed, retrying request..."
  | _ => false
  end.

Definition refreshes (t : list Event) : nat := count_events is_refresh t.
Definition logouts (t : list Event) : nat := count_events is_logout t.
Definition dispatches (t : list Event) : nat := count_events is_dispatch t.
Definition unauthorized_seen (t : list Event) : nat := count_events is_unauthorized_seen t.
Definition replays (t : list Event) : nat := count_events is_replay t.

(** ** Sample pipelines *)

Definition answered (v : Env) : Env :=
  mkEnv (asyncStorage v) (secureStore v) (localStorage v) (clock v) (S (served v)).

Definition status_401 (config : Config) : JsError :=
  AxiosError config (Some "ERR_BAD_REQUEST") "Request failed with status code 401"
    (Some {| er_status := 401; er_data := None |}).



(** A remote end that answers 401 to everything. *)
Definition transport_always_401 (config : Config) : Oracle AxiosResponse :=
  fun v => (Rejected (status_401 config), answered v).

(** A refresh that always resolves, and a logout that does. *)
Definition registry_refreshing : interceptors.Registry :=
  interceptors.setLogoutHandler (fun v => (Resolved tt, v))
    (interceptors.setTokenRefresher (fun v => (Resolved tt, v))
       interceptors.unregistered).

(** A refresh that always rejects. *)
Definition registry_refresh_fails : interceptors.Registry :=
  interceptors.setLogoutHandler (fun v => (Resolved tt, v))
    (interceptors.setTokenRefresher (fun v => (Rejected offline, v))
       interceptors.unregistered).

Definition get_profile : Config :=
  {| cfg_method := Some "get"; cfg_url := Some "/user/profile"; cfg_headers := ∅;
     cfg_data := None; requestStartTime := None |}.

(** A business error in an HTTP 200 answer. *)
Definition business_error_body : JSON :=
  JObj [("code", JNum 40001); ("message", JStr "insufficient balance");
        ("data", JStr "details")].

Definition transport_business_error (config : Config) : Oracle AxiosResponse :=
  fun v => (Resolved {| resp_status := 200; resp_data := Some business_error_body;
                        resp_config := config |}, answered v).

(** A counter that does not see what the request stage, the fulfilled
    handler and the error classification emit. *)
Definition silent (p : Event -> bool) : Prop :=
  p (Invoked TokenGetter) = false
  /\ (forall c, p (Dispatched c) = false)
  /\ (forall msg m, p (Logged DEBUG msg m) = false)
  /\ (forall msg m, p (Logged WARN msg m) = false)
  /\ (forall msg m, p (Logged ERROR msg m) = false).

(** The four counters of a trace that the refresh flow moves. *)
Definition tally (w : World) : nat * nat * nat * nat :=
  (unauthorized_seen (trace w), refreshes (trace w), replays (trace w), logouts (trace w)).


Definition world_after {A : Type} (run : option (Outcome A * World)) : World :=
  match run with
  | Some (_, w) => w
  | None => world_of sound_device empty_env
  end.


(* ================================================================== *)
(** * Values that survive serialization                                *)
(* ================================================================== *)

Fixpoint distinct (keys : list string) : bool :=
  match keys with
  | [] => true
  | k :: rest => negb (existsb (String.eqb k) rest) && distinct rest
  end.

(** A number that is not an integer is a double when its odd numerator has
    at most 53 bits and its denominator is at most 2^1074. *)
Definition is_double (x : Float) : bool :=
  match x with
  | Dyadic m p => Z.odd m && (Z.abs m <? 2 ^ 53)%Z && (Z.pos p <=? 1074)%Z
  | Infinite _ => false
  end.

(** A value as JavaScript has it and JSON can write it: the properties of an
    object have distinct names, and a number that is not an integer is a
    finite double (an infinity is written as [null]). *)
Fixpoint well_formed (v : JSON) : bool :=
  match v with
  | JArr items => forallb well_formed items
  | JObj fields =>
      distinct (map fst fields) && forallb (fun kv => well_formed (snd kv)) fields
  | JFloat x => is_double x
  | _ => true
  end.

(** The number of nested calls the parser makes for a value. *)
Fixpoint json_size (v : JSON) : nat :=
  match v with
  | JArr items => S (list_sum (map (fun x => S (json_size x)) items))
  | JObj fields => S (list_sum (map (fun kv => S (json_size (snd kv))) fields))
  | _ => 1
  end.

(** What may follow a number in a text: no digit, and no fraction or
    exponent mark. *)
Definition number_ends (rest : string) : bool :=
  match rest with
  | String c _ =>
      negb (bool_decide (is_Some (digit_value c)))
      && negb (Ascii.eqb c ".") && negb (Ascii.eqb c "e") && negb (Ascii.eqb c "E")
  | EmptyString => true
  end.

(** A text that starts like a number: with a digit or a minus sign. *)
Definition number_head (s : string) : bool :=
  match s with
  | String c _ => bool_decide (is_Some (digit_value c)) || Ascii.eqb c "-"
  | EmptyString => false
  end.

(** The text of one property of an object. *)
Definition member_text (kv : string * JSON) : string :=
  QuoteJSONString (fst kv) +:+ ":" +:+ JSON_stringify (snd kv).

(** ** Numerals, digit by digit *)

Fixpoint all_digits (s : string) : bool :=
  match s with
  | String c r => bool_decide (is_Some (digit_value c)) && all_digits r
  | EmptyString => true
  end.

(** The value of the digits of [s], after those that gave [acc]. *)
Definition digits_value (s : string) (acc : Z) : Z := fst (read_digits s acc).

(** The number with the other sign. *)
Definition negate (v : JSON) : JSON :=
  match v with
  | JNum n => JNum (- n)
  | JFloat (Dyadic m p) => JFloat (Dyadic (- m) p)
  | JFloat (Infinite negative) => JFloat (Infinite (negb negative))
  | _ => v
  end.

(** The round trip of one value, whatever follows it in the text. *)
Definition reads_back (v : JSON) : Prop :=
  well_formed v = true ->
  forall (fuel : nat) (rest : string),
    (json_size v <= fuel)%nat ->
    number_ends rest = true ->
    parse_value fuel (JSON_stringify v +:+ rest) = Some (v, rest).

(* ================================================================== *)
(** * [cache-storage.ts]: entries with a time to live, batch operations *)
(* ================================================================== *)

(** [CACHE_TIME] of [app-config.ts], in milliseconds. *)
Module CACHE_TIME.
Definition short : Z := 5 * 60 * 1000.
Definition medium : Z := 30 * 60 * 1000.
Definition long : Z := 24 * 60 * 60 * 1000.
End CACHE_TIME.

(** The batch operations of AsyncStorage, as the platform provides them. *)
Record AsyncStorageBatch : Type := mkAsyncStorageBatch {
  native_multiSet : list (string * string) -> Oracle unit;
  native_multiGet : list string -> Oracle (list (string * option string));
  native_multiRemove : list string -> Oracle unit;
  native_getAllKeys : Oracle (list string);
  native_clear : Oracle unit;
}.

Module CacheStorageService.
Section Platform.

Variable native : AsyncStorageBatch.
(** [now > v] for a truthy [v] that is not a number: ECMAScript converts [v]
    to a number first, and [None] stands for a conversion that throws. *)
Variable exceeds : Z -> JSON -> option bool.

Definition setCached (key : string) (value : JSON) (ttl : option Z) : M unit :=
  try_catch
    (now ← Date_now;
     let cacheItem :=
       JObj [("value", value); ("expireTime", JNum (now + default CACHE_TIME.medium ttl))] in
     cacheStorage.setObject key cacheItem)
    (fun error =>
       console_error ("[CacheStorage] Error saving cached " +:+ key +:+ ":");;
       throw error).

(** [Date.now() > expireTime]. *)
Definition now_exceeds (now : Z) (expireTime : JSON) : M bool :=
  match expireTime with
  | JNum n => mret (now >? n)
  | JFloat x => mret (exceeds_float now x)
  | _ =>
      match exceeds now expireTime with
      | Some b => mret b
      | None => throw (TypeError "Cannot convert object to primitive value")
      end
  end.

(** [cacheItem.expireTime && Date.now() > cacheItem.expireTime], as a
    condition. *)
Definition is_expired (cacheItem : JSON) : M bool :=
  expireTime ← get_prop cacheItem "expireTime";
  match expireTime with
  | Some t =>
      if truthy t then now ← Date_now; now_exceeds now t
      else mret false
  | None => mret false
  end.

(** The result is [cacheItem.value]: [None] when the stored value has no
    such property. *)
Definition getCached (key : string) : M (option JSON) :=
  try_catch
    (cacheItem ← cacheStorage.getObject key;
     if negb (truthy cacheItem) then mret (Some JNull)
     else
       expired ← is_expired cacheItem;
       if (expired : bool) then
         cacheStorage.removeItem key;;
         mret (Some JNull)
       else get_prop cacheItem "value")
    (fun error =>
       console_error ("[CacheStorage] Error reading cached " +:+ key +:+ ":");;
       mret (Some JNull)).

Definition multiSet (pairs : list (string * string)) : M unit :=
  try_catch (perform (native_multiSet native pairs))
    (fun error =>
       console_error "[CacheStorage] Error in multiSet:";;
       throw error).

Definition multiGet (keys : list string) : M (list (string * option string)) :=
  try_catch (perform (native_multiGet native keys))
    (fun error =>
       console_error "[CacheStorage] Error in multiGet:";;
       throw error).

Definition multiRemove (keys : list string) : M unit :=
  try_catch (perform (native_multiRemove native keys))
    (fun error =>
       console_error "[CacheStorage] Error in multiRemove:";;
       throw error).

Definition getAllKeys : M (list string) :=
  try_catch (perform (native_getAllKeys native))
    (fun error =>
       console_error "[CacheStorage] Error getting all keys:";;
       mret []).

Definition clear : M unit :=
  try_catch (perform (native_clear native))
    (fun error =>
       console_error "[CacheStorage] Error clearing storage:";;
       throw error).

(** The loop of [clearExpired]: [keysToRemove] grows by the keys whose
    entry has expired ([cacheItem?.expireTime] is [undefined] on [null]). *)
Fixpoint collect_expired (allKeys keysToRemove : list string) : M (list string) :=
  match allKeys with
  | [] => mret keysToRemove
  | key :: rest =>
      cacheItem ← cacheStorage.getObject key;
      expired ← match cacheItem with
                | JNull => mret false
                | _ => is_expired cacheItem
                end;
      collect_expired rest
        (if (expired : bool) then keysToRemove ++ [key] else keysToRemove)%list
  end.

(** [console.log] only prints; the trace keeps no line for it. *)
Definition clearExpired : M unit :=
  try_catch
    (allKeys ← getAllKeys;
     keysToRemove ← collect_expired allKeys [];
     match keysToRemove with
     | [] => mret tt
     | _ => multiRemove keysToRemove
     end)
    (fun error =>
       console_error "[CacheStorage] Error clearing expired cache:").

End Platform.
End CacheStorageService.

(* ================================================================== *)
(** * [secure-storage.ts]: clearing the secure partition               *)
(* ================================================================== *)

Module SecureStorageService.

(** [localStorage.clear()] is the platform's; on a native platform there
    is nothing to call, and [console.warn] only prints. *)
Definition clear (localStorage_clear : Oracle unit) : M unit :=
  try_catch
    (os ← Platform_OS;
     match os with
     | Web => perform localStorage_clear
     | Native => mret tt
     end)
    (fun error =>
       console_error "[SecureStorage] Error clearing storage:";;
       throw error).

End SecureStorageService.

(** The same world at another time. *)
Definition at_time (now : Z) (w : World) : World :=
  with_env (mkEnv (asyncStorage (env w)) (secureStore (env w)) (localStorage (env w))
              now (served (env w))) w.
(** ** Reading the sweep of [clearExpired] *)

(** The [expireTime] of a stored text, as [getObject] reads it. *)
Definition expiry_of (text : string) : option JSON :=
  if String.eqb text "" then None
  else match JSON_parse text with
       | Some (JObj fields) => assoc "expireTime" fields
       | _ => None
       end.

(** A text whose expiry time is a number other than 0 and lies before
    [now]. *)
Definition stale (now : Z) (text : string) : bool :=
  match expiry_of text with
  | Some (JNum n) => negb (Z.eqb n 0) && (now >? n)
  | Some (JFloat x) => exceeds_float now x
  | _ => false
  end.

Definition is_number (v : JSON) : bool :=
  match v with
  | JNum _ | JFloat _ => true
  | _ => false
  end.

Definition stale_key (v : Env) (key : string) : bool :=
  match asyncStorage v !! key with
  | Some text => stale (clock v) text
  | None => false
  end.

(** Every expiry time on record is a number, or falsy. *)
Definition numeric_expiry (m : gmap string string) : Prop :=
  forall (k text : string) (t : JSON),
    m !! k = Some text -> expiry_of text = Some t -> truthy t = true ->
    is_number t = true.

(** A platform on which the key listing and the batch removal work. *)
Definition batch_sound (native : AsyncStorageBatch) : Prop :=
  (forall v : Env, exists keys : list string,
      native_getAllKeys native v = (Resolved keys, v)
      /\ forall k, In k keys <-> is_Some (asyncStorage v !! k))
  /\ (forall (keys : list string) (v : Env),
        native_multiRemove native keys v
        = (Resolved tt, with_store AsyncStorage (foldr delete (asyncStorage v) keys) v)).

(** AsyncStorage as a working platform provides it. *)
Definition working_batch : AsyncStorageBatch :=
  {| native_multiSet := fun pairs v =>
       (Resolved tt,
        with_store AsyncStorage
          (foldr (fun kv m => <[kv.1 := kv.2]> m) (asyncStorage v) (rev pairs)) v);
     native_multiGet := fun keys v =>
       (Resolved (map (fun k => (k, asyncStorage v !! k)) keys), v);
     native_multiRemove := fun keys v =>
       (Resolved tt, with_store AsyncStorage (foldr delete (asyncStorage v) keys) v);
     native_getAllKeys := fun v => (Resolved (map fst (map_to_list (asyncStorage v))), v);
     native_clear := fun v => (Resolved tt, with_store AsyncStorage ∅ v) |}.

(** No conversion is needed where every expiry time is a number. *)
Definition no_conversion : Z -> JSON -> option bool := fun _ _ => None.

(** A cache with one entry that ran out an hour ago and one that runs for another
    hour, beside the user record. *)
Definition cache_env : Env :=
  {| asyncStorage :=
       <["old" := JSON_stringify (JObj [("value", JStr "a");
                                         ("expireTime", JNum 1699996400000)])]>
         (<["new" := JSON_stringify (JObj [("value", JStr "b");
                                           ("expireTime", JNum 1700003600000)])]>
            (<[STORAGE_KEYS.USER_INFO := JSON_stringify alice]> ∅));
     secureStore := ∅; localStorage := ∅;
     clock := 1700000000000; served := 0 |}.

(** A browser, with working storage. *)
Definition browser : Device :=
  {| platform := Web; faulty := fun _ _ _ => false |}.


(* ================================================================== *)
(** * [auth-context.tsx]: registration and the flags                   *)
(* ================================================================== *)

(** The entries of [API_ENDPOINTS] for the user record and the password. *)
Module USER_ENDPOINTS.
Definition auth_resetPassword : string := "/auth/reset-password".
Definition user_profile : string := "/user/profile".
Definition user_update : string := "/user/update".
End USER_ENDPOINTS.

Module AuthContext.
Section WithHttp.

Variable http : HttpApi.

Definition register (params : RegisterParams) : M unit :=
  try_catch
    (AuthProvider.setStatus LOADING;;
     logger.info "Registration initiated" "AuthContext";;
     registeredUser ← authService.register http params;
     newToken ← authStorage.getAccessToken;
     AuthProvider.setUser (Some registeredUser);;
     AuthProvider.setToken newToken;;
     AuthProvider.setStatus AUTHENTICATED;;
     get_prop registeredUser "id";;
     logger.info "Registration successful" "AuthContext")
    (fun error =>
       AuthProvider.setStatus UNAUTHENTICATED;;
       logger.error "Registration failed" "AuthContext";;
       throw error).

(** The two flags of the context value. *)
Definition isAuthenticated (s : Session) : bool :=
  match status s with AUTHENTICATED => true | _ => false end.

Definition isLoading (s : Session) : bool :=
  match status s with LOADING => true | _ => false end.

End WithHttp.
End AuthContext.

(** ** Times that JavaScript holds exactly

    A number is a double: an integer is held exactly up to
    [Number.MAX_SAFE_INTEGER], and up to there the sums and products of the
    code are those of the integers and [toString] writes plain digits. *)
Definition safe_integer (n : Z) : Prop := Z.abs n <= 9007199254740991.

(** The arithmetic on the expiry of a token saved at [now] with a lifetime
    of [seconds] stays within the safe integers. *)
Definition safe_expiry (now seconds : Z) : Prop :=
  safe_integer now
  /\ safe_integer (seconds * 1000)
  /\ safe_integer (now + seconds * 1000)
  /\ safe_integer (now + seconds * 1000 - 5 * 60 * 1000).

(** ** What [saveToken] leaves in the store *)

Definition env_after_saveToken (d : Device) (ti : TokenInfo) (v : Env) : Env :=
  let v1 := put_entry d AccessTokenEntry (accessToken ti) v in
  let v2 := if truthy_str (refreshToken ti)
            then put_entry d RefreshTokenEntry (default "" (refreshToken ti)) v1
            else v1 in
  match expiresIn ti with
  | Some seconds =>
      if Z.eqb seconds 0 then v2
      else put_entry d TokenExpireAtEntry (Number_toString (clock v + seconds * 1000)) v2
  | None => v2
  end.

(** The store, entry by entry. *)
Definition stored_in (d : Device) (v : Env) (e : Entry) : option string :=
  store_of (entry_backend d e) v !! entry_key e.
(** ** Sample tokens and devices *)

(** A token with neither a refresh token nor a lifetime. *)
Definition bare_token : TokenInfo :=
  {| accessToken := "A2"; refreshToken := None; expiresIn := None; tokenType := None |}.

(** A token that lives five minutes. *)
Definition short_token : TokenInfo :=
  {| accessToken := "A3"; refreshToken := None; expiresIn := Some 300; tokenType := None |}.

(** A device whose secure store refuses removals. *)
Definition sticky_device : Device :=
  {| platform := Native;
     faulty := fun b op _ =>
       match b, op with
       | SecureStore, OpRemove => true
       | _, _ => false
       end |}.

(** A device on which the user record cannot be written. *)
Definition full_device : Device :=
  {| platform := Native;
     faulty := fun b op k =>
       match b, op with
       | AsyncStorage, OpSet => String.eqb k STORAGE_KEYS.USER_INFO
       | _, _ => false
       end |}.

(** A computation that only leaves lines on the console: it settles in the
    world it started in, but for those lines. *)
Definition quiet {A : Type} (m : M A) (w : World) (a : A) : Prop :=
  exists t, m w = (Resolved a, with_trace (t ++ trace w)%list w) /\ http_calls t = 0%nat.


(* ================================================================== *)
(** * [error-handler.ts]: what to do with a classified error          *)
(* ================================================================== *)

Definition shouldRetry (error : NetworkError) : bool :=
  match ne_type error with
  | TIMEOUT | NO_NETWORK | SERVER_ERROR => true
  | _ => false
  end.

Definition shouldIgnoreError (error : NetworkError) : bool :=
  match ne_type error with
  | CANCEL => true
  | _ => false
  end.

(** ** Sample pipelines, continued *)

(** A token getter that finds "A1". *)
Definition registry_with_token : interceptors.Registry :=
  interceptors.setTokenGetter (fun v => (Resolved (Some "A1"), v)) interceptors.unregistered.

(** A request that brings its own content type and a header of its own. *)
Definition upload_request : Config :=
  {| cfg_method := Some "post"; cfg_url := Some "/user/avatar";
     cfg_headers := <["Content-Type" := "multipart/form-data"]> (<["X-Trace" := "7"]> ∅);
     cfg_data := None; requestStartTime := None |}.

Definition status_500 (config : Config) : JsError :=
  AxiosError config (Some "ERR_BAD_RESPONSE") "Request failed with status code 500"
    (Some {| er_status := 500; er_data := None |}).

Definition transport_always_500 (config : Config) : Oracle AxiosResponse :=
  fun v => (Rejected (status_500 config), answered v).

(** A remote end that answers 200 with the body [null]. *)
Definition transport_null_body (config : Config) : Oracle AxiosResponse :=
  fun v => (Resolved {| resp_status := 200; resp_data := Some JNull;
                        resp_config := config |}, answered v).

(** What the token getter hands to the request interceptor: nothing when
    none is registered. *)
Definition token_for (registry : interceptors.Registry) (w : World) : option string :=
  match interceptors.tokenGetter registry with
  | Some getter =>
      match getter (env w) with
      | (Resolved token, _) => token
      | (Rejected _, _) => None
      end
  | None => None
  end.

(* ================================================================== *)
(** * [logger.ts] and [error-tracker.ts]: the two bounded queues       *)
(* ================================================================== *)

(** What reaches the logger as [data]: nothing, a value, the three fields
    taken from an [Error], or some other object. *)
Inductive LogData (Obj : Type) : Type :=
| NoData
| ValueData (v : JSON)
| ErrorData (name message : string) (stack : option string)
| ObjectData (o : Obj).
Arguments NoData {Obj}.
Arguments ValueData {Obj} v.
Arguments ErrorData {Obj} name message stack.
Arguments ObjectData {Obj} o.

(** What is passed as the [error] of a log call or of a tracked error: an
    [Error] instance or anything else. *)
Inductive Reported (Obj : Type) : Type :=
| ErrorInstance (name message : string) (stack : option string)
| NotAnError (data : LogData Obj).
Arguments ErrorInstance {Obj} name message stack.
Arguments NotAnError {Obj} data.

Inductive ConsoleMethod : Type := ConsoleLog | ConsoleInfo | ConsoleWarn | ConsoleErr.

Module Logger.
Section Instance.

Variable Obj : Type.
(** [isDevelopment()] when [app-config.ts] is loaded. *)
Variable development : bool.
(** The successive readings of the clock, and [Date.prototype.toISOString]. *)
Variable clock_reading : nat -> Z.
Variable toISOString : Z -> string.

Definition LOG_CONFIG_enabled : bool := development.
Definition LOG_CONFIG_level : string := if development then "debug" else "error".
Definition LOG_CONFIG_maxSize : nat := 100.

Definition LogLevel_value (level : LogLevel) : string :=
  match level with
  | DEBUG => "debug" | INFO => "info" | WARN => "warn" | ERROR => "error"
  end.

Definition LOG_LEVEL_PRIORITY (level : LogLevel) : Z :=
  match level with
  | DEBUG => 0 | INFO => 1 | WARN => 2 | ERROR => 3
  end.

Record LogEntry : Type := mkLogEntry {
  entry_level : LogLevel;
  entry_message : string;
  entry_data : LogData Obj;
  entry_timestamp : Z;
  entry_module : option string;
}.

Record ConsoleLine : Type := mkConsoleLine {
  line_method : ConsoleMethod;
  line_text : string;
  line_data : LogData Obj;
}.

(** The logger: its queue (oldest entry first), its level, what it has
    printed so far (oldest line first) and how often it has read the clock. *)
Record State : Type := mkState {
  logs : list LogEntry;
  currentLevel : LogLevel;
  printed : list ConsoleLine;
  ticks : nat;
}.

Definition maxLogs : nat := LOG_CONFIG_maxSize.

(** One reading of the clock made elsewhere. *)
Definition tick (s : State) : State :=
  {| logs := logs s; currentLevel := currentLevel s; printed := printed s;
     ticks := S (ticks s) |}.

Definition create : State :=
  {| logs := [];
     currentLevel := if String.eqb LOG_CONFIG_level "debug" then DEBUG else ERROR;
     printed := []; ticks := 0 |}.

Definition setLevel (level : LogLevel) (s : State) : State :=
  {| logs := logs s; currentLevel := level; printed := printed s; ticks := ticks s |}.

Definition shouldLog (s : State) (level : LogLevel) : bool :=
  if negb LOG_CONFIG_enabled then false
  else LOG_LEVEL_PRIORITY level >=? LOG_LEVEL_PRIORITY (currentLevel s).

Definition formatMessage (stamp : Z) (level : LogLevel) (message : string)
    (module : option string) : string :=
  let timestamp := toISOString stamp in
  let moduleTag := if truthy_str module then "[" +:+ default "" module +:+ "]" else "" in
  "[" +:+ timestamp +:+ "] [" +:+ toUpperCase (LogLevel_value level) +:+ "] "
  +:+ moduleTag +:+ " " +:+ message.

Definition data_truthy (data : LogData Obj) : bool :=
  match data with
  | NoData => false
  | ValueData v => truthy v
  | ErrorData _ _ _ | ObjectData _ => true
  end.

(** [data || '']. *)
Definition data_or_empty (data : LogData Obj) : LogData Obj :=
  if data_truthy data then data else ValueData (JStr "").

Definition console_method (level : LogLevel) : ConsoleMethod :=
  match level with
  | DEBUG => ConsoleLog | INFO => ConsoleInfo | WARN => ConsoleWarn | ERROR => ConsoleErr
  end.

(** [push] then, past [maxLogs], [shift]. *)
Definition log (level : LogLevel) (message : string) (data : LogData Obj)
    (module : option string) (s : State) : State :=
  if negb (shouldLog s level) then s
  else
    let logEntry :=
      {| entry_level := level; entry_message := message; entry_data := data;
         entry_timestamp := clock_reading (ticks s); entry_module := module |} in
    let pushed := (logs s ++ [logEntry])%list in
    let kept := if (maxLogs <? length pushed)%nat then tl pushed else pushed in
    let formattedMessage := formatMessage (clock_reading (S (ticks s))) level message module in
    {| logs := kept; currentLevel := currentLevel s;
       printed := (printed s ++ [{| line_method := console_method level;
                                    line_text := formattedMessage;
                                    line_data := data_or_empty data |}])%list;
       ticks := S (S (ticks s)) |}.

Definition debug (message : string) (data : LogData Obj) (module : option string) :=
  log DEBUG message data module.
Definition info (message : string) (data : LogData Obj) (module : option string) :=
  log INFO message data module.
Definition warn (message : string) (data : LogData Obj) (module : option string) :=
  log WARN message data module.

Definition error (message : string) (error : Reported Obj) (module : option string) :=
  let errorData :=
    match error with
    | ErrorInstance name msg stack => ErrorData name msg stack
    | NotAnError data => data
    end in
  log ERROR message errorData module.

Definition getLogs (s : State) : list LogEntry := logs s.

Definition clearLogs (s : State) : State :=
  {| logs := []; currentLevel := currentLevel s; printed := printed s; ticks := ticks s |}.

(** What a caller can do to the logger. *)
Inductive Call : Type :=
| CallLog (level : LogLevel) (message : string) (data : LogData Obj) (module : option string)
| CallError (message : string) (error : Reported Obj) (module : option string)
| CallSetLevel (level : LogLevel)
| CallClearLogs.

Definition call (c : Call) (s : State) : State :=
  match c with
  | CallLog level message data module => log level message data module s
  | CallError message e module => error message e module s
  | CallSetLevel level => setLevel level s
  | CallClearLogs => clearLogs s
  end.

(** A sequence of calls, in order. *)
Definition calls (cs : list Call) (s : State) : State :=
  fold_left (fun s c => call c s) cs s.

End Instance.
End Logger.

Module ErrorTracker.

Inductive ErrorType : Type :=
| NETWORK | RUNTIME | RENDER | API | STORAGE | PERMISSION | UNKNOWN.

Definition ErrorType_value (type : ErrorType) : string :=
  match type with
  | NETWORK => "NETWORK" | RUNTIME => "RUNTIME" | RENDER => "RENDER" | API => "API"
  | STORAGE => "STORAGE" | PERMISSION => "PERMISSION" | UNKNOWN => "UNKNOWN"
  end.

(** The [error] of an [ErrorInfo] is an [Error] instance, when there is
    one. *)
Record ErrorInfo : Type := mkErrorInfo {
  info_type : ErrorType;
  info_message : string;
  info_error : option (string * string * option string);   (* name, message, stack *)
  info_context : option JSON;
  info_timestamp : Z;
}.

Section Instance.

Variable development : bool.
Variable clock_reading : nat -> Z.
Variable toISOString : Z -> string.
(** Whether the callback with a given identity throws on an error. *)
Variable throws : nat -> ErrorInfo -> bool.

Definition LoggerState : Type := Logger.State ErrorInfo.

(** The tracker: its queue (oldest first), the registered callbacks by
    identity, in registration order, the logger it writes to, the calls of
    callbacks made so far and the lines written to the console by the tracker
    itself. *)
Record State : Type := mkState {
  errors : list ErrorInfo;
  errorCallbacks : list nat;
  logger : LoggerState;
  delivered : list (nat * ErrorInfo);
  console_errors : list string;
}.

Definition maxErrors : nat := 50.

Definition create (l : LoggerState) : State :=
  {| errors := []; errorCallbacks := []; logger := l; delivered := [];
     console_errors := [] |}.

Definition logger_error := Logger.error ErrorInfo development clock_reading toISOString.
Definition logger_debug := Logger.debug ErrorInfo development clock_reading toISOString.

(** [reportError]: nothing but a debug line so far. *)
Definition reportError (errorInfo : ErrorInfo) (l : LoggerState) : LoggerState :=
  logger_debug "Reporting error:" (ObjectData errorInfo) (Some "ErrorTracker") l.

(** The [forEach] over the callbacks: each one is called, and one that throws
    leaves a line on the console. *)
Fixpoint notify (callbacks : list nat) (errorInfo : ErrorInfo)
    (calls : list (nat * ErrorInfo)) (console : list string)
  : list (nat * ErrorInfo) * list string :=
  match callbacks with
  | [] => (calls, console)
  | callback :: rest =>
      notify rest errorInfo (calls ++ [(callback, errorInfo)])%list
        (if throws callback errorInfo
         then (console ++ ["Error in error callback:"])%list
         else console)
  end.

(** [trackError]; [development_now] is [isDevelopment()] at the time of the
    call. *)
Definition trackError (development_now : bool) (type : ErrorType) (message : string)
    (error : option (string * string * option string)) (context : option JSON)
    (s : State) : State :=
  let errorInfo :=
    {| info_type := type; info_message := message; info_error := error;
       info_context := context;
       info_timestamp := clock_reading (Logger.ticks _ (logger s)) |} in
  let pushed := (errors s ++ [errorInfo])%list in
  let kept := if (maxErrors <? length pushed)%nat then tl pushed else pushed in
  let logged :=
    logger_error ("[" +:+ ErrorType_value type +:+ "] " +:+ message)
      (match error with
       | Some (name, msg, stack) => ErrorInstance name msg stack
       | None => NotAnError NoData
       end)
      (Some "ErrorTracker") (Logger.tick _ (logger s)) in
  let '(calls, console) := notify (errorCallbacks s) errorInfo (delivered s) (console_errors s) in
  {| errors := kept; errorCallbacks := errorCallbacks s;
     logger := if negb development_now then reportError errorInfo logged else logged;
     delivered := calls; console_errors := console |}.

Definition trackApiError (development_now : bool) (message : string)
    (error : option (string * string * option string)) (context : option JSON) :=
  trackError development_now API message error context.

Definition trackNetworkError (development_now : bool) (message : string)
    (error : option (string * string * option string)) (context : option JSON) :=
  trackError development_now NETWORK message error context.

(** [indexOf] and [splice(index, 1)]: the first registration of the callback
    goes. *)
Fixpoint remove_first (callback : nat) (callbacks : list nat) : list nat :=
  match callbacks with
  | [] => []
  | c :: rest => if Nat.eqb c callback then rest else c :: remove_first callback rest
  end.

Definition onError (callback : nat) (s : State) : State :=
  {| errors := errors s; errorCallbacks := (errorCallbacks s ++ [callback])%list;
     logger := logger s; delivered := delivered s; console_errors := console_errors s |}.

(** The function [onError] returns. *)
Definition unsubscribe (callback : nat) (s : State) : State :=
  {| errors := errors s; errorCallbacks := remove_first callback (errorCallbacks s);
     logger := logger s; delivered := delivered s; console_errors := console_errors s |}.

Definition getErrors (s : State) : list ErrorInfo := errors s.

Definition clearErrors (s : State) : State :=
  {| errors := []; errorCallbacks := errorCallbacks s; logger := logger s;
     delivered := delivered s; console_errors := console_errors s |}.

End Instance.
End ErrorTracker.

(* ================================================================== *)
(** * [auth-storage.ts]: updating the user record                      *)
(* ================================================================== *)

(** ** Object spread

    [{ ...a, ...b }] copies the own enumerable properties of [a], then those
    of [b], into a new object: a repeated name keeps its place and takes the
    later value.  The properties of the new object are enumerated with the
    array indices first, in ascending order, then the other names in the order
    of their creation. *)

(** The array index a property name stands for: the name is the numeral,
    without sign or leading zero, of an integer below 2^32 - 1. *)
Definition array_index (k : string) : option Z :=
  match unsigned_prefix k with
  | Some n =>
      if String.eqb (Number_toString n) k && (n <? 4294967295)%Z then Some n else None
  | None => None
  end.

Fixpoint insert_index (n : Z) (kv : string * JSON) (sorted : list (Z * (string * JSON)))
  : list (Z * (string * JSON)) :=
  match sorted with
  | [] => [(n, kv)]
  | (m, kv') :: rest =>
      if (n <? m)%Z then (n, kv) :: sorted else (m, kv') :: insert_index n kv rest
  end.

Definition indexed_properties (fields : list (string * JSON)) : list (Z * (string * JSON)) :=
  fold_right (fun kv sorted =>
                match array_index (fst kv) with
                | Some n => insert_index n kv sorted
                | None => sorted
                end) [] fields.

Definition own_property_order (fields : list (string * JSON)) : list (string * JSON) :=
  (map snd (indexed_properties fields)
   ++ List.filter (fun kv => negb (bool_decide (is_Some (array_index (fst kv))))) fields)%list.

Fixpoint elements_from (i : Z) (items : list JSON) : list (string * JSON) :=
  match items with
  | [] => []
  | x :: rest => (Number_toString i, x) :: elements_from (i + 1) rest
  end.

Fixpoint code_units (s : string) : list JSON :=
  match s with
  | String c rest => JStr (String c EmptyString) :: code_units rest
  | EmptyString => []
  end.

(** What spread syntax copies from a value. *)
Definition own_enumerable (v : JSON) : list (string * JSON) :=
  match v with
  | JObj fields => fields
  | JArr items => elements_from 0 items
  | JStr s => elements_from 0 (code_units s)
  | _ => []
  end.

Definition spread (a b : JSON) : JSON :=
  JObj (own_property_order (obj_of_members (own_enumerable a ++ own_enumerable b)%list)).

Module AuthStorage.

Definition updateUser (updates : JSON) : M unit :=
  try_catch
    (currentUser ← authStorage.getUser;
     if negb (truthy currentUser) then throw (Error "No user info found")
     else
       let updatedUser := spread currentUser updates in
       authStorage.saveUser updatedUser;;
       get_prop updatedUser "id";;
       logger.debug "User info updated successfully" "AuthStorage")
    (fun error =>
       logger.error "Failed to update user info" "AuthStorage";;
       throw error).

End AuthStorage.

(** Property names none of which is an array index. *)
Definition plain_names (fields : list (string * JSON)) : bool :=
  forallb (fun kv => negb (bool_decide (is_Some (array_index (fst kv))))) fields.

(** A record as [updateUser] merges it: an object with distinct plain
    property names and well-formed values. *)
Definition plain_record (fields : list (string * JSON)) : bool :=
  well_formed (JObj fields) && plain_names fields.

(* ================================================================== *)
(** * [use-auth.ts]: the role and permission hooks                     *)
(* ================================================================== *)

Module useAuth.

(** [user?.key]: [undefined] on [null], and on a value that has no such
    property. *)
Definition optional_prop (user : option JSON) (key : string) : option JSON :=
  match user with
  | Some (JObj fields) => assoc key fields
  | _ => None
  end.

(** An element of an array that is the string [name]. *)
Definition is_name (name : string) (item : JSON) : bool :=
  match item with
  | JStr s => String.eqb s name
  | _ => false
  end.

(** [list.includes(name)], whatever [list] is: an array compares its elements
    with the name, a string looks for the name inside itself, and anything
    else has no such method. *)
Definition value_includes (list : JSON) (name : string) : Outcome bool :=
  match list with
  | JArr items => Resolved (existsb (is_name name) items)
  | JStr s => Resolved (includes name s)
  | _ => Rejected (TypeError "includes is not a function")
  end.

(** [user?.[key]?.includes(name) ?? false]. *)
Definition has (key : string) (user : option JSON) (name : string) : Outcome bool :=
  match optional_prop user key with
  | None | Some JNull => Resolved false
  | Some list => value_includes list name
  end.

(** [names.some(test)] and [names.every(test)], with a test that may throw. *)
Fixpoint some (test : string -> Outcome bool) (names : list string) : Outcome bool :=
  match names with
  | [] => Resolved false
  | name :: rest =>
      match test name with
      | Resolved true => Resolved true
      | Resolved false => some test rest
      | Rejected e => Rejected e
      end
  end.

Fixpoint every (test : string -> Outcome bool) (names : list string) : Outcome bool :=
  match names with
  | [] => Resolved true
  | name :: rest =>
      match test name with
      | Resolved true => every test rest
      | Resolved false => Resolved false
      | Rejected e => Rejected e
      end
  end.

(** [if (!user?.[key]) return false; return names.some(...)]. *)
Definition has_any (key : string) (user : option JSON) (names : list string) : Outcome bool :=
  match optional_prop user key with
  | None => Resolved false
  | Some list =>
      if negb (truthy list) then Resolved false
      else some (value_includes list) names
  end.

Definition has_all (key : string) (user : option JSON) (names : list string) : Outcome bool :=
  match optional_prop user key with
  | None => Resolved false
  | Some list =>
      if negb (truthy list) then Resolved false
      else every (value_includes list) names
  end.

Definition useHasRole := has "roles".
Definition useHasPermission := has "permissions".
Definition useHasAnyRole := has_any "roles".
Definition useHasAllRoles := has_all "roles".
Definition useHasAnyPermission := has_any "permissions".
Definition useHasAllPermissions := has_all "permissions".

End useAuth.

(* ================================================================== *)
(** * [route-guard.tsx]                                                *)
(* ================================================================== *)

Module RouteGuard.

(** The properties of the guard; [fallback] tells whether a fallback node
    is given. *)
Record Props : Type := mkProps {
  requiresAuth : bool;
  permissions : option (list string);
  roles : option (list string);
  requireAll : bool;
  redirectTo : option string;
  fallback : bool;
}.

Inductive Rendered : Type := Spinner | Nothing | Fallback | Children.

Inductive Navigation : Type :=
| Replace (path : string) (returnUrl : string)
| NavigateToLogin (returnUrl : string).

Section Permission.

(** The checks of the permission context. *)
Variable hasAnyPermission hasAllPermissions hasAnyRole hasAllRoles : list string -> bool.

Definition non_empty (names : option (list string)) : bool :=
  match names with
  | Some (_ :: _) => true
  | _ => false
  end.

Definition hasAccess (p : Props) : bool :=
  let byPermission :=
    if non_empty (permissions p)
    then if requireAll p then hasAllPermissions (default [] (permissions p))
         else hasAnyPermission (default [] (permissions p))
    else true in
  if byPermission && non_empty (roles p)
  then if requireAll p then hasAllRoles (default [] (roles p))
       else hasAnyRole (default [] (roles p))
  else byPermission.

(** What the guard renders, and whether it logs the warning "User does not
    have required permissions" on the way. *)
Definition render (s : Session) (p : Props) : Rendered * bool :=
  let isAuthenticated := AuthContext.isAuthenticated s in
  let isLoading := AuthContext.isLoading s in
  if isLoading then (Spinner, false)
  else if requiresAuth p && negb isAuthenticated then (Nothing, false)
  else if isAuthenticated
          && (bool_decide (is_Some (permissions p)) || bool_decide (is_Some (roles p)))
  then if negb (hasAccess p)
       then (if fallback p then Fallback else Nothing, true)
       else (Children, false)
  else (Children, false).

(** What its effect does: where it sends the user, if anywhere (with the
    line "User not authenticated, redirecting to login" in the log). *)
Definition redirect (s : Session) (p : Props) (currentPath : string) : option Navigation :=
  let isAuthenticated := AuthContext.isAuthenticated s in
  let isLoading := AuthContext.isLoading s in
  if requiresAuth p && negb isLoading && negb isAuthenticated
  then Some (if truthy_str (redirectTo p)
             then Replace (default "" (redirectTo p)) currentPath
             else NavigateToLogin currentPath)
  else None.

End Permission.
End RouteGuard.

(** The application started again at time [later] on the device as [w]
    leaves it: same stores, a new session, nothing logged yet. *)
Definition restarted (later : Z) (w : World) : World :=
  {| device := device w; env := env (at_time later w);
     session := initial_session; trace := [] |}.

(* ================================================================== *)
(** * The auth service on its own HTTP client                          *)
(* ================================================================== *)

(** The HTTP client of the auth service is the intercepted axios instance,
    and the constructor of the service registers the service's own
    [refreshToken] and [logout] with the interceptors: a request answered 401
    calls back into the service, which makes a request of its own, and so on.
    Such a promise may never settle, so here a promise is a computation that
    may have no result: [None] stands for one that is still pending. *)
Definition Promise (A : Type) : Type := World -> option (Outcome A * World).

#[global] Instance Promise_ret : MRet Promise := fun A a w => Some (Resolved a, w).

#[global] Instance Promise_bind : MBind Promise := fun A B f m w =>
  match m w with
  | Some (Resolved a, w1) => f a w1
  | Some (Rejected e, w1) => Some (Rejected e, w1)
  | None => None
  end.

(** A computation that always settles, as a promise. *)
Definition await {A : Type} (m : M A) : Promise A := fun w => Some (m w).

(** [try { m } catch (e) { h e }], around promises. *)
Definition try_await {A : Type} (m : Promise A) (h : JsError -> Promise A) : Promise A :=
  fun w =>
    match m w with
    | Some (Resolved a, w1) => Some (Resolved a, w1)
    | Some (Rejected e, w1) => h e w1
    | None => None
    end.

Definition pending {A : Type} : Promise A := fun _ => None.

(** What the declared types of the responses leave open.  [http.post<T>]
    asserts the type [T] of the body without checking it.  [saveToken] and
    [saveUser] are embedded for the bodies that have the declared shape, and
    for [null] and [undefined] as far as the code decides; what the storage
    libraries do when they are handed a value that is not a string is not in
    this repository.  It is left open: whether the calls reject, what the
    stores hold afterwards, and the lines written to the console. *)
Definition Unspecified : Type := Device -> Env -> Outcome unit * Env * list Event.

Definition unspecified (o : Unspecified) : M unit := fun w =>
  let '(r, v, t) := o (device w) (env w) in
  (r, with_trace (t ++ trace w)%list (with_env v w)).

Record Untyped : Type := mkUntyped {
  (* the storage calls of [saveToken] on a value that is not a [TokenInfo] *)
  saveToken_untyped : JSON -> Unspecified;
  (* [cacheStorage.setObject(key, undefined)] *)
  setObject_undefined : Unspecified;
}.

(** Libraries that refuse such values. *)
Definition untyped_refused : Untyped :=
  {| saveToken_untyped := fun _ _ v => (Rejected (TypeError "Invalid value"), v, []);
     setObject_undefined := fun _ v => (Rejected (TypeError "Invalid value"), v, []) |}.

(** The fields of a [TokenInfo] in a body that has them with their declared
    types; a field that is optional may be absent or [null]. *)
Definition optional_string (v : option JSON) : option (option string) :=
  match v with
  | None | Some JNull => Some None
  | Some (JStr s) => Some (Some s)
  | Some _ => None
  end.

Definition optional_integer (v : option JSON) : option (option Z) :=
  match v with
  | None | Some JNull => Some None
  | Some (JNum n) => Some (Some n)
  | Some _ => None
  end.

Definition TokenInfo_of (v : JSON) : option TokenInfo :=
  match v with
  | JObj fields =>
      match assoc "accessToken" fields with
      | Some (JStr access) =>
          refresh ← optional_string (assoc "refreshToken" fields);
          expires ← optional_integer (assoc "expiresIn" fields);
          type ← optional_string (assoc "tokenType" fields);
          Some {| accessToken := access; refreshToken := refresh;
                  expiresIn := expires; tokenType := type |}
      | _ => None
      end
  | _ => None
  end.

Module Wired.

(** ** [auth-storage.ts] on the bodies of responses *)
Module authStorage.
Section Untyped.

Variable untyped : Untyped.

(** [saveToken(tokenInfo)]: on [null] and [undefined] the first property
    access throws inside the [try]. *)
Definition saveToken (tokenInfo : option JSON) : M unit :=
  match tokenInfo with
  | None | Some JNull =>
      try_catch
        (interceptors.get_prop_opt tokenInfo "accessToken";; mret tt)
        (fun error =>
           logger.error "Failed to save token" "AuthStorage";;
           throw error)
  | Some v =>
      match TokenInfo_of v with
      | Some typed => authStorage.saveToken typed
      | None =>
          try_catch
            (unspecified (saveToken_untyped untyped v);;
             logger.debug "Token saved successfully" "AuthStorage")
            (fun error =>
               logger.error "Failed to save token" "AuthStorage";;
               throw error)
      end
  end.

(** [saveUser(user)]: on [undefined] the property access [user.id] throws
    after the write. *)
Definition saveUser (user : option JSON) : M unit :=
  match user with
  | Some u => authStorage.saveUser u
  | None =>
      try_catch
        (unspecified (setObject_undefined untyped);;
         interceptors.get_prop_opt None "id";;
         logger.debug "User info saved successfully" "AuthStorage")
        (fun error =>
           logger.error "Failed to save user info" "AuthStorage";;
           throw error)
  end.

End Untyped.
End authStorage.

(** ** [interceptors.ts], with the registrations of the auth service *)
Module interceptors.
Section Registered.

(** The adapter behind the axios instance. *)
Variable transport : Config -> Oracle AxiosResponse.
(** [tokenRefresher] and [logoutHandler], as [setupNetworkInterceptors] sets
    them; [tokenGetter] is [authStorage.getAccessToken]. *)
Variable tokenRefresher logoutHandler : Promise unit.
(** [axios.request], the instance itself. *)
Variable axios_request : Config -> Promise AxiosResponse.

Definition request_onFulfilled (config : Config) : M Config :=
  now ← Date_now;
  token ← (emit (Invoked TokenGetter);; authStorage.getAccessToken);
  let headers1 :=
    if truthy_str token
    then <["Authorization" := "Bearer " +:+ default "" token]> (cfg_headers config)
    else cfg_headers config in
  let headers2 :=
    <["Content-Type" :=
        if truthy_str (headers1 !! "Content-Type")
        then default "" (headers1 !! "Content-Type")
        else "application/json"]> headers1 in
  let config' :=
    {| cfg_method := cfg_method config; cfg_url := cfg_url config;
       cfg_headers := headers2; cfg_data := cfg_data config;
       requestStartTime := Some now |} in
  logger.debug ("Request: " +:+ interceptors.describe config') "NetworkInterceptor";;
  mret config'.

Definition response_onRejected (error : JsError) : Promise interceptors.Verdict :=
  networkError ← await (handleNetworkError error);
  if shouldReLogin networkError then
    await (logger.info "Token expired, attempting to refresh..." "NetworkInterceptor");;
    try_await
      (await (emit (Invoked TokenRefresher));;
       tokenRefresher;;
       await (logger.info "Token refreshed, retrying request..." "NetworkInterceptor");;
       mret (interceptors.Replay (interceptors.error_config error)))
      (fun refreshError =>
         await (logger.error "Token refresh failed:" "NetworkInterceptor");;
         await (emit (Invoked LogoutHandler));;
         logoutHandler;;
         mret (interceptors.GiveUp networkError))
  else mret (interceptors.GiveUp networkError).

(** [instance.request(config)]: the request handler, the adapter, then one of
    the two response handlers; the replay is a call of the instance. *)
Definition instance_request (config : Config) : Promise AxiosResponse := fun w =>
  match (config' ← request_onFulfilled config;
         interceptors.dispatchRequest transport config') w with
  | (Resolved response, w1) => Some (interceptors.response_onFulfilled response w1)
  | (Rejected error, w1) =>
      match response_onRejected error w1 with
      | Some (Resolved (interceptors.Replay config'), w2) => axios_request config' w2
      | Some (Resolved (interceptors.GiveUp networkError), w2) =>
          Some (Rejected (NetErr networkError), w2)
      | Some (Rejected e, w2) => Some (Rejected e, w2)
      | None => None
      end
  end.

End Registered.
End interceptors.

(** ** [http-client.ts] *)
Module http.
Section Instance.

(** [this.instance.request]. *)
Variable instance : Config -> Promise AxiosResponse.

Definition request (config : Config) : Promise (option JSON) :=
  try_await
    (response ← instance config;
     await (interceptors.get_prop_opt (resp_data response) "data"))
    (fun error =>
       networkError ← await (handleNetworkError error);
       await (throw (NetErr networkError))).

Definition get (url : string) : Promise (option JSON) :=
  request {| cfg_method := Some "GET"; cfg_url := Some url; cfg_headers := ∅;
             cfg_data := None; requestStartTime := None |}.

Definition post (url : string) (data : option JSON) : Promise (option JSON) :=
  request {| cfg_method := Some "POST"; cfg_url := Some url; cfg_headers := ∅;
             cfg_data := data; requestStartTime := None |}.

Definition put (url : string) (data : option JSON) : Promise (option JSON) :=
  request {| cfg_method := Some "PUT"; cfg_url := Some url; cfg_headers := ∅;
             cfg_data := data; requestStartTime := None |}.

End Instance.
End http.

(** ** [auth-service.ts] *)
Module authService.
Section Client.

Variable untyped : Untyped.
Variable instance : Config -> Promise AxiosResponse.

Definition http_get (url : string) : Promise (option JSON) :=
  await (emit (HttpCall "GET" url));; http.get instance url.

Definition http_post (url : string) (data : option JSON) : Promise (option JSON) :=
  await (emit (HttpCall "POST" url));; http.post instance url data.

Definition http_put (url : string) (data : option JSON) : Promise (option JSON) :=
  await (emit (HttpCall "PUT" url));; http.put instance url data.

(** The parameters as the body of the request: an optional property is
    there when it was given. *)
Definition optional_property (k : string) (v : option JSON) : list (string * JSON) :=
  match v with
  | Some x => [(k, x)]
  | None => []
  end.

Definition LoginParams_json (params : LoginParams) : JSON :=
  JObj ([("username", JStr (lp_username params)); ("password", JStr (lp_password params))]
        ++ optional_property "captcha" (JStr <$> lp_captcha params)
        ++ optional_property "remember" (JBool <$> lp_remember params))%list.

Definition RegisterParams_json (params : RegisterParams) : JSON :=
  JObj ([("username", JStr (rp_username params)); ("password", JStr (rp_password params))]
        ++ optional_property "email" (JStr <$> rp_email params)
        ++ optional_property "phone" (JStr <$> rp_phone params)
        ++ optional_property "captcha" (JStr <$> rp_captcha params))%list.

(** The lines of [login] and [register] after the request. *)
Definition sign_in (success : string) (response : option JSON) : M (option JSON) :=
  token ← interceptors.get_prop_opt response "token";
  authStorage.saveToken untyped token;;
  user ← interceptors.get_prop_opt response "user";
  authStorage.saveUser untyped user;;
  interceptors.get_prop_opt user "id";;
  logger.info success "AuthService";;
  mret user.

Definition login (params : LoginParams) : Promise (option JSON) :=
  try_await
    (await (logger.info "Attempting login" "AuthService");;
     response ← http_post API_ENDPOINTS.auth_login (Some (LoginParams_json params));
     await (sign_in "Login successful" response))
    (fun error =>
       await (logger.error "Login failed" "AuthService");;
       await (errorTracker.trackApiError "登录失败");;
       await (throw error)).

Definition logout : Promise unit :=
  try_await
    (await (logger.info "Attempting logout" "AuthService");;
     try_await
       (http_post API_ENDPOINTS.auth_logout None;; mret tt)
       (fun error =>
          await (logger.warn "Logout API call failed, continuing with local cleanup"
                   "AuthService"));;
     await authStorage.clearAll;;
     await (logger.info "Logout successful" "AuthService"))
    (fun error =>
       await (logger.error "Logout failed" "AuthService");;
       await (errorTracker.trackApiError "登出失败");;
       await (throw error)).

Definition register (params : RegisterParams) : Promise (option JSON) :=
  try_await
    (await (logger.info "Attempting registration" "AuthService");;
     response ← http_post API_ENDPOINTS.auth_register (Some (RegisterParams_json params));
     await (sign_in "Registration successful" response))
    (fun error =>
       await (logger.error "Registration failed" "AuthService");;
       await (errorTracker.trackApiError "注册失败");;
       await (throw error)).

Definition refreshToken : Promise unit :=
  try_await
    (await (logger.info "Attempting to refresh token" "AuthService");;
     refreshToken ← await authStorage.getRefreshToken;
     if negb (truthy_str refreshToken)
     then await (throw (Error "No refresh token available"))
     else
       response ← http_post API_ENDPOINTS.auth_refreshToken
                    (Some (JObj [("refreshToken", JStr (default "" refreshToken))]));
       await (authStorage.saveToken untyped response);;
       await (logger.info "Token refreshed successfully" "AuthService"))
    (fun error =>
       await (logger.error "Token refresh failed" "AuthService");;
       await (errorTracker.trackApiError "Token刷新失败");;
       await authStorage.clearAll;;
       await (throw error)).

Definition getCurrentUser : Promise (option JSON) :=
  try_await
    (localUser ← await authStorage.getUser;
     if negb (truthy localUser) then mret (Some JNull)
     else
       try_await
         (serverUser ← http_get USER_ENDPOINTS.user_profile;
          await (authStorage.saveUser untyped serverUser);;
          mret serverUser)
         (fun error =>
            await (logger.warn "Failed to fetch user from server, using cached data"
                     "AuthService");;
            mret (Some localUser)))
    (fun error =>
       await (logger.error "Failed to get current user" "AuthService");;
       mret (Some JNull)).

Definition updateUser (updates : JSON) : Promise (option JSON) :=
  try_await
    (await (logger.info "Attempting to update user" "AuthService");;
     updatedUser ← http_put USER_ENDPOINTS.user_update (Some updates);
     await (authStorage.saveUser untyped updatedUser);;
     await (interceptors.get_prop_opt updatedUser "id");;
     await (logger.info "User updated successfully" "AuthService");;
     mret updatedUser)
    (fun error =>
       await (logger.error "User update failed" "AuthService");;
       await (errorTracker.trackApiError "用户信息更新失败");;
       await (throw error)).

Definition checkAuth : Promise bool :=
  try_await
    (token ← await authStorage.getAccessToken;
     if negb (truthy_str token) then mret false
     else
       isExpired ← await authStorage.isTokenExpired;
       if (isExpired : bool)
       then try_await (refreshToken;; mret true) (fun error => mret false)
       else mret true)
    (fun error =>
       await (logger.error "Auth check failed" "AuthService");;
       mret false).

Definition resetPassword (params : JSON) : Promise unit :=
  try_await
    (await (logger.info "Attempting password reset" "AuthService");;
     http_post USER_ENDPOINTS.auth_resetPassword (Some params);;
     await (logger.info "Password reset successful" "AuthService"))
    (fun error =>
       await (logger.error "Password reset failed" "AuthService");;
       await (errorTracker.trackApiError "密码重置失败");;
       await (throw error)).

End Client.
End authService.

(** ** The instance and the service, wired to each other

    [axios fuel] is the intercepted instance of [http-client.ts] with the
    registrations that the constructor of [AuthService] makes; [fuel] bounds
    the depth to which requests are made from inside the handling of other
    requests, and a request that needs more is still pending. *)
Section Remote.

Variable untyped : Untyped.
Variable transport : Config -> Oracle AxiosResponse.

Fixpoint axios (fuel : nat) : Config -> Promise AxiosResponse :=
  match fuel with
  | O => fun _ => pending
  | S n =>
      interceptors.instance_request transport
        (authService.refreshToken untyped (axios n))
        (authService.logout (axios n))
        (axios n)
  end.

End Remote.

(** ** [auth-context.tsx] *)
Module AuthProvider.
Section Client.

Variable untyped : Untyped.
Variable instance : Config -> Promise AxiosResponse.

Definition initAuth : Promise unit :=
  try_await
    (await (AuthProvider.setStatus LOADING);;
     await (logger.debug "Initializing auth state" "AuthContext");;
     saved ← await (promise_all2 authStorage.getAccessToken authStorage.getUser);
     let '(savedToken, savedUser) := (saved : option string * JSON) in
     if truthy_str savedToken && truthy savedUser then
       isAuthenticated ← authService.checkAuth untyped instance;
       if (isAuthenticated : bool) then
         await (AuthProvider.setToken savedToken);;
         await (AuthProvider.setUser (Some savedUser));;
         await (AuthProvider.setStatus AUTHENTICATED);;
         await (get_prop savedUser "id");;
         await (logger.info "Auth state restored" "AuthContext")
       else
         await authStorage.clearAll;;
         await (AuthProvider.setStatus UNAUTHENTICATED);;
         await (logger.info "Stored token invalid, cleared" "AuthContext")
     else
       await (AuthProvider.setStatus UNAUTHENTICATED);;
       await (logger.debug "No stored auth data found" "AuthContext"))
    (fun error =>
       await (logger.error "Failed to initialize auth" "AuthContext");;
       await (AuthProvider.setStatus UNAUTHENTICATED)).

(** [setUser(user)] with what the service returned: [undefined] is kept as
    no user. *)
Definition login (params : LoginParams) : Promise unit :=
  try_await
    (await (AuthProvider.setStatus LOADING);;
     await (logger.info "Login initiated" "AuthContext");;
     loggedInUser ← authService.login untyped instance params;
     newToken ← await authStorage.getAccessToken;
     await (AuthProvider.setUser loggedInUser);;
     await (AuthProvider.setToken newToken);;
     await (AuthProvider.setStatus AUTHENTICATED);;
     await (interceptors.get_prop_opt loggedInUser "id");;
     await (logger.info "Login successful" "AuthContext"))
    (fun error =>
       await (AuthProvider.setStatus UNAUTHENTICATED);;
       await (logger.error "Login failed" "AuthContext");;
       await (throw error)).

Definition register (params : RegisterParams) : Promise unit :=
  try_await
    (await (AuthProvider.setStatus LOADING);;
     await (logger.info "Registration initiated" "AuthContext");;
     registeredUser ← authService.register untyped instance params;
     newToken ← await authStorage.getAccessToken;
     await (AuthProvider.setUser registeredUser);;
     await (AuthProvider.setToken newToken);;
     await (AuthProvider.setStatus AUTHENTICATED);;
     await (interceptors.get_prop_opt registeredUser "id");;
     await (logger.info "Registration successful" "AuthContext"))
    (fun error =>
       await (AuthProvider.setStatus UNAUTHENTICATED);;
       await (logger.error "Registration failed" "AuthContext");;
       await (throw error)).

Definition logout : Promise unit :=
  try_await
    (await (logger.info "Logout initiated" "AuthContext");;
     authService.logout instance;;
     await (AuthProvider.setUser None);;
     await (AuthProvider.setToken None);;
     await (AuthProvider.setStatus UNAUTHENTICATED);;
     await (logger.info "Logout successful" "AuthContext"))
    (fun error =>
       await (logger.error "Logout failed" "AuthContext");;
       await (AuthProvider.setUser None);;
       await (AuthProvider.setToken None);;
       await (AuthProvider.setStatus UNAUTHENTICATED);;
       await (throw error)).

Definition refreshToken : Promise unit :=
  try_await
    (await (logger.debug "Token refresh initiated" "AuthContext");;
     authService.refreshToken untyped instance;;
     newToken ← await authStorage.getAccessToken;
     await (AuthProvider.setToken newToken);;
     await (logger.info "Token refreshed successfully" "AuthContext"))
    (fun error =>
       await (logger.error "Token refresh failed" "AuthContext");;
       await (AuthProvider.setUser None);;
       await (AuthProvider.setToken None);;
       await (AuthProvider.setStatus UNAUTHENTICATED);;
       await (throw error)).

Definition updateUser (updates : JSON) : Promise unit :=
  try_await
    (await (logger.debug "User update initiated" "AuthContext");;
     updatedUser ← authService.updateUser untyped instance updates;
     await (AuthProvider.setUser updatedUser);;
     await (interceptors.get_prop_opt updatedUser "id");;
     await (logger.info "User updated successfully" "AuthContext"))
    (fun error =>
       await (logger.error "User update failed" "AuthContext");;
       await (throw error)).

End Client.
End AuthProvider.

End Wired.

(** ** Reading promises *)

(** A promise that leaves the device and the session of the provider alone. *)
Definition pframe {A : Type} (p : Promise A) : Prop :=
  forall w r w', p w = Some (r, w') -> device w' = device w /\ session w' = session w.

(** [q] settles as [p] does whenever [p] settles. *)
Definition refines {A : Type} (p q : Promise A) : Prop :=
  forall w r, p w = Some r -> q w = Some r.


(** The world in which the auth service's [logout] makes its request, and
    the one in which the provider's operations call the auth service. *)
Definition logged (level : LogLevel) (message module : string) (w : World) : World :=
  with_trace (Logged level message module :: trace w) w.

(** A computation that only adds to the trace. *)
Definition grows {A : Type} (m : M A) : Prop :=
  forall w, exists t, trace (snd (m w)) = (t ++ trace w)%list.

(** ** Sample values and runs *)

(** A record with a number that is not an integer: 0.1, the double
    3602879701896397 / 2^55. *)
Definition measurement : JSON :=
  JObj [("id", JNum 7); ("ratio", JFloat (Dyadic 3602879701896397 55));
        ("offset", JFloat (Dyadic (-3) 1));
        ("tags", JArr [JStr "a"; JNull; JBool true]); ("name", JStr "Zoë")].




(** What a request answered 500 is rejected with. *)
Definition answered_500 : JsError :=
  NetErr {| ne_type := SERVER_ERROR; ne_message := "服务器内部错误"; ne_code := Some 500 |}.



(** ** The worlds in which the provider's operations make their requests *)

Definition with_status (s : AuthStatus) (w : World) : World :=
  with_session (mkSession s (user (session w)) (token (session w))) w.

Definition login_request_world (w : World) : World :=
  logged INFO "Attempting login" "AuthService"
    (logged INFO "Login initiated" "AuthContext" (with_status LOADING w)).

Definition register_request_world (w : World) : World :=
  logged INFO "Attempting registration" "AuthService"
    (logged INFO "Registration initiated" "AuthContext" (with_status LOADING w)).

Definition logout_request_world (w : World) : World :=
  logged INFO "Attempting logout" "AuthService"
    (logged INFO "Logout initiated" "AuthContext" w).


Definition signed_out : Session :=
  {| status := UNAUTHENTICATED; user := None; token := None |}.

(** Alice's login against a remote end that answers 500. *)
Definition login_request_500 : option (Outcome (option JSON) * World) :=
  Wired.authService.http_post (Wired.axios untyped_refused transport_always_500 1)
    API_ENDPOINTS.auth_login (Some (Wired.authService.LoginParams_json alice_params))
    (login_request_world (world_of sound_device signed_in_env)).

(* ================================================================== *)
(** * Properties                                                       *)
(* ================================================================== *)

#[local] Arguments String.append !s1 s2 : simpl nomatch.

Ltac unfold_monad :=
  unfold mbind, M_bind, mret, M_ret, try_catch, throw, emit, perform,
    console_error, Platform_OS, Date_now, native_get, native_set, native_remove in *.

(** ** Strings *)

Lemma string_app_nil_r (s : string) : s +:+ "" = s.
Proof. induction s as [|c s IH]; cbn [String.append]; [reflexivity | now rewrite IH]. Qed.

Lemma string_app_assoc (s t u : string) : (s +:+ t) +:+ u = s +:+ (t +:+ u).
Proof. induction s as [|c s IH]; cbn [String.append]; [reflexivity | now rewrite IH]. Qed.

(** ** Numbers and their decimal form *)

Lemma read_digits_stop (rest : string) (acc : Z) :
  starts_with_digit rest = false -> read_digits rest acc = (acc, rest).
Proof.
  destruct rest as [|c rest]; [reflexivity|].
  cbn [starts_with_digit read_digits]. intros H.
  destruct (digit_value c); [|reflexivity].
  rewrite bool_decide_eq_false in H. exfalso. apply H. eauto.
Qed.

(** One digit of the printed number is read back into the accumulator. *)
Ltac read_one_digit IH :=
  cbn [NilEmpty.string_of_uint Pos.of_uint_acc Pos.of_uint String.append read_digits];
  match goal with
  | |- context [digit_value ?c] =>
      let d := eval vm_compute in (digit_value c) in
      change (digit_value c) with d
  end;
  cbv iota beta.

Lemma read_digits_uint_acc (u : Decimal.uint) : forall (p : positive) (rest : string),
  starts_with_digit rest = false ->
  read_digits (NilEmpty.string_of_uint u +:+ rest) (Z.pos p)
  = (Z.pos (Pos.of_uint_acc u p), rest).
Proof.
  induction u; intros p rest Hrest.
  1: { cbn [NilEmpty.string_of_uint Pos.of_uint_acc String.append].
       now apply read_digits_stop. }
  all: read_one_digit IHu.
  all: match goal with
       | |- read_digits _ ?a = (Z.pos (Pos.of_uint_acc _ ?q), _) =>
           replace a with (Z.pos q) by lia
       end.
  all: now apply IHu.
Qed.

Lemma read_digits_uint (u : Decimal.uint) : forall rest : string,
  starts_with_digit rest = false ->
  read_digits (NilEmpty.string_of_uint u +:+ rest) 0
  = (Z.of_N (Pos.of_uint u), rest).
Proof.
  induction u; intros rest Hrest.
  1: { cbn [NilEmpty.string_of_uint Pos.of_uint String.append].
       now apply read_digits_stop. }
  1: { read_one_digit IHu. now apply IHu. }
  all: read_one_digit IHu.
  all: match goal with
       | |- read_digits _ ?a = (Z.of_N (N.pos (Pos.of_uint_acc _ ?q)), _) =>
           change a with (Z.pos q)
       end.
  all: now apply read_digits_uint_acc.
Qed.

Lemma string_of_uint_head (u : Decimal.uint) :
  u <> Decimal.Nil ->
  exists c r, NilEmpty.string_of_uint u = String c r /\ is_Some (digit_value c).
Proof.
  destruct u; [congruence|..]; intros _; cbn [NilEmpty.string_of_uint];
    eexists _, _; (split; [reflexivity|]); vm_compute; eauto.
Qed.

Lemma digit_is_plain (c : ascii) :
  is_Some (digit_value c) ->
  is_white_space c = false /\ c <> "-"%char /\ c <> "+"%char /\ c <> "0"%char
  \/ c = "0"%char.
Proof.
  intros [d Hd]. revert Hd.
  destruct c as [[] [] [] [] [] [] [] []]; vm_compute; try discriminate;
    intros _; first [right; reflexivity | left; repeat split; discriminate].
Qed.

Lemma parseInt_unsigned (s : string) :
  starts_with_digit s = true -> parseInt s = Some (fst (read_digits s 0)).
Proof.
  destruct s as [|c r]; [discriminate|].
  cbn [starts_with_digit]. rewrite bool_decide_eq_true. intros Hc.
  assert (Hstart : starts_with_digit (String c r) = true)
    by (cbn [starts_with_digit]; now rewrite bool_decide_eq_true).
  unfold parseInt.
  destruct (digit_is_plain c Hc) as [(Hws & Hm & Hp & _)| ->].
  - cbn [trim_start]. rewrite Hws.
    destruct c as [[] [] [] [] [] [] [] []]; try congruence;
      unfold unsigned_prefix; now rewrite Hstart.
  - cbn [trim_start]. change (is_white_space "0") with false. cbv iota.
    unfold unsigned_prefix. now rewrite Hstart.
Qed.

Lemma unsigned_prefix_uint (u : Decimal.uint) :
  u <> Decimal.Nil ->
  unsigned_prefix (NilEmpty.string_of_uint u) = Some (Z.of_N (Pos.of_uint u)).
Proof.
  intros Hu. destruct (string_of_uint_head u Hu) as (c & r & Hs & Hc).
  unfold unsigned_prefix.
  assert (Hstart : starts_with_digit (NilEmpty.string_of_uint u) = true)
    by (rewrite Hs; cbn [starts_with_digit]; now rewrite bool_decide_eq_true).
  rewrite Hstart.
  rewrite <- (string_app_nil_r (NilEmpty.string_of_uint u)) at 1.
  now rewrite read_digits_uint.
Qed.

Lemma parseInt_uint (u : Decimal.uint) :
  u <> Decimal.Nil ->
  parseInt (NilEmpty.string_of_uint u) = Some (Z.of_N (Pos.of_uint u)).
Proof.
  intros Hu. destruct (string_of_uint_head u Hu) as (c & r & Hs & Hc).
  rewrite parseInt_unsigned.
  - pose proof (unsigned_prefix_uint u Hu) as H. unfold unsigned_prefix in H.
    destruct (starts_with_digit _); [exact H | discriminate].
  - rewrite Hs. cbn [starts_with_digit]. now rewrite bool_decide_eq_true.
Qed.

(** [parseInt] reads back what [toString] printed. *)
Lemma parseInt_Number_toString (n : Z) : parseInt (Number_toString n) = Some n.
Proof.
  unfold Number_toString. destruct n as [|p|p]; [reflexivity|..];
    cbn [Z.to_int NilZero.string_of_int];
    pose proof (DecimalPos.Unsigned.to_uint_nonnil p) as Hnil;
    assert (Hs : NilZero.string_of_uint (Pos.to_uint p)
                 = NilEmpty.string_of_uint (Pos.to_uint p))
      by (destruct (Pos.to_uint p); [congruence | reflexivity..]);
    rewrite Hs.
  - rewrite parseInt_uint by assumption. now rewrite DecimalPos.Unsigned.of_to.
  - unfold parseInt. cbn [trim_start]. 
    change (is_white_space "-") with false. cbv iota.
    rewrite unsigned_prefix_uint by assumption.
    now rewrite DecimalPos.Unsigned.of_to.
Qed.

(** ** The storage services, operation by operation *)

Lemma cache_getItem_eq (key : string) (w : World) :
  cacheStorage.getItem key w =
  if faulty (device w) AsyncStorage OpGet key
  then (Resolved None,
        with_trace (ConsoleError ("[CacheStorage] Error reading " +:+ key +:+ ":") :: trace w) w)
  else (Resolved (asyncStorage (env w) !! key), w).
Proof.
  unfold cacheStorage.getItem. unfold_monad.
  destruct (faulty _ _ _ _); reflexivity.
Qed.

Lemma secure_getItem_eq (key : string) (w : World) :
  secureStorage.getItem key w =
  if faulty (device w) (secureStorage.backend (platform (device w))) OpGet key
  then (Resolved None,
        with_trace (ConsoleError ("[SecureStorage] Error reading " +:+ key +:+ ":") :: trace w) w)
  else (Resolved (store_of (secureStorage.backend (platform (device w))) (env w) !! key), w).
Proof.
  unfold secureStorage.getItem. unfold_monad.
  destruct (platform (device w)); cbn [secureStorage.backend];
    destruct (faulty _ _ _ _); reflexivity.
Qed.

Lemma cache_setItem_eq (key value : string) (w : World) :
  cacheStorage.setItem key value w =
  if faulty (device w) AsyncStorage OpSet key
  then (Rejected (NativeError AsyncStorage OpSet key),
        with_trace (ConsoleError ("[CacheStorage] Error saving " +:+ key +:+ ":") :: trace w) w)
  else (Resolved tt,
        with_env (with_store AsyncStorage (<[key := value]> (asyncStorage (env w))) (env w)) w).
Proof.
  unfold cacheStorage.setItem. unfold_monad.
  destruct (faulty _ _ _ _); reflexivity.
Qed.

Lemma secure_setItem_eq (key value : string) (w : World) :
  secureStorage.setItem key value w =
  let b := secureStorage.backend (platform (device w)) in
  if faulty (device w) b OpSet key
  then (Rejected (NativeError b OpSet key),
        with_trace (ConsoleError ("[SecureStorage] Error saving " +:+ key +:+ ":") :: trace w) w)
  else (Resolved tt, with_env (with_store b (<[key := value]> (store_of b (env w))) (env w)) w).
Proof.
  unfold secureStorage.setItem. unfold_monad.
  destruct (platform (device w)); cbn [secureStorage.backend];
    destruct (faulty _ _ _ _); reflexivity.
Qed.

Lemma cache_removeItem_eq (key : string) (w : World) :
  cacheStorage.removeItem key w =
  if faulty (device w) AsyncStorage OpRemove key
  then (Rejected (NativeError AsyncStorage OpRemove key),
        with_trace (ConsoleError ("[CacheStorage] Error removing " +:+ key +:+ ":") :: trace w) w)
  else (Resolved tt,
        with_env (with_store AsyncStorage (delete key (asyncStorage (env w))) (env w)) w).
Proof.
  unfold cacheStorage.removeItem. unfold_monad.
  destruct (faulty _ _ _ _); reflexivity.
Qed.

Lemma secure_removeItem_eq (key : string) (w : World) :
  secureStorage.removeItem key w =
  let b := secureStorage.backend (platform (device w)) in
  if faulty (device w) b OpRemove key
  then (Rejected (NativeError b OpRemove key),
        with_trace (ConsoleError ("[SecureStorage] Error removing " +:+ key +:+ ":") :: trace w) w)
  else (Resolved tt, with_env (with_store b (delete key (store_of b (env w))) (env w)) w).
Proof.
  unfold secureStorage.removeItem. unfold_monad.
  destruct (platform (device w)); cbn [secureStorage.backend];
    destruct (faulty _ _ _ _); reflexivity.
Qed.




(** ** Token expiry *)

Lemma isTokenExpired_eq (w : World) :
  authStorage.isTokenExpired w =
  if faulty (device w) AsyncStorage OpGet STORAGE_KEYS.TOKEN_EXPIRE_TIME
  then (Resolved false,
        with_trace (ConsoleError ("[CacheStorage] Error reading "
                                  +:+ STORAGE_KEYS.TOKEN_EXPIRE_TIME +:+ ":") :: trace w) w)
  else (Resolved
          (match asyncStorage (env w) !! STORAGE_KEYS.TOKEN_EXPIRE_TIME with
           | Some text =>
               match parseInt text with
               | Some t => negb (String.eqb text "") && (clock (env w) >=? t - 5 * 60 * 1000)
               | None => false
               end
           | None => false
           end), w).
Proof.
  unfold authStorage.isTokenExpired, try_catch, mbind, M_bind.
  rewrite cache_getItem_eq.
  destruct (faulty _ _ _ _); [reflexivity|].
  destruct (asyncStorage (env w) !! _) as [text|]; [|reflexivity].
  change (default "" (Some text)) with text.
  cbn [truthy_str]. destruct (String.eqb_spec text "") as [->|Hne].
  - reflexivity.
  - cbn [negb]. unfold_monad. destruct (parseInt text); reflexivity.
Qed.

(** C3. With the expiry record [storedExpiry] in store, [isTokenExpired]
    answers true exactly when [now >= storedExpiry - 5 min]; with no record, or
    when the read fails, it answers false. *)
Theorem isTokenExpired_five_minute_buffer :
  forall (w : World) (storedExpiry : Z),
    (faulty (device w) AsyncStorage OpGet STORAGE_KEYS.TOKEN_EXPIRE_TIME = false ->
     asyncStorage (env w) !! STORAGE_KEYS.TOKEN_EXPIRE_TIME
       = Some (Number_toString storedExpiry) ->
     exists b : bool,
       settles_with (authStorage.isTokenExpired w) b
       /\ (b = true <-> clock (env w) >= storedExpiry - 5 * 60 * 1000))
    /\ (asyncStorage (env w) !! STORAGE_KEYS.TOKEN_EXPIRE_TIME = None
        \/ faulty (device w) AsyncStorage OpGet STORAGE_KEYS.TOKEN_EXPIRE_TIME = true ->
        settles_with (authStorage.isTokenExpired w) false).
Proof.
  intros w storedExpiry. split.
  - intros Hok Hstored. unfold settles_with. rewrite isTokenExpired_eq, Hok, Hstored.
    rewrite parseInt_Number_toString.
    assert (Hne : String.eqb (Number_toString storedExpiry) "" = false).
    { apply String.eqb_neq. intros Heq.
      pose proof (parseInt_Number_toString storedExpiry) as Hp.
      rewrite Heq in Hp. discriminate. }
    rewrite Hne. cbn [negb andb fst].
    eexists; split; [reflexivity|].
    rewrite Z.geb_le. lia.
  - intros [Hnone|Hfault]; unfold settles_with; rewrite isTokenExpired_eq.
    + destruct (faulty _ _ _ _); [reflexivity|]. now rewrite Hnone.
    + now rewrite Hfault.
Qed.

(** ** What no operation below the provider touches

    The storage services, the auth storage and the auth service leave the
    device and the session as they are: they act on the stores and write to
    the trace. *)

Definition frame {A : Type} (m : M A) : Prop :=
  forall w, device (snd (m w)) = device w /\ session (snd (m w)) = session w.

Lemma frame_ret {A : Type} (a : A) : frame (mret a : M A).
Proof. intros w. now split. Qed.

Lemma frame_throw {A : Type} (e : JsError) : frame (throw e : M A).
Proof. intros w. now split. Qed.

Lemma frame_emit (ev : Event) : frame (emit ev).
Proof. intros w. now split. Qed.

Lemma frame_perform {A : Type} (o : Oracle A) : frame (perform o).
Proof. intros w. unfold perform. destruct (o (env w)). now split. Qed.

Lemma frame_bind {A B : Type} (m : M A) (f : A -> M B) :
  frame m -> (forall a, frame (f a)) -> frame (m ≫= f).
Proof.
  intros Hm Hf w. unfold mbind, M_bind. specialize (Hm w).
  destruct (m w) as [[a|e] w1]; cbn [snd] in *; [|exact Hm].
  destruct (Hf a w1) as [Hd Hs]. destruct Hm as [Hd1 Hs1]. split; congruence.
Qed.

Lemma frame_try_catch {A : Type} (m : M A) (h : JsError -> M A) :
  frame m -> (forall e, frame (h e)) -> frame (try_catch m h).
Proof.
  intros Hm Hh w. unfold try_catch. specialize (Hm w).
  destruct (m w) as [[a|e] w1]; cbn [snd] in *; [exact Hm|].
  destruct (Hh e w1) as [Hd Hs]. destruct Hm as [Hd1 Hs1]. split; congruence.
Qed.

Lemma frame_promise_all2 {A B : Type} (m1 : M A) (m2 : M B) :
  frame m1 -> frame m2 -> frame (promise_all2 m1 m2).
Proof.
  intros H1 H2 w. unfold promise_all2. specialize (H1 w).
  destruct (m1 w) as [r1 w1]. specialize (H2 w1).
  destruct (m2 w1) as [r2 w2]. cbn [snd] in *.
  destruct H1, H2. destruct r1, r2; cbn [snd]; split; congruence.
Qed.

Lemma frame_native_get (b : Backend) (k : string) : frame (native_get b k).
Proof. intros w. unfold native_get. destruct (faulty _ _ _ _); now split. Qed.

Lemma frame_native_set (b : Backend) (k v : string) : frame (native_set b k v).
Proof. intros w. unfold native_set. destruct (faulty _ _ _ _); now split. Qed.

Lemma frame_native_remove (b : Backend) (k : string) : frame (native_remove b k).
Proof. intros w. unfold native_remove. destruct (faulty _ _ _ _); now split. Qed.

Lemma frame_Platform_OS : frame Platform_OS.
Proof. intros w. now split. Qed.

Lemma frame_Date_now : frame Date_now.
Proof. intros w. now split. Qed.

Lemma frame_get_prop (v : JSON) (k : string) : frame (get_prop v k).
Proof. destruct v; intros w; now split. Qed.

Create HintDb frame.
#[local] Hint Resolve frame_ret frame_throw frame_emit frame_perform frame_native_get
  frame_native_set frame_native_remove frame_Platform_OS frame_Date_now
  frame_get_prop : frame.

Ltac frame_step :=
  first
    [ apply frame_bind; [|intros ?]
    | apply frame_try_catch; [|intros ?]
    | apply frame_promise_all2
    | solve [auto with frame]
    | match goal with
      | |- frame (match ?x with _ => _ end) => destruct x
      | |- frame (let _ := _ in _) => cbv zeta
      end ].

Ltac solve_frame := repeat frame_step.

Lemma frame_cache_setItem k v : frame (cacheStorage.setItem k v).
Proof. unfold cacheStorage.setItem, console_error. solve_frame. Qed.
Lemma frame_cache_getItem k : frame (cacheStorage.getItem k).
Proof. unfold cacheStorage.getItem, console_error. solve_frame. Qed.
Lemma frame_cache_removeItem k : frame (cacheStorage.removeItem k).
Proof. unfold cacheStorage.removeItem, console_error. solve_frame. Qed.
#[local] Hint Resolve frame_cache_setItem frame_cache_getItem frame_cache_removeItem : frame.

Lemma frame_cache_setObject k v : frame (cacheStorage.setObject k v).
Proof. unfold cacheStorage.setObject, console_error. solve_frame. Qed.
Lemma frame_cache_getObject k : frame (cacheStorage.getObject k).
Proof. unfold cacheStorage.getObject, console_error. solve_frame. Qed.

Lemma frame_secure_setItem k v : frame (secureStorage.setItem k v).
Proof. unfold secureStorage.setItem, console_error. solve_frame. Qed.
Lemma frame_secure_getItem k : frame (secureStorage.getItem k).
Proof. unfold secureStorage.getItem, console_error. solve_frame. Qed.
Lemma frame_secure_removeItem k : frame (secureStorage.removeItem k).
Proof. unfold secureStorage.removeItem, console_error. solve_frame. Qed.
#[local] Hint Resolve frame_cache_setObject frame_cache_getObject frame_secure_setItem
  frame_secure_getItem frame_secure_removeItem : frame.

Lemma frame_saveToken t : frame (authStorage.saveToken t).
Proof. unfold authStorage.saveToken, logger.debug, logger.error. solve_frame. Qed.
Lemma frame_getAccessToken : frame authStorage.getAccessToken.
Proof. unfold authStorage.getAccessToken, logger.error. solve_frame. Qed.
Lemma frame_getRefreshToken : frame authStorage.getRefreshToken.
Proof. unfold authStorage.getRefreshToken, logger.error. solve_frame. Qed.
Lemma frame_isTokenExpired : frame authStorage.isTokenExpired.
Proof. unfold authStorage.isTokenExpired, logger.error. solve_frame. Qed.
Lemma frame_clearToken : frame authStorage.clearToken.
Proof. unfold authStorage.clearToken, logger.debug, logger.error. solve_frame. Qed.
Lemma frame_saveUser u : frame (authStorage.saveUser u).
Proof. unfold authStorage.saveUser, logger.debug, logger.error. solve_frame. Qed.
Lemma frame_getUser : frame authStorage.getUser.
Proof. unfold authStorage.getUser, logger.error. solve_frame. Qed.
Lemma frame_clearUser : frame authStorage.clearUser.
Proof. unfold authStorage.clearUser, logger.debug, logger.error. solve_frame. Qed.
#[local] Hint Resolve frame_saveToken frame_getAccessToken frame_getRefreshToken
  frame_isTokenExpired frame_clearToken frame_saveUser frame_getUser frame_clearUser : frame.

Lemma frame_clearAll : frame authStorage.clearAll.
Proof. unfold authStorage.clearAll, logger.info, logger.error. solve_frame. Qed.
#[local] Hint Resolve frame_clearAll : frame.

Lemma frame_refreshToken http : frame (authService.refreshToken http).
Proof.
  unfold authService.refreshToken, authService.http_post, errorTracker.trackApiError,
    logger.info, logger.error.
  solve_frame.
Qed.
#[local] Hint Resolve frame_refreshToken : frame.

(** ** Clearing the store *)

Lemma stored_cleared (d : Device) (v : Env) (e : Entry) :
  store_of (entry_backend d e) (cleared d v) !! entry_key e = None.
Proof.
  unfold cleared, remove_entry, entry_backend.
  destruct e, (platform d) eqn:Hp;
    cbn [entry_partition partition_backend entry_key]; rewrite ?Hp;
    cbn [secureStorage.backend store_of with_store asyncStorage secureStore localStorage];
    by simplify_map_eq.
Qed.

Lemma clearToken_reliable (w : World) :
  reliable (device w) OpRemove ->
  authStorage.clearToken w =
  (Resolved tt,
   with_trace (Logged DEBUG "Token cleared successfully" "AuthStorage" :: trace w)
     (with_env (remove_entry (device w) TokenExpireAtEntry
                  (remove_entry (device w) RefreshTokenEntry
                     (remove_entry (device w) AccessTokenEntry (env w)))) w)).
Proof.
  intros Hrel.
  pose proof (Hrel AccessTokenEntry) as Ha.
  pose proof (Hrel RefreshTokenEntry) as Hr.
  pose proof (Hrel TokenExpireAtEntry) as He.
  cbn [entry_backend entry_partition partition_backend entry_key] in Ha, Hr, He.
  unfold authStorage.clearToken, try_catch, mbind, M_bind.
  rewrite secure_removeItem_eq. cbv zeta. rewrite Ha.
  rewrite secure_removeItem_eq. cbv zeta. cbn [device with_env]. rewrite Hr.
  rewrite cache_removeItem_eq. cbn [device with_env]. rewrite He.
  reflexivity.
Qed.

Lemma clearAll_reliable (w : World) :
  reliable (device w) OpRemove ->
  authStorage.clearAll w =
  (Resolved tt,
   with_trace ([Logged INFO "All auth data cleared" "AuthStorage";
                Logged DEBUG "User info cleared successfully" "AuthStorage";
                Logged DEBUG "Token cleared successfully" "AuthStorage"] ++ trace w)
     (with_env (cleared (device w) (env w)) w)).
Proof.
  intros Hrel. pose proof (Hrel UserEntry) as Hu.
  cbn [entry_backend entry_partition partition_backend entry_key] in Hu.
  unfold authStorage.clearAll, try_catch, mbind, M_bind, promise_all2.
  rewrite clearToken_reliable by assumption.
  unfold authStorage.clearUser, try_catch, mbind, M_bind.
  rewrite cache_removeItem_eq. cbn [device with_env with_trace]. rewrite Hu.
  reflexivity.
Qed.

Lemma stored_after_clear (d : Device) (v : Env) (s : Session) (t : list Event) (e : Entry) :
  stored (mkWorld d (cleared d v) s t) e = None.
Proof. unfold stored. cbn [device env]. apply stored_cleared. Qed.

Ltac after_clear :=
  cbn [with_trace with_env with_session device env session trace];
  apply stored_after_clear.

(** ** Refresh *)

Lemma getRefreshToken_absent (w : World) :
  stored w RefreshTokenEntry = None ->
  exists t, authStorage.getRefreshToken w = (Resolved None, with_trace (t ++ trace w) w)
            /\ http_calls t = 0%nat.
Proof.
  intros Hnone. unfold authStorage.getRefreshToken, try_catch.
  rewrite secure_getItem_eq.
  destruct (faulty _ _ _ _).
  - eexists [_]. split; reflexivity.
  - exists []. unfold stored in Hnone.
    cbn [entry_backend entry_partition partition_backend entry_key] in Hnone.
    rewrite Hnone. destruct w; split; reflexivity.
Qed.

Lemma http_calls_app (t1 t2 : list Event) :
  http_calls (t1 ++ t2) = (http_calls t1 + http_calls t2)%nat.
Proof.
  induction t1 as [|ev t1 IH]; cbn [http_calls app]; [reflexivity|].
  rewrite IH. lia.
Qed.

(** C10. Invoked while no refresh token is stored, [refreshToken] rejects
    with "No refresh token available" without any call to the HTTP client, and
    the four entries, a still valid access token included, are gone
    afterwards; and whenever [refreshToken] rejects, the four entries are gone.
    (The removals themselves are taken not to fail on this device.) *)
Theorem refreshToken_failure_clears_store :
  forall (http : HttpApi) (w : World),
    reliable (device w) OpRemove ->
    (stored w RefreshTokenEntry = None ->
     exists w',
       authService.refreshToken http w
       = (Rejected (Error "No refresh token available"), w')
       /\ (forall e : Entry, stored w' e = None)
       /\ http_calls (trace w') = http_calls (trace w))
    /\ (forall err w',
          authService.refreshToken http w = (Rejected err, w') ->
          forall e : Entry, stored w' e = None).
Proof.
  intros http w Hrel. split.
  - intros Hnone.
    destruct (getRefreshToken_absent
                (with_trace (Logged INFO "Attempting to refresh token" "AuthService"
                             :: trace w) w)) as (t & Hget & Ht); [exact Hnone|].
    unfold authService.refreshToken, try_catch, logger.info.
    unfold mbind at 1 2, M_bind at 1 2. unfold emit at 1.
    rewrite Hget. cbn [truthy_str negb]. unfold throw at 1.
    unfold errorTracker.trackApiError, logger.error, mbind, M_bind, emit.
    rewrite clearAll_reliable by exact Hrel.
    eexists. split; [reflexivity|]. split.
    + intros e. after_clear.
    + cbn [trace with_trace app http_calls is_http_call].
      rewrite http_calls_app, Ht. reflexivity.
  - intros err w'.
    unfold authService.refreshToken at 1.
    set (body := (logger.info "Attempting to refresh token" "AuthService";; _)).
    assert (Hframe : frame body).
    { subst body. unfold authService.http_post, logger.info. solve_frame. }
    unfold try_catch. specialize (Hframe w).
    destruct (body w) as [[[]|e1] w1]; [discriminate|].
    cbn [snd] in Hframe. destruct Hframe as [Hdev _].
    unfold logger.error, errorTracker.trackApiError, logger.error.
    unfold mbind, M_bind, emit, throw.
    rewrite clearAll_reliable by (cbn [device with_trace]; now rewrite Hdev).
    intros Heq e. injection Heq as _ <-. after_clear.
Qed.

Lemma refreshToken_failure_clears_store_witness :
  reliable (device (world_of sound_device env_without_refresh_token)) OpRemove
  /\ stored (world_of sound_device env_without_refresh_token) AccessTokenEntry = Some "A1"
  /\ stored (world_of sound_device env_without_refresh_token) RefreshTokenEntry = None
  /\ exists w',
       authService.refreshToken http_offline (world_of sound_device env_without_refresh_token)
       = (Rejected (Error "No refresh token available"), w')
       /\ (forall e : Entry, stored w' e = None)
       /\ http_calls (trace w')
          = http_calls (trace (world_of sound_device env_without_refresh_token)).
Proof.
  split; [intros e; reflexivity|].
  split; [reflexivity|]. split; [reflexivity|].
  apply (refreshToken_failure_clears_store
           http_offline (world_of sound_device env_without_refresh_token));
    [intros e|]; reflexivity.
Defined.

(** ** The auth check *)

Lemma getAccessToken_eq (w : World) :
  authStorage.getAccessToken w =
  if faulty (device w) (entry_backend (device w) AccessTokenEntry) OpGet
       (entry_key AccessTokenEntry)
  then (Resolved None,
        with_trace (ConsoleError ("[SecureStorage] Error reading "
                                  +:+ STORAGE_KEYS.AUTH_TOKEN +:+ ":") :: trace w) w)
  else (Resolved (stored w AccessTokenEntry), w).
Proof.
  unfold authStorage.getAccessToken, try_catch. rewrite secure_getItem_eq.
  cbn [entry_backend entry_partition partition_backend entry_key].
  destruct (faulty _ _ _ _); reflexivity.
Qed.



(** ** Login *)

Lemma saveToken_reliable (ti : TokenInfo) (rt : string) (seconds : Z) (w : World) :
  reliable (device w) OpSet ->
  refreshToken ti = Some rt -> rt <> "" ->
  expiresIn ti = Some seconds -> seconds <> 0 ->
  authStorage.saveToken ti w =
  (Resolved tt,
   with_trace (Logged DEBUG "Token saved successfully" "AuthStorage" :: trace w)
     (with_env
        (put_entry (device w) TokenExpireAtEntry
           (Number_toString (clock (env w) + seconds * 1000))
           (put_entry (device w) RefreshTokenEntry rt
              (put_entry (device w) AccessTokenEntry (accessToken ti) (env w)))) w)).
Proof.
  intros Hrel Hrt Hne Hexp Hnz.
  pose proof (Hrel AccessTokenEntry) as Ha.
  pose proof (Hrel RefreshTokenEntry) as Hr.
  pose proof (Hrel TokenExpireAtEntry) as He.
  cbn [entry_backend entry_partition partition_backend entry_key] in Ha, Hr, He.
  unfold authStorage.saveToken, try_catch, mbind, M_bind.
  rewrite secure_setItem_eq. cbv zeta. rewrite Ha.
  rewrite Hrt, Hexp.
  apply String.eqb_neq in Hne. rewrite Hne.
  apply Z.eqb_neq in Hnz. rewrite Hnz.
  rewrite secure_setItem_eq. cbv zeta. cbn [device with_env]. rewrite Hr.
  unfold Date_now. rewrite cache_setItem_eq. cbn [device with_env]. rewrite He.
  unfold put_entry, entry_backend.
  cbn [entry_partition partition_backend entry_key].
  destruct (platform (device w)); reflexivity.
Qed.

Lemma saveUser_reliable (u : JSON) (w : World) :
  reliable (device w) OpSet ->
  u <> JNull ->
  authStorage.saveUser u w =
  (Resolved tt,
   with_trace (Logged DEBUG "User info saved successfully" "AuthStorage" :: trace w)
     (with_env (put_entry (device w) UserEntry (JSON_stringify u) (env w)) w)).
Proof.
  intros Hrel Hu. pose proof (Hrel UserEntry) as Hf.
  cbn [entry_backend entry_partition partition_backend entry_key] in Hf.
  unfold authStorage.saveUser, cacheStorage.setObject, try_catch, mbind, M_bind.
  rewrite cache_setItem_eq. rewrite Hf.
  destruct u; [congruence | reflexivity..].
Qed.

(** Running a computation as far as the next call that is not plumbing. *)
Ltac run :=
  repeat
    (progress
       (unfold mbind, M_bind, mret, M_ret, try_catch, emit, throw, perform, promise_all2,
          logger.info, logger.debug, logger.warn, logger.error,
          errorTracker.trackApiError, console_error, Date_now, Platform_OS,
          AuthProvider.setStatus, AuthProvider.setUser, AuthProvider.setToken,
          authService.http_post;
        cbv beta iota;
        cbn [get_prop assoc device env session trace status user token
             with_trace with_env with_session fst snd negb])).

Lemma stored_put_entries (d : Device) (v : Env) (a r x u : string) :
  let v' := put_entry d UserEntry u
              (put_entry d TokenExpireAtEntry x
                 (put_entry d RefreshTokenEntry r
                    (put_entry d AccessTokenEntry a v))) in
  store_of (partition_backend d Secure) v' !! STORAGE_KEYS.AUTH_TOKEN = Some a
  /\ store_of (partition_backend d Secure) v' !! STORAGE_KEYS.REFRESH_TOKEN = Some r
  /\ store_of (partition_backend d General) v' !! STORAGE_KEYS.TOKEN_EXPIRE_TIME = Some x
  /\ store_of (partition_backend d General) v' !! STORAGE_KEYS.USER_INFO = Some u.
Proof.
  unfold put_entry, entry_backend.
  cbn [entry_partition partition_backend entry_key].
  destruct (platform d);
    cbn [secureStorage.backend store_of with_store asyncStorage secureStore localStorage];
    repeat split; by simplify_map_eq.
Qed.

(** C6. A login answered with alice's record and the token
    [{accessToken: "A1", refreshToken: "R1", expiresIn: 3600}] leaves "A1" and
    "R1" in the secure partition, the expiry [now + 3600 * 1000] (the clock at
    save time) and the serialized user in the general partition, and the
    session Authenticated with that user and that token.  (Writes and reads
    are taken not to fail on this device.) *)
Theorem login_scenario_populates_store_and_session :
  forall (http : HttpApi) (params : LoginParams) (w : World) (v1 : Env),
    reliable (device w) OpSet ->
    reliable (device w) OpGet ->
    post_login http params (env w) = (Resolved alice_login_response, v1) ->
    exists w',
      AuthProvider.login http params w = (Resolved tt, w')
      /\ store_of (partition_backend (device w') Secure) (env w')
           !! STORAGE_KEYS.AUTH_TOKEN = Some "A1"
      /\ store_of (partition_backend (device w') Secure) (env w')
           !! STORAGE_KEYS.REFRESH_TOKEN = Some "R1"
      /\ store_of (partition_backend (device w') General) (env w')
           !! STORAGE_KEYS.TOKEN_EXPIRE_TIME = Some (Number_toString (clock v1 + 3600 * 1000))
      /\ store_of (partition_backend (device w') General) (env w')
           !! STORAGE_KEYS.USER_INFO = Some (JSON_stringify alice)
      /\ settles_with (authStorage.getUser w') alice
      /\ session w' = {| status := AUTHENTICATED; user := Some alice; token := Some "A1" |}.
Proof.
  intros http params w v1 Hset Hget Hpost.
  pose proof (Hget AccessTokenEntry) as Hga.
  unfold AuthProvider.login, authService.login.
  run. rewrite Hpost. run.
  rewrite (saveToken_reliable alice_token "R1" 3600);
    [| exact Hset | reflexivity | discriminate | reflexivity | discriminate].
  run. rewrite saveUser_reliable; [| exact Hset | discriminate].
  change (get_prop (lr_user alice_login_response) "id")
    with (mret (Some (JStr "1")) : M (option JSON)).
  run. rewrite getAccessToken_eq. run. rewrite Hga. run.
  eexists. split; [reflexivity|].
  cbn [device env session].
  change (lr_user alice_login_response) with alice.
  change (accessToken alice_token) with "A1".
  pose proof (stored_put_entries (device w) v1 "A1" "R1"
                (Number_toString (clock v1 + 3600 * 1000))
                (JSON_stringify alice)) as (H1 & H2 & H3 & H4).
  pose proof (Hget UserEntry) as Hgu.
  cbn [entry_backend entry_partition partition_backend entry_key] in Hgu.
  repeat split; try assumption.
  - unfold settles_with, authStorage.getUser, cacheStorage.getObject.
    run. rewrite cache_getItem_eq. run. rewrite Hgu.
    cbn [partition_backend store_of] in H4. rewrite H4. reflexivity.
  - cbn [session with_trace with_session with_env]. f_equal. exact H1.
Qed.

Lemma login_scenario_witness :
  reliable (device (world_of sound_device empty_env)) OpSet
  /\ reliable (device (world_of sound_device empty_env)) OpGet
  /\ post_login http_alice alice_params (env (world_of sound_device empty_env))
     = (Resolved alice_login_response, empty_env)
  /\ exists w',
      AuthProvider.login http_alice alice_params (world_of sound_device empty_env)
      = (Resolved tt, w')
      /\ store_of (partition_backend (device w') Secure) (env w')
           !! STORAGE_KEYS.AUTH_TOKEN = Some "A1"
      /\ store_of (partition_backend (device w') Secure) (env w')
           !! STORAGE_KEYS.REFRESH_TOKEN = Some "R1"
      /\ store_of (partition_backend (device w') General) (env w')
           !! STORAGE_KEYS.TOKEN_EXPIRE_TIME
         = Some (Number_toString (clock empty_env + 3600 * 1000))
      /\ store_of (partition_backend (device w') General) (env w')
           !! STORAGE_KEYS.USER_INFO = Some (JSON_stringify alice)
      /\ settles_with (authStorage.getUser w') alice
      /\ session w' = {| status := AUTHENTICATED; user := Some alice; token := Some "A1" |}.
Proof.
  split; [intros e; reflexivity|].
  split; [intros e; reflexivity|].
  split; [reflexivity|].
  apply (login_scenario_populates_store_and_session
           http_alice alice_params (world_of sound_device empty_env) empty_env);
    [intros e; reflexivity | intros e; reflexivity | reflexivity].
Defined.

(** ** Startup *)

Lemma cache_getObject_eq (key : string) (w : World) :
  cacheStorage.getObject key w =
  if faulty (device w) AsyncStorage OpGet key
  then (Resolved JNull,
        with_trace (ConsoleError ("[CacheStorage] Error reading " +:+ key +:+ ":") :: trace w) w)
  else match asyncStorage (env w) !! key with
       | Some text =>
           if String.eqb text "" then (Resolved JNull, w)
           else match JSON_parse text with
                | Some v => (Resolved v, w)
                | None =>
                    (Resolved JNull,
                     with_trace (ConsoleError ("[CacheStorage] Error reading object "
                                               +:+ key +:+ ":") :: trace w) w)
                end
       | None => (Resolved JNull, w)
       end.
Proof.
  unfold cacheStorage.getObject, try_catch, mbind, M_bind.
  rewrite cache_getItem_eq.
  destruct (faulty _ _ _ _); [reflexivity|].
  destruct (asyncStorage (env w) !! key) as [text|]; [|reflexivity].
  destruct (String.eqb text ""); [reflexivity|].
  destruct (JSON_parse text); reflexivity.
Qed.

Lemma getUser_saved_user (w : World) :
  fst (authStorage.getUser w) = Resolved (saved_user w)
  /\ env (snd (authStorage.getUser w)) = env w
  /\ (truthy (saved_user w) = true ->
      authStorage.getUser w = (Resolved (saved_user w), w)).
Proof.
  unfold authStorage.getUser, try_catch. rewrite cache_getObject_eq.
  unfold saved_user, readable, stored.
  cbn [entry_backend entry_partition partition_backend entry_key store_of].
  destruct (faulty _ _ _ _);
    [repeat split; first [reflexivity | discriminate]|].
  destruct (asyncStorage (env w) !! _) as [text|];
    [|repeat split; first [reflexivity | discriminate]].
  destruct (String.eqb text "");
    [repeat split; first [reflexivity | discriminate]|].
  destruct (JSON_parse text);
    repeat split; first [reflexivity | discriminate | intros _; reflexivity].
Qed.

Lemma getAccessToken_readable (w : World) :
  fst (authStorage.getAccessToken w) = Resolved (readable w AccessTokenEntry)
  /\ env (snd (authStorage.getAccessToken w)) = env w
  /\ (truthy_str (readable w AccessTokenEntry) = true ->
      authStorage.getAccessToken w = (Resolved (readable w AccessTokenEntry), w)).
Proof.
  rewrite getAccessToken_eq. unfold readable.
  destruct (faulty _ _ _ _); repeat split; first [reflexivity | discriminate | intros _; reflexivity].
Qed.

Lemma readable_ext (w1 w2 : World) (e : Entry) :
  device w1 = device w2 -> env w1 = env w2 -> readable w1 e = readable w2 e.
Proof. unfold readable, stored. now intros -> ->. Qed.

Lemma saved_user_ext (w1 w2 : World) :
  device w1 = device w2 -> env w1 = env w2 -> saved_user w1 = saved_user w2.
Proof. intros Hd He. unfold saved_user. now rewrite (readable_ext w1 w2). Qed.

(** The two reads of [initAuth]: what they return, and that they leave the
    world alone when they find something. *)
Lemma initAuth_reads (w : World) :
  exists w2,
    promise_all2 authStorage.getAccessToken authStorage.getUser (loading w)
    = (Resolved (readable w AccessTokenEntry, saved_user w), w2)
    /\ device w2 = device w /\ env w2 = env w
    /\ status (session w2) = LOADING
    /\ (truthy_str (readable w AccessTokenEntry) && truthy (saved_user w) = true ->
        w2 = loading w).
Proof.
  unfold promise_all2.
  pose proof (getAccessToken_readable (loading w)) as (Ht1 & Ht2 & Ht3).
  pose proof (frame_getAccessToken (loading w)) as [Hd1 Hs1].
  destruct (authStorage.getAccessToken (loading w)) as [rt w1].
  cbn [fst snd] in *. subst rt.
  pose proof (getUser_saved_user w1) as (Hu1 & Hu2 & Hu3).
  pose proof (frame_getUser w1) as [Hd2 Hs2].
  destruct (authStorage.getUser w1) as [ru w2].
  cbn [fst snd] in *. subst ru.
  assert (Hdev : device w1 = device w) by (rewrite Hd1; reflexivity).
  assert (Henv : env w1 = env w) by (rewrite Ht2; reflexivity).
  rewrite (saved_user_ext w1 w Hdev Henv) in *.
  change (readable (loading w) AccessTokenEntry) with (readable w AccessTokenEntry) in *.
  exists w2. split; [reflexivity|].
  split; [congruence|]. split; [congruence|].
  split; [rewrite Hs2, Hs1; reflexivity|].
  intros Hboth. apply andb_true_iff in Hboth as [Htok Husr].
  specialize (Ht3 Htok). injection Ht3 as ->.
  specialize (Hu3 Husr). now injection Hu3 as ->.
Qed.

Lemma bind_resolved {A B : Type} (m : M A) (f : A -> M B) (w w1 : World) (a : A) :
  m w = (Resolved a, w1) -> (m ≫= f) w = f a w1.
Proof. unfold mbind, M_bind. now intros ->. Qed.

(** ** The request pipeline *)

Lemma silent_refresh : silent is_refresh.
Proof. repeat split; intros; reflexivity. Qed.
Lemma silent_logout : silent is_logout.
Proof. repeat split; intros; reflexivity. Qed.
Lemma silent_unauthorized_seen : silent is_unauthorized_seen.
Proof. repeat split; intros; reflexivity. Qed.
Lemma silent_replay : silent is_replay.
Proof. repeat split; intros; reflexivity. Qed.

Lemma handleNetworkError_classify (error : JsError) (w : World) :
  exists w1,
    handleNetworkError error w = (Resolved (classify error), w1)
    /\ device w1 = device w /\ env w1 = env w /\ session w1 = session w
    /\ forall p, silent p -> count_events p (trace w1) = count_events p (trace w).
Proof.
  destruct error as [config code message response|ne|message|message|b op key];
    cbn [handleNetworkError classify].
  2: destruct (negb (String.eqb (ne_message ne) "")).
  all: run; eexists; (split; [reflexivity|]); repeat split.
  all: intros p (_ & _ & _ & _ & Herr); cbn [trace with_trace with_env with_session count_events];
    rewrite ?Herr; reflexivity.
Qed.

Section Pipeline.

Variable registry : interceptors.Registry.
Variable transport : Config -> Oracle AxiosResponse.

Lemma request_stage_silent (config : Config) (w w1 : World)
    (r : Outcome AxiosResponse) :
  (interceptors.request_onFulfilled registry config
     ≫= interceptors.dispatchRequest transport) w = (r, w1) ->
  device w1 = device w /\ session w1 = session w
  /\ forall p, silent p -> count_events p (trace w1) = count_events p (trace w).
Proof.
  unfold interceptors.request_onFulfilled, interceptors.dispatchRequest.
  destruct (interceptors.tokenGetter registry) as [getter|].
  - run. destruct (getter (env w)) as [[tok|err] v1]; run.
    + destruct (transport _ v1) as [r2 v2]. run. intros [= <- <-].
      repeat split. intros p (Hg & Hd & Hdebug & _ & _).
      cbn [trace with_trace with_env with_session count_events]. rewrite Hd, Hdebug, Hg. reflexivity.
    + intros [= <- <-]. repeat split. intros p (Hg & _).
      cbn [trace with_trace with_env with_session count_events]. rewrite Hg. reflexivity.
  - run. destruct (transport _ (env w)) as [r2 v2]. run. intros [= <- <-].
    repeat split. intros p (Hg & Hd & Hdebug & _ & _).
    cbn [trace with_trace with_env with_session count_events]. rewrite Hd, Hdebug. reflexivity.
Qed.

Lemma response_onFulfilled_silent (response : AxiosResponse) (w w1 : World)
    (r : Outcome AxiosResponse) :
  interceptors.response_onFulfilled response w = (r, w1) ->
  device w1 = device w /\ env w1 = env w /\ session w1 = session w
  /\ forall p, silent p -> count_events p (trace w1) = count_events p (trace w).
Proof.
  unfold interceptors.response_onFulfilled, interceptors.get_prop_opt.
  destruct (requestStartTime (resp_config response)) as [start|];
    [destruct (Z.eqb start 0)|];
    (destruct (resp_data response) as [body|]; [destruct body|]);
    run;
    try (destruct (interceptors.is_business_error _); run);
    intros [= <- <-]; repeat split;
    intros p (_ & _ & Hdebug & Hwarn & _);
    cbn [trace with_trace with_env with_session count_events]; rewrite ?Hdebug, ?Hwarn; reflexivity.
Qed.

End Pipeline.

Lemma is_business_error_true (code : JSON) :
  code <> JNum 0 -> code <> JNum 200 ->
  interceptors.is_business_error (Some code) = true.
Proof.
  intros H0 H200. destruct code as [| | n | | | |]; try reflexivity.
  cbn [interceptors.is_business_error].
  destruct (Z.eqb_spec n 0) as [->|_]; [congruence|].
  destruct (Z.eqb_spec n 200) as [->|_]; [congruence|]. reflexivity.
Qed.

(** C2. A response whose body is an envelope with a business code other than
    0 and 200 is logged as a warning, and the call still resolves, with the
    envelope's data. *)
Theorem business_code_is_logged_not_rejected :
  forall (registry : interceptors.Registry) (transport : Config -> Oracle AxiosResponse)
         (fuel : nat) (config config' : Config) (w w1 : World)
         (response : AxiosResponse) (v2 : Env)
         (fields : list (string * JSON)) (code : JSON),
    interceptors.request_onFulfilled registry config w = (Resolved config', w1) ->
    transport config' (env w1) = (Resolved response, v2) ->
    resp_data response = Some (JObj fields) ->
    assoc "code" fields = Some code ->
    code <> JNum 0 -> code <> JNum 200 ->
    exists w',
      interceptors.request registry transport (S fuel) config w
      = Some (Resolved (assoc "data" fields), w')
      /\ In (Logged WARN ("API Error: " +:+ display code +:+ " - "
                          +:+ display_opt (assoc "message" fields))
               "NetworkInterceptor") (trace w').
Proof.
  intros registry transport fuel config config' w w1 response v2 fields code
    Hreq Hsend Hbody Hcode H0 H200.
  unfold interceptors.request. cbn [interceptors.instance_request].
  rewrite (bind_resolved _ _ _ _ _ Hreq).
  unfold interceptors.dispatchRequest. run. rewrite Hsend. run.
  unfold interceptors.response_onFulfilled, interceptors.get_prop_opt,
    interceptors.settled.
  rewrite Hbody.
  destruct (requestStartTime (resp_config response)) as [start|];
    [destruct (Z.eqb start 0)|];
    run; rewrite Hcode, (is_business_error_true code H0 H200); run;
    rewrite Hbody; run;
    (eexists; split; [reflexivity|]); cbn [trace with_trace with_env In]; tauto.
Qed.

Lemma business_code_witness :
  exists w',
    interceptors.request registry_refreshing transport_business_error 1 get_profile
      (world_of sound_device empty_env)
    = Some (Resolved (Some (JStr "details")), w')
    /\ In (Logged WARN "API Error: 40001 - insufficient balance" "NetworkInterceptor")
         (trace w').
Proof.
  pose (stage := interceptors.request_onFulfilled registry_refreshing get_profile
                   (world_of sound_device empty_env)).
  pose (sent := match fst stage with Resolved c => c | Rejected _ => get_profile end).
  pose (reply := transport_business_error sent (env (snd stage))).
  pose (response := match fst reply with
                    | Resolved r => r
                    | Rejected _ => mkResponse 0 None sent
                    end).
  apply (business_code_is_logged_not_rejected
           registry_refreshing transport_business_error 0 get_profile sent
           (world_of sound_device empty_env) (snd stage) response (snd reply)
           [("code", JNum 40001); ("message", JStr "insufficient balance");
            ("data", JStr "details")] (JNum 40001));
    [vm_compute; reflexivity | vm_compute; reflexivity | reflexivity | reflexivity
    | discriminate | discriminate].
Defined.

(** ** Refresh and replay *)

Lemma tally_silent (w w1 : World) :
  (forall p, silent p -> count_events p (trace w1) = count_events p (trace w)) ->
  tally w1 = tally w.
Proof.
  intros H. unfold tally, unauthorized_seen, refreshes, replays, logouts.
  rewrite (H _ silent_unauthorized_seen), (H _ silent_refresh),
    (H _ silent_replay), (H _ silent_logout). reflexivity.
Qed.

Section Refresh.

Variable registry : interceptors.Registry.
Variable transport : Config -> Oracle AxiosResponse.

(** One activation of the rejected-response handler, case by case. *)
Lemma response_onRejected_cases (error : JsError) (w : World) :
  exists w0, 
    handleNetworkError error w = (Resolved (classify error), w0)
    /\ device w0 = device w /\ env w0 = env w /\ session w0 = session w
    /\ tally w0 = tally w
    /\ interceptors.response_onRejected registry error w =
       if shouldReLogin (classify error) then
         let w1 := with_trace (Logged INFO "Token expired, attempting to refresh..."
                                 "NetworkInterceptor" :: trace w0) w0 in
         match interceptors.tokenRefresher registry with
         | Some refresher =>
             let w2 := with_trace (Invoked TokenRefresher :: trace w1) w1 in
             match refresher (env w2) with
             | (Resolved _, v3) =>
                 (Resolved (interceptors.Replay (interceptors.error_config error)),
                  with_trace (Logged INFO "Token refreshed, retrying request..."
                                "NetworkInterceptor" :: trace w2) (with_env v3 w2))
             | (Rejected _, v3) =>
                 let w3 := with_trace (Logged ERROR "Token refresh failed:"
                                         "NetworkInterceptor" :: trace w2)
                             (with_env v3 w2) in
                 match interceptors.logoutHandler registry with
                 | Some handler =>
                     let w4 := with_trace (Invoked LogoutHandler :: trace w3) w3 in
                     match handler (env w4) with
                     | (Resolved _, v5) =>
                         (Resolved (interceptors.GiveUp (classify error)), with_env v5 w4)
                     | (Rejected e, v5) => (Rejected e, with_env v5 w4)
                     end
                 | None => (Resolved (interceptors.GiveUp (classify error)), w3)
                 end
             end
         | None => (Resolved (interceptors.GiveUp (classify error)), w1)
         end
       else (Resolved (interceptors.GiveUp (classify error)), w0).
Proof.
  destruct (handleNetworkError_classify error w) as (w0 & Hh & Hd & He & Hs & Hsil).
  exists w0. split; [exact Hh|]. repeat (split; [assumption|]).
  split; [now apply tally_silent|].
  unfold interceptors.response_onRejected.
  rewrite (bind_resolved _ _ _ _ _ Hh).
  destruct (shouldReLogin (classify error)); [|reflexivity].
  destruct (interceptors.tokenRefresher registry) as [refresher|]; [|reflexivity].
  run. destruct (refresher (env w0)) as [[[]|err] v3]; run; [reflexivity|].
  destruct (interceptors.logoutHandler registry) as [handler|]; run; [|reflexivity].
  destruct (handler v3) as [[[]|e] v5]; reflexivity.
Qed.

End Refresh.


Section RefreshCounts.

Variable registry : interceptors.Registry.
Variable transport : Config -> Oracle AxiosResponse.
Variable refresher : Oracle unit.
Hypothesis registered : interceptors.tokenRefresher registry = Some refresher.


End RefreshCounts.

Section RefreshStep.

Variable registry : interceptors.Registry.
Variable transport : Config -> Oracle AxiosResponse.
Variable refresher : Oracle unit.
Hypothesis registered : interceptors.tokenRefresher registry = Some refresher.

Lemma instance_request_S (n : nat) (config : Config) (w : World) :
  interceptors.instance_request registry transport (S n) config w =
  match (interceptors.request_onFulfilled registry config
           ≫= interceptors.dispatchRequest transport) w with
  | (Resolved response, w1) => Some (interceptors.response_onFulfilled response w1)
  | (Rejected error, w1) =>
      match interceptors.response_onRejected registry error w1 with
      | (Resolved (interceptors.Replay config'), w2) =>
          interceptors.instance_request registry transport n config' w2
      | (Resolved (interceptors.GiveUp networkError), w2) =>
          Some (Rejected (NetErr networkError), w2)
      | (Rejected e, w2) => Some (Rejected e, w2)
      end
  end.
Proof. reflexivity. Qed.

(** One failure classified as UNAUTHORIZED: the refresh function is called
    once; when it resolves the request is issued again through the same
    instance, and what that gives is the result; when it rejects the logout
    handler is called and the classified error is the result, unless the
    handler itself rejects. *)
Lemma unauthorized_failure_step (n : nat) (config : Config) (w w1 : World)
    (error : JsError) :
  (interceptors.request_onFulfilled registry config
     ≫= interceptors.dispatchRequest transport) w = (Rejected error, w1) ->
  ne_type (classify error) = UNAUTHORIZED ->
  exists w2,
    env w2 = env w1
    /\ refreshes (trace w2) = S (refreshes (trace w))
    /\ logouts (trace w2) = logouts (trace w)
    /\ match refresher (env w1) with
       | (Resolved _, v3) =>
           interceptors.instance_request registry transport (S n) config w
           = interceptors.instance_request registry transport n
               (interceptors.error_config error)
               (with_trace (Logged INFO "Token refreshed, retrying request..."
                              "NetworkInterceptor" :: trace w2) (with_env v3 w2))
       | (Rejected _, v3) =>
           match interceptors.logoutHandler registry with
           | Some handler =>
               exists w',
                 interceptors.instance_request registry transport (S n) config w
                 = Some (match handler v3 with
                         | (Resolved _, _) => Rejected (NetErr (classify error))
                         | (Rejected e, _) => Rejected e
                         end, w')
                 /\ env w' = snd (handler v3)
                 /\ refreshes (trace w') = S (refreshes (trace w))
                 /\ logouts (trace w') = S (logouts (trace w))
           | None =>
               exists w',
                 interceptors.instance_request registry transport (S n) config w
                 = Some (Rejected (NetErr (classify error)), w')
                 /\ env w' = v3
                 /\ refreshes (trace w') = S (refreshes (trace w))
                 /\ logouts (trace w') = logouts (trace w)
           end
       end.
Proof.
  intros Hstage Hunauth.
  rewrite instance_request_S, Hstage.
  apply (request_stage_silent registry transport) in Hstage as (_ & _ & Hsil1).
  apply tally_silent in Hsil1.
  destruct (response_onRejected_cases registry error w1)
    as (w0 & _ & _ & Henv0 & _ & Htally0 & Hcases).
  rewrite Hcases, registered. clear Hcases.
  rewrite Hsil1 in Htally0. unfold tally in Htally0.
  injection Htally0 as Hu Hr Hp Hl.
  unfold shouldReLogin. rewrite Hunauth. cbv zeta. cbn [env with_trace].
  rewrite Henv0.
  exists (with_trace (Invoked TokenRefresher
                      :: Logged INFO "Token expired, attempting to refresh..."
                           "NetworkInterceptor" :: trace w0) w0).
  unfold refreshes, logouts in *.
  cbn [trace env with_trace with_env count_events is_refresh is_logout].
  rewrite Hr, Hl.
  split; [exact Henv0|]. split; [reflexivity|]. split; [reflexivity|].
  destruct (refresher (env w1)) as [[[]|err] v3]; [reflexivity|].
  destruct (interceptors.logoutHandler registry) as [handler|].
  - cbn [env with_trace with_env].
    destruct (handler v3) as [[[]|e] v5]; eexists; (split; [reflexivity|]);
      cbn [trace env with_trace with_env count_events is_refresh is_logout snd];
      rewrite Hr, Hl; repeat split; reflexivity.
  - eexists. split; [reflexivity|].
    cbn [trace env with_trace with_env count_events is_refresh is_logout].
    rewrite Hr, Hl. repeat split; reflexivity.
Qed.

End RefreshStep.




(** X1. With a refresh that keeps resolving and a remote end that keeps
    answering 401 the request never settles, however many replays are
    allowed. *)
Lemma always_401_never_settles (fuel : nat) :
  forall (config : Config) (w : World),
    interceptors.instance_request registry_refreshing transport_always_401 fuel config w
    = None.
Proof.
  induction fuel as [|n IH]; intros config w; [reflexivity|].
  destruct (unauthorized_failure_step registry_refreshing transport_always_401
              (fun v => (Resolved tt, v)) eq_refl n config w
              (snd ((interceptors.request_onFulfilled registry_refreshing config
                       ≫= interceptors.dispatchRequest transport_always_401) w))
              (status_401
                 (match fst (interceptors.request_onFulfilled registry_refreshing config w) with
                  | Resolved c => c
                  | Rejected _ => config
                  end)))
    as (w2 & _ & _ & _ & Hstep); [reflexivity | reflexivity |].
  cbv beta iota in Hstep. rewrite Hstep. apply IH.
Qed.

(** The failing refresh of the spec's scenario: one call of the logout
    handler, and the call rejects with the classified UNAUTHORIZED error. *)
Example refresh_fails_then_logout :
  match interceptors.instance_request registry_refresh_fails transport_always_401 1
          get_profile (world_of sound_device empty_env) with
  | Some (Rejected (NetErr ne), w') =>
      ne_type ne = UNAUTHORIZED /\ ne_code ne = Some 401
      /\ refreshes (trace w') = 1%nat /\ logouts (trace w') = 1%nat
      /\ dispatches (trace w') = 1%nat
  | _ => False
  end.
Proof. vm_compute. repeat split; reflexivity. Qed.

(** ** Serialization round trip *)

Lemma parse_quote_char (c : ascii) (tail : string) :
  parse_string_body (quote_char c +:+ tail) = cons_char c (parse_string_body tail).
Proof. destruct c as [[] [] [] [] [] [] [] []]; reflexivity. Qed.

Lemma parse_quote_body (s rest : string) :
  parse_string_body (quote_body s +:+ String "034" rest) = Some (s, rest).
Proof.
  induction s as [|c s IH]; [reflexivity|].
  cbn [quote_body]. rewrite string_app_assoc, parse_quote_char, IH. reflexivity.
Qed.

Lemma QuoteJSONString_app (s rest : string) :
  QuoteJSONString s +:+ rest = String "034" (quote_body s +:+ String "034" rest).
Proof.
  unfold QuoteJSONString. cbn [String.append]. now rewrite string_app_assoc.
Qed.

Lemma to_uint_no_leading_zero (p : positive) (u : Decimal.uint) :
  Pos.to_uint p <> Decimal.D0 u.
Proof.
  intros Hp.
  pose proof (DecimalPos.Unsigned.to_of (Pos.to_uint p)) as Hnorm.
  rewrite DecimalPos.Unsigned.of_to in Hnorm. cbn [N.to_uint] in Hnorm.
  rewrite Hp in Hnorm. unfold Decimal.unorm in Hnorm.
  rewrite DecimalFacts.nzhead_D0 in Hnorm.
  destruct (Decimal.nzhead u) as [|u0| | | | | | | | |] eqn:Hnz; try discriminate.
  - injection Hnorm as Hu. subst u. now apply (DecimalPos.Unsigned.to_uint_nonzero p).
  - now apply (DecimalFacts.nzhead_nonzero u u0).
Qed.

Lemma number_ends_no_digit (rest : string) :
  number_ends rest = true -> starts_with_digit rest = false.
Proof.
  destruct rest as [|c rest]; [reflexivity|]. cbn [number_ends starts_with_digit].
  destruct (bool_decide (is_Some (digit_value c))); [discriminate | reflexivity].
Qed.

Lemma number_ends_no_mark (rest : string) :
  number_ends rest = true -> has_fraction_or_exponent rest = false.
Proof.
  unfold has_fraction_or_exponent.
  destruct rest as [|c rest]; [reflexivity|]. cbn [number_ends].
  destruct c as [[] [] [] [] [] [] [] []]; try reflexivity;
    rewrite ?andb_false_r; discriminate.
Qed.

(** An unsigned decimal without a leading zero is read back as a number. *)
Lemma parse_number_uint (u : Decimal.uint) (rest : string) :
  u <> Decimal.Nil ->
  (forall u', u = Decimal.D0 u' -> u' = Decimal.Nil) ->
  number_ends rest = true ->
  parse_number (NilEmpty.string_of_uint u +:+ rest)
  = Some (JNum (Z.of_N (Pos.of_uint u)), rest)
  /\ parse_number (String "-" (NilEmpty.string_of_uint u +:+ rest))
     = Some (JNum (- Z.of_N (Pos.of_uint u)), rest).
Proof.
  intros Hnil Hzero Hends.
  pose proof (number_ends_no_digit rest Hends) as Hdigit.
  pose proof (number_ends_no_mark rest Hends) as Hmark.
  pose proof (read_digits_uint u rest Hdigit) as Hread.
  assert (Hlead : match NilEmpty.string_of_uint u +:+ rest with
                  | String "0" r => starts_with_digit r
                  | _ => false
                  end = false).
  { destruct u; try reflexivity; [congruence|].
    rewrite (Hzero u eq_refl). exact Hdigit. }
  assert (Hstart : starts_with_digit (NilEmpty.string_of_uint u +:+ rest) = true).
  { destruct (string_of_uint_head u Hnil) as (c & r & Hs & Hc).
    rewrite Hs. cbn [String.append starts_with_digit]. now rewrite bool_decide_eq_true. }
  split.
  - transitivity (parse_unsigned false (NilEmpty.string_of_uint u +:+ rest)).
    { unfold parse_number. destruct u; try reflexivity. congruence. }
    unfold parse_unsigned. rewrite Hstart, Hread, Hlead, Hmark. reflexivity.
  - unfold parse_number, parse_unsigned. rewrite Hstart, Hread, Hlead, Hmark. reflexivity.
Qed.

Lemma parse_number_toString (n : Z) (rest : string) :
  number_ends rest = true ->
  parse_number (Number_toString n +:+ rest) = Some (JNum n, rest).
Proof.
  intros Hends. unfold Number_toString.
  destruct n as [|p|p]; cbn [Z.to_int NilZero.string_of_int].
  - apply (parse_number_uint (Decimal.D0 Decimal.Nil) rest); [discriminate | | exact Hends].
    now intros u' [= <-].
  - pose proof (DecimalPos.Unsigned.to_uint_nonnil p) as Hnil.
    replace (NilZero.string_of_uint (Pos.to_uint p))
      with (NilEmpty.string_of_uint (Pos.to_uint p))
      by (destruct (Pos.to_uint p); [congruence | reflexivity..]).
    destruct (parse_number_uint (Pos.to_uint p) rest Hnil) as [H _]; [|exact Hends|].
    + intros u' Hu. now apply to_uint_no_leading_zero in Hu.
    + rewrite H, DecimalPos.Unsigned.of_to. reflexivity.
  - pose proof (DecimalPos.Unsigned.to_uint_nonnil p) as Hnil.
    replace (NilZero.string_of_uint (Pos.to_uint p))
      with (NilEmpty.string_of_uint (Pos.to_uint p))
      by (destruct (Pos.to_uint p); [congruence | reflexivity..]).
    destruct (parse_number_uint (Pos.to_uint p) rest Hnil) as [_ H]; [|exact Hends|].
    + intros u' Hu. now apply to_uint_no_leading_zero in Hu.
    + cbn [String.append]. rewrite H, DecimalPos.Unsigned.of_to. reflexivity.
Qed.

Lemma Number_toString_head (n : Z) (t : string) :
  number_head (Number_toString n +:+ t) = true.
Proof.
  unfold Number_toString.
  destruct n as [|p|p]; cbn [Z.to_int NilZero.string_of_int]; [reflexivity| |reflexivity].
  pose proof (DecimalPos.Unsigned.to_uint_nonnil p) as Hnil.
  destruct (string_of_uint_head (Pos.to_uint p) Hnil) as (c & r & Hs & Hc).
  replace (NilZero.string_of_uint (Pos.to_uint p))
    with (NilEmpty.string_of_uint (Pos.to_uint p))
    by (destruct (Pos.to_uint p); [congruence | reflexivity..]).
  rewrite Hs. cbn [String.append number_head].
  apply orb_true_iff. left. now rewrite bool_decide_eq_true.
Qed.

(** A text that starts like a number is handed to the number parser. *)
Lemma parse_value_number (fuel : nat) (s : string) :
  number_head s = true -> parse_value (S fuel) s = parse_number s.
Proof.
  destruct s as [|c r]; [discriminate|].
  destruct c as [[] [] [] [] [] [] [] []]; try discriminate; intros _; reflexivity.
Qed.

(** ** Numerals, digit by digit *)

Lemma read_digits_app (ds : string) : forall (rest : string) (acc : Z),
  all_digits ds = true ->
  starts_with_digit rest = false ->
  read_digits (ds +:+ rest) acc = (digits_value ds acc, rest).
Proof.
  unfold digits_value.
  induction ds as [|c ds IH]; intros rest acc Hall Hrest.
  - cbn [String.append]. rewrite read_digits_stop by exact Hrest. reflexivity.
  - cbn [all_digits] in Hall. apply andb_true_iff in Hall as [Hc Hds].
    rewrite bool_decide_eq_true in Hc. destruct Hc as [d Hd].
    cbn [String.append read_digits]. rewrite Hd. now apply IH.
Qed.

Lemma digits_value_shift (ds : string) : forall acc : Z,
  all_digits ds = true ->
  digits_value ds acc = acc * 10 ^ Z.of_nat (String.length ds) + digits_value ds 0.
Proof.
  unfold digits_value.
  induction ds as [|c ds IH]; intros acc Hall.
  - cbn [read_digits fst String.length]. change (10 ^ Z.of_nat 0) with 1. lia.
  - cbn [all_digits] in Hall. apply andb_true_iff in Hall as [Hc Hds].
    rewrite bool_decide_eq_true in Hc. destruct Hc as [d Hd].
    cbn [read_digits String.length]. rewrite Hd.
    rewrite (IH (10 * acc + d) Hds), (IH (10 * 0 + d) Hds).
    rewrite Nat2Z.inj_succ, Z.pow_succ_r by lia. lia.
Qed.

Lemma all_digits_app (s t : string) :
  all_digits (s +:+ t) = all_digits s && all_digits t.
Proof.
  induction s as [|c s IH]; cbn [String.append all_digits]; [reflexivity|].
  rewrite IH. now rewrite andb_assoc.
Qed.

Lemma digits_value_app (s t : string) (acc : Z) :
  all_digits s = true ->
  digits_value (s +:+ t) acc = digits_value t (digits_value s acc).
Proof.
  unfold digits_value. revert acc.
  induction s as [|c s IH]; intros acc Hall; [reflexivity|].
  cbn [all_digits] in Hall. apply andb_true_iff in Hall as [Hc Hs].
  rewrite bool_decide_eq_true in Hc. destruct Hc as [d Hd].
  cbn [String.append read_digits]. rewrite Hd. now apply IH.
Qed.

Lemma string_take_drop (n : nat) (s : string) :
  string_take n s +:+ string_drop n s = s.
Proof.
  revert s. induction n as [|n IH]; intros [|c s]; cbn [string_take string_drop String.append];
    try reflexivity. now rewrite IH.
Qed.

Lemma string_drop_length (n : nat) (s : string) :
  (n <= String.length s)%nat ->
  String.length (string_drop n s) = (String.length s - n)%nat.
Proof.
  revert s. induction n as [|n IH]; intros [|c s] Hn; cbn [string_drop String.length] in *;
    try lia. apply IH. lia.
Qed.

Lemma all_digits_zeros (n : nat) : all_digits (zeros n) = true.
Proof. induction n as [|n IH]; [reflexivity | exact IH]. Qed.

Lemma digits_value_zeros (n : nat) : digits_value (zeros n) 0 = 0.
Proof. unfold digits_value. induction n as [|n IH]; [reflexivity | exact IH]. Qed.

Lemma zeros_length (n : nat) : String.length (zeros n) = n.
Proof. induction n as [|n IH]; cbn [zeros String.length]; [reflexivity | now rewrite IH]. Qed.

Lemma all_digits_uint (u : Decimal.uint) : all_digits (NilEmpty.string_of_uint u) = true.
Proof. induction u; cbn [NilEmpty.string_of_uint all_digits]; [reflexivity | exact IHu..]. Qed.

Lemma NilZero_string_of_uint (p : positive) :
  NilZero.string_of_uint (Pos.to_uint p) = NilEmpty.string_of_uint (Pos.to_uint p).
Proof.
  pose proof (DecimalPos.Unsigned.to_uint_nonnil p) as Hnil.
  destruct (Pos.to_uint p); [congruence | reflexivity..].
Qed.

(** The digits of a natural number: all digits, with its value, and no
    leading zero unless the number is zero. *)
Lemma Number_toString_digits (s : Z) :
  0 <= s ->
  all_digits (Number_toString s) = true
  /\ digits_value (Number_toString s) 0 = s
  /\ exists c r, Number_toString s = String c r
                 /\ is_Some (digit_value c)
                 /\ (0 < s -> c <> "0"%char).
Proof.
  intros Hs. unfold Number_toString. destruct s as [|p|p]; [| |lia].
  - repeat split. exists "0"%char, "". repeat split; [vm_compute; eauto | lia].
  - cbn [Z.to_int NilZero.string_of_int]. rewrite NilZero_string_of_uint.
    split; [apply all_digits_uint|]. split.
    + unfold digits_value.
      pose proof (read_digits_uint (Pos.to_uint p) "" eq_refl) as H.
      rewrite string_app_nil_r in H. rewrite H. cbn [fst].
      now rewrite DecimalPos.Unsigned.of_to.
    + pose proof (DecimalPos.Unsigned.to_uint_nonnil p) as Hnil.
      destruct (string_of_uint_head (Pos.to_uint p) Hnil) as (c & r & Heq & Hc).
      exists c, r. repeat split; [exact Heq | exact Hc|].
      intros _ ->. 
      destruct (Pos.to_uint p) as [|u| | | | | | | | |] eqn:Hu; try discriminate.
      revert Hu. apply to_uint_no_leading_zero.
Qed.

Lemma all_digits_take_drop (n : nat) (s : string) :
  all_digits s = true ->
  all_digits (string_take n s) = true /\ all_digits (string_drop n s) = true.
Proof.
  intros Hs. rewrite <- (string_take_drop n s), all_digits_app in Hs.
  now apply andb_true_iff in Hs.
Qed.

Lemma all_digits_head (c : ascii) (r rest : string) :
  all_digits (String c r) = true -> starts_with_digit (String c r +:+ rest) = true.
Proof.
  cbn [all_digits String.append starts_with_digit]. intros H.
  now apply andb_true_iff in H as [-> _].
Qed.

Lemma not_leading_zero (c : ascii) (t : string) :
  c <> "0"%char ->
  match String c t with
  | String "0" r => starts_with_digit r
  | _ => false
  end = false.
Proof.
  intros Hc. destruct c as [[] [] [] [] [] [] [] []]; try reflexivity. congruence.
Qed.

Lemma number_ends_exponent (rest : string) :
  number_ends rest = true -> parse_exponent rest = Some (0, rest).
Proof.
  destruct rest as [|c rest]; [reflexivity|]. cbn [number_ends parse_exponent].
  intros H. apply andb_true_iff in H as [H HE]. apply andb_true_iff in H as [H He].
  apply negb_true_iff in He, HE. now rewrite He, HE.
Qed.

Lemma string_length_app (s t : string) :
  String.length (s +:+ t) = (String.length s + String.length t)%nat.
Proof. induction s as [|c s IH]; cbn [String.append String.length]; [reflexivity | now rewrite IH]. Qed.

(** The exponent part that [format_decimal] writes is read back. *)
Lemma parse_exponent_written (e : Z) (rest : string) :
  number_ends rest = true ->
  parse_exponent (String "e" ((if (e <? 0)%Z then "-" else "+")
                              +:+ Number_toString (Z.abs e) +:+ rest))
  = Some (e, rest).
Proof.
  intros Hends.
  destruct (Number_toString_digits (Z.abs e)) as (Hall & Hval & c & r & Heq & Hc & _); [lia|].
  pose proof (number_ends_no_digit rest Hends) as Hdigit.
  assert (Hstart : starts_with_digit (Number_toString (Z.abs e) +:+ rest) = true).
  { rewrite Heq. apply all_digits_head. now rewrite <- Heq. }
  cbn [parse_exponent]. change (Ascii.eqb "e" "e") with true. cbn [orb].
  destruct (Z.ltb_spec e 0) as [Hneg|Hpos]; cbn [String.append];
    rewrite Hstart, read_digits_app by assumption; rewrite Hval; f_equal; f_equal; lia.
Qed.

(** A numeral as [format_decimal] writes it, with at least one digit after
    the point or an exponent, is read as the decimal it stands for. *)
Lemma parse_unsigned_format (neg : bool) (ds rest : string) (n : Z) :
  all_digits ds = true ->
  (exists c r, ds = String c r /\ c <> "0"%char) ->
  n < Z.of_nat (String.length ds) ->
  number_ends rest = true ->
  parse_unsigned neg (format_decimal ds n +:+ rest)
  = Some (Number_of_decimal neg (digits_value ds 0) (n - Z.of_nat (String.length ds)), rest).
Proof.
  intros Hall (c & r & -> & Hc) Hn Hends.
  pose proof (number_ends_no_digit rest Hends) as Hdigit.
  pose proof (number_ends_exponent rest Hends) as Hexp.
  assert (Hcd : exists d, digit_value c = Some d).
  { cbn [all_digits] in Hall. apply andb_true_iff in Hall as [H _].
    now rewrite bool_decide_eq_true in H. }
  destruct Hcd as [d Hd].
  assert (Hr : all_digits r = true)
    by (cbn [all_digits] in Hall; now apply andb_true_iff in Hall as [_ ?]).
  unfold format_decimal.
  replace ((Z.of_nat (String.length (String c r)) <=? n) && (n <=? 21))%Z with false
    by (symmetry; apply andb_false_iff; left; apply Z.leb_gt; exact Hn).
  destruct ((0 <? n) && (n <=? 21))%Z eqn:Hplain.
  - (* digits, a point, digits *)
    apply andb_true_iff in Hplain as [Hpos _]. apply Z.ltb_lt in Hpos.
    destruct (Z.to_nat n) as [|j] eqn:Hj; [lia|].
    assert (Hjlen : (j <= String.length r)%nat) by (cbn [String.length] in Hn; lia).
    destruct (all_digits_take_drop j r Hr) as [Htake Hdrop].
    cbn [string_take string_drop]. rewrite !string_app_assoc. cbn [String.append].
    unfold parse_unsigned. rewrite not_leading_zero by exact Hc.
    cbn [starts_with_digit]. rewrite Hd.
    rewrite bool_decide_eq_true_2 by eauto.
    cbn [read_digits]. rewrite Hd.
    rewrite read_digits_app by (exact Htake || reflexivity).
    cbn [has_fraction_or_exponent parse_fraction].
    assert (Hdropne : exists c' r', string_drop j r = String c' r').
    { destruct (string_drop j r) as [|c' r'] eqn:Heq; [|eauto].
      pose proof (string_drop_length j r Hjlen) as Hlen. rewrite Heq in Hlen.
      cbn [String.length] in Hlen, Hn. lia. }
    destruct Hdropne as (c' & r' & Hdrop_eq).
    assert (Hstart : starts_with_digit (string_drop j r +:+ rest) = true).
    { rewrite Hdrop_eq. apply all_digits_head. now rewrite <- Hdrop_eq. }
    rewrite Hstart, read_digits_app by assumption.
    cbn [mbind option_bind]. rewrite Hexp. cbn [mbind option_bind].
    f_equal. f_equal. f_equal.
    + unfold digits_value at 3. cbn [read_digits]. rewrite Hd.
      change (fst (read_digits r (10 * 0 + d))) with (digits_value r (10 * 0 + d)).
      rewrite <- (string_take_drop j r) at 3.
      now rewrite digits_value_app.
    + rewrite string_length_app, string_drop_length by exact Hjlen.
      cbn [String.length]. lia.
  - destruct ((-6 <? n) && (n <=? 0))%Z eqn:Hsmall.
    + (* zero, a point, zeros, digits *)
      apply andb_true_iff in Hsmall as [_ Hle]. apply Z.leb_le in Hle.
      cbn [String.append]. rewrite !string_app_assoc.
      unfold parse_unsigned. cbn [starts_with_digit read_digits].
      change (digit_value "0") with (Some 0). change (digit_value ".") with (@None Z).
      cbv iota beta. rewrite bool_decide_eq_true_2 by eauto.
      cbn [starts_with_digit has_fraction_or_exponent parse_fraction].
      change (digit_value ".") with (@None Z).
      rewrite bool_decide_eq_false_2 by (intros [? ?]; discriminate).
      assert (Hstart : starts_with_digit (zeros (Z.to_nat (- n)) +:+ String c r +:+ rest) = true).
      { destruct (Z.to_nat (- n)); cbn [zeros String.append starts_with_digit].
        - rewrite Hd. now rewrite bool_decide_eq_true_2 by eauto.
        - reflexivity. }
      rewrite Hstart. rewrite <- string_app_assoc.
      rewrite read_digits_app;
        [| rewrite all_digits_app, all_digits_zeros; exact Hall | exact Hdigit].
      cbn [mbind option_bind]. rewrite Hexp. cbn [mbind option_bind].
      f_equal. f_equal. f_equal.
      * rewrite digits_value_app by apply all_digits_zeros.
        change (10 * 0 + 0) with 0. now rewrite digits_value_zeros.
      * rewrite !string_length_app, zeros_length. lia.
    + (* one digit, the others after a point, an exponent *)
      set (sign := if (n - 1 <? 0)%Z then "-" else "+").
      destruct r as [|c2 r2].
      * cbn [String.append]. unfold parse_unsigned.
        rewrite not_leading_zero by exact Hc.
        cbn [starts_with_digit read_digits]. rewrite Hd.
        rewrite bool_decide_eq_true_2 by eauto.
        change (digit_value "e") with (@None Z). cbv iota beta.
        cbn [has_fraction_or_exponent parse_fraction mbind option_bind].
        rewrite string_app_assoc. subst sign.
        rewrite parse_exponent_written by exact Hends.
        cbn [mbind option_bind]. f_equal. f_equal. f_equal.
        -- unfold digits_value. cbn [read_digits]. now rewrite Hd.
        -- cbn [String.length]. lia.
      * cbn [String.append]. rewrite !string_app_assoc. cbn [String.append].
        unfold parse_unsigned. rewrite not_leading_zero by exact Hc.
        cbn [starts_with_digit read_digits]. rewrite Hd.
        rewrite bool_decide_eq_true_2 by eauto.
        change (digit_value ".") with (@None Z). cbv iota beta.
        cbn [has_fraction_or_exponent parse_fraction].
        assert (Hstart : forall t, starts_with_digit (String c2 (r2 +:+ t)) = true).
        { intros t. change (String c2 (r2 +:+ t)) with (String c2 r2 +:+ t).
          now apply all_digits_head. }
        rewrite Hstart.
        change (String c2 (r2 +:+ ?t)) with (String c2 r2 +:+ t).
        rewrite read_digits_app by (exact Hr || reflexivity).
        cbn [mbind option_bind]. subst sign. rewrite ?string_app_assoc.
        rewrite parse_exponent_written by exact Hends.
        cbn [mbind option_bind]. f_equal. f_equal. f_equal.
        -- unfold digits_value at 2. cbn [read_digits]. rewrite Hd. reflexivity.
        -- rewrite string_length_app. cbn [String.length]. lia.
Qed.

(** ** Rounding to a double *)

Lemma binade_case_1a (a b La Lb E X : Z) :
  0 < X -> 0 < E -> 0 < Lb -> La <= a -> a < La * 2 -> Lb <= b -> La = Lb * E ->
  b * E <= a ->
  b * (E * X) <= a * X /\ a * X < b * (E * X * 2).
Proof.
  intros HX HE HLb H1 H2 H3 -> Ht. split; [nia|].
  assert (a < b * E * 2) by nia. nia.
Qed.

Lemma binade_case_1b (a b La Lb E X Z : Z) :
  0 < X -> 0 < E -> 0 < Lb -> La <= a -> b < Lb * 2 -> La = Lb * E ->
  E * X = 2 * Z ->
  a < b * E ->
  b * Z <= a * X /\ a * X < b * (E * X).
Proof.
  intros HX HE HLb H1 H2 -> HZ Ht. split; [|nia].
  assert (b * E < Lb * E * 2) by nia.
  assert (b * E * X < Lb * E * 2 * X) by nia.
  assert (Lb * E * X <= a * X) by nia.
  nia.
Qed.

Lemma binade_case_2a (a b La Lb F X Y : Z) :
  0 < Y -> 0 < F -> 0 < La -> a < La * 2 -> Lb <= b -> Lb = La * F ->
  X = F * Y ->
  b <= a * F ->
  b * Y <= a * X /\ a * X < b * (Y * 2).
Proof.
  intros HY HF HLa H2 H3 -> -> Ht. split; [nia|].
  assert (a * F < La * F * 2) by nia.
  assert (a * F * Y < La * F * 2 * Y) by nia.
  assert (La * F * Y <= b * Y) by nia.
  nia.
Qed.

Lemma binade_case_2b (a b La Lb F X Y Z : Z) :
  0 < Z -> 0 < F -> 0 < La -> La <= a -> b < Lb * 2 -> Lb = La * F ->
  X = F * Y -> Y = 2 * Z ->
  a * F < b ->
  b * Z <= a * X /\ a * X < b * Y.
Proof.
  intros HZ HF HLa H1 H2 -> -> -> Ht. split; [|nia].
  assert (b * Z < La * F * 2 * Z) by nia.
  assert (La * (F * (2 * Z)) <= a * (F * (2 * Z))) by nia.
  nia.
Qed.

Lemma binade_spec (a b K : Z) :
  0 < a -> 0 < b -> 0 <= K -> 0 <= binade a b + K ->
  b * 2 ^ (binade a b + K) <= a * 2 ^ K
  /\ a * 2 ^ K < b * 2 ^ (binade a b + K + 1).
Proof.
  intros Ha Hb HK.
  pose proof (Z.log2_spec a Ha) as [Hla1 Hla2].
  pose proof (Z.log2_spec b Hb) as [Hlb1 Hlb2].
  pose proof (Z.log2_nonneg a) as Hla. pose proof (Z.log2_nonneg b) as Hlb.
  unfold binade. set (la := Z.log2 a) in *. set (lb := Z.log2 b) in *.
  rewrite <- Z.add_1_r in Hla2, Hlb2.
  rewrite Z.pow_add_r in Hla2, Hlb2 by lia. change (2 ^ 1) with 2 in *.
  assert (HX : 0 < 2 ^ K) by (apply Z.pow_pos_nonneg; lia).
  assert (HLa : 0 < 2 ^ la) by (apply Z.pow_pos_nonneg; lia).
  assert (HLb : 0 < 2 ^ lb) by (apply Z.pow_pos_nonneg; lia).
  destruct (Z.leb_spec 0 (la - lb)) as [He0|He0].
  - assert (Hsplit : 2 ^ la = 2 ^ lb * 2 ^ (la - lb))
      by (rewrite <- Z.pow_add_r by lia; f_equal; lia).
    assert (HE : 0 < 2 ^ (la - lb)) by (apply Z.pow_pos_nonneg; lia).
    destruct (Z.leb_spec (b * 2 ^ (la - lb)) a) as [Ht|Ht]; intros Hpos.
    + rewrite (Z.pow_add_r 2 (la - lb + K) 1), (Z.pow_add_r 2 (la - lb) K) by lia.
      change (2 ^ 1) with 2.
      now apply (binade_case_1a a b (2 ^ la) (2 ^ lb)).
    + replace (la - lb - 1 + K + 1) with (la - lb + K) by lia.
      rewrite (Z.pow_add_r 2 (la - lb) K) by lia.
      apply (binade_case_1b a b (2 ^ la) (2 ^ lb)); try assumption.
      rewrite <- Z.pow_add_r by lia. rewrite <- Z.pow_succ_r by lia. f_equal. lia.
  - assert (Hsplit : 2 ^ lb = 2 ^ la * 2 ^ (- (la - lb)))
      by (rewrite <- Z.pow_add_r by lia; f_equal; lia).
    assert (HE : 0 < 2 ^ (- (la - lb))) by (apply Z.pow_pos_nonneg; lia).
    destruct (Z.leb_spec b (a * 2 ^ (- (la - lb)))) as [Ht|Ht]; intros Hpos.
    + rewrite (Z.pow_add_r 2 (la - lb + K) 1) by lia. change (2 ^ 1) with 2.
      apply (binade_case_2a a b (2 ^ la) (2 ^ lb) (2 ^ (- (la - lb)))); try assumption.
      * apply Z.pow_pos_nonneg; lia.
      * rewrite <- Z.pow_add_r by lia. f_equal. lia.
    + replace (la - lb - 1 + K + 1) with (la - lb + K) by lia.
      apply (binade_case_2b a b (2 ^ la) (2 ^ lb) (2 ^ (- (la - lb)))); try assumption.
      * apply Z.pow_pos_nonneg; lia.
      * rewrite <- Z.pow_add_r by lia. f_equal. lia.
      * rewrite <- Z.pow_succ_r by lia. f_equal. lia.
Qed.

(** a / b = m / 2^p *)
Lemma binade_exact (m p : Z) :
  0 < m -> 0 <= p -> binade (m * 5 ^ p) (10 ^ p) = Z.log2 m - p.
Proof.
  intros Hm Hp.
  assert (H5 : 0 < 5 ^ p) by (apply Z.pow_pos_nonneg; lia).
  assert (H2 : 0 < 2 ^ p) by (apply Z.pow_pos_nonneg; lia).
  assert (H10 : 10 ^ p = 2 ^ p * 5 ^ p) by (rewrite <- Z.pow_mul_l; reflexivity).
  set (e := binade (m * 5 ^ p) (10 ^ p)).
  set (K := p + Z.abs e + 1).
  destruct (binade_spec (m * 5 ^ p) (10 ^ p) K) as [Hlo Hhi]; [nia | nia | lia | fold e; lia |].
  fold e in Hlo, Hhi.
  pose proof (Z.log2_spec m Hm) as [Hl1 Hl2]. pose proof (Z.log2_nonneg m) as Hl.
  rewrite <- Z.add_1_r in Hl2.
  assert (HX : 0 < 2 ^ K) by (apply Z.pow_pos_nonneg; lia).
  rewrite H10 in Hlo, Hhi.
  assert (Hlo' : 2 ^ (p + e + K) <= m * 2 ^ K).
  { replace (p + e + K) with (p + (e + K)) by lia. rewrite Z.pow_add_r by lia.
    assert (0 < 2 ^ (e + K)) by (apply Z.pow_pos_nonneg; lia). nia. }
  assert (Hhi' : m * 2 ^ K < 2 ^ (p + e + K + 1)).
  { replace (p + e + K + 1) with (p + (e + K + 1)) by lia. rewrite Z.pow_add_r by lia.
    assert (0 < 2 ^ (e + K + 1)) by (apply Z.pow_pos_nonneg; lia). nia. }
  assert (Hm1 : 2 ^ (Z.log2 m + K) <= m * 2 ^ K) by (rewrite Z.pow_add_r by lia; nia).
  assert (Hm2 : m * 2 ^ K < 2 ^ (Z.log2 m + K + 1)).
  { replace (Z.log2 m + K + 1) with (Z.log2 m + 1 + K) by lia.
    rewrite (Z.pow_add_r 2 (Z.log2 m + 1) K) by lia. nia. }
  assert (Ha : p + e + K < Z.log2 m + K + 1).
  { apply (Z.pow_lt_mono_r_iff 2); lia. }
  assert (Hb : Z.log2 m + K < p + e + K + 1).
  { apply (Z.pow_lt_mono_r_iff 2); lia. }
  lia.
Qed.

Lemma Zpos_shiftl_nat (m : positive) (j : nat) :
  Z.pos (Pos.shiftl_nat m j) = Z.pos m * 2 ^ Z.of_nat j.
Proof.
  induction j as [|j IH]; [cbn [Pos.shiftl_nat nat_rect]; change (2 ^ Z.of_nat 0) with 1; lia|].
  change (Pos.shiftl_nat m (S j)) with (xO (Pos.shiftl_nat m j)).
  rewrite Pos2Z.inj_xO, IH, Nat2Z.inj_succ, Z.pow_succ_r by lia. ring.
Qed.

Lemma lowest_terms_shiftl (m : positive) (j p : nat) :
  Z.odd (Z.pos m) = true ->
  lowest_terms (Pos.shiftl_nat m j) (j + S p) = (m, S p).
Proof.
  intros Hodd. induction j as [|j IH].
  - cbn [Pos.shiftl_nat nat_rect Nat.add]. destruct m; [reflexivity | discriminate | reflexivity].
  - change (Pos.shiftl_nat m (S j)) with (xO (Pos.shiftl_nat m j)).
    cbn [Nat.add lowest_terms]. exact IH.
Qed.

(** A numeral that is a double exactly is read as that double. *)
Lemma Number_of_decimal_exact (m p : positive) :
  Z.odd (Z.pos m) = true -> Z.pos m < 2 ^ 53 -> Z.pos p <= 1074 ->
  Number_of_decimal false (Z.pos m * 5 ^ Z.pos p) (- Z.pos p) = JFloat (Dyadic (Z.pos m) p).
Proof.
  intros Hodd Hm Hp.
  assert (H5 : 0 < 5 ^ Z.pos p) by (apply Z.pow_pos_nonneg; lia).
  unfold Number_of_decimal.
  replace (Z.pos m * 5 ^ Z.pos p =? 0)%Z with false by (symmetry; apply Z.eqb_neq; nia).
  replace (0 <=? - Z.pos p)%Z with false by (symmetry; apply Z.leb_gt; lia).
  rewrite Z.opp_involutive. unfold Number_of_ratio.
  rewrite binade_exact by lia.
  assert (Hlog : Z.log2 (Z.pos m) <= 52).
  { apply Z.lt_succ_r. apply Z.log2_lt_pow2; [lia|]. exact Hm. }
  pose proof (Z.log2_nonneg (Z.pos m)) as Hlog0.
  set (q := Z.max (Z.log2 (Z.pos m) - Z.pos p - 52) (-1074)).
  assert (Hq : q <= - Z.pos p) by lia.
  assert (Hq' : -1074 <= q) by lia.
  replace (0 <=? q)%Z with false by (symmetry; apply Z.leb_gt; lia).
  set (j := - q - Z.pos p).
  assert (Hj : 0 <= j) by lia.
  assert (Hn : Z.pos m * 5 ^ Z.pos p * 2 ^ (- q)
               = Z.pos m * 2 ^ j * 10 ^ Z.pos p).
  { replace (- q) with (j + Z.pos p) by lia. rewrite Z.pow_add_r by lia.
    replace (10 ^ Z.pos p) with (2 ^ Z.pos p * 5 ^ Z.pos p)
      by (rewrite <- Z.pow_mul_l; reflexivity). ring. }
  assert (H10 : 0 < 10 ^ Z.pos p) by (apply Z.pow_pos_nonneg; lia).
  unfold round_half_even. rewrite Hn.
  rewrite Z.div_mul, Z.mod_mul by lia.
  replace (2 * 0 <? 10 ^ Z.pos p)%Z with true by (symmetry; apply Z.ltb_lt; lia).
  replace (Z.pos m * 2 ^ j) with (Z.pos (Pos.shiftl_nat m (Z.to_nat j)))
    by (rewrite Zpos_shiftl_nat, Z2Nat.id by lia; reflexivity).
  destruct (Pos.to_nat p) as [|p'] eqn:Hp'; [pose proof (Pos2Nat.is_pos p); lia|].
  replace (Z.to_nat (- q)) with (Z.to_nat j + S p')%nat by lia.
  rewrite lowest_terms_shiftl by exact Hodd.
  cbn [signed]. f_equal. f_equal.
  apply Pos2Nat.inj. rewrite SuccNat2Pos.id_succ. now rewrite Hp'.
Qed.

Lemma Number_of_ratio_negate (a b : Z) :
  Number_of_ratio true a b = negate (Number_of_ratio false a b).
Proof.
  unfold Number_of_ratio.
  destruct (0 <=? _)%Z.
  - destruct (2 ^ 1024 <=? _)%Z; reflexivity.
  - destruct (round_half_even _ _) as [|mant|mant]; try reflexivity.
    destruct (lowest_terms _ _) as [m [|p]]; reflexivity.
Qed.

Lemma Number_of_decimal_negate (D E : Z) :
  Number_of_decimal true D E = negate (Number_of_decimal false D E).
Proof.
  unfold Number_of_decimal.
  destruct (D =? 0)%Z; [reflexivity|].
  destruct (0 <=? E)%Z; apply Number_of_ratio_negate.
Qed.

Lemma reads_as_spec (m p : positive) (s sc : Z) :
  reads_as m p s sc = true ->
  Number_of_decimal false s (- sc) = JFloat (Dyadic (Z.pos m) p) /\ s <> 0.
Proof.
  unfold reads_as. intros H. split.
  - destruct (Number_of_decimal false s (- sc)) as [| | | | | |[m' p'|b]]; try discriminate.
    apply andb_true_iff in H as [Hm Hp].
    apply Z.eqb_eq in Hm. apply Pos.eqb_eq in Hp. now subst.
  - intros ->. discriminate.
Qed.

Lemma shortest_spec (fuel : nat) (m p : positive) : forall (sc0 s sc : Z),
  0 <= sc0 ->
  shortest fuel m p sc0 = Some (s, sc) ->
  reads_as m p s sc = true /\ 0 <= s /\ sc0 <= sc.
Proof.
  induction fuel as [|fuel IH]; intros sc0 s sc Hsc0; [discriminate|].
  cbn [shortest].
  assert (Hlo : 0 <= Z.pos m * 10 ^ sc0 / 2 ^ Z.pos p).
  { apply Z.div_pos; [|apply Z.pow_pos_nonneg; lia].
    assert (0 <= 10 ^ sc0) by (apply Z.pow_nonneg; lia). nia. }
  destruct (reads_as m p (Z.pos m * 10 ^ sc0 / 2 ^ Z.pos p) sc0) eqn:H1;
    destruct (reads_as m p (Z.pos m * 10 ^ sc0 / 2 ^ Z.pos p + 1) sc0) eqn:H2.
  - intros [= <- <-].
    match goal with |- context [if ?c then _ else _] => destruct c end;
      (split; [assumption | lia]).
  - intros [= <- <-]. split; [assumption | lia].
  - intros [= <- <-]. split; [assumption | lia].
  - intros H. apply IH in H; [|lia]. destruct H as (? & ? & ?). repeat split; [assumption..|lia].
Qed.

(** The digits [Float_toString] writes are read back as the number. *)
Lemma Float_digits_spec (m p : positive) :
  Z.odd (Z.pos m) = true -> Z.pos m < 2 ^ 53 -> Z.pos p <= 1074 ->
  forall s sc, Float_digits m p = (s, sc) ->
  Number_of_decimal false s (- sc) = JFloat (Dyadic (Z.pos m) p) /\ 0 < s /\ 0 < sc.
Proof.
  intros Hodd Hm Hp s sc. unfold Float_digits.
  destruct (shortest (Pos.to_nat p) m p 1) as [[s' sc']|] eqn:Hs.
  - intros [= -> ->]. apply shortest_spec in Hs as (Hr & Hs0 & Hsc); [|lia].
    apply reads_as_spec in Hr as [Hr Hne]. repeat split; [exact Hr | lia | lia].
  - intros [= <- <-]. split; [now apply Number_of_decimal_exact|].
    assert (0 < 5 ^ Z.pos p) by (apply Z.pow_pos_nonneg; lia). split; nia.
Qed.

(** ** Numbers that are not integers, written and read *)

Lemma format_decimal_head (c : ascii) (r : string) (n : Z) :
  exists c' t, format_decimal (String c r) n = String c' t /\ (c' = c \/ c' = "0"%char).
Proof.
  unfold format_decimal.
  destruct ((_ <=? n) && (n <=? 21))%Z; [cbn [String.append]; eauto|].
  destruct ((0 <? n) && (n <=? 21))%Z eqn:Hplain.
  - apply andb_true_iff in Hplain as [Hpos _]. apply Z.ltb_lt in Hpos.
    destruct (Z.to_nat n) as [|j] eqn:Hj; [lia|].
    cbn [string_take String.append]. eauto.
  - destruct ((-6 <? n) && (n <=? 0))%Z; [cbn [String.append]; eauto|].
    destruct r; cbn [String.append]; eauto.
Qed.

Lemma parse_number_unsigned (c : ascii) (t : string) :
  is_Some (digit_value c) -> parse_number (String c t) = parse_unsigned false (String c t).
Proof.
  intros [d Hd]. unfold parse_number.
  destruct c as [[] [] [] [] [] [] [] []]; try reflexivity. discriminate.
Qed.

(** A double that is not an integer is read back from its text. *)
Lemma parse_number_Float (x : Float) (rest : string) :
  is_double x = true ->
  number_ends rest = true ->
  parse_number (Float_toString x +:+ rest) = Some (JFloat x, rest)
  /\ number_head (Float_toString x +:+ rest) = true.
Proof.
  destruct x as [m p|negative]; [|discriminate].
  cbn [is_double]. intros Hd Hends.
  apply andb_true_iff in Hd as [Hd Hp]. apply andb_true_iff in Hd as [Hodd Hm].
  apply Z.ltb_lt in Hm. apply Z.leb_le in Hp.
  assert (Hcase : forall (q : positive) (neg : bool),
             Z.odd (Z.pos q) = true -> Z.pos q < 2 ^ 53 ->
             let '(s, sc) := Float_digits q p in
             let ds := Number_toString s in
             let text := format_decimal ds (Z.of_nat (String.length ds) - sc) in
             parse_unsigned neg (text +:+ rest)
             = Some (Number_of_decimal neg s (- sc), rest)
             /\ Number_of_decimal false s (- sc) = JFloat (Dyadic (Z.pos q) p)
             /\ exists c t, text +:+ rest = String c t /\ is_Some (digit_value c)).
  { intros q neg Hq1 Hq2.
    destruct (Float_digits q p) as [s sc] eqn:Hdigits.
    destruct (Float_digits_spec q p Hq1 Hq2 Hp s sc Hdigits) as (Hread & Hs & Hsc).
    destruct (Number_toString_digits s) as (Hall & Hval & c & r & Heq & Hc & Hnz); [lia|].
    cbv zeta. split; [|split; [exact Hread|]].
    - rewrite parse_unsigned_format; [| exact Hall | | lia | exact Hends].
      + rewrite Hval. do 3 f_equal. lia.
      + exists c, r. split; [exact Heq | apply Hnz; exact Hs].
    - rewrite Heq.
      destruct (format_decimal_head c r (Z.of_nat (String.length (String c r)) - sc))
        as (c' & t & -> & [-> | ->]); cbn [String.append]; eexists _, _;
        (split; [reflexivity|]); [exact Hc | vm_compute; eauto]. }
  destruct m as [|q|q]; [discriminate| |].
  - specialize (Hcase q false Hodd Hm). cbn [Float_toString].
    destruct (Float_digits q p) as [s sc]. cbv zeta in Hcase.
    destruct Hcase as (Hparse & Hread & c & t & Htext & Hc).
    rewrite Htext in *. split.
    + rewrite parse_number_unsigned by exact Hc. now rewrite Hparse, Hread.
    + cbn [number_head]. apply orb_true_iff. left. now rewrite bool_decide_eq_true.
  - specialize (Hcase q true Hodd Hm). cbn [Float_toString].
    destruct (Float_digits q p) as [s sc]. cbv zeta in Hcase.
    destruct Hcase as (Hparse & Hread & _).
    rewrite string_app_assoc. cbn [String.append]. split; [|reflexivity].
    cbn [parse_number]. rewrite Hparse, Number_of_decimal_negate, Hread. reflexivity.
Qed.

(** The text of a number that is not an integer starts like a number. *)
Lemma Float_toString_head (m : Z) (p : positive) (t : string) :
  number_head (Float_toString (Dyadic m p) +:+ t) = true.
Proof.
  assert (Hformat : forall (s n : Z) (t' : string),
             number_head (format_decimal (Number_toString s) n +:+ t') = true).
  { intros s n t'. pose proof (Number_toString_head s "") as Hhead.
    rewrite string_app_nil_r in Hhead.
    destruct (Number_toString s) as [|c r]; [discriminate|].
    destruct (format_decimal_head c r n) as (c' & u & -> & [-> | ->]);
      [exact Hhead | reflexivity]. }
  destruct m as [|q|q]; cbn [Float_toString]; [reflexivity| |].
  - destruct (Float_digits q p) as [s sc]. apply Hformat.
  - destruct (Float_digits q p) as [s sc]. reflexivity.
Qed.

(** The text of a value never starts with white space or a closing bracket. *)
Lemma skip_ws_number (s : string) :
  number_head s = true -> skip_ws s = s.
Proof.
  destruct s as [|c r]; [discriminate|].
  destruct c as [[] [] [] [] [] [] [] []]; try discriminate; intros _; reflexivity.
Qed.

Lemma skip_ws_stringify (v : JSON) (t : string) :
  skip_ws (JSON_stringify v +:+ t) = JSON_stringify v +:+ t.
Proof.
  destruct v as [|[]|n|s|items|fields|[m p|negative]]; try reflexivity.
  - apply skip_ws_number, Number_toString_head.
  - apply skip_ws_number, Float_toString_head.
Qed.

Lemma number_not_bracket {A : Type} (s : string) (a : string -> A) (b : A) :
  number_head s = true ->
  match s with
  | String "]" r => a r
  | _ => b
  end = b.
Proof.
  destruct s as [|c r]; [discriminate|].
  destruct c as [[] [] [] [] [] [] [] []]; try discriminate; intros _; reflexivity.
Qed.

Lemma stringify_not_bracket {A : Type} (v : JSON) (t : string) (a : string -> A) (b : A) :
  match JSON_stringify v +:+ t with
  | String "]" r => a r
  | _ => b
  end = b.
Proof.
  destruct v as [|[]|n|s|items|fields|[m p|negative]]; try reflexivity.
  - apply number_not_bracket, Number_toString_head.
  - apply number_not_bracket, Float_toString_head.
Qed.

(** Induction on values, through arrays and objects. *)
Lemma JSON_induction (P : JSON -> Prop) :
  P JNull ->
  (forall b, P (JBool b)) ->
  (forall n, P (JNum n)) ->
  (forall s, P (JStr s)) ->
  (forall items, Forall P items -> P (JArr items)) ->
  (forall fields, Forall (fun kv => P (snd kv)) fields -> P (JObj fields)) ->
  (forall x, P (JFloat x)) ->
  forall v, P v.
Proof.
  intros Hnull Hbool Hnum Hstr Harr Hobj Hfloat.
  fix IH 1. intros [|b|n|s|items|fields|x].
  - exact Hnull.
  - apply Hbool.
  - apply Hnum.
  - apply Hstr.
  - apply Harr. induction items as [|x items IHitems]; constructor; [apply IH | exact IHitems].
  - apply Hobj. induction fields as [|[k x] fields IHfields]; constructor;
      [apply IH | exact IHfields].
  - apply Hfloat.
Qed.

(** Distinct names are defined in the order in which they are read. *)
Lemma existsb_eqb_false (k : string) (keys : list string) :
  existsb (String.eqb k) keys = false -> forall k', In k' keys -> k <> k'.
Proof.
  induction keys as [|k0 keys IH]; [intros _ k' []|].
  cbn [existsb]. intros H k' [<-|Hin].
  - apply orb_false_iff in H as [H _]. now apply String.eqb_neq.
  - apply orb_false_iff in H as [_ H]. now apply IH.
Qed.

Lemma obj_define_fresh (acc : list (string * JSON)) (k : string) (v : JSON) :
  (forall k', In k' (map fst acc) -> k <> k') ->
  obj_define acc k v = (acc ++ [(k, v)])%list.
Proof.
  induction acc as [|[k0 v0] acc IH]; intros Hfresh; [reflexivity|].
  cbn [obj_define]. destruct (String.eqb_spec k k0) as [->|Hne].
  - exfalso. apply (Hfresh k0); [left|]; reflexivity.
  - cbn [app]. rewrite IH; [reflexivity|].
    intros k' Hin. apply Hfresh. now right.
Qed.

Lemma distinct_app_in (l1 l2 : list string) :
  distinct (l1 ++ l2)%list = true ->
  distinct l2 = true /\ forall k, In k l2 -> forall k', In k' l1 -> k <> k'.
Proof.
  induction l1 as [|k1 l1 IH]; cbn [app distinct]; [intros H; split; [exact H | intros k _ k' []]|].
  intros H. apply andb_true_iff in H as [Hk1 Hrest].
  destruct (IH Hrest) as [Hd Hne]. split; [exact Hd|].
  intros k Hk k' [Heq|Hin]; [subst k'|now apply Hne].
  apply negb_true_iff in Hk1. apply not_eq_sym.
  apply (existsb_eqb_false k1 (l1 ++ l2)%list Hk1 k).
  apply in_or_app. now right.
Qed.

Lemma fold_obj_define (members acc : list (string * JSON)) :
  distinct (map fst (acc ++ members)%list) = true ->
  fold_left (fun a kv => obj_define a (fst kv) (snd kv)) members acc
  = (acc ++ members)%list.
Proof.
  revert acc. induction members as [|[k v] members IH]; intros acc Hd.
  - now rewrite app_nil_r.
  - cbn [fold_left fst snd]. rewrite obj_define_fresh.
    + rewrite IH; [now rewrite <- app_assoc|].
      now rewrite <- app_assoc.
    + rewrite map_app in Hd. apply distinct_app_in in Hd as [_ Hne].
      intros k' Hin. apply Hne; [left; reflexivity | exact Hin].
Qed.

Lemma obj_of_members_distinct (fields : list (string * JSON)) :
  distinct (map fst fields) = true -> obj_of_members fields = fields.
Proof. intros Hd. unfold obj_of_members. now rewrite fold_obj_define. Qed.

Lemma join_cons_cons (sep x y : string) (l : list string) :
  join sep (x :: y :: l) = x +:+ sep +:+ join sep (y :: l).
Proof. reflexivity. Qed.

Lemma parse_elements_roundtrip (items : list JSON) :
  Forall reads_back items ->
  forallb well_formed items = true ->
  items <> [] ->
  forall (fuel : nat) (rest : string),
    (list_sum (map (fun x => S (json_size x)) items) <= fuel)%nat ->
    parse_elements fuel (join "," (map JSON_stringify items) +:+ String "]" rest)
    = Some (items, rest).
Proof.
  induction 1 as [|x items Hx Hitems IH]; [congruence|].
  cbn [forallb]. intros Hwf _ fuel rest Hfuel.
  change (list_sum (map (fun x => S (json_size x)) (x :: items)))
    with (S (json_size x) + list_sum (map (fun x => S (json_size x)) items))%nat in Hfuel.
  apply andb_true_iff in Hwf as [Hwfx Hwfs].
  destruct fuel as [|m]; [lia|]. cbn [parse_elements].
  destruct items as [|y items].
  - cbn [map join]. rewrite (Hx Hwfx m (String "]" rest)); [reflexivity | | reflexivity].
    lia.
  - cbn [map]. rewrite join_cons_cons, !string_app_assoc. cbn [String.append].
    rewrite (Hx Hwfx m); [| lia | reflexivity].
    cbn [skip_ws is_json_ws]. 
    change (JSON_stringify y :: map JSON_stringify items)
      with (map JSON_stringify (y :: items)).
    rewrite IH; [reflexivity | exact Hwfs | discriminate | lia].
Qed.

Lemma member_text_app (k : string) (v : JSON) (tail : string) :
  member_text (k, v) +:+ tail
  = String "034" (quote_body k +:+ String "034" (String ":" (JSON_stringify v +:+ tail))).
Proof.
  unfold member_text. cbn [fst snd].
  now rewrite !string_app_assoc, QuoteJSONString_app.
Qed.

Lemma parse_members_roundtrip (fields : list (string * JSON)) :
  Forall (fun kv => reads_back (snd kv)) fields ->
  forallb (fun kv => well_formed (snd kv)) fields = true ->
  fields <> [] ->
  forall (fuel : nat) (rest : string),
    (list_sum (map (fun kv => S (json_size (snd kv))) fields) <= fuel)%nat ->
    parse_members fuel (join "," (map member_text fields) +:+ String "}" rest)
    = Some (fields, rest).
Proof.
  induction 1 as [|[k x] fields Hx Hfields IH]; [congruence|].
  cbn [forallb snd]. intros Hwf _ fuel rest Hfuel.
  change (list_sum (map (fun kv => S (json_size (snd kv))) ((k, x) :: fields)))
    with (S (json_size x)
          + list_sum (map (fun kv => S (json_size (snd kv))) fields))%nat in Hfuel.
  apply andb_true_iff in Hwf as [Hwfx Hwfs]. cbn [snd] in Hx.
  destruct fuel as [|m]; [lia|]. cbn [parse_members].
  destruct fields as [|kv fields].
  - cbn [map join]. rewrite member_text_app. cbn [skip_ws is_json_ws].
    rewrite parse_quote_body. cbn [skip_ws is_json_ws].
    rewrite (Hx Hwfx m (String "}" rest)); [reflexivity | lia | reflexivity].
  - cbn [map]. rewrite join_cons_cons, string_app_assoc, member_text_app.
    cbn [skip_ws is_json_ws]. rewrite parse_quote_body. cbn [skip_ws is_json_ws].
    rewrite !string_app_assoc. cbn [String.append].
    rewrite (Hx Hwfx m); [| lia | reflexivity].
    cbn [skip_ws is_json_ws].
    change (member_text kv :: map member_text fields)
      with (map member_text (kv :: fields)).
    rewrite IH; [reflexivity | exact Hwfs | discriminate | lia].
Qed.

(** Every well-formed value is read back from its text. *)
Lemma parse_value_roundtrip (v : JSON) : reads_back v.
Proof.
  induction v as [|b|n|s|items IH|fields IH|x] using JSON_induction;
    intros Hwf fuel rest Hfuel Hends;
    (destruct fuel as [|m]; [cbn [json_size] in Hfuel; lia|]).
  - reflexivity.
  - destruct b; reflexivity.
  - cbn [JSON_stringify]. rewrite parse_value_number by apply Number_toString_head.
    now apply parse_number_toString.
  - cbn [JSON_stringify]. rewrite QuoteJSONString_app.
    cbn [parse_value skip_ws is_json_ws]. now rewrite parse_quote_body.
  - cbn [JSON_stringify well_formed json_size] in *.
    rewrite string_app_assoc. cbn [String.append parse_value skip_ws is_json_ws].
    destruct items as [|x items]; [reflexivity|].
    assert (Hhead : exists tail,
               (join "," (map JSON_stringify (x :: items)) +:+ "]") +:+ rest
               = JSON_stringify x +:+ tail).
    { destruct items as [|y items]; cbn [map].
      - cbn [join]. rewrite string_app_assoc. eauto.
      - rewrite join_cons_cons, !string_app_assoc. eauto. }
    destruct Hhead as [tail Htail]. rewrite Htail.
    rewrite skip_ws_stringify, stringify_not_bracket. rewrite <- Htail.
    rewrite string_app_assoc. cbn [String.append].
    rewrite parse_elements_roundtrip; [reflexivity | exact IH | exact Hwf | discriminate | lia].
  - cbn [JSON_stringify well_formed json_size] in *.
    apply andb_true_iff in Hwf as [Hdistinct Hwf].
    change (map (fun kv => QuoteJSONString (fst kv) +:+ ":" +:+ JSON_stringify (snd kv)) fields)
      with (map member_text fields).
    rewrite string_app_assoc. cbn [String.append parse_value skip_ws is_json_ws].
    destruct fields as [|[k x] fields]; [reflexivity|].
    assert (Hhead : exists tail,
               (join "," (map member_text ((k, x) :: fields)) +:+ "}") +:+ rest
               = String "034" tail).
    { destruct fields as [|kv fields]; cbn [map].
      - cbn [join]. rewrite string_app_assoc, member_text_app. eauto.
      - rewrite join_cons_cons, !string_app_assoc, member_text_app. eauto. }
    destruct Hhead as [tail Htail]. rewrite Htail.
    cbn [skip_ws is_json_ws]. rewrite <- Htail.
    rewrite string_app_assoc. cbn [String.append].
    rewrite parse_members_roundtrip; [| exact IH | exact Hwf | discriminate | lia].
    now rewrite obj_of_members_distinct.
  - cbn [well_formed] in Hwf.
    destruct (parse_number_Float x rest Hwf Hends) as [Hparse Hhead].
    destruct x as [q p|negative]; [|discriminate].
    cbn [JSON_stringify]. now rewrite parse_value_number.
Qed.

Lemma join_length_bound {A : Type} (size : A -> nat) (text : A -> string) (l : list A) :
  Forall (fun x => (size x <= String.length (text x))%nat) l ->
  (list_sum (map (fun x => S (size x)) l)
   <= String.length (join "," (map text l)) + 1)%nat.
Proof.
  induction 1 as [|x l Hx Hl IH]; [cbn; lia|].
  change (list_sum (map (fun x => S (size x)) (x :: l)))
    with (S (size x) + list_sum (map (fun x => S (size x)) l))%nat.
  destruct l as [|y l].
  - cbn [map join list_sum fold_right]. lia.
  - cbn [map]. rewrite join_cons_cons, !string_length_app.
    cbn [map] in IH. cbn [String.length]. lia.
Qed.

Lemma json_size_le_length (v : JSON) :
  (json_size v <= String.length (JSON_stringify v))%nat.
Proof.
  induction v as [|b|n|s|items IH|fields IH|x] using JSON_induction.
  7: { cbn [json_size]. destruct x as [q p|negative]; [|cbn; lia].
       cbn [JSON_stringify].
       pose proof (Float_toString_head q p "") as H. rewrite string_app_nil_r in H.
       destruct (Float_toString (Dyadic q p)); [discriminate | cbn [String.length]; lia]. }
  - cbn. lia.
  - destruct b; cbn; lia.
  - cbn [json_size JSON_stringify].
    pose proof (Number_toString_head n "") as H. rewrite string_app_nil_r in H.
    destruct (Number_toString n); [discriminate | cbn [String.length]; lia].
  - cbn [json_size JSON_stringify String.length QuoteJSONString]. lia.
  - cbn [json_size JSON_stringify]. rewrite !string_length_app.
    pose proof (join_length_bound json_size JSON_stringify items IH).
    cbn [String.length]. lia.
  - cbn [json_size JSON_stringify]. rewrite !string_length_app.
    change (map (fun kv => QuoteJSONString (fst kv) +:+ ":" +:+ JSON_stringify (snd kv)) fields)
      with (map member_text fields).
    assert (Hmem : Forall (fun kv => (json_size (snd kv)
                                      <= String.length (member_text kv))%nat) fields).
    { eapply Forall_impl; [exact IH|]. intros [k x] Hx. cbn [snd] in *.
      unfold member_text. rewrite !string_length_app. cbn [snd]. lia. }
    pose proof (join_length_bound (fun kv => json_size (snd kv)) member_text fields Hmem).
    cbn [String.length]. lia.
Qed.

(** [JSON.parse(JSON.stringify(v))] is [v]. *)
Lemma JSON_parse_stringify (v : JSON) :
  well_formed v = true -> JSON_parse (JSON_stringify v) = Some v.
Proof.
  intros Hwf. unfold JSON_parse.
  pose proof (parse_value_roundtrip v Hwf (String.length (JSON_stringify v)) ""
                (json_size_le_length v) eq_refl) as H.
  rewrite string_app_nil_r in H. now rewrite H.
Qed.

Lemma JSON_stringify_nonempty (v : JSON) : String.eqb (JSON_stringify v) "" = false.
Proof.
  pose proof (json_size_le_length v) as H.
  destruct (JSON_stringify v); [|reflexivity].
  destruct v; cbn in H; lia.
Qed.

(** C9. For every value [v] that JSON can write and every key,
    [setObject(key, v)] followed by [getObject(key)] gives [v] back: [null],
    the booleans, the finite numbers, with or without a fraction, the
    strings, and the arrays and objects of such values, the properties of an
    object having distinct names.  (The write and the read are taken not to
    fail in the backend.) *)
Theorem setObject_getObject_roundtrip :
  forall (key : string) (v : JSON) (w : World),
    well_formed v = true ->
    faulty (device w) AsyncStorage OpSet key = false ->
    faulty (device w) AsyncStorage OpGet key = false ->
    exists w1,
      cacheStorage.setObject key v w = (Resolved tt, w1)
      /\ cacheStorage.getObject key w1 = (Resolved v, w1).
Proof.
  intros key v w Hwf Hset Hget.
  unfold cacheStorage.setObject, try_catch. rewrite cache_setItem_eq, Hset.
  eexists. split; [reflexivity|].
  rewrite cache_getObject_eq. cbn [device env with_env with_store asyncStorage].
  rewrite Hget, lookup_insert_eq, JSON_stringify_nonempty, JSON_parse_stringify by exact Hwf.
  reflexivity.
Qed.

Lemma setObject_getObject_witness :
  well_formed measurement = true
  /\ exists w1,
       cacheStorage.setObject STORAGE_KEYS.USER_INFO measurement
         (world_of sound_device empty_env) = (Resolved tt, w1)
       /\ cacheStorage.getObject STORAGE_KEYS.USER_INFO w1 = (Resolved measurement, w1).
Proof.
  split; [reflexivity|].
  apply (setObject_getObject_roundtrip STORAGE_KEYS.USER_INFO measurement
           (world_of sound_device empty_env)); reflexivity.
Defined.

(* ================================================================== *)
(** * The cache: entries with a time to live                           *)
(* ================================================================== *)

Lemma cache_getObject_frame (key : string) (w : World) :
  exists (v : JSON) (w1 : World),
    cacheStorage.getObject key w = (Resolved v, w1)
    /\ env w1 = env w /\ device w1 = device w /\ session w1 = session w.
Proof.
  rewrite cache_getObject_eq.
  destruct (faulty _ _ _ _); [do 2 eexists; split; [reflexivity | auto]|].
  destruct (asyncStorage (env w) !! key) as [text|];
    [|do 2 eexists; split; [reflexivity | auto]].
  destruct (String.eqb text ""); [do 2 eexists; split; [reflexivity | auto]|].
  destruct (JSON_parse text); do 2 eexists; (split; [reflexivity | auto]).
Qed.

(** What [getObject] reads where the backend does not fail. *)
Lemma cache_getObject_read (key : string) (w : World) :
  faulty (device w) AsyncStorage OpGet key = false ->
  exists w1,
    cacheStorage.getObject key w
    = (Resolved (match asyncStorage (env w) !! key with
                 | Some text =>
                     if String.eqb text "" then JNull
                     else match JSON_parse text with Some v => v | None => JNull end
                 | None => JNull
                 end), w1)
    /\ env w1 = env w /\ device w1 = device w /\ session w1 = session w.
Proof.
  intros Hget. rewrite cache_getObject_eq, Hget.
  destruct (asyncStorage (env w) !! key) as [text|]; [|eexists; split; [reflexivity | auto]].
  destruct (String.eqb text ""); [eexists; split; [reflexivity | auto]|].
  destruct (JSON_parse text); eexists; (split; [reflexivity | auto]).
Qed.

Section Expiry.

Variable exceeds : Z -> JSON -> option bool.

(** The expiry test changes nothing. *)
Lemma is_expired_frame (cacheItem : JSON) (w : World) :
  exists r, CacheStorageService.is_expired exceeds cacheItem w = (r, w).
Proof.
  unfold CacheStorageService.is_expired, CacheStorageService.now_exceeds.
  destruct cacheItem as [|b|n|s|items|fields|x]; cbn [get_prop]; unfold_monad;
    try (eexists; reflexivity).
  destruct (assoc "expireTime" fields) as [t|]; [|eexists; reflexivity].
  destruct (truthy t); [|eexists; reflexivity].
  destruct t; try (eexists; reflexivity);
    destruct (exceeds _ _); eexists; reflexivity.
Qed.

(** On an object whose expiry time is a number the test compares it with
    the clock. *)
Lemma is_expired_numeric (fields : list (string * JSON)) (n : Z) (w : World) :
  assoc "expireTime" fields = Some (JNum n) ->
  CacheStorageService.is_expired exceeds (JObj fields) w
  = (Resolved (negb (Z.eqb n 0) && (clock (env w) >? n)), w).
Proof.
  intros Hassoc. unfold CacheStorageService.is_expired, CacheStorageService.now_exceeds.
  cbn [get_prop]. unfold_monad. rewrite Hassoc. cbn [truthy].
  destruct (Z.eqb n 0); reflexivity.
Qed.

End Expiry.

Lemma cache_item_well_formed (value : JSON) (n : Z) :
  well_formed value = true ->
  well_formed (JObj [("value", value); ("expireTime", JNum n)]) = true.
Proof. intros Hwf. cbn. now rewrite Hwf. Qed.

Lemma env_at_time (later : Z) (w : World) :
  asyncStorage (env (at_time later w)) = asyncStorage (env w)
  /\ clock (env (at_time later w)) = later
  /\ device (at_time later w) = device w.
Proof. repeat split. Qed.

(** X2. An entry written by [setCached] is read back by [getCached] as long
    as the clock has not passed its expiry time, the time of writing plus
    the time to live (30 minutes by default): at the expiry time itself it
    is still returned, and an expiry time of 0 never runs out.  Once the
    clock has passed it, [getCached] gives [null] and removes the entry. *)
Theorem setCached_getCached_time_to_live :
  forall (exceeds : Z -> JSON -> option bool) (key : string) (value : JSON)
         (ttl : option Z) (later : Z) (w : World),
    well_formed value = true ->
    faulty (device w) AsyncStorage OpSet key = false ->
    faulty (device w) AsyncStorage OpGet key = false ->
    exists w1,
      CacheStorageService.setCached key value ttl w = (Resolved tt, w1)
      /\ (later <= clock (env w) + default CACHE_TIME.medium ttl
          \/ clock (env w) + default CACHE_TIME.medium ttl = 0 ->
          CacheStorageService.getCached exceeds key (at_time later w1)
          = (Resolved (Some value), at_time later w1))
      /\ (later > clock (env w) + default CACHE_TIME.medium ttl
          /\ clock (env w) + default CACHE_TIME.medium ttl <> 0 ->
          faulty (device w) AsyncStorage OpRemove key = false ->
          exists w2,
            CacheStorageService.getCached exceeds key (at_time later w1)
            = (Resolved (Some JNull), w2)
            /\ asyncStorage (env w2) !! key = None).
Proof.
  intros exceeds key value ttl later w Hwf Hset Hget.
  set (expireTime := clock (env w) + default CACHE_TIME.medium ttl).
  set (cacheItem := JObj [("value", value); ("expireTime", JNum expireTime)]).
  assert (Hwrite : CacheStorageService.setCached key value ttl w
                   = (Resolved tt,
                      with_env (with_store AsyncStorage
                                  (<[key := JSON_stringify cacheItem]> (asyncStorage (env w)))
                                  (env w)) w)).
  { unfold CacheStorageService.setCached, cacheStorage.setObject, try_catch, mbind, M_bind,
      Date_now. cbv zeta. rewrite cache_setItem_eq, Hset. reflexivity. }
  eexists. split; [exact Hwrite|].
  set (w1 := with_env _ w).
  assert (Hread : cacheStorage.getObject key (at_time later w1)
                  = (Resolved cacheItem, at_time later w1)).
  { rewrite cache_getObject_eq.
    change (device (at_time later w1)) with (device w). rewrite Hget.
    change (asyncStorage (env (at_time later w1)))
      with (<[key := JSON_stringify cacheItem]> (asyncStorage (env w))).
    rewrite lookup_insert_eq, JSON_stringify_nonempty.
    rewrite JSON_parse_stringify by (apply cache_item_well_formed; exact Hwf).
    reflexivity. }
  assert (Htest : CacheStorageService.is_expired exceeds cacheItem (at_time later w1)
                  = (Resolved (negb (Z.eqb expireTime 0) && (later >? expireTime)),
                     at_time later w1)).
  { apply (is_expired_numeric exceeds). reflexivity. }
  split.
  - intros Hfresh.
    unfold CacheStorageService.getCached, try_catch, mbind, M_bind.
    rewrite Hread. cbn [truthy cacheItem negb]. rewrite Htest.
    assert (negb (Z.eqb expireTime 0) && (later >? expireTime) = false) as ->.
    { destruct Hfresh as [Hle | Hzero].
      - apply andb_false_iff. right. lia.
      - rewrite Hzero. reflexivity. }
    reflexivity.
  - intros [Hpast Hnonzero] Hremove.
    unfold CacheStorageService.getCached, try_catch, mbind, M_bind.
    rewrite Hread. cbn [truthy cacheItem negb]. rewrite Htest.
    assert (negb (Z.eqb expireTime 0) && (later >? expireTime) = true) as ->.
    { apply andb_true_iff. split; [apply negb_true_iff | ]; lia. }
    rewrite cache_removeItem_eq.
    change (device (at_time later w1)) with (device w). rewrite Hremove.
    eexists. split; [reflexivity|].
    cbn [env with_env with_store asyncStorage]. apply lookup_delete_eq.
Qed.

(** Alice's record cached for the default half hour: read at the last
    millisecond of it, and one millisecond later. *)
Lemma setCached_getCached_witness :
  (exists w1,
      CacheStorageService.setCached "profile" alice None (world_of sound_device empty_env)
      = (Resolved tt, w1)
      /\ CacheStorageService.getCached no_conversion "profile" (at_time 1700001800000 w1)
         = (Resolved (Some alice), at_time 1700001800000 w1))
  /\ (exists w1 w2,
        CacheStorageService.setCached "profile" alice None (world_of sound_device empty_env)
        = (Resolved tt, w1)
        /\ CacheStorageService.getCached no_conversion "profile" (at_time 1700001800001 w1)
           = (Resolved (Some JNull), w2)
        /\ asyncStorage (env w2) !! "profile" = None).
Proof.
  split.
  - destruct (setCached_getCached_time_to_live no_conversion "profile" alice None
                1700001800000 (world_of sound_device empty_env) eq_refl eq_refl eq_refl)
      as (w1 & Hset & Hfresh & _).
    exists w1. split; [exact Hset|]. apply Hfresh. left. vm_compute. discriminate.
  - destruct (setCached_getCached_time_to_live no_conversion "profile" alice None
                1700001800001 (world_of sound_device empty_env) eq_refl eq_refl eq_refl)
      as (w1 & Hset & _ & Hpast).
    destruct Hpast as (w2 & Hget & Hgone);
      [split; [reflexivity | discriminate] | reflexivity |].
    exists w1, w2. split; [exact Hset|]. split; [exact Hget | exact Hgone].
Defined.

(* ================================================================== *)
(** * The cache: the sweep of expired entries                          *)
(* ================================================================== *)

Section Sweep.

Variable native : AsyncStorageBatch.
Variable exceeds : Z -> JSON -> option bool.

Lemma getAllKeys_resolves (w : World) :
  exists keys w1, CacheStorageService.getAllKeys native w = (Resolved keys, w1).
Proof.
  unfold CacheStorageService.getAllKeys, try_catch, perform.
  destruct (native_getAllKeys native (env w)) as [[keys|e] v]; unfold_monad;
    do 2 eexists; reflexivity.
Qed.

(** The test of the loop on what is stored under a key. *)
Lemma sweep_test (key : string) (w : World) :
  faulty (device w) AsyncStorage OpGet key = false ->
  numeric_expiry (asyncStorage (env w)) ->
  exists w1,
    (cacheItem ← cacheStorage.getObject key;
     match cacheItem with
     | JNull => mret false
     | _ => CacheStorageService.is_expired exceeds cacheItem
     end) w = (Resolved (stale_key (env w) key), w1)
    /\ env w1 = env w /\ device w1 = device w.
Proof.
  intros Hget Hnum. unfold mbind, M_bind.
  destruct (cache_getObject_read key w Hget) as (w1 & -> & Henv & Hdev & _).
  unfold stale_key, stale, expiry_of.
  pose proof (Hnum key) as Hkey. unfold expiry_of in Hkey.
  destruct (asyncStorage (env w) !! key) as [text|];
    [|eexists; split; [reflexivity | auto]].
  specialize (Hkey text).
  destruct (String.eqb text ""); [eexists; split; [reflexivity | auto]|].
  destruct (JSON_parse text) as [[|b|n|s|items|fields|x]|];
    try (eexists; split; [reflexivity | auto]).
  unfold CacheStorageService.is_expired. cbn [get_prop]. unfold_monad.
  destruct (assoc "expireTime" fields) as [t|]; [|eexists; split; [reflexivity | auto]].
  destruct (truthy t) eqn:Htruthy.
  - pose proof (Hkey t eq_refl eq_refl Htruthy) as Hnumber.
    destruct t; try discriminate; cbn [truthy] in Htruthy;
      cbn [CacheStorageService.now_exceeds]; unfold mret, M_ret;
      rewrite ?Htruthy, Henv; eexists; (split; [reflexivity | auto]).
  - destruct t; cbn [truthy] in Htruthy; try discriminate;
      try rewrite Htruthy; eexists; (split; [reflexivity | auto]).
Qed.

Lemma collect_expired_stale (allKeys keysToRemove : list string) (w : World) :
  (forall k, faulty (device w) AsyncStorage OpGet k = false) ->
  numeric_expiry (asyncStorage (env w)) ->
  exists w1,
    CacheStorageService.collect_expired exceeds allKeys keysToRemove w
    = (Resolved (keysToRemove ++ List.filter (stale_key (env w)) allKeys)%list, w1)
    /\ env w1 = env w /\ device w1 = device w.
Proof.
  revert keysToRemove w.
  induction allKeys as [|key rest IH]; intros keysToRemove w Hget Hnum.
  - cbn [CacheStorageService.collect_expired List.filter]. rewrite app_nil_r.
    eexists. split; [reflexivity | auto].
  - cbn [CacheStorageService.collect_expired List.filter].
    destruct (sweep_test key w (Hget key) Hnum) as (w1 & Htest & Henv & Hdev).
    unfold mbind, M_bind in *.
    destruct (cacheStorage.getObject key w) as [[cacheItem|e] w0]; [|discriminate].
    rewrite Htest.
    destruct (IH (if stale_key (env w) key then (keysToRemove ++ [key])%list
                  else keysToRemove) w1) as (w2 & -> & Henv2 & Hdev2).
    { intros k. rewrite Hdev. apply Hget. }
    { rewrite Henv. exact Hnum. }
    rewrite Henv. eexists.
    split; [destruct (stale_key (env w) key); [rewrite <- app_assoc|]; reflexivity|].
    split; congruence.
Qed.

End Sweep.

(** X3. The reads of the cache never reject, whatever is stored and
    whatever the platform does.  [getCached] always resolves, and the only
    entry it can change is its own, which it leaves as it is or removes.
    [clearExpired] and [getAllKeys] always resolve, and a key listing that
    fails in the backend is reported as the empty list. *)
Theorem cache_reads_never_reject :
  forall (native : AsyncStorageBatch) (exceeds : Z -> JSON -> option bool)
         (key : string) (w : World),
    (exists (result : option JSON) (w' : World),
        CacheStorageService.getCached exceeds key w = (Resolved result, w')
        /\ (forall k, k <> key -> asyncStorage (env w') !! k = asyncStorage (env w) !! k)
        /\ (asyncStorage (env w') !! key = asyncStorage (env w) !! key
            \/ asyncStorage (env w') !! key = None)
        /\ secureStore (env w') = secureStore (env w)
        /\ localStorage (env w') = localStorage (env w))
    /\ (exists w', CacheStorageService.clearExpired native exceeds w = (Resolved tt, w'))
    /\ (exists keys w', CacheStorageService.getAllKeys native w = (Resolved keys, w'))
    /\ (forall e v, native_getAllKeys native (env w) = (Rejected e, v) ->
        exists w', CacheStorageService.getAllKeys native w = (Resolved [], w')
                   /\ env w' = v).
Proof.
  intros native exceeds key w. split; [|split; [|split]].
  - unfold CacheStorageService.getCached, try_catch, mbind, M_bind.
    destruct (cache_getObject_frame key w) as (cacheItem & w1 & -> & Henv & Hdev & _).
    destruct (truthy cacheItem) eqn:Htruthy; cbn [negb].
    + destruct (is_expired_frame exceeds cacheItem w1) as [r ->].
      destruct r as [[|]|e].
      * rewrite cache_removeItem_eq. destruct (faulty _ _ _ _).
        -- unfold_monad. do 2 eexists. split; [reflexivity|].
           cbn [env with_trace]. rewrite Henv. auto.
        -- unfold mret, M_ret. do 2 eexists. split; [reflexivity|].
           cbn [env with_env with_store asyncStorage secureStore localStorage].
           rewrite Henv. repeat split; auto.
           ++ intros k Hk. apply lookup_delete_ne. congruence.
           ++ right. apply lookup_delete_eq.
      * destruct cacheItem; cbn [get_prop] in *; try discriminate; unfold_monad;
          do 2 eexists; (split; [reflexivity | rewrite Henv; auto]).
      * unfold_monad. do 2 eexists. split; [reflexivity|].
        cbn [env with_trace]. rewrite Henv. auto.
    + unfold mret, M_ret. do 2 eexists. split; [reflexivity | rewrite Henv; auto].
  - unfold CacheStorageService.clearExpired, try_catch.
    match goal with
    | |- context [match ?m w with _ => _ end] => destruct (m w) as [[[]|e] w1]
    end; [eexists; reflexivity|].
    unfold console_error, emit. eexists. reflexivity.
  - apply getAllKeys_resolves.
  - intros e v Hfail.
    unfold CacheStorageService.getAllKeys, try_catch, perform. rewrite Hfail.
    unfold_monad. eexists. split; reflexivity.
Qed.

(** X5. On a platform whose key listing and batch removal work and whose
    reads do not fail, and with numeric expiry times on record,
    [clearExpired] removes exactly the entries whose expiry time is not 0
    and lies before the clock: every other entry, whether it has not run out yet
    or was not written with an expiry time at all, keeps its value, and the
    other stores are untouched. *)
Theorem clearExpired_removes_exactly_the_stale_entries :
  forall (native : AsyncStorageBatch) (exceeds : Z -> JSON -> option bool) (w : World),
    batch_sound native ->
    (forall k, faulty (device w) AsyncStorage OpGet k = false) ->
    numeric_expiry (asyncStorage (env w)) ->
    exists w',
      CacheStorageService.clearExpired native exceeds w = (Resolved tt, w')
      /\ (forall k, asyncStorage (env w') !! k
                    = if stale_key (env w) k then None else asyncStorage (env w) !! k)
      /\ secureStore (env w') = secureStore (env w)
      /\ localStorage (env w') = localStorage (env w)
      /\ clock (env w') = clock (env w).
Proof.
  intros native exceeds w [Hkeys Hremove] Hget Hnum.
  destruct (Hkeys (env w)) as (allKeys & Hlist & Hall).
  unfold CacheStorageService.clearExpired, try_catch, mbind, M_bind.
  assert (Hstep1 : CacheStorageService.getAllKeys native w = (Resolved allKeys, w)).
  { unfold CacheStorageService.getAllKeys, try_catch, perform. rewrite Hlist.
    destruct w; reflexivity. }
  rewrite Hstep1.
  destruct (collect_expired_stale exceeds allKeys [] w Hget Hnum) as (w1 & -> & Henv & Hdev).
  cbn [app].
  assert (Hin : forall k, In k (List.filter (stale_key (env w)) allKeys)
                          <-> stale_key (env w) k = true).
  { intros k. rewrite filter_In. split; [tauto|]. intros Hstale. split; [|exact Hstale].
    apply Hall. unfold stale_key in Hstale.
    destruct (asyncStorage (env w) !! k); [eauto | discriminate]. }
  destruct (List.filter (stale_key (env w)) allKeys) as [|key keys] eqn:Hfilter.
  - eexists. split; [reflexivity|]. rewrite Henv. repeat split.
    intros k. destruct (stale_key (env w) k) eqn:Hstale; [|reflexivity].
    apply Hin in Hstale. destruct Hstale.
  - unfold CacheStorageService.multiRemove, try_catch, perform. rewrite Hremove.
    eexists. split; [reflexivity|].
    cbn [env with_env with_store asyncStorage secureStore localStorage clock].
    rewrite Henv. repeat split.
    intros k. destruct (stale_key (env w) k) eqn:Hstale.
    + apply lookup_foldr_delete. apply list_elem_of_In, Hin, Hstale.
    + apply lookup_foldr_delete_not_elem_of. rewrite list_elem_of_In, Hin. congruence.
Qed.

Lemma working_batch_sound : batch_sound working_batch.
Proof.
  split; [|reflexivity].
  intros v. eexists. split; [reflexivity|].
  intros k. rewrite in_map_iff. split.
  - intros ([k' text] & <- & Hin). apply list_elem_of_In, elem_of_map_to_list in Hin. eauto.
  - intros [text Hlookup]. exists (k, text). split; [reflexivity|].
    apply list_elem_of_In, elem_of_map_to_list. exact Hlookup.
Qed.

Lemma cache_env_numeric : numeric_expiry (asyncStorage cache_env).
Proof.
  intros k text t Hlookup Hexpiry Htruthy.
  unfold cache_env in Hlookup. cbn [asyncStorage] in Hlookup.
  apply lookup_insert_Some in Hlookup as [[_ <-]|[_ Hlookup]];
    [vm_compute in Hexpiry; injection Hexpiry as <-; eauto|].
  apply lookup_insert_Some in Hlookup as [[_ <-]|[_ Hlookup]];
    [vm_compute in Hexpiry; injection Hexpiry as <-; eauto|].
  apply lookup_insert_Some in Hlookup as [[_ <-]|[_ Hlookup]];
    [vm_compute in Hexpiry; discriminate|].
  rewrite lookup_empty in Hlookup. discriminate.
Qed.

Lemma clearExpired_witness :
  exists w',
    CacheStorageService.clearExpired working_batch no_conversion
      (world_of sound_device cache_env) = (Resolved tt, w')
    /\ (forall k, asyncStorage (env w') !! k
                  = if stale_key cache_env k then None else asyncStorage cache_env !! k)
    /\ secureStore (env w') = secureStore cache_env
    /\ localStorage (env w') = localStorage cache_env
    /\ clock (env w') = clock cache_env.
Proof.
  apply (clearExpired_removes_exactly_the_stale_entries working_batch no_conversion
           (world_of sound_device cache_env)).
  - exact working_batch_sound.
  - reflexivity.
  - exact cache_env_numeric.
Defined.

(* ================================================================== *)
(** * The secure partition: objects, and what [clear] clears           *)
(* ================================================================== *)

Lemma secure_getObject_eq (key : string) (w : World) :
  secureStorage.getObject key w =
  let b := secureStorage.backend (platform (device w)) in
  if faulty (device w) b OpGet key
  then (Resolved JNull,
        with_trace (ConsoleError ("[SecureStorage] Error reading " +:+ key +:+ ":") :: trace w) w)
  else match store_of b (env w) !! key with
       | Some text =>
           if String.eqb text "" then (Resolved JNull, w)
           else match JSON_parse text with
                | Some v => (Resolved v, w)
                | None =>
                    (Resolved JNull,
                     with_trace (ConsoleError ("[SecureStorage] Error reading object "
                                               +:+ key +:+ ":") :: trace w) w)
                end
       | None => (Resolved JNull, w)
       end.
Proof.
  unfold secureStorage.getObject, try_catch, mbind, M_bind. rewrite secure_getItem_eq.
  cbv zeta. destruct (faulty _ _ _ _); [reflexivity|].
  destruct (store_of _ _ !! key) as [text|]; [|reflexivity].
  destruct (String.eqb text ""); [reflexivity|].
  destruct (JSON_parse text); reflexivity.
Qed.

Lemma store_of_with_store_eq (b : Backend) (m : gmap string string) (v : Env) :
  store_of b (with_store b m v) = m.
Proof. destruct b; reflexivity. Qed.

Lemma store_of_with_store_ne (b b' : Backend) (m : gmap string string) (v : Env) :
  b' <> b -> store_of b' (with_store b m v) = store_of b' v.
Proof. destruct b, b'; intros Hne; try reflexivity; contradiction. Qed.

(** X6. On either platform an object written with [secureStorage.setObject]
    is read back by [secureStorage.getObject]; it is kept in [localStorage]
    on the web and in the secure store elsewhere, and no other store is
    touched. *)
Theorem secure_setObject_getObject_roundtrip :
  forall (key : string) (v : JSON) (w : World),
    well_formed v = true ->
    faulty (device w) (secureStorage.backend (platform (device w))) OpSet key = false ->
    faulty (device w) (secureStorage.backend (platform (device w))) OpGet key = false ->
    exists w1,
      secureStorage.setObject key v w = (Resolved tt, w1)
      /\ secureStorage.getObject key w1 = (Resolved v, w1)
      /\ store_of (secureStorage.backend (platform (device w))) (env w1) !! key
         = Some (JSON_stringify v)
      /\ (forall b, b <> secureStorage.backend (platform (device w)) ->
          store_of b (env w1) = store_of b (env w)).
Proof.
  intros key v w Hwf Hset Hget.
  unfold secureStorage.setObject, try_catch. rewrite secure_setItem_eq. cbv zeta.
  rewrite Hset. eexists. split; [reflexivity|].
  rewrite secure_getObject_eq. cbv zeta.
  cbn [device env with_env]. rewrite Hget, store_of_with_store_eq, lookup_insert_eq.
  rewrite JSON_stringify_nonempty, JSON_parse_stringify by exact Hwf.
  repeat split. intros b Hb. apply store_of_with_store_ne. exact Hb.
Qed.

Lemma secure_roundtrip_witness :
  well_formed alice = true
  /\ exists w1,
      secureStorage.setObject "profile" alice (world_of browser empty_env) = (Resolved tt, w1)
      /\ secureStorage.getObject "profile" w1 = (Resolved alice, w1)
      /\ store_of (secureStorage.backend (platform browser)) (env w1) !! "profile"
         = Some (JSON_stringify alice)
      /\ (forall b, b <> secureStorage.backend (platform browser) ->
          store_of b (env w1) = store_of b empty_env).
Proof.
  split; [reflexivity|].
  apply (secure_setObject_getObject_roundtrip "profile" alice (world_of browser empty_env));
    reflexivity.
Defined.

(** X7. [secureStorage.clear] clears the secure partition on the web only.
    On a native platform it resolves without removing anything: a value
    written before is still read afterwards.  On the web, with a
    [localStorage.clear] that empties the store, every read afterwards gives
    [null]. *)
Theorem secure_clear_only_clears_on_the_web :
  forall (localStorage_clear : Oracle unit) (key value : string) (w : World),
    faulty (device w) (secureStorage.backend (platform (device w))) OpSet key = false ->
    faulty (device w) (secureStorage.backend (platform (device w))) OpGet key = false ->
    exists w1,
      secureStorage.setItem key value w = (Resolved tt, w1)
      /\ (platform (device w) = Native ->
          SecureStorageService.clear localStorage_clear w1 = (Resolved tt, w1)
          /\ secureStorage.getItem key w1 = (Resolved (Some value), w1))
      /\ (platform (device w) = Web ->
          (forall v, localStorage_clear v = (Resolved tt, with_store LocalStorage ∅ v)) ->
          exists w2,
            SecureStorageService.clear localStorage_clear w1 = (Resolved tt, w2)
            /\ forall k, settles_with (secureStorage.getItem k w2) None).
Proof.
  intros clear_local key value w Hset Hget.
  rewrite secure_setItem_eq. cbv zeta. rewrite Hset. eexists. split; [reflexivity|]. split.
  - intros Hnative. split.
    + unfold SecureStorageService.clear, try_catch, mbind, M_bind, Platform_OS.
      cbn [device with_env]. rewrite Hnative. reflexivity.
    + rewrite secure_getItem_eq. cbn [device env with_env].
      rewrite Hget, store_of_with_store_eq, lookup_insert_eq. reflexivity.
  - intros Hweb Hclear.
    unfold SecureStorageService.clear, try_catch, mbind, M_bind, Platform_OS, perform.
    cbn [device env with_env]. rewrite Hweb, Hclear.
    eexists. split; [reflexivity|].
    intros k. unfold settles_with. rewrite secure_getItem_eq.
    cbn [device env with_env]. rewrite Hweb. cbn [secureStorage.backend].
    destruct (faulty (device w) LocalStorage OpGet k); [reflexivity|].
    cbn [store_of with_store localStorage fst]. rewrite lookup_empty. reflexivity.
Qed.

(** The same token, the same [clear], on a phone and in a browser. *)
Lemma secure_clear_witness :
  (exists w1,
      secureStorage.setItem STORAGE_KEYS.AUTH_TOKEN "A1" (world_of sound_device empty_env)
      = (Resolved tt, w1)
      /\ SecureStorageService.clear (fun v => (Resolved tt, with_store LocalStorage ∅ v)) w1
         = (Resolved tt, w1)
      /\ secureStorage.getItem STORAGE_KEYS.AUTH_TOKEN w1 = (Resolved (Some "A1"), w1))
  /\ (exists w1 w2,
        secureStorage.setItem STORAGE_KEYS.AUTH_TOKEN "A1" (world_of browser empty_env)
        = (Resolved tt, w1)
        /\ SecureStorageService.clear (fun v => (Resolved tt, with_store LocalStorage ∅ v)) w1
           = (Resolved tt, w2)
        /\ settles_with (secureStorage.getItem STORAGE_KEYS.AUTH_TOKEN w2) None).
Proof.
  split.
  - destruct (secure_clear_only_clears_on_the_web
                (fun v => (Resolved tt, with_store LocalStorage ∅ v))
                STORAGE_KEYS.AUTH_TOKEN "A1" (world_of sound_device empty_env)
                eq_refl eq_refl) as (w1 & Hset & Hnative & _).
    exists w1. split; [exact Hset|]. exact (Hnative eq_refl).
  - destruct (secure_clear_only_clears_on_the_web
                (fun v => (Resolved tt, with_store LocalStorage ∅ v))
                STORAGE_KEYS.AUTH_TOKEN "A1" (world_of browser empty_env)
                eq_refl eq_refl) as (w1 & Hset & _ & Hweb).
    destruct (Hweb eq_refl (fun v => eq_refl)) as (w2 & Hclear & Hread).
    exists w1, w2. split; [exact Hset|]. split; [exact Hclear|]. apply Hread.
Defined.

(* ================================================================== *)
(** * The auth storage: what a save and a clear leave behind           *)
(* ================================================================== *)

Ltac entry_cases d :=
  unfold stored_in, put_entry, remove_entry, entry_backend;
  cbn [entry_partition partition_backend entry_key];
  destruct (platform d);
  cbn [secureStorage.backend store_of with_store asyncStorage secureStore localStorage].

Lemma stored_in_put_entry_eq (d : Device) (v : Env) (e : Entry) (x : string) :
  stored_in d (put_entry d e x v) e = Some x.
Proof. destruct e; entry_cases d; by simplify_map_eq. Qed.

Lemma stored_in_put_entry_ne (d : Device) (v : Env) (e e' : Entry) (x : string) :
  e <> e' -> stored_in d (put_entry d e x v) e' = stored_in d v e'.
Proof.
  intros Hne. destruct e, e'; try contradiction; entry_cases d;
    try reflexivity; by simplify_map_eq.
Qed.

Lemma stored_in_remove_entry_eq (d : Device) (v : Env) (e : Entry) :
  stored_in d (remove_entry d e v) e = None.
Proof. destruct e; entry_cases d; by simplify_map_eq. Qed.

Lemma stored_in_remove_entry_ne (d : Device) (v : Env) (e e' : Entry) :
  e <> e' -> stored_in d (remove_entry d e v) e' = stored_in d v e'.
Proof.
  intros Hne. destruct e, e'; try contradiction; entry_cases d;
    try reflexivity; by simplify_map_eq.
Qed.

Lemma clock_put_entry (d : Device) (v : Env) (e : Entry) (x : string) :
  clock (put_entry d e x v) = clock v.
Proof. unfold put_entry. destruct (entry_backend d e); reflexivity. Qed.

(** [saveToken] on a device whose writes do not fail. *)
Lemma saveToken_writes_tokens (ti : TokenInfo) (w : World) :
  (forall e, e <> UserEntry ->
             faulty (device w) (entry_backend (device w) e) OpSet (entry_key e) = false) ->
  authStorage.saveToken ti w =
  (Resolved tt,
   with_trace (Logged DEBUG "Token saved successfully" "AuthStorage" :: trace w)
     (with_env (env_after_saveToken (device w) ti (env w)) w)).
Proof.
  intros Hrel.
  pose proof (Hrel AccessTokenEntry ltac:(discriminate)) as Ha.
  pose proof (Hrel RefreshTokenEntry ltac:(discriminate)) as Hr.
  pose proof (Hrel TokenExpireAtEntry ltac:(discriminate)) as He.
  cbn [entry_backend entry_partition partition_backend entry_key] in Ha, Hr, He.
  destruct ti as [access refresh expires type].
  unfold authStorage.saveToken, env_after_saveToken.
  cbn [accessToken refreshToken expiresIn].
  destruct refresh as [rt|]; [destruct (String.eqb rt "") eqn:Hrt|];
    (destruct expires as [seconds|]; [destruct (Z.eqb seconds 0) eqn:Hs|]);
    cbn [truthy_str default negb]; rewrite ?Hrt; cbn [negb];
    unfold try_catch, mbind, M_bind, mret, M_ret, Date_now, logger.debug, emit;
    repeat first
      [ rewrite secure_setItem_eq; cbv zeta; cbn [device env with_env]; rewrite ?Ha, ?Hr
      | rewrite cache_setItem_eq; cbn [device env with_env]; rewrite ?He ];
    unfold put_entry, entry_backend;
    cbn [entry_partition partition_backend entry_key];
    destruct (platform (device w)); reflexivity.
Qed.

Lemma saveToken_writes (ti : TokenInfo) (w : World) :
  reliable (device w) OpSet ->
  authStorage.saveToken ti w =
  (Resolved tt,
   with_trace (Logged DEBUG "Token saved successfully" "AuthStorage" :: trace w)
     (with_env (env_after_saveToken (device w) ti (env w)) w)).
Proof. intros Hrel. apply saveToken_writes_tokens. intros e _. apply Hrel. Qed.

Lemma stored_stored_in (w : World) (e : Entry) :
  stored w e = stored_in (device w) (env w) e.
Proof. reflexivity. Qed.

Lemma stored_in_after_saveToken (d : Device) (ti : TokenInfo) (v : Env) :
  stored_in d (env_after_saveToken d ti v) AccessTokenEntry = Some (accessToken ti)
  /\ stored_in d (env_after_saveToken d ti v) RefreshTokenEntry
     = (if truthy_str (refreshToken ti) then refreshToken ti
        else stored_in d v RefreshTokenEntry)
  /\ stored_in d (env_after_saveToken d ti v) TokenExpireAtEntry
     = match expiresIn ti with
       | Some seconds =>
           if Z.eqb seconds 0 then stored_in d v TokenExpireAtEntry
           else Some (Number_toString (clock v + seconds * 1000))
       | None => stored_in d v TokenExpireAtEntry
       end
  /\ stored_in d (env_after_saveToken d ti v) UserEntry = stored_in d v UserEntry.
Proof.
  unfold env_after_saveToken.
  destruct (refreshToken ti) as [rt|]; [destruct (String.eqb rt "") eqn:Hrt|];
    (destruct (expiresIn ti) as [seconds|]; [destruct (Z.eqb seconds 0)|]);
    cbn [truthy_str default negb]; rewrite ?Hrt; cbn [negb];
    repeat split;
    repeat first
      [ rewrite stored_in_put_entry_eq
      | rewrite stored_in_put_entry_ne by discriminate ];
    reflexivity.
Qed.

(** X8. [saveToken] always overwrites the access token, but the refresh
    token and the expiry time only when the token information carries them:
    with no refresh token (or an empty one) the refresh token stored before
    stays, and with no [expiresIn] (or 0) the expiry time stored before
    stays.  The user record is not touched.  (Writes are taken not to
    fail.) *)
Theorem saveToken_overwrites_only_what_it_is_given :
  forall (ti : TokenInfo) (w : World),
    reliable (device w) OpSet ->
    exists w',
      authStorage.saveToken ti w = (Resolved tt, w')
      /\ stored w' AccessTokenEntry = Some (accessToken ti)
      /\ stored w' RefreshTokenEntry
         = (if truthy_str (refreshToken ti) then refreshToken ti
            else stored w RefreshTokenEntry)
      /\ stored w' TokenExpireAtEntry
         = match expiresIn ti with
           | Some seconds =>
               if Z.eqb seconds 0 then stored w TokenExpireAtEntry
               else Some (Number_toString (clock (env w) + seconds * 1000))
           | None => stored w TokenExpireAtEntry
           end
      /\ stored w' UserEntry = stored w UserEntry.
Proof.
  intros ti w Hrel. rewrite (saveToken_writes ti w Hrel).
  eexists. split; [reflexivity|].
  rewrite !stored_stored_in. cbn [device env with_trace with_env].
  apply stored_in_after_saveToken.
Qed.

Lemma saveToken_overwrites_witness :
  reliable sound_device OpSet
  /\ exists w',
      authStorage.saveToken bare_token (world_of sound_device signed_in_env) = (Resolved tt, w')
      /\ stored w' AccessTokenEntry = Some "A2"
      /\ stored w' RefreshTokenEntry = Some "R1"
      /\ stored w' TokenExpireAtEntry = Some "1700003600000"
      /\ stored w' UserEntry = Some (JSON_stringify alice).
Proof.
  split; [intros e; reflexivity|].
  destruct (saveToken_overwrites_only_what_it_is_given bare_token
              (world_of sound_device signed_in_env)) as (w' & Hsave & Ha & Hr & He & Hu);
    [intros e; reflexivity|].
  exists w'. repeat split; assumption.
Defined.

(** X9. After [saveToken] with a lifetime of [seconds] (not 0) at time
    [now], [isTokenExpired] at a later time [later] says true exactly when
    [later >= now + seconds * 1000 - 300000]: in particular a token that
    lives 300 seconds or less counts as expired from the moment it is saved.
    (The times are numbers that JavaScript holds exactly: the clock readings
    and the expiry time lie within the safe integers.)  After a [saveToken]
    without a lifetime, the verdict is the one of the expiry time stored
    before. *)
Theorem saveToken_then_isTokenExpired :
  forall (ti : TokenInfo) (later : Z) (w : World),
    reliable (device w) OpSet ->
    faulty (device w) AsyncStorage OpGet STORAGE_KEYS.TOKEN_EXPIRE_TIME = false ->
    exists w1,
      authStorage.saveToken ti w = (Resolved tt, w1)
      /\ (forall seconds, expiresIn ti = Some seconds -> seconds <> 0 ->
          safe_expiry (clock (env w)) seconds -> safe_integer later ->
          authStorage.isTokenExpired (at_time later w1)
          = (Resolved (later >=? clock (env w) + seconds * 1000 - 5 * 60 * 1000),
             at_time later w1)
          /\ (seconds <= 300 ->
              authStorage.isTokenExpired w1 = (Resolved true, w1)))
      /\ (expiresIn ti = None \/ expiresIn ti = Some 0 ->
          fst (authStorage.isTokenExpired (at_time later w1))
          = fst (authStorage.isTokenExpired (at_time later w))).
Proof.
  intros ti later w Hrel Hget. rewrite (saveToken_writes ti w Hrel).
  eexists. split; [reflexivity|].
  set (w1 := with_trace _ _).
  assert (Hexpiry : forall now, asyncStorage (env (at_time now w1)) !! STORAGE_KEYS.TOKEN_EXPIRE_TIME
                    = stored_in (device w) (env_after_saveToken (device w) ti (env w))
                        TokenExpireAtEntry) by reflexivity.
  pose proof (stored_in_after_saveToken (device w) ti (env w)) as (_ & _ & Hafter & _).
  split.
  - intros seconds Hseconds Hnonzero _ _.
    rewrite Hseconds in Hafter. apply Z.eqb_neq in Hnonzero. rewrite Hnonzero in Hafter.
    assert (Hverdict : forall now,
               authStorage.isTokenExpired (at_time now w1)
               = (Resolved (now >=? clock (env w) + seconds * 1000 - 5 * 60 * 1000),
                  at_time now w1)).
    { intros now. rewrite isTokenExpired_eq.
      change (device (at_time now w1)) with (device w). rewrite Hget.
      rewrite Hexpiry, Hafter, parseInt_Number_toString.
      destruct (String.eqb (Number_toString _) "") eqn:Hempty; [|reflexivity].
      apply String.eqb_eq in Hempty.
      pose proof (Number_toString_head (clock (env w) + seconds * 1000) "") as Hhead.
      rewrite string_app_nil_r, Hempty in Hhead. discriminate. }
    split; [apply Hverdict|].
    intros Hshort.
    assert (Hsame : at_time (clock (env w)) w1 = w1).
    { unfold at_time, w1. cbn [env with_trace with_env].
      unfold env_after_saveToken. rewrite Hseconds, Hnonzero.
      destruct (truthy_str (refreshToken ti));
        unfold put_entry, entry_backend;
        cbn [entry_partition partition_backend entry_key];
        destruct (platform (device w)); reflexivity. }
    rewrite <- Hsame at 1 2. rewrite Hverdict.
    replace (clock (env w) >=? clock (env w) + seconds * 1000 - 5 * 60 * 1000) with true
      by (symmetry; apply Z.geb_le; lia).
    rewrite Hsame. reflexivity.
  - intros Hnone.
    rewrite !isTokenExpired_eq.
    change (device (at_time later w1)) with (device w).
    change (device (at_time later w)) with (device w). rewrite Hget.
    rewrite Hexpiry.
    destruct Hnone as [-> | ->] in Hafter; cbn [Z.eqb] in Hafter; rewrite Hafter; reflexivity.
Qed.

(** An hour-long token one millisecond before its last five minutes, a
    token that lives five minutes, and a token without a lifetime saved over
    alice's session. *)
Lemma saveToken_then_isTokenExpired_witness :
  (exists w1,
      authStorage.saveToken alice_token (world_of sound_device empty_env) = (Resolved tt, w1)
      /\ authStorage.isTokenExpired (at_time 1700003299999 w1)
         = (Resolved false, at_time 1700003299999 w1)
      /\ authStorage.isTokenExpired (at_time 1700003300000 w1)
         = (Resolved true, at_time 1700003300000 w1))
  /\ (exists w1,
        authStorage.saveToken short_token (world_of sound_device empty_env)
        = (Resolved tt, w1)
        /\ authStorage.isTokenExpired w1 = (Resolved true, w1))
  /\ (exists w1,
        authStorage.saveToken bare_token (world_of sound_device signed_in_env)
        = (Resolved tt, w1)
        /\ fst (authStorage.isTokenExpired (at_time 1700003300000 w1))
           = fst (authStorage.isTokenExpired
                    (at_time 1700003300000 (world_of sound_device signed_in_env)))).
Proof.
  split; [|split].
  - destruct (saveToken_then_isTokenExpired alice_token 1700003299999
                (world_of sound_device empty_env) ltac:(intros e; reflexivity) eq_refl)
      as (w1 & Hsave & Hbefore & _).
    destruct (saveToken_then_isTokenExpired alice_token 1700003300000
                (world_of sound_device empty_env) ltac:(intros e; reflexivity) eq_refl)
      as (w1' & Hsave' & Hat & _).
    assert (w1' = w1) by congruence. subst w1'.
    exists w1. split; [exact Hsave|].
    assert (Hsafe : safe_expiry (clock (env (world_of sound_device empty_env))) 3600)
      by (repeat split; discriminate).
    split; [exact (proj1 (Hbefore 3600 eq_refl ltac:(discriminate) Hsafe
                            ltac:(discriminate)))
           | exact (proj1 (Hat 3600 eq_refl ltac:(discriminate) Hsafe
                             ltac:(discriminate)))].
  - destruct (saveToken_then_isTokenExpired short_token 0
                (world_of sound_device empty_env) ltac:(intros e; reflexivity) eq_refl)
      as (w1 & Hsave & Hshort & _).
    exists w1. split; [exact Hsave|].
    apply (Hshort 300 eq_refl ltac:(discriminate)); try discriminate.
    repeat split; discriminate.
  - destruct (saveToken_then_isTokenExpired bare_token 1700003300000
                (world_of sound_device signed_in_env) ltac:(intros e; reflexivity) eq_refl)
      as (w1 & Hsave & _ & Hstale).
    exists w1. split; [exact Hsave|]. apply Hstale. left. reflexivity.
Defined.

(** X10. [clearAll] is not all-or-nothing.  When the removal of the access
    token fails, [clearAll] rejects with the backend's error; [clearToken]
    has stopped at that first removal, so the refresh token and the expiry
    time are still stored, while the user record, cleared alongside, is
    gone. *)
Theorem clearAll_is_not_atomic :
  forall (w : World),
    faulty (device w) (entry_backend (device w) AccessTokenEntry) OpRemove
      STORAGE_KEYS.AUTH_TOKEN = true ->
    faulty (device w) AsyncStorage OpRemove STORAGE_KEYS.USER_INFO = false ->
    exists w',
      authStorage.clearAll w
      = (Rejected (NativeError (entry_backend (device w) AccessTokenEntry) OpRemove
                     STORAGE_KEYS.AUTH_TOKEN), w')
      /\ stored w' UserEntry = None
      /\ stored w' AccessTokenEntry = stored w AccessTokenEntry
      /\ stored w' RefreshTokenEntry = stored w RefreshTokenEntry
      /\ stored w' TokenExpireAtEntry = stored w TokenExpireAtEntry.
Proof.
  intros w Htoken Huser.
  cbn [entry_backend entry_partition partition_backend] in Htoken.
  unfold authStorage.clearAll, try_catch, mbind, M_bind, promise_all2.
  assert (Hfirst : authStorage.clearToken w
                   = (Rejected (NativeError (secureStorage.backend (platform (device w)))
                                  OpRemove STORAGE_KEYS.AUTH_TOKEN),
                      with_trace (Logged ERROR "Failed to clear token" "AuthStorage"
                                  :: ConsoleError ("[SecureStorage] Error removing "
                                                   +:+ STORAGE_KEYS.AUTH_TOKEN +:+ ":")
                                  :: trace w) w)).
  { unfold authStorage.clearToken, try_catch, mbind, M_bind.
    rewrite secure_removeItem_eq. cbv zeta. rewrite Htoken. reflexivity. }
  rewrite Hfirst.
  assert (Hsecond : forall t,
             authStorage.clearUser (with_trace t w)
             = (Resolved tt,
                with_trace (Logged DEBUG "User info cleared successfully" "AuthStorage" :: t)
                  (with_env (remove_entry (device w) UserEntry (env w)) w))).
  { intros t. unfold authStorage.clearUser, try_catch, mbind, M_bind.
    rewrite cache_removeItem_eq. cbn [device with_trace]. rewrite Huser. reflexivity. }
  rewrite Hsecond.
  unfold logger.error, emit, throw. cbn [entry_backend entry_partition partition_backend].
  eexists. split; [reflexivity|].
  rewrite !stored_stored_in. cbn [device env with_trace with_env].
  rewrite stored_in_remove_entry_eq.
  rewrite !stored_in_remove_entry_ne by discriminate. auto.
Qed.

Lemma clearAll_is_not_atomic_witness :
  exists w',
    authStorage.clearAll (world_of sticky_device signed_in_env)
    = (Rejected (NativeError SecureStore OpRemove STORAGE_KEYS.AUTH_TOKEN), w')
    /\ stored w' UserEntry = None
    /\ stored w' AccessTokenEntry = Some "A1"
    /\ stored w' RefreshTokenEntry = Some "R1"
    /\ stored w' TokenExpireAtEntry = Some "1700003600000".
Proof.
  apply (clearAll_is_not_atomic (world_of sticky_device signed_in_env)); reflexivity.
Defined.

(* ================================================================== *)
(** * The auth service: failures on the way                            *)
(* ================================================================== *)

Lemma saveUser_write_fails (u : JSON) (w : World) :
  faulty (device w) AsyncStorage OpSet STORAGE_KEYS.USER_INFO = true ->
  exists w',
    authStorage.saveUser u w
    = (Rejected (NativeError AsyncStorage OpSet STORAGE_KEYS.USER_INFO), w')
    /\ env w' = env w /\ device w' = device w /\ session w' = session w.
Proof.
  intros Hfull.
  unfold authStorage.saveUser, cacheStorage.setObject, try_catch, mbind, M_bind.
  rewrite cache_setItem_eq, Hfull. unfold_monad.
  eexists. split; [reflexivity|]. auto.
Qed.

(** X12. A login is not rolled back.  When the server has answered and the
    tokens have been written but the user record cannot be, [login] rejects
    with the backend's error, and the access token of the answer stays in the
    store. *)
Theorem failed_login_keeps_the_token :
  forall (http : HttpApi) (params : LoginParams) (response : LoginResponse)
         (v : Env) (w : World),
    post_login http params (env w) = (Resolved response, v) ->
    (forall e, e <> UserEntry ->
               faulty (device w) (entry_backend (device w) e) OpSet (entry_key e) = false) ->
    faulty (device w) AsyncStorage OpSet STORAGE_KEYS.USER_INFO = true ->
    exists w',
      authService.login http params w
      = (Rejected (NativeError AsyncStorage OpSet STORAGE_KEYS.USER_INFO), w')
      /\ stored w' AccessTokenEntry = Some (accessToken (lr_token response))
      /\ stored w' UserEntry = stored_in (device w) v UserEntry.
Proof.
  intros http params response v w Hpost Htokens Huser.
  unfold authService.login, authService.http_post, try_catch, mbind, M_bind,
    logger.info, emit, perform.
  cbn [env with_trace]. rewrite Hpost.
  rewrite saveToken_writes_tokens by exact Htokens.
  match goal with
  | |- context [authStorage.saveUser ?u ?w0] =>
      destruct (saveUser_write_fails u w0 Huser) as (w1 & -> & Henv & Hdev & _)
  end.
  unfold logger.error, errorTracker.trackApiError, mbind, M_bind, emit, throw.
  eexists. split; [reflexivity|].
  rewrite !stored_stored_in. cbn [device env with_trace with_env].
  rewrite Henv, Hdev. cbn [device env with_trace with_env].
  pose proof (stored_in_after_saveToken (device w) (lr_token response) v)
    as (Ha & _ & _ & Hu).
  split; assumption.
Qed.

Lemma failed_login_keeps_the_token_witness :
  exists w',
    authService.login http_alice alice_params (world_of full_device empty_env)
    = (Rejected (NativeError AsyncStorage OpSet STORAGE_KEYS.USER_INFO), w')
    /\ stored w' AccessTokenEntry = Some "A1"
    /\ stored w' UserEntry = None.
Proof.
  apply (failed_login_keeps_the_token http_alice alice_params alice_login_response
           empty_env (world_of full_device empty_env)).
  - reflexivity.
  - intros [] Hne; try reflexivity. contradiction.
  - reflexivity.
Defined.

Lemma get_prop_not_null (v : JSON) (k : string) (w : World) :
  v <> JNull -> exists r, get_prop v k w = (Resolved r, w).
Proof. intros Hv. destruct v; [congruence | eexists; reflexivity..]. Qed.

(** What the store holds once the token and the user of an answer have been
    saved. *)
Lemma stored_in_after_sign_in (d : Device) (ti : TokenInfo) (u : string) (v : Env) :
  stored_in d (put_entry d UserEntry u (env_after_saveToken d ti v)) AccessTokenEntry
  = Some (accessToken ti)
  /\ stored_in d (put_entry d UserEntry u (env_after_saveToken d ti v)) UserEntry = Some u.
Proof.
  split; [|apply stored_in_put_entry_eq].
  rewrite stored_in_put_entry_ne by discriminate.
  apply stored_in_after_saveToken.
Qed.

Lemma getUser_reads_back (u : JSON) (w : World) :
  well_formed u = true ->
  faulty (device w) AsyncStorage OpGet STORAGE_KEYS.USER_INFO = false ->
  stored w UserEntry = Some (JSON_stringify u) ->
  authStorage.getUser w = (Resolved u, w).
Proof.
  intros Hwf Hget Hstored.
  unfold authStorage.getUser, try_catch. rewrite cache_getObject_eq, Hget.
  change (asyncStorage (env w) !! STORAGE_KEYS.USER_INFO) with (stored w UserEntry).
  rewrite Hstored, JSON_stringify_nonempty, JSON_parse_stringify by exact Hwf.
  reflexivity.
Qed.

(** X13. A login or a registration that the server answers with a user
    and a token signs the user in, whatever the answer is: the access token
    of the answer is stored and becomes the token of the session, the user is
    read back from the store as sent, and the session is AUTHENTICATED with
    that user.  (Writes and reads are taken not to fail; the user is an
    object whose property names are distinct.) *)
Theorem answered_sign_in_authenticates :
  forall (http : HttpApi) (response : LoginResponse) (v : Env) (w : World),
    reliable (device w) OpSet ->
    reliable (device w) OpGet ->
    well_formed (lr_user response) = true ->
    lr_user response <> JNull ->
    (forall params,
        post_login http params (env w) = (Resolved response, v) ->
        exists w',
          AuthProvider.login http params w = (Resolved tt, w')
          /\ stored w' AccessTokenEntry = Some (accessToken (lr_token response))
          /\ authStorage.getUser w' = (Resolved (lr_user response), w')
          /\ session w' = {| status := AUTHENTICATED; user := Some (lr_user response);
                             token := Some (accessToken (lr_token response)) |})
    /\ (forall params,
          post_register http params (env w) = (Resolved response, v) ->
          exists w',
            AuthContext.register http params w = (Resolved tt, w')
            /\ stored w' AccessTokenEntry = Some (accessToken (lr_token response))
            /\ authStorage.getUser w' = (Resolved (lr_user response), w')
            /\ session w' = {| status := AUTHENTICATED; user := Some (lr_user response);
                               token := Some (accessToken (lr_token response)) |}).
Proof.
  intros http response v w Hset Hget Hwf Hnull.
  pose proof (Hget AccessTokenEntry) as Hga.
  pose proof (Hget UserEntry) as Hgu.
  cbn [entry_backend entry_partition partition_backend entry_key] in Hgu.
  pose proof (stored_in_after_sign_in (device w) (lr_token response)
                (JSON_stringify (lr_user response)) v) as [Ha Hu].
  split; intros params Hpost.
  - unfold AuthProvider.login, authService.login.
    run. rewrite Hpost. run.
    rewrite saveToken_writes by exact Hset.
    run. rewrite saveUser_reliable; [| exact Hset | exact Hnull].
    run.
    match goal with
    | |- context [get_prop (lr_user response) "id" ?w0] =>
        destruct (get_prop_not_null (lr_user response) "id" w0 Hnull) as [r ->]
    end.
    run. rewrite getAccessToken_eq. run. rewrite Hga. run.
    match goal with
    | |- context [get_prop (lr_user response) "id" ?w0] =>
        destruct (get_prop_not_null (lr_user response) "id" w0 Hnull) as [r' ->]
    end.
    eexists. split; [reflexivity|].
    rewrite stored_stored_in.
    cbn [device env session trace with_trace with_env with_session status user token].
    split; [exact Ha|]. split.
    + apply getUser_reads_back; [exact Hwf | exact Hgu | exact Hu].
    + rewrite stored_stored_in.
      cbn [device env session trace with_trace with_env with_session status user token].
      rewrite Ha. reflexivity.
  - unfold AuthContext.register, authService.register.
    run. rewrite Hpost. run.
    rewrite saveToken_writes by exact Hset.
    run. rewrite saveUser_reliable; [| exact Hset | exact Hnull].
    run.
    match goal with
    | |- context [get_prop (lr_user response) "id" ?w0] =>
        destruct (get_prop_not_null (lr_user response) "id" w0 Hnull) as [r ->]
    end.
    run. rewrite getAccessToken_eq. run. rewrite Hga. run.
    match goal with
    | |- context [get_prop (lr_user response) "id" ?w0] =>
        destruct (get_prop_not_null (lr_user response) "id" w0 Hnull) as [r' ->]
    end.
    eexists. split; [reflexivity|].
    rewrite stored_stored_in.
    cbn [device env session trace with_trace with_env with_session status user token].
    split; [exact Ha|]. split.
    + apply getUser_reads_back; [exact Hwf | exact Hgu | exact Hu].
    + rewrite stored_stored_in.
      cbn [device env session trace with_trace with_env with_session status user token].
      rewrite Ha. reflexivity.
Qed.

Lemma answered_sign_in_witness :
  exists w',
    AuthContext.register http_alice alice_registration
      (world_of sound_device empty_env) = (Resolved tt, w')
    /\ stored w' AccessTokenEntry = Some "A1"
    /\ authStorage.getUser w' = (Resolved alice, w')
    /\ session w' = {| status := AUTHENTICATED; user := Some alice; token := Some "A1" |}.
Proof.
  apply (proj2 (answered_sign_in_authenticates http_alice alice_login_response empty_env
                  (world_of sound_device empty_env)
                  ltac:(intros e; reflexivity) ltac:(intros e; reflexivity)
                  ltac:(reflexivity) ltac:(discriminate))).
  reflexivity.
Defined.

(* ================================================================== *)
(** * Reads that stay on the device                                    *)
(* ================================================================== *)

Lemma getAccessToken_quiet (w : World) :
  quiet authStorage.getAccessToken w (readable w AccessTokenEntry).
Proof.
  unfold quiet, readable. rewrite getAccessToken_eq.
  destruct (faulty _ _ _ _).
  - exists [ConsoleError ("[SecureStorage] Error reading " +:+ STORAGE_KEYS.AUTH_TOKEN +:+ ":")].
    split; reflexivity.
  - exists []. split; [destruct w|]; reflexivity.
Qed.

Lemma getUser_quiet (w : World) : quiet authStorage.getUser w (saved_user w).
Proof.
  unfold quiet, saved_user, readable, authStorage.getUser, try_catch.
  rewrite cache_getObject_eq.
  cbn [entry_backend entry_partition partition_backend entry_key].
  destruct (faulty _ _ _ _); [eexists [_]; split; reflexivity|].
  change (stored w UserEntry) with (asyncStorage (env w) !! STORAGE_KEYS.USER_INFO).
  destruct (asyncStorage (env w) !! STORAGE_KEYS.USER_INFO) as [text|];
    [|exists []; split; [destruct w|]; reflexivity].
  destruct (String.eqb text ""); [exists []; split; [destruct w|]; reflexivity|].
  destruct (JSON_parse text); [exists []; split; [destruct w|]; reflexivity|].
  eexists [_]. split; reflexivity.
Qed.

Lemma isTokenExpired_quiet (w : World) :
  quiet authStorage.isTokenExpired w (expired_now w).
Proof.
  unfold quiet, expired_now, readable. rewrite isTokenExpired_eq.
  cbn [entry_backend entry_partition partition_backend entry_key].
  destruct (faulty _ _ _ _); [eexists [_]; split; reflexivity|].
  exists []. split; [destruct w|]; reflexivity.
Qed.

Lemma http_calls_quiet (t : list Event) (w : World) :
  http_calls t = 0%nat -> http_calls (trace (with_trace (t ++ trace w) w)) = http_calls (trace w).
Proof. intros Ht. cbn [trace with_trace]. rewrite http_calls_app, Ht. reflexivity. Qed.

(** X14. [checkAuth] contacts the server only when an access token is on
    record and its expiry time is within five minutes or past: with no token
    it answers false, with a token that is not about to expire it answers
    true, and in both cases no request is made and nothing on the platform
    changes. *)
Theorem checkAuth_stays_offline_unless_expired :
  forall (http : HttpApi) (w : World),
    token_present w = false \/ expired_now w = false ->
    exists w',
      authService.checkAuth http w = (Resolved (token_present w), w')
      /\ env w' = env w
      /\ http_calls (trace w') = http_calls (trace w).
Proof.
  intros http w Hcase.
  unfold authService.checkAuth, try_catch, mbind, M_bind.
  destruct (getAccessToken_quiet w) as (t1 & -> & Ht1).
  fold (token_present w).
  destruct (token_present w) eqn:Htoken; cbn [negb].
  - destruct Hcase as [Hcase | Hfresh]; [discriminate|].
    destruct (isTokenExpired_quiet (with_trace (t1 ++ trace w)%list w)) as (t2 & Hexp & Ht2).
    change (expired_now (with_trace (t1 ++ trace w)%list w)) with (expired_now w) in Hexp.
    rewrite Hexp, Hfresh. unfold mret, M_ret.
    eexists. split; [reflexivity|]. split; [reflexivity|].
    cbn [trace with_trace]. rewrite !http_calls_app, Ht1, Ht2. reflexivity.
  - unfold mret, M_ret. eexists. split; [reflexivity|]. split; [reflexivity|].
    apply http_calls_quiet, Ht1.
Qed.

Lemma checkAuth_stays_offline_witness :
  exists w',
    authService.checkAuth http_offline (world_of sound_device signed_in_env)
    = (Resolved true, w')
    /\ env w' = signed_in_env
    /\ http_calls (trace w') = 0%nat.
Proof.
  apply (checkAuth_stays_offline_unless_expired http_offline
           (world_of sound_device signed_in_env)).
  right. reflexivity.
Defined.

Lemma saveUser_writes (u : JSON) (w : World) :
  faulty (device w) AsyncStorage OpSet STORAGE_KEYS.USER_INFO = false ->
  u <> JNull ->
  authStorage.saveUser u w =
  (Resolved tt,
   with_trace (Logged DEBUG "User info saved successfully" "AuthStorage" :: trace w)
     (with_env (with_store AsyncStorage
                  (<[STORAGE_KEYS.USER_INFO := JSON_stringify u]> (asyncStorage (env w)))
                  (env w)) w)).
Proof.
  intros Hwrite Hu.
  unfold authStorage.saveUser, cacheStorage.setObject, try_catch, mbind, M_bind.
  rewrite cache_setItem_eq, Hwrite.
  destruct u; [congruence | reflexivity..].
Qed.

(* ================================================================== *)
(** * The request interceptor                                          *)
(* ================================================================== *)

(** X19. The request interceptor changes three things in a request and
    nothing else: it stamps the start time, it sets [Authorization] to
    [Bearer <token>] when the token getter yields a non-empty token (and leaves
    the header as the caller set it otherwise), and it sets [Content-Type] to
    [application/json] unless the caller has set a non-empty one.  Method,
    URL, body and every other header pass unchanged. *)
Theorem request_interceptor_headers :
  forall (registry : interceptors.Registry) (config config' : Config) (w w' : World),
    interceptors.request_onFulfilled registry config w = (Resolved config', w') ->
    cfg_method config' = cfg_method config
    /\ cfg_url config' = cfg_url config
    /\ cfg_data config' = cfg_data config
    /\ requestStartTime config' = Some (clock (env w))
    /\ cfg_headers config' !! "Authorization"
       = (if truthy_str (token_for registry w)
          then Some ("Bearer " +:+ default "" (token_for registry w))
          else cfg_headers config !! "Authorization")
    /\ cfg_headers config' !! "Content-Type"
       = Some (if truthy_str (cfg_headers config !! "Content-Type")
               then default "" (cfg_headers config !! "Content-Type")
               else "application/json")
    /\ forall k, k <> "Authorization" -> k <> "Content-Type" ->
                 cfg_headers config' !! k = cfg_headers config !! k.
Proof.
  intros registry config config' w w'.
  unfold interceptors.request_onFulfilled, token_for.
  assert (Hshape : forall (token : option string) (w1 : World) ,
             (let headers1 :=
                if truthy_str token
                then <["Authorization" := "Bearer " +:+ default "" token]> (cfg_headers config)
                else cfg_headers config in
              let headers2 :=
                <["Content-Type" :=
                    if truthy_str (headers1 !! "Content-Type")
                    then default "" (headers1 !! "Content-Type")
                    else "application/json"]> headers1 in
              {| cfg_method := cfg_method config; cfg_url := cfg_url config;
                 cfg_headers := headers2; cfg_data := cfg_data config;
                 requestStartTime := Some (clock (env w)) |}) = config' ->
             cfg_method config' = cfg_method config
             /\ cfg_url config' = cfg_url config
             /\ cfg_data config' = cfg_data config
             /\ requestStartTime config' = Some (clock (env w))
             /\ cfg_headers config' !! "Authorization"
                = (if truthy_str token then Some ("Bearer " +:+ default "" token)
                   else cfg_headers config !! "Authorization")
             /\ cfg_headers config' !! "Content-Type"
                = Some (if truthy_str (cfg_headers config !! "Content-Type")
                        then default "" (cfg_headers config !! "Content-Type")
                        else "application/json")
             /\ forall k, k <> "Authorization" -> k <> "Content-Type" ->
                          cfg_headers config' !! k = cfg_headers config !! k).
  { intros token w1 <-. cbv zeta. cbn [cfg_method cfg_url cfg_data requestStartTime cfg_headers].
    repeat split.
    - rewrite lookup_insert_ne by discriminate.
      destruct (truthy_str token); [apply lookup_insert_eq | reflexivity].
    - rewrite lookup_insert_eq.
      destruct (truthy_str token); [rewrite lookup_insert_ne by discriminate|]; reflexivity.
    - intros k Ha Hc. rewrite lookup_insert_ne by congruence.
      destruct (truthy_str token); [rewrite lookup_insert_ne by congruence|]; reflexivity. }
  destruct (interceptors.tokenGetter registry) as [getter|]; run.
  - destruct (getter (env w)) as [[token|e] v]; run; [|discriminate].
    intros [= Hconfig _]. exact (Hshape token w Hconfig).
  - intros [= Hconfig _]. exact (Hshape None w Hconfig).
Qed.

Lemma request_interceptor_headers_witness :
  exists config' w',
    interceptors.request_onFulfilled registry_with_token upload_request
      (world_of sound_device empty_env) = (Resolved config', w')
    /\ cfg_headers config' !! "Authorization" = Some "Bearer A1"
    /\ cfg_headers config' !! "Content-Type" = Some "multipart/form-data"
    /\ cfg_headers config' !! "X-Trace" = Some "7".
Proof.
  pose (stage := interceptors.request_onFulfilled registry_with_token upload_request
                   (world_of sound_device empty_env)).
  pose (sent := match fst stage with Resolved c => c | Rejected _ => upload_request end).
  assert (Hrun : interceptors.request_onFulfilled registry_with_token upload_request
                   (world_of sound_device empty_env) = (Resolved sent, snd stage))
    by (vm_compute; reflexivity).
  destruct (request_interceptor_headers registry_with_token upload_request sent
              (world_of sound_device empty_env) (snd stage) Hrun)
    as (_ & _ & _ & _ & Hauth & Htype & Hother).
  exists sent, (snd stage). split; [exact Hrun|].
  split; [exact Hauth|]. split; [exact Htype|].
  rewrite (Hother "X-Trace") by discriminate. reflexivity.
Defined.

(* ================================================================== *)
(** * Failures that are not refreshed                                  *)
(* ================================================================== *)

(** Classification only writes error lines. *)
Lemma handleNetworkError_logs (error : JsError) (w : World) :
  exists w1,
    handleNetworkError error w = (Resolved (classify error), w1)
    /\ env w1 = env w
    /\ forall p, (forall msg m, p (Logged ERROR msg m) = false) ->
                 count_events p (trace w1) = count_events p (trace w).
Proof.
  destruct error as [config code message response|ne|message|message|b op key];
    cbn [handleNetworkError classify].
  2: destruct (negb (String.eqb (ne_message ne) "")).
  all: run; eexists; (split; [reflexivity|]); split; [reflexivity|].
  all: intros p Herr; cbn [trace with_trace with_env with_session count_events];
    rewrite ?Herr; reflexivity.
Qed.

(** X20. A failure that is not classified UNAUTHORIZED, and any failure
    when no refresh function is registered, is rejected at once with its
    classification: the request has been dispatched once, no refresh function
    and no logout handler is called, and nothing is replayed. *)
Theorem failure_rejected_at_once :
  forall (registry : interceptors.Registry) (transport : Config -> Oracle AxiosResponse)
         (fuel : nat) (config config' : Config) (w w1 : World) (error : JsError) (v2 : Env),
    interceptors.request_onFulfilled registry config w = (Resolved config', w1) ->
    transport config' (env w1) = (Rejected error, v2) ->
    shouldReLogin (classify error) = false \/ interceptors.tokenRefresher registry = None ->
    exists w',
      interceptors.instance_request registry transport (S fuel) config w
      = Some (Rejected (NetErr (classify error)), w')
      /\ env w' = v2
      /\ dispatches (trace w') = S (dispatches (trace w1))
      /\ refreshes (trace w') = refreshes (trace w1)
      /\ logouts (trace w') = logouts (trace w1)
      /\ replays (trace w') = replays (trace w1).
Proof.
  intros registry transport fuel config config' w w1 error v2 Hreq Hsend Hcase.
  cbn [interceptors.instance_request].
  rewrite (bind_resolved _ _ _ _ _ Hreq).
  unfold interceptors.dispatchRequest. run. rewrite Hsend.
  set (w2 := with_env v2 _).
  destruct (handleNetworkError_logs error w2) as (w3 & Hclassify & Henv & Hcount).
  unfold interceptors.response_onRejected.
  rewrite (bind_resolved _ _ _ _ _ Hclassify).
  assert (Hcounts : dispatches (trace w3) = S (dispatches (trace w1))
                    /\ refreshes (trace w3) = refreshes (trace w1)
                    /\ logouts (trace w3) = logouts (trace w1)
                    /\ replays (trace w3) = replays (trace w1)).
  { unfold dispatches, refreshes, logouts, replays.
    rewrite !Hcount by reflexivity. repeat split. }
  destruct Hcounts as (Hd & Hr & Hl & Hp).
  destruct (shouldReLogin (classify error)) eqn:Hrelogin.
  - destruct Hcase as [Hcase | Hnone]; [discriminate|]. rewrite Hnone. run.
    eexists. split; [reflexivity|]. cbn [env trace with_trace].
    unfold dispatches, refreshes, logouts, replays in *. cbn [count_events].
    repeat split; assumption.
  - run. eexists. split; [reflexivity|]. repeat split; assumption.
Qed.

Lemma failure_rejected_at_once_witness :
  exists w',
    interceptors.instance_request registry_refreshing transport_always_500 1 get_profile
      (world_of sound_device empty_env)
    = Some (Rejected (NetErr {| ne_type := SERVER_ERROR; ne_message := "服务器内部错误";
                                ne_code := Some 500 |}), w')
    /\ dispatches (trace w') = 1%nat
    /\ refreshes (trace w') = 0%nat
    /\ logouts (trace w') = 0%nat.
Proof.
  pose (stage := interceptors.request_onFulfilled registry_refreshing get_profile
                   (world_of sound_device empty_env)).
  pose (sent := match fst stage with Resolved c => c | Rejected _ => get_profile end).
  destruct (failure_rejected_at_once registry_refreshing transport_always_500 0 get_profile
              sent (world_of sound_device empty_env) (snd stage) (status_500 sent)
              (answered empty_env))
    as (w' & Hrun & _ & Hd & Hr & Hl & _);
    [vm_compute; reflexivity | vm_compute; reflexivity | left; reflexivity |].
  exists w'. split; [exact Hrun|]. repeat split; assumption.
Defined.

(* ================================================================== *)
(** * [HttpClient.request]                                             *)
(* ================================================================== *)

(** X21. Whatever the pipeline does, [HttpClient.request] rejects with
    nothing but a [NetworkError]; and a [NetworkError] that the interceptors
    have already produced reaches the caller as it is, without being
    classified a second time. *)
Theorem request_rejects_with_network_errors_only :
  forall (registry : interceptors.Registry) (transport : Config -> Oracle AxiosResponse)
         (fuel : nat) (config : Config) (w w' : World) (r : Outcome (option JSON)),
    interceptors.request registry transport fuel config w = Some (r, w') ->
    (forall e, r = Rejected e -> exists ne, e = NetErr ne)
    /\ (forall ne w1,
          interceptors.instance_request registry transport fuel config w
          = Some (Rejected (NetErr ne), w1) ->
          ne_message ne <> "" ->
          r = Rejected (NetErr ne) /\ w' = w1).
Proof.
  intros registry transport fuel config w w' r.
  unfold interceptors.request.
  destruct (interceptors.instance_request registry transport fuel config w)
    as [[[response|error] w1]|]; [| |discriminate].
  - unfold try_catch, mbind, M_bind, interceptors.settled, interceptors.get_prop_opt.
    destruct (resp_data response) as [[| | | | | |]|]; cbn [get_prop]; unfold_monad;
      intros [= <- <-]; (split; [intros e [= <-]; eauto | intros ne w2; discriminate]).
  - unfold try_catch, mbind, M_bind, interceptors.settled.
    destruct (handleNetworkError_logs error w1) as (w2 & Hclassify & _).
    rewrite Hclassify. unfold throw. intros [= <- <-]. split; [intros e [= <-]; eauto|].
    intros ne w3 [= -> <-] Hmessage.
    apply String.eqb_neq in Hmessage.
    cbn [handleNetworkError classify] in *. rewrite Hmessage in *. cbn [negb] in *.
    unfold mret, M_ret in Hclassify. injection Hclassify as Hw.
    split; [reflexivity | congruence].
Qed.

Lemma request_rejects_witness :
  exists w',
    interceptors.request registry_refreshing transport_always_500 1 get_profile
      (world_of sound_device empty_env)
    = Some (Rejected (NetErr {| ne_type := SERVER_ERROR; ne_message := "服务器内部错误";
                                ne_code := Some 500 |}), w')
    /\ forall e,
         Rejected (NetErr {| ne_type := SERVER_ERROR; ne_message := "服务器内部错误";
                             ne_code := Some 500 |}) = (Rejected e : Outcome (option JSON)) ->
         exists ne, e = NetErr ne.
Proof.
  pose (run := interceptors.request registry_refreshing transport_always_500 1 get_profile
                 (world_of sound_device empty_env)).
  assert (Hrun : interceptors.request registry_refreshing transport_always_500 1 get_profile
                   (world_of sound_device empty_env)
                 = Some (Rejected (NetErr {| ne_type := SERVER_ERROR;
                                             ne_message := "服务器内部错误";
                                             ne_code := Some 500 |}), world_after run))
    by (vm_compute; reflexivity).
  exists (world_after run). split; [exact Hrun|].
  exact (proj1 (request_rejects_with_network_errors_only registry_refreshing
                  transport_always_500 1 get_profile (world_of sound_device empty_env)
                  (world_after run) _ Hrun)).
Defined.

(** X22. What an answered request gives the caller depends on the body
    alone.  With a body other than [null], [HttpClient.request] resolves with
    the body's [data] property, [undefined] when the body has none or is
    not an object.  With the body [null], or with no body, it rejects with an
    UNKNOWN [NetworkError], although the server has answered. *)
Theorem answered_request_by_body :
  forall (registry : interceptors.Registry) (transport : Config -> Oracle AxiosResponse)
         (fuel : nat) (config config' : Config) (w w1 : World)
         (response : AxiosResponse) (v2 : Env),
    interceptors.request_onFulfilled registry config w = (Resolved config', w1) ->
    transport config' (env w1) = (Resolved response, v2) ->
    (forall body, resp_data response = Some body -> body <> JNull ->
     exists w',
       interceptors.request registry transport (S fuel) config w
       = Some (Resolved (match body with
                         | JObj fields => assoc "data" fields
                         | _ => None
                         end), w'))
    /\ (resp_data response = Some JNull \/ resp_data response = None ->
        exists message w',
          interceptors.request registry transport (S fuel) config w
          = Some (Rejected (NetErr {| ne_type := UNKNOWN; ne_message := message;
                                      ne_code := None |}), w')
          /\ message <> "").
Proof.
  intros registry transport fuel config config' w w1 response v2 Hreq Hsend.
  unfold interceptors.request. cbn [interceptors.instance_request].
  rewrite (bind_resolved _ _ _ _ _ Hreq).
  unfold interceptors.dispatchRequest. run. rewrite Hsend. run.
  unfold interceptors.response_onFulfilled, interceptors.get_prop_opt, interceptors.settled.
  split.
  - intros body Hbody Hnull. rewrite Hbody.
    destruct (requestStartTime (resp_config response)) as [start|];
      [destruct (Z.eqb start 0)|];
      (destruct body as [|b|n|s|items|fields|x]; [congruence|..]); run;
      try (destruct (interceptors.is_business_error _); run);
      rewrite ?Hbody; run; eexists; reflexivity.
  - intros [Hbody | Hbody]; rewrite Hbody;
      (destruct (requestStartTime (resp_config response)) as [start|];
       [destruct (Z.eqb start 0)|]); run;
      do 2 eexists; (split; [reflexivity | discriminate]).
Qed.

Lemma answered_request_witness :
  exists message w',
    interceptors.request registry_refreshing transport_null_body 1 get_profile
      (world_of sound_device empty_env)
    = Some (Rejected (NetErr {| ne_type := UNKNOWN; ne_message := message;
                                ne_code := None |}), w')
    /\ message <> "".
Proof.
  pose (stage := interceptors.request_onFulfilled registry_refreshing get_profile
                   (world_of sound_device empty_env)).
  pose (sent := match fst stage with Resolved c => c | Rejected _ => get_profile end).
  apply (proj2 (answered_request_by_body registry_refreshing transport_null_body 0
                  get_profile sent (world_of sound_device empty_env) (snd stage)
                  {| resp_status := 200; resp_data := Some JNull; resp_config := sent |}
                  (answered empty_env)
                  ltac:(vm_compute; reflexivity) ltac:(vm_compute; reflexivity))).
  left. reflexivity.
Defined.

(* ================================================================== *)
(** * Classified errors                                                *)
(* ================================================================== *)

(** X23. Once the server has answered, the status alone decides what is
    done with an error, whatever its code and message say: it asks for a new
    login exactly when the status is 401, it can be retried exactly when the
    status is 500 or more, and it is never one to ignore; its code is the
    status.  An error without an answer never asks for a new login and has no
    code.  No classified error is both to be retried and to be ignored, or
    both to be retried and in need of a new login. *)
Theorem answered_errors_are_classified_by_status :
  forall (config : Config) (code : option string) (message : string),
    (forall r : ErrorResponse,
        let ne := classify (AxiosError config code message (Some r)) in
        ne_code ne = Some (er_status r)
        /\ (shouldReLogin ne = true <-> er_status r = 401)
        /\ (shouldRetry ne = true <-> er_status r >= 500)
        /\ shouldIgnoreError ne = false)
    /\ (let ne := classify (AxiosError config code message None) in
        ne_code ne = None /\ shouldReLogin ne = false)
    /\ (forall ne : NetworkError,
          shouldRetry ne && shouldIgnoreError ne = false
          /\ shouldRetry ne && shouldReLogin ne = false
          /\ shouldReLogin ne && shouldIgnoreError ne = false).
Proof.
  intros config code message. split; [|split].
  - intros r. cbv zeta. cbn [classify ne_code fmap option_fmap option_map].
    unfold shouldReLogin, shouldRetry, shouldIgnoreError. cbn [ne_type getErrorType].
    split; [reflexivity|].
    destruct (Z.eqb_spec (er_status r) 401) as [H401|H401].
    { repeat split; intros; try reflexivity; try lia; discriminate. }
    destruct (Z.eqb_spec (er_status r) 403) as [H403|H403].
    { repeat split; intros; try reflexivity; try lia; discriminate. }
    destruct (Z.eqb_spec (er_status r) 404) as [H404|H404].
    { repeat split; intros; try reflexivity; try lia; discriminate. }
    destruct (Z.leb_spec 400 (er_status r)) as [H400|H400];
      destruct (Z.ltb_spec (er_status r) 500) as [H500|H500]; cbn [andb];
      try (destruct (Z.leb_spec 500 (er_status r)) as [Hge|Hge]);
      repeat split; intros; try reflexivity; try lia; discriminate.
  - cbv zeta. cbn [classify ne_code fmap option_fmap option_map].
    split; [reflexivity|].
    unfold shouldReLogin. cbn [ne_type getErrorType].
    destruct (code_is code "ECONNABORTED" || includes "timeout" message); [reflexivity|].
    destruct (code_is code "ERR_NETWORK" || includes "Network Error" message); [reflexivity|].
    destruct (includes "cancel" message); reflexivity.
  - intros ne. unfold shouldRetry, shouldIgnoreError, shouldReLogin.
    destruct (ne_type ne); repeat split.
Qed.

(* ================================================================== *)
(** * The logger                                                       *)
(* ================================================================== *)

Section LoggerQueue.

Variable Obj : Type.
Variable development : bool.
Variable clock_reading : nat -> Z.
Variable toISOString : Z -> string.

Lemma length_tl {A : Type} (l : list A) : length (tl l) = Nat.pred (length l).
Proof. destruct l; reflexivity. Qed.

Lemma log_bounded (level : LogLevel) (message : string) (data : LogData Obj)
    (module : option string) (s : Logger.State Obj) :
  (length (Logger.logs Obj s) <= 100)%nat ->
  (length (Logger.logs Obj
             (Logger.log Obj development clock_reading toISOString
                level message data module s)) <= 100)%nat.
Proof.
  intros Hbound. unfold Logger.log.
  destruct (negb (Logger.shouldLog Obj development s level)); [exact Hbound|].
  cbv zeta. cbn [Logger.logs]. unfold Logger.maxLogs, Logger.LOG_CONFIG_maxSize.
  rewrite length_app. cbn [length].
  destruct (Nat.ltb_spec 100 (length (Logger.logs Obj s) + 1)) as [Hover|Hfits].
  - rewrite length_tl, length_app. cbn [length]. lia.
  - rewrite length_app. cbn [length]. lia.
Qed.

Lemma call_bounded (c : Logger.Call Obj) (s : Logger.State Obj) :
  (length (Logger.logs Obj s) <= 100)%nat ->
  (length (Logger.logs Obj (Logger.call Obj development clock_reading toISOString c s))
   <= 100)%nat.
Proof.
  intros Hbound. destruct c; cbn [Logger.call].
  - apply log_bounded, Hbound.
  - unfold Logger.error. apply log_bounded, Hbound.
  - exact Hbound.
  - cbn. lia.
Qed.

Lemma calls_bounded (cs : list (Logger.Call Obj)) (s : Logger.State Obj) :
  (length (Logger.logs Obj s) <= 100)%nat ->
  (length (Logger.logs Obj (Logger.calls Obj development clock_reading toISOString cs s))
   <= 100)%nat.
Proof.
  revert s. induction cs as [|c cs IH]; intros s Hbound; [exact Hbound|].
  cbn [Logger.calls fold_left]. apply IH, call_bounded, Hbound.
Qed.

End LoggerQueue.

(** X24. The logger's queue never holds more than 100 entries, whatever
    is logged, and it holds the most recent ones: an entry that passes the level
    filter is appended, and when the queue is full the oldest entry is dropped
    to make room. *)
Theorem logger_queue_keeps_the_last_100 :
  forall (Obj : Type) (development : bool) (clock_reading : nat -> Z)
         (toISOString : Z -> string),
    (forall cs : list (Logger.Call Obj),
        (length (Logger.logs Obj
                   (Logger.calls Obj development clock_reading toISOString cs
                      (Logger.create Obj development))) <= 100)%nat)
    /\ (forall (level : LogLevel) (message : string) (data : LogData Obj)
               (module : option string) (s : Logger.State Obj),
          Logger.shouldLog Obj development s level = true ->
          let entry :=
            {| Logger.entry_level := level; Logger.entry_message := message;
               Logger.entry_data := data;
               Logger.entry_timestamp := clock_reading (Logger.ticks Obj s);
               Logger.entry_module := module |} in
          let s' := Logger.log Obj development clock_reading toISOString
                      level message data module s in
          ((length (Logger.logs Obj s) < 100)%nat ->
           Logger.logs Obj s' = (Logger.logs Obj s ++ [entry])%list)
          /\ (length (Logger.logs Obj s) = 100%nat ->
              Logger.logs Obj s' = (tl (Logger.logs Obj s) ++ [entry])%list)).
Proof.
  intros Obj development clock_reading toISOString. split.
  - intros cs. apply calls_bounded. cbn. lia.
  - intros level message data module s Hpass. cbv zeta.
    unfold Logger.log. rewrite Hpass. cbn [negb Logger.logs].
    unfold Logger.maxLogs, Logger.LOG_CONFIG_maxSize. rewrite length_app. cbn [length].
    split; intros Hlen.
    + destruct (Nat.ltb_spec 100 (length (Logger.logs Obj s) + 1)); [lia | reflexivity].
    + destruct (Nat.ltb_spec 100 (length (Logger.logs Obj s) + 1)); [|lia].
      destruct (Logger.logs Obj s); [discriminate | reflexivity].
Qed.

(** X25. The level filter of the logger.  Outside development the logger is
    switched off: whatever is logged, at whatever level, and whatever level is
    set, nothing is queued and nothing is printed.  In development it starts
    at level debug; a message below the current level changes nothing, and a
    message at or above it is printed once, with the console method of its
    level. *)
Theorem logger_level_filter :
  forall (Obj : Type) (clock_reading : nat -> Z) (toISOString : Z -> string),
    (forall cs : list (Logger.Call Obj),
        let s := Logger.calls Obj false clock_reading toISOString cs
                   (Logger.create Obj false) in
        Logger.logs Obj s = [] /\ Logger.printed Obj s = [])
    /\ Logger.currentLevel Obj (Logger.create Obj true) = DEBUG
    /\ (forall (development : bool) (level : LogLevel) (message : string)
               (data : LogData Obj) (module : option string) (s : Logger.State Obj),
          Logger.LOG_LEVEL_PRIORITY level
          < Logger.LOG_LEVEL_PRIORITY (Logger.currentLevel Obj s) ->
          Logger.log Obj development clock_reading toISOString level message data module s
          = s)
    /\ (forall (level : LogLevel) (message : string) (data : LogData Obj)
               (module : option string) (s : Logger.State Obj),
          Logger.LOG_LEVEL_PRIORITY level
          >= Logger.LOG_LEVEL_PRIORITY (Logger.currentLevel Obj s) ->
          exists text,
            Logger.printed Obj
              (Logger.log Obj true clock_reading toISOString level message data module s)
            = (Logger.printed Obj s
               ++ [{| Logger.line_method := Logger.console_method level;
                      Logger.line_text := text;
                      Logger.line_data := Logger.data_or_empty Obj data |}])%list).
Proof.
  intros Obj clock_reading toISOString. split; [|split; [|split]].
  - intros cs. cbv zeta.
    assert (Hoff : forall (c : Logger.Call Obj) (s : Logger.State Obj),
               Logger.logs Obj s = [] /\ Logger.printed Obj s = [] ->
               Logger.logs Obj (Logger.call Obj false clock_reading toISOString c s) = []
               /\ Logger.printed Obj (Logger.call Obj false clock_reading toISOString c s)
                  = []).
    { intros c s Hs. destruct c; cbn [Logger.call]; try exact Hs.
      - destruct Hs as [_ Hp]. split; [reflexivity | exact Hp]. }
    generalize (Logger.create Obj false),
      (conj eq_refl eq_refl : Logger.logs Obj (Logger.create Obj false) = []
                              /\ Logger.printed Obj (Logger.create Obj false) = []).
    induction cs as [|c cs IH]; intros s Hs; [exact Hs|].
    cbn [Logger.calls fold_left]. apply IH, Hoff, Hs.
  - reflexivity.
  - intros development level message data module s Hbelow.
    unfold Logger.log, Logger.shouldLog.
    destruct (negb (Logger.LOG_CONFIG_enabled development)); [reflexivity|].
    destruct (Z.geb_spec (Logger.LOG_LEVEL_PRIORITY level)
                (Logger.LOG_LEVEL_PRIORITY (Logger.currentLevel Obj s))); [lia | reflexivity].
  - intros level message data module s Hpass.
    unfold Logger.log, Logger.shouldLog. cbn [Logger.LOG_CONFIG_enabled negb].
    destruct (Z.geb_spec (Logger.LOG_LEVEL_PRIORITY level)
                (Logger.LOG_LEVEL_PRIORITY (Logger.currentLevel Obj s))); [|lia].
    cbn [negb Logger.printed]. eexists. reflexivity.
Qed.

(* ================================================================== *)
(** * The error tracker                                                *)
(* ================================================================== *)

Section Tracker.

Variable development : bool.
Variable clock_reading : nat -> Z.
Variable toISOString : Z -> string.
Variable throws : nat -> ErrorTracker.ErrorInfo -> bool.

Lemma notify_all (callbacks : list nat) (errorInfo : ErrorTracker.ErrorInfo)
    (calls : list (nat * ErrorTracker.ErrorInfo)) (console : list string) :
  fst (ErrorTracker.notify throws callbacks errorInfo calls console)
  = (calls ++ map (fun callback => (callback, errorInfo)) callbacks)%list
  /\ length (snd (ErrorTracker.notify throws callbacks errorInfo calls console))
     = (length console
        + length (List.filter (fun callback => throws callback errorInfo) callbacks))%nat.
Proof.
  revert calls console.
  induction callbacks as [|callback rest IH]; intros calls console;
    cbn [ErrorTracker.notify map List.filter].
  - rewrite app_nil_r. cbn. split; [reflexivity | lia].
  - destruct (IH (calls ++ [(callback, errorInfo)])%list
                (if throws callback errorInfo
                 then (console ++ ["Error in error callback:"])%list else console))
      as [Hcalls Hconsole].
    rewrite Hcalls, Hconsole, <- app_assoc. split; [reflexivity|].
    destruct (throws callback errorInfo); [rewrite length_app|]; cbn [length]; lia.
Qed.

End Tracker.

(** X26. [trackError] records every error, in any environment and whether or
    not the logger is switched on: the error becomes the newest entry of the
    tracker's queue, which never grows beyond 50 entries (the oldest is
    dropped).  Every registered callback is called exactly once with the
    error, in registration order, also after an earlier callback has thrown;
    each callback that throws leaves one line on the console.  The
    registrations stay as they are. *)
Theorem trackError_records_and_notifies :
  forall (development : bool) (clock_reading : nat -> Z) (toISOString : Z -> string)
         (throws : nat -> ErrorTracker.ErrorInfo -> bool) (development_now : bool)
         (type : ErrorTracker.ErrorType) (message : string)
         (error : option (string * string * option string)) (context : option JSON)
         (s : ErrorTracker.State),
    let errorInfo :=
      {| ErrorTracker.info_type := type; ErrorTracker.info_message := message;
         ErrorTracker.info_error := error; ErrorTracker.info_context := context;
         ErrorTracker.info_timestamp :=
           clock_reading (Logger.ticks _ (ErrorTracker.logger s)) |} in
    let s' := ErrorTracker.trackError development clock_reading toISOString throws
                development_now type message error context s in
    last (ErrorTracker.errors s') = Some errorInfo
    /\ ((length (ErrorTracker.errors s) <= 50)%nat ->
        (length (ErrorTracker.errors s') <= 50)%nat)
    /\ ((length (ErrorTracker.errors s) < 50)%nat ->
        ErrorTracker.errors s' = (ErrorTracker.errors s ++ [errorInfo])%list)
    /\ ErrorTracker.delivered s'
       = (ErrorTracker.delivered s
          ++ map (fun callback => (callback, errorInfo)) (ErrorTracker.errorCallbacks s))%list
    /\ length (ErrorTracker.console_errors s')
       = (length (ErrorTracker.console_errors s)
          + length (List.filter (fun callback => throws callback errorInfo)
                      (ErrorTracker.errorCallbacks s)))%nat
    /\ ErrorTracker.errorCallbacks s' = ErrorTracker.errorCallbacks s.
Proof.
  intros development clock_reading toISOString throws development_now type message error
    context s. cbv zeta.
  set (errorInfo := ErrorTracker.mkErrorInfo _ _ _ _ _).
  unfold ErrorTracker.trackError. fold errorInfo.
  pose proof (notify_all throws (ErrorTracker.errorCallbacks s) errorInfo
                (ErrorTracker.delivered s) (ErrorTracker.console_errors s))
    as [Hcalls Hconsole].
  destruct (ErrorTracker.notify throws _ errorInfo _ _) as [calls console].
  cbn [fst snd] in Hcalls, Hconsole.
  cbn [ErrorTracker.errors ErrorTracker.delivered ErrorTracker.console_errors
       ErrorTracker.errorCallbacks].
  unfold ErrorTracker.maxErrors. rewrite length_app. cbn [length].
  split; [|split; [|split; [|split; [|split]]]].
  - destruct (Nat.ltb_spec 50 (length (ErrorTracker.errors s) + 1)) as [Hover|Hfits].
    + destruct (ErrorTracker.errors s) as [|first rest]; [cbn in Hover; lia|].
      cbn [app tl]. destruct rest as [|second rest]; [cbn in Hover; lia|].
      apply last_snoc.
    + apply last_snoc.
  - intros Hbound.
    destruct (Nat.ltb_spec 50 (length (ErrorTracker.errors s) + 1)) as [Hover|Hfits].
    + rewrite length_tl, length_app. cbn [length]. lia.
    + rewrite length_app. cbn [length]. lia.
  - intros Hroom.
    destruct (Nat.ltb_spec 50 (length (ErrorTracker.errors s) + 1)); [lia | reflexivity].
  - exact Hcalls.
  - exact Hconsole.
  - reflexivity.
Qed.

(** X27. Unsubscribing removes one registration: the first one of that
    callback, and the others keep their order.  Registering a callback that
    was not registered and unsubscribing it again gives back the
    registrations as they were; unsubscribing a callback that is not
    registered changes nothing, so the function returned by [onError] is
    harmless when called twice, unless the same callback is registered more
    than once, in which case each call removes one more of its
    registrations. *)
Theorem unsubscribe_removes_one_registration :
  forall (callback : nat) (s : ErrorTracker.State),
    (forall before after : list nat,
        ErrorTracker.errorCallbacks s = (before ++ callback :: after)%list ->
        ~ In callback before ->
        ErrorTracker.errorCallbacks (ErrorTracker.unsubscribe callback s)
        = (before ++ after)%list)
    /\ (~ In callback (ErrorTracker.errorCallbacks s) ->
     ErrorTracker.errorCallbacks (ErrorTracker.unsubscribe callback s)
     = ErrorTracker.errorCallbacks s
     /\ ErrorTracker.errorCallbacks
          (ErrorTracker.unsubscribe callback (ErrorTracker.onError callback s))
        = ErrorTracker.errorCallbacks s)
    /\ (forall other,
          count_occ Nat.eq_dec
            (ErrorTracker.errorCallbacks (ErrorTracker.unsubscribe callback s)) other
          = if Nat.eqb other callback
            then Nat.pred (count_occ Nat.eq_dec (ErrorTracker.errorCallbacks s) other)
            else count_occ Nat.eq_dec (ErrorTracker.errorCallbacks s) other).
Proof.
  intros callback s. cbn [ErrorTracker.unsubscribe ErrorTracker.onError
                          ErrorTracker.errorCallbacks].
  generalize (ErrorTracker.errorCallbacks s) as callbacks. intros callbacks.
  assert (Habsent : forall l, ~ In callback l -> ErrorTracker.remove_first callback l = l).
  { induction l as [|c l IH]; intros Hnot; [reflexivity|].
    cbn [ErrorTracker.remove_first].
    destruct (Nat.eqb_spec c callback) as [->|Hne]; [destruct Hnot; now left|].
    rewrite IH; [reflexivity|]. intros Hin. apply Hnot. now right. }
  split; [|split].
  - intros before after -> Hnot.
    induction before as [|c before IH]; cbn [app ErrorTracker.remove_first].
    + now rewrite Nat.eqb_refl.
    + destruct (Nat.eqb_spec c callback) as [->|Hne]; [destruct Hnot; now left|].
      rewrite IH; [reflexivity|]. intros Hin. apply Hnot. now right.
  - intros Hnot. split; [apply Habsent, Hnot|].
    induction callbacks as [|c l IH]; cbn [app ErrorTracker.remove_first].
    + now rewrite Nat.eqb_refl.
    + destruct (Nat.eqb_spec c callback) as [->|Hne]; [destruct Hnot; now left|].
      rewrite IH; [reflexivity|]. intros Hin. apply Hnot. now right.
  - intros other. induction callbacks as [|c l IH]; cbn [ErrorTracker.remove_first count_occ].
    + destruct (other =? callback)%nat; reflexivity.
    + destruct (Nat.eqb_spec c callback) as [->|Hne].
      * destruct (Nat.eq_dec callback other) as [<-|Hother].
        -- rewrite Nat.eqb_refl. reflexivity.
        -- destruct (Nat.eqb_spec other callback); [congruence | reflexivity].
      * cbn [count_occ]. rewrite IH.
        destruct (Nat.eq_dec c other) as [<-|Hother].
        -- destruct (Nat.eqb_spec c callback); [congruence | reflexivity].
        -- reflexivity.
Qed.

(* ================================================================== *)
(** * Updating the user record on the device                           *)
(* ================================================================== *)

Lemma forallb_obj_define (f : string * JSON -> bool) (acc : list (string * JSON))
    (k : string) (v : JSON) :
  forallb f acc = true -> f (k, v) = true -> forallb f (obj_define acc k v) = true.
Proof.
  intros Hacc Hkv. induction acc as [|[k0 v0] acc IH]; cbn [obj_define forallb].
  - now rewrite Hkv.
  - cbn [forallb] in Hacc. apply andb_true_iff in Hacc as [H0 Hrest].
    destruct (String.eqb_spec k k0) as [->|Hne]; cbn [forallb].
    + now rewrite Hkv, Hrest.
    + now rewrite H0, IH.
Qed.

Lemma forallb_obj_of_members (f : string * JSON -> bool) (members : list (string * JSON)) :
  forallb f members = true -> forallb f (obj_of_members members) = true.
Proof.
  unfold obj_of_members.
  assert (Hgen : forall acc, forallb f acc = true -> forallb f members = true ->
                 forallb f (fold_left (fun a kv => obj_define a (fst kv) (snd kv)) members acc)
                 = true).
  { induction members as [|[k v] members IH]; intros acc Hacc Hmembers; [exact Hacc|].
    cbn [fold_left fst snd]. cbn [forallb] in Hmembers.
    apply andb_true_iff in Hmembers as [Hkv Hrest].
    apply IH; [apply forallb_obj_define; assumption | exact Hrest]. }
  intros Hmembers. apply Hgen; [reflexivity | exact Hmembers].
Qed.

Lemma map_fst_obj_define (acc : list (string * JSON)) (k : string) (v : JSON) :
  map fst (obj_define acc k v)
  = if existsb (String.eqb k) (map fst acc) then map fst acc
    else (map fst acc ++ [k])%list.
Proof.
  induction acc as [|[k0 v0] acc IH]; [reflexivity|].
  cbn [obj_define map fst existsb].
  destruct (String.eqb k k0); cbn [orb map fst]; [reflexivity|].
  rewrite IH. destruct (existsb (String.eqb k) (map fst acc)); reflexivity.
Qed.

Lemma existsb_eqb_snoc (k k' : string) (keys : list string) :
  existsb (String.eqb k) (keys ++ [k'])%list = existsb (String.eqb k) keys || String.eqb k k'.
Proof. rewrite existsb_app. cbn [existsb]. now rewrite orb_false_r. Qed.

Lemma distinct_snoc (keys : list string) (k : string) :
  distinct keys = true -> existsb (String.eqb k) keys = false ->
  distinct (keys ++ [k])%list = true.
Proof.
  induction keys as [|k0 keys IH]; intros Hd Hfresh; [reflexivity|].
  cbn [app distinct existsb] in *.
  apply andb_true_iff in Hd as [H0 Hrest].
  apply orb_false_iff in Hfresh as [Hne Hfresh].
  rewrite existsb_eqb_snoc, IH by assumption.
  apply negb_true_iff in H0. rewrite H0. cbn [orb].
  rewrite String.eqb_sym, Hne. reflexivity.
Qed.

Lemma distinct_obj_of_members (members : list (string * JSON)) :
  distinct (map fst (obj_of_members members)) = true.
Proof.
  unfold obj_of_members.
  assert (Hgen : forall acc, distinct (map fst acc) = true ->
                 distinct (map fst (fold_left (fun a kv => obj_define a (fst kv) (snd kv))
                                      members acc)) = true).
  { induction members as [|[k v] members IH]; intros acc Hacc; [exact Hacc|].
    cbn [fold_left fst snd]. apply IH. rewrite map_fst_obj_define.
    destruct (existsb (String.eqb k) (map fst acc)) eqn:Hk; [exact Hacc|].
    apply distinct_snoc; assumption. }
  apply Hgen. reflexivity.
Qed.

Lemma assoc_obj_define (acc : list (string * JSON)) (k k' : string) (v : JSON) :
  assoc k (obj_define acc k' v) = if String.eqb k k' then Some v else assoc k acc.
Proof.
  induction acc as [|[k0 v0] acc IH]; cbn [obj_define assoc]; [reflexivity|].
  destruct (String.eqb_spec k' k0) as [->|Hne]; cbn [assoc].
  - destruct (String.eqb k k0); reflexivity.
  - rewrite IH. destruct (String.eqb_spec k k0) as [->|Hk]; [|reflexivity].
    destruct (String.eqb_spec k0 k'); [congruence | reflexivity].
Qed.

Lemma assoc_absent (k : string) (fields : list (string * JSON)) :
  existsb (String.eqb k) (map fst fields) = false -> assoc k fields = None.
Proof.
  induction fields as [|[k0 v0] fields IH]; [reflexivity|].
  cbn [map fst existsb assoc]. intros H. apply orb_false_iff in H as [-> Hrest].
  now apply IH.
Qed.

(** In the object made of the properties [a] then [b], the value of a name is
    the one [b] gives it, if any. *)
Lemma assoc_obj_of_members_app (k : string) (a b : list (string * JSON)) :
  distinct (map fst a) = true -> distinct (map fst b) = true ->
  assoc k (obj_of_members (a ++ b)%list)
  = match assoc k b with
    | Some v => Some v
    | None => assoc k a
    end.
Proof.
  intros Ha Hb. unfold obj_of_members. rewrite fold_left_app.
  change (fold_left _ a []) with (obj_of_members a).
  rewrite (obj_of_members_distinct a Ha).
  generalize a as acc. clear Ha.
  induction b as [|[k0 v0] b IH]; intros acc; [reflexivity|].
  cbn [fold_left fst snd map distinct assoc] in *.
  apply andb_true_iff in Hb as [Hfresh Hrest].
  rewrite (IH Hrest), assoc_obj_define.
  destruct (String.eqb_spec k k0) as [->|Hne]; [|reflexivity].
  apply negb_true_iff in Hfresh. now rewrite (assoc_absent k0 b Hfresh).
Qed.

Lemma plain_name_not_index (k : string) :
  negb (bool_decide (is_Some (array_index k))) = true -> array_index k = None.
Proof.
  intros Hk. apply negb_true_iff, bool_decide_eq_false in Hk.
  destruct (array_index k) as [n|]; [|reflexivity].
  destruct Hk. exists n. reflexivity.
Qed.

Lemma indexed_properties_plain (fields : list (string * JSON)) :
  plain_names fields = true -> indexed_properties fields = [].
Proof.
  unfold plain_names, indexed_properties.
  induction fields as [|[k v] fields IH]; [reflexivity|].
  cbn [forallb fold_right fst]. intros Hplain.
  apply andb_true_iff in Hplain as [Hk Hrest].
  now rewrite (plain_name_not_index k Hk), IH.
Qed.

Lemma filter_all {A : Type} (f : A -> bool) (l : list A) :
  forallb f l = true -> List.filter f l = l.
Proof.
  induction l as [|x l IH]; [reflexivity|].
  cbn [forallb List.filter]. intros H. apply andb_true_iff in H as [-> Hrest].
  now rewrite IH.
Qed.

Lemma own_property_order_plain (fields : list (string * JSON)) :
  plain_names fields = true -> own_property_order fields = fields.
Proof.
  intros Hplain. unfold own_property_order.
  rewrite (indexed_properties_plain fields Hplain). cbn [map app].
  apply filter_all. exact Hplain.
Qed.

Lemma plain_record_merge (fields ups : list (string * JSON)) :
  plain_record fields = true -> plain_record ups = true ->
  own_property_order (obj_of_members (fields ++ ups)%list)
  = obj_of_members (fields ++ ups)%list
  /\ well_formed (JObj (obj_of_members (fields ++ ups)%list)) = true
  /\ forall k, assoc k (obj_of_members (fields ++ ups)%list)
               = match assoc k ups with
                 | Some v => Some v
                 | None => assoc k fields
                 end.
Proof.
  unfold plain_record. cbn [well_formed]. intros Hfields Hups.
  apply andb_true_iff in Hfields as [Hf Hfplain].
  apply andb_true_iff in Hf as [Hfd Hfw].
  apply andb_true_iff in Hups as [Hu Huplain].
  apply andb_true_iff in Hu as [Hud Huw].
  split; [|split].
  - apply own_property_order_plain. unfold plain_names in *.
    apply forallb_obj_of_members. rewrite forallb_app, Hfplain, Huplain. reflexivity.
  - rewrite distinct_obj_of_members. cbn [andb].
    apply forallb_obj_of_members. rewrite forallb_app, Hfw, Huw. reflexivity.
  - intros k. apply assoc_obj_of_members_app; assumption.
Qed.

(** X28. [updateUser] of the auth storage.  With no user record on the device
    it rejects with the error "No user info found" and writes nothing.  With a
    record, it writes back the record with the updates laid over it: reading
    the user afterwards gives an object in which every property named in the
    updates has the value given there and every other property its old
    value.  (The record and the updates are objects with distinct property
    names none of which is an array index; the write and the read do not
    fail.) *)
Theorem updateUser_lays_the_updates_over_the_record :
  forall (updates : JSON) (w : World),
    (truthy (saved_user w) = false ->
     exists w',
       AuthStorage.updateUser updates w = (Rejected (Error "No user info found"), w')
       /\ env w' = env w
       /\ In (Logged ERROR "Failed to update user info" "AuthStorage") (trace w'))
    /\ (forall fields ups,
          saved_user w = JObj fields -> updates = JObj ups ->
          plain_record fields = true -> plain_record ups = true ->
          faulty (device w) AsyncStorage OpSet STORAGE_KEYS.USER_INFO = false ->
          faulty (device w) AsyncStorage OpGet STORAGE_KEYS.USER_INFO = false ->
          exists merged w',
            AuthStorage.updateUser updates w = (Resolved tt, w')
            /\ authStorage.getUser w' = (Resolved (JObj merged), w')
            /\ forall k, assoc k merged
                         = match assoc k ups with
                           | Some v => Some v
                           | None => assoc k fields
                           end).
Proof.
  intros updates w. split.
  - intros Hnone.
    unfold AuthStorage.updateUser, try_catch, mbind, M_bind.
    destruct (getUser_quiet w) as (t & -> & _). rewrite Hnone. cbn [negb].
    unfold throw, logger.error, emit. eexists. split; [reflexivity|].
    cbn [env trace with_trace In]. auto.
  - intros fields ups Hsaved -> Hfields Hups Hset Hget.
    destruct (plain_record_merge fields ups Hfields Hups) as (Horder & Hwf & Hassoc).
    assert (Hread : authStorage.getUser w = (Resolved (JObj fields), w)).
    { rewrite <- Hsaved. apply getUser_saved_user. now rewrite Hsaved. }
    unfold AuthStorage.updateUser, try_catch, mbind, M_bind.
    rewrite Hread. cbn [truthy negb]. cbv zeta.
    unfold spread. cbn [own_enumerable]. rewrite Horder.
    rewrite saveUser_writes by (assumption || discriminate).
    cbn [get_prop]. unfold mret, M_ret, logger.debug, emit.
    exists (obj_of_members (fields ++ ups)%list). eexists.
    split; [reflexivity|]. split; [|exact Hassoc].
    apply getUser_reads_back; [exact Hwf | exact Hget|].
    unfold stored. cbn [device env with_trace with_env entry_backend entry_partition
                        partition_backend entry_key store_of with_store asyncStorage].
    apply lookup_insert_eq.
Qed.

(** Alice, after she has chosen a nickname. *)
Lemma updateUser_witness :
  exists merged w',
    AuthStorage.updateUser (JObj [("nickname", JStr "Al"); ("username", JStr "alice2")])
      (world_of sound_device signed_in_env) = (Resolved tt, w')
    /\ authStorage.getUser w' = (Resolved (JObj merged), w')
    /\ assoc "id" merged = Some (JStr "1")
    /\ assoc "username" merged = Some (JStr "alice2")
    /\ assoc "nickname" merged = Some (JStr "Al").
Proof.
  destruct (proj2 (updateUser_lays_the_updates_over_the_record
                     (JObj [("nickname", JStr "Al"); ("username", JStr "alice2")])
                     (world_of sound_device signed_in_env))
              [("id", JStr "1"); ("username", JStr "alice")]
              [("nickname", JStr "Al"); ("username", JStr "alice2")]
              ltac:(vm_compute; reflexivity) eq_refl
              ltac:(vm_compute; reflexivity) ltac:(vm_compute; reflexivity)
              eq_refl eq_refl)
    as (merged & w' & Hrun & Hread & Hassoc).
  exists merged, w'. split; [exact Hrun|]. split; [exact Hread|].
  rewrite !Hassoc. repeat split.
Defined.

(* ================================================================== *)
(** * Roles, permissions and guarded routes                            *)
(* ================================================================== *)

Lemma some_existsb (test : string -> bool) (names : list string) :
  useAuth.some (fun name => Resolved (test name)) names = Resolved (existsb test names).
Proof.
  induction names as [|name rest IH]; [reflexivity|].
  cbn [useAuth.some existsb]. destruct (test name); [reflexivity | exact IH].
Qed.

Lemma every_forallb (test : string -> bool) (names : list string) :
  useAuth.every (fun name => Resolved (test name)) names = Resolved (forallb test names).
Proof.
  induction names as [|name rest IH]; [reflexivity|].
  cbn [useAuth.every forallb]. destruct (test name); [exact IH | reflexivity].
Qed.

(** X29. The role and permission hooks.  For a user that is [null] or has
    no such list every hook answers false, the "all of" hooks on the empty list
    included.  For a user whose list is an array, "has" tells whether the name
    is an element, "any of" whether some name is, and "all of" whether every
    name is; so "all of" the empty list is true, "any of" it is false, and
    "all of" a non-empty list implies "any of" it.  The hooks do not throw in
    either case. *)
Theorem role_hooks_on_lists :
  forall (key : string) (user : option JSON),
    (useAuth.optional_prop user key = None ->
     forall name names,
       useAuth.has key user name = Resolved false
       /\ useAuth.has_any key user names = Resolved false
       /\ useAuth.has_all key user names = Resolved false)
    /\ (forall items,
          useAuth.optional_prop user key = Some (JArr items) ->
          (forall name,
              useAuth.has key user name = Resolved (existsb (useAuth.is_name name) items))
          /\ (forall names,
                useAuth.has_any key user names
                = Resolved (existsb (fun name => existsb (useAuth.is_name name) items) names)
                /\ useAuth.has_all key user names
                   = Resolved (forallb (fun name => existsb (useAuth.is_name name) items)
                                 names)
                /\ (names <> [] ->
                    useAuth.has_all key user names = Resolved true ->
                    useAuth.has_any key user names = Resolved true))
          /\ useAuth.has_all key user [] = Resolved true
          /\ useAuth.has_any key user [] = Resolved false).
Proof.
  intros key user. split.
  - intros Hnone name names. unfold useAuth.has, useAuth.has_any, useAuth.has_all.
    rewrite Hnone. repeat split.
  - intros items Hlist.
    assert (Hany : forall names,
               useAuth.has_any key user names
               = Resolved (existsb (fun name => existsb (useAuth.is_name name) items) names)).
    { intros names. unfold useAuth.has_any. rewrite Hlist. cbn [truthy negb].
      apply (some_existsb (fun name => existsb (useAuth.is_name name) items)). }
    assert (Hall : forall names,
               useAuth.has_all key user names
               = Resolved (forallb (fun name => existsb (useAuth.is_name name) items) names)).
    { intros names. unfold useAuth.has_all. rewrite Hlist. cbn [truthy negb].
      apply (every_forallb (fun name => existsb (useAuth.is_name name) items)). }
    split; [|split; [|split]].
    + intros name. unfold useAuth.has. rewrite Hlist. reflexivity.
    + intros names. split; [apply Hany|]. split; [apply Hall|].
      intros Hne. rewrite Hall, Hany. intros [= Hevery]. f_equal.
      destruct names as [|name rest]; [congruence|].
      cbn [forallb existsb] in *. apply andb_true_iff in Hevery as [-> _]. reflexivity.
    + rewrite Hall. reflexivity.
    + rewrite Hany. reflexivity.
Qed.

(** X30. The route guard decides by the status of the session.  While the
    status is LOADING it shows the spinner and sends the user nowhere.  In
    every other status but AUTHENTICATED, the initial IDLE included, the user
    counts as not logged in: a route that requires login shows nothing and
    its effect redirects (to [redirectTo], or else to the login page, with
    the current path as return address), and a route that does not require
    login shows its children without consulting permissions or roles.  When
    the status is AUTHENTICATED nobody is redirected, and the children are
    shown exactly when neither permissions nor roles are given or the access
    check passes. *)
Theorem route_guard_by_status :
  forall (hasAnyPermission hasAllPermissions hasAnyRole hasAllRoles : list string -> bool)
         (s : Session) (p : RouteGuard.Props) (currentPath : string),
    let rendered := fst (RouteGuard.render hasAnyPermission hasAllPermissions hasAnyRole
                           hasAllRoles s p) in
    let navigation := RouteGuard.redirect s p currentPath in
    (status s = LOADING -> rendered = RouteGuard.Spinner /\ navigation = None)
    /\ (status s = IDLE \/ status s = UNAUTHENTICATED ->
        (RouteGuard.requiresAuth p = true ->
         rendered = RouteGuard.Nothing
         /\ navigation
            = Some (if truthy_str (RouteGuard.redirectTo p)
                    then RouteGuard.Replace (default "" (RouteGuard.redirectTo p)) currentPath
                    else RouteGuard.NavigateToLogin currentPath))
        /\ (RouteGuard.requiresAuth p = false ->
            rendered = RouteGuard.Children /\ navigation = None))
    /\ (status s = AUTHENTICATED ->
        navigation = None
        /\ (rendered = RouteGuard.Children <->
            (RouteGuard.permissions p = None /\ RouteGuard.roles p = None)
            \/ RouteGuard.hasAccess hasAnyPermission hasAllPermissions hasAnyRole
                 hasAllRoles p = true)).
Proof.
  intros hasAnyPermission hasAllPermissions hasAnyRole hasAllRoles s p currentPath. cbv zeta.
  unfold RouteGuard.render, RouteGuard.redirect, AuthContext.isAuthenticated,
    AuthContext.isLoading.
  split; [|split].
  - intros ->. split; [reflexivity|]. destruct (RouteGuard.requiresAuth p); reflexivity.
  - intros [-> | ->]; (split; intros ->; split; reflexivity).
  - intros ->. split; [destruct (RouteGuard.requiresAuth p); reflexivity|].
    rewrite andb_false_r. cbn [andb].
    destruct (RouteGuard.permissions p) as [ps|], (RouteGuard.roles p) as [rs|];
      cbn [bool_decide orb];
      try (rewrite bool_decide_eq_true_2 by eauto);
      try (rewrite (bool_decide_eq_false_2 (is_Some None)) by (intros [? ?]; discriminate));
      cbn [orb].
    all: try (destruct (RouteGuard.hasAccess _ _ _ _ _); cbn [negb fst];
              [split; [auto | reflexivity]
              |split; [destruct (RouteGuard.fallback p); discriminate
                      |intros [[? ?] | ?]; discriminate]]).
    split; [auto | reflexivity].
Qed.

(* ================================================================== *)
(** * Across a restart                                                 *)
(* ================================================================== *)

(** An answered login, with the world it leaves. *)
Lemma provider_login_answered (http : HttpApi) (params : LoginParams)
    (response : LoginResponse) (v : Env) (w : World) :
  reliable (device w) OpSet ->
  reliable (device w) OpGet ->
  lr_user response <> JNull ->
  post_login http params (env w) = (Resolved response, v) ->
  exists w1,
    AuthProvider.login http params w = (Resolved tt, w1)
    /\ device w1 = device w
    /\ env w1 = put_entry (device w) UserEntry (JSON_stringify (lr_user response))
                  (env_after_saveToken (device w) (lr_token response) v).
Proof.
  intros Hset Hget Hnull Hpost.
  pose proof (Hget AccessTokenEntry) as Hga.
  unfold AuthProvider.login, authService.login.
  run. rewrite Hpost. run.
  rewrite saveToken_writes by exact Hset.
  run. rewrite saveUser_reliable; [| exact Hset | exact Hnull].
  run.
  match goal with
  | |- context [get_prop (lr_user response) "id" ?w0] =>
      destruct (get_prop_not_null (lr_user response) "id" w0 Hnull) as [r ->]
  end.
  run. rewrite getAccessToken_eq. run. rewrite Hga. run.
  match goal with
  | |- context [get_prop (lr_user response) "id" ?w0] =>
      destruct (get_prop_not_null (lr_user response) "id" w0 Hnull) as [r' ->]
  end.
  eexists. split; [reflexivity|]. split; reflexivity.
Qed.

Lemma truthy_not_null (v : JSON) : truthy v = true -> v <> JNull.
Proof. intros Htruthy ->. discriminate. Qed.

Lemma Number_toString_nonempty (n : Z) : String.eqb (Number_toString n) "" = false.
Proof.
  apply String.eqb_neq. intros Hempty.
  pose proof (Number_toString_head n "") as Hhead.
  rewrite string_app_nil_r, Hempty in Hhead. discriminate.
Qed.

(** X4. A session survives a restart.  After a login answered with a user
    and a token that lives [seconds] seconds, starting the application again
    before the last five minutes of that lifetime restores the session from
    the device: [initAuth] ends AUTHENTICATED with the same user and the
    same token, without any request to the server, whatever the server would
    say.  (Writes and reads are taken not to fail; the user is an object
    with distinct property names, the token is not empty, and the times lie
    within the integers that JavaScript holds exactly.) *)
Theorem session_survives_a_restart :
  forall (http http' : HttpApi) (params : LoginParams) (response : LoginResponse)
         (seconds later : Z) (v : Env) (w : World),
    reliable (device w) OpSet ->
    reliable (device w) OpGet ->
    post_login http params (env w) = (Resolved response, v) ->
    well_formed (lr_user response) = true ->
    truthy (lr_user response) = true ->
    accessToken (lr_token response) <> "" ->
    expiresIn (lr_token response) = Some seconds ->
    seconds <> 0 ->
    safe_expiry (clock v) seconds ->
    safe_integer later ->
    later < clock v + seconds * 1000 - 5 * 60 * 1000 ->
    exists w1 w2,
      AuthProvider.login http params w = (Resolved tt, w1)
      /\ AuthProvider.initAuth http' (restarted later w1) = (Resolved tt, w2)
      /\ session w2 = {| status := AUTHENTICATED; user := Some (lr_user response);
                         token := Some (accessToken (lr_token response)) |}
      /\ http_calls (trace w2) = 0%nat.
Proof.
  intros http http' params response seconds later v w Hset Hget Hpost Hwf Htruthy
    Htoken Hseconds Hnonzero _ _ Hbefore.
  pose proof (truthy_not_null _ Htruthy) as Hnull.
  destruct (provider_login_answered http params response v w Hset Hget Hnull Hpost)
    as (w1 & Hlogin & Hdev & Henv).
  exists w1.
  set (W := restarted later w1).
  assert (HdevW : device W = device w) by exact Hdev.
  assert (Hstores : forall e, stored W e
                    = stored_in (device w)
                        (put_entry (device w) UserEntry (JSON_stringify (lr_user response))
                           (env_after_saveToken (device w) (lr_token response) v)) e).
  { intros e. unfold stored, W, restarted. cbn [device env at_time with_env].
    rewrite Hdev, Henv. unfold stored_in.
    destruct (entry_backend (device w) e); reflexivity. }
  pose proof (stored_in_after_sign_in (device w) (lr_token response)
                (JSON_stringify (lr_user response)) v) as [Ha Hu].
  assert (Hexpiry : stored W TokenExpireAtEntry
                    = Some (Number_toString (clock v + seconds * 1000))).
  { rewrite Hstores, stored_in_put_entry_ne by discriminate.
    pose proof (stored_in_after_saveToken (device w) (lr_token response) v)
      as (_ & _ & He & _).
    rewrite He, Hseconds. apply Z.eqb_neq in Hnonzero. now rewrite Hnonzero. }
  assert (Hreadable : forall e, readable W e = stored W e).
  { intros e. unfold readable. rewrite HdevW, (Hget e). reflexivity. }
  assert (Htok : readable W AccessTokenEntry = Some (accessToken (lr_token response)))
    by (rewrite Hreadable, Hstores; exact Ha).
  assert (Husr : saved_user W = lr_user response).
  { unfold saved_user. rewrite Hreadable, Hstores, Hu.
    now rewrite JSON_stringify_nonempty, JSON_parse_stringify. }
  assert (Hfresh : expired_now W = false).
  { unfold expired_now. rewrite Hreadable, Hexpiry, parseInt_Number_toString.
    rewrite Number_toString_nonempty. cbn [negb andb].
    change (clock (env W)) with later. lia. }
  destruct (initAuth_reads W) as (w2 & Hreads & _ & _ & _ & Hsame).
  rewrite Htok, Husr in Hreads, Hsame.
  assert (Hboth : truthy_str (Some (accessToken (lr_token response)))
                  && truthy (lr_user response) = true).
  { cbn [truthy_str]. apply String.eqb_neq in Htoken. now rewrite Htoken, Htruthy. }
  specialize (Hsame Hboth). subst w2.
  unfold AuthProvider.initAuth.
  unfold try_catch at 1. unfold mbind at 1 2, M_bind at 1 2.
  unfold AuthProvider.setStatus at 1, logger.debug at 1, emit at 1.
  cbv beta iota. change (with_trace _ (with_session _ W)) with (loading W).
  unfold mbind at 1, M_bind at 1. rewrite Hreads. cbv beta iota. rewrite Hboth.
  (* checkAuth finds the token and finds it fresh *)
  assert (Hcheck : exists t,
             authService.checkAuth http' (loading W)
             = (Resolved true, with_trace (t ++ trace (loading W))%list (loading W))
             /\ http_calls t = 0%nat).
  { unfold authService.checkAuth, try_catch, mbind, M_bind.
    destruct (getAccessToken_quiet (loading W)) as (t1 & -> & Ht1).
    change (readable (loading W) AccessTokenEntry) with (readable W AccessTokenEntry).
    rewrite Htok. cbn [truthy_str]. apply String.eqb_neq in Htoken. rewrite Htoken.
    cbn [negb].
    destruct (isTokenExpired_quiet (with_trace (t1 ++ trace (loading W))%list (loading W)))
      as (t2 & Hexp & Ht2).
    change (expired_now (with_trace (t1 ++ trace (loading W))%list (loading W)))
      with (expired_now W) in Hexp.
    rewrite Hexp, Hfresh. unfold mret, M_ret.
    exists (t2 ++ t1)%list. split.
    - cbn [trace with_trace]. rewrite <- app_assoc. reflexivity.
    - rewrite http_calls_app, Ht1, Ht2. reflexivity. }
  destruct Hcheck as (t & Hcheck & Ht).
  rewrite (bind_resolved _ _ _ _ _ Hcheck).
  run.
  match goal with
  | |- context [get_prop (lr_user response) "id" ?w0] =>
      destruct (get_prop_not_null (lr_user response) "id" w0 Hnull) as [r ->]
  end.
  eexists. split; [exact Hlogin|]. split; [reflexivity|].
  cbn [session trace with_trace with_session status user token loading].
  split; [reflexivity|].
  cbn [http_calls is_http_call Nat.add]. rewrite http_calls_app, Ht. reflexivity.
Qed.

Lemma session_survives_a_restart_witness :
  exists w1 w2,
    AuthProvider.login http_alice alice_params (world_of sound_device empty_env)
    = (Resolved tt, w1)
    /\ AuthProvider.initAuth http_offline (restarted 1700003000000 w1) = (Resolved tt, w2)
    /\ session w2 = {| status := AUTHENTICATED; user := Some alice; token := Some "A1" |}
    /\ http_calls (trace w2) = 0%nat.
Proof.
  apply (session_survives_a_restart http_alice http_offline alice_params
           alice_login_response 3600 1700003000000 empty_env
           (world_of sound_device empty_env));
    first [ intros e; reflexivity | reflexivity | discriminate
          | repeat split; discriminate ].
Defined.

(* ================================================================== *)
(** * The auth service on its own HTTP client: plumbing                *)
(* ================================================================== *)


Lemma pframe_ret {A : Type} (a : A) : pframe (mret a : Promise A).
Proof. intros w r w' [= <- <-]. now split. Qed.

Lemma pframe_pending {A : Type} : pframe (pending : Promise A).
Proof. intros w r w'. discriminate. Qed.

Lemma pframe_await {A : Type} (m : M A) : frame m -> pframe (await m).
Proof.
  intros Hm w r w'. unfold await. intros [= Heq]. specialize (Hm w).
  rewrite Heq in Hm. exact Hm.
Qed.

Lemma pframe_bind {A B : Type} (p : Promise A) (f : A -> Promise B) :
  pframe p -> (forall a, pframe (f a)) -> pframe (p ≫= f).
Proof.
  intros Hp Hf w r w'. unfold mbind, Promise_bind.
  destruct (p w) as [[[a|e] w1]|] eqn:Heq; [| |discriminate].
  - intros Hfa. destruct (Hp _ _ _ Heq) as [Hd Hs].
    destruct (Hf a _ _ _ Hfa) as [Hd' Hs']. split; congruence.
  - intros [= <- <-]. exact (Hp _ _ _ Heq).
Qed.

Lemma pframe_try_await {A : Type} (p : Promise A) (h : JsError -> Promise A) :
  pframe p -> (forall e, pframe (h e)) -> pframe (try_await p h).
Proof.
  intros Hp Hh w r w'. unfold try_await.
  destruct (p w) as [[[a|e] w1]|] eqn:Heq; [| |discriminate].
  - intros [= <- <-]. exact (Hp _ _ _ Heq).
  - intros Hhe. destruct (Hp _ _ _ Heq) as [Hd Hs].
    destruct (Hh e _ _ _ Hhe) as [Hd' Hs']. split; congruence.
Qed.

Lemma frame_unspecified (o : Unspecified) : frame (unspecified o).
Proof.
  intros w. unfold unspecified. destruct (o (device w) (env w)) as [[r v] t].
  now split.
Qed.
#[local] Hint Resolve frame_unspecified : frame.

Lemma frame_get_prop_opt (o : option JSON) (k : string) :
  frame (interceptors.get_prop_opt o k).
Proof. unfold interceptors.get_prop_opt. solve_frame. Qed.
#[local] Hint Resolve frame_get_prop_opt : frame.

Lemma frame_wired_saveToken (untyped : Untyped) (t : option JSON) :
  frame (Wired.authStorage.saveToken untyped t).
Proof.
  unfold Wired.authStorage.saveToken, logger.debug, logger.error.
  destruct t as [v|]; [destruct v|]; solve_frame.
Qed.

Lemma frame_wired_saveUser (untyped : Untyped) (u : option JSON) :
  frame (Wired.authStorage.saveUser untyped u).
Proof.
  unfold Wired.authStorage.saveUser, logger.debug, logger.error.
  destruct u as [v|]; solve_frame.
Qed.
#[local] Hint Resolve frame_wired_saveToken frame_wired_saveUser : frame.

Lemma frame_handleNetworkError (error : JsError) : frame (handleNetworkError error).
Proof.
  intros w. destruct (handleNetworkError_classify error w) as (w0 & -> & Hd & _ & Hs & _).
  now split.
Qed.
#[local] Hint Resolve frame_handleNetworkError : frame.

Lemma frame_wired_request_onFulfilled (config : Config) :
  frame (Wired.interceptors.request_onFulfilled config).
Proof.
  unfold Wired.interceptors.request_onFulfilled, logger.debug. solve_frame.
Qed.

Lemma frame_dispatchRequest (transport : Config -> Oracle AxiosResponse) (config : Config) :
  frame (interceptors.dispatchRequest transport config).
Proof. unfold interceptors.dispatchRequest. solve_frame. Qed.

Lemma frame_response_onFulfilled (response : AxiosResponse) :
  frame (interceptors.response_onFulfilled response).
Proof.
  intros w. destruct (interceptors.response_onFulfilled response w) as [r w1] eqn:Heq.
  destruct (response_onFulfilled_silent response w w1 r Heq) as (Hd & _ & Hs & _).
  now split.
Qed.
#[local] Hint Resolve frame_wired_request_onFulfilled frame_dispatchRequest
  frame_response_onFulfilled : frame.

Create HintDb pframe.
#[local] Hint Resolve pframe_ret pframe_pending : pframe.

Ltac pframe_step :=
  first
    [ apply pframe_bind; [|intros ?]
    | apply pframe_try_await; [|intros ?]
    | apply pframe_await; solve [solve_frame]
    | solve [auto with pframe]
    | match goal with
      | |- pframe (match ?x with _ => _ end) => destruct x
      | |- pframe (if ?x then _ else _) => destruct x
      | |- pframe (let _ := _ in _) => cbv zeta
      end ].

Ltac solve_pframe := repeat pframe_step.

Section InstanceFrame.

Variable untyped : Untyped.
Variable instance : Config -> Promise AxiosResponse.
Hypothesis instance_frame : forall config, pframe (instance config).

Lemma pframe_http_request (config : Config) : pframe (Wired.http.request instance config).
Proof. unfold Wired.http.request. solve_pframe. Qed.

Lemma pframe_http_post (url : string) (data : option JSON) :
  pframe (Wired.authService.http_post instance url data).
Proof.
  unfold Wired.authService.http_post, Wired.http.post.
  pose proof pframe_http_request. solve_pframe.
Qed.

Lemma pframe_http_get (url : string) : pframe (Wired.authService.http_get instance url).
Proof.
  unfold Wired.authService.http_get, Wired.http.get.
  pose proof pframe_http_request. solve_pframe.
Qed.

Lemma pframe_http_put (url : string) (data : option JSON) :
  pframe (Wired.authService.http_put instance url data).
Proof.
  unfold Wired.authService.http_put, Wired.http.put.
  pose proof pframe_http_request. solve_pframe.
Qed.

Lemma pframe_service_refreshToken : pframe (Wired.authService.refreshToken untyped instance).
Proof.
  unfold Wired.authService.refreshToken, errorTracker.trackApiError, logger.info, logger.error.
  pose proof pframe_http_post. solve_pframe.
Qed.

Lemma pframe_service_logout : pframe (Wired.authService.logout instance).
Proof.
  unfold Wired.authService.logout, errorTracker.trackApiError, logger.info, logger.warn,
    logger.error.
  pose proof pframe_http_post. solve_pframe.
Qed.

Lemma pframe_service_login (params : LoginParams) :
  pframe (Wired.authService.login untyped instance params).
Proof.
  unfold Wired.authService.login, Wired.authService.sign_in, errorTracker.trackApiError,
    logger.info, logger.error.
  pose proof pframe_http_post. solve_pframe.
Qed.

Lemma pframe_service_register (params : RegisterParams) :
  pframe (Wired.authService.register untyped instance params).
Proof.
  unfold Wired.authService.register, Wired.authService.sign_in, errorTracker.trackApiError,
    logger.info, logger.error.
  pose proof pframe_http_post. solve_pframe.
Qed.

Lemma pframe_service_updateUser (updates : JSON) :
  pframe (Wired.authService.updateUser untyped instance updates).
Proof.
  unfold Wired.authService.updateUser, errorTracker.trackApiError, logger.info, logger.error.
  pose proof pframe_http_put. solve_pframe.
Qed.

Lemma pframe_service_getCurrentUser :
  pframe (Wired.authService.getCurrentUser untyped instance).
Proof.
  unfold Wired.authService.getCurrentUser, logger.warn, logger.error.
  pose proof pframe_http_get. solve_pframe.
Qed.

Lemma pframe_service_checkAuth : pframe (Wired.authService.checkAuth untyped instance).
Proof.
  unfold Wired.authService.checkAuth, logger.error.
  pose proof pframe_service_refreshToken. solve_pframe.
Qed.

End InstanceFrame.

Section Callbacks.

Variable transport : Config -> Oracle AxiosResponse.
Variable tokenRefresher logoutHandler : Promise unit.
Variable axios_request : Config -> Promise AxiosResponse.

Lemma pframe_instance_request (config : Config) :
  pframe tokenRefresher -> pframe logoutHandler ->
  (forall c, pframe (axios_request c)) ->
  pframe (Wired.interceptors.instance_request transport tokenRefresher logoutHandler
            axios_request config).
Proof.
  intros Hr Hl Ha w r w'. unfold Wired.interceptors.instance_request.
  assert (Hstage : frame (Wired.interceptors.request_onFulfilled config
                            ≫= interceptors.dispatchRequest transport)) by solve_frame.
  specialize (Hstage w).
  destruct ((Wired.interceptors.request_onFulfilled config
               ≫= interceptors.dispatchRequest transport) w) as [[response|error] w1].
  - cbn [snd] in Hstage. intros [= Heq].
    pose proof (frame_response_onFulfilled response w1) as Hf.
    rewrite Heq in Hf. cbn [snd] in Hf. destruct Hstage, Hf. split; congruence.
  - cbn [snd] in Hstage.
    assert (Hrej : pframe (Wired.interceptors.response_onRejected tokenRefresher
                             logoutHandler error)).
    { unfold Wired.interceptors.response_onRejected, logger.info, logger.error.
      solve_pframe. }
    destruct (Wired.interceptors.response_onRejected tokenRefresher logoutHandler error w1)
      as [[[[config'|networkError]|e] w2]|] eqn:Hverdict; [| | |discriminate].
    + intros Hreplay. destruct (Hrej _ _ _ Hverdict), (Ha _ _ _ _ Hreplay), Hstage.
      split; congruence.
    + intros [= <- <-]. destruct (Hrej _ _ _ Hverdict), Hstage. split; congruence.
    + intros [= <- <-]. destruct (Hrej _ _ _ Hverdict), Hstage. split; congruence.
Qed.

End Callbacks.

(** The intercepted instance never touches the device or the session of the
    provider. *)
Lemma pframe_axios (untyped : Untyped) (transport : Config -> Oracle AxiosResponse)
    (fuel : nat) :
  forall config, pframe (Wired.axios untyped transport fuel config).
Proof.
  induction fuel as [|n IH]; intros config; [apply pframe_pending|].
  cbn [Wired.axios]. apply pframe_instance_request.
  - now apply pframe_service_refreshToken.
  - now apply pframe_service_logout.
  - exact IH.
Qed.

(** ** More fuel changes no answer *)

Lemma refines_refl {A : Type} (p : Promise A) : refines p p.
Proof. now intros w r. Qed.

Lemma refines_bind {A B : Type} (p q : Promise A) (f g : A -> Promise B) :
  refines p q -> (forall a, refines (f a) (g a)) -> refines (p ≫= f) (q ≫= g).
Proof.
  intros Hp Hf w r. unfold mbind, Promise_bind.
  destruct (p w) as [[[a|e] w1]|] eqn:Heq; [| |discriminate];
    rewrite (Hp _ _ Heq); [apply Hf | trivial].
Qed.

Lemma refines_try_await {A : Type} (p q : Promise A) (h k : JsError -> Promise A) :
  refines p q -> (forall e, refines (h e) (k e)) -> refines (try_await p h) (try_await q k).
Proof.
  intros Hp Hh w r. unfold try_await.
  destruct (p w) as [[[a|e] w1]|] eqn:Heq; [| |discriminate];
    rewrite (Hp _ _ Heq); [trivial | apply Hh].
Qed.

Create HintDb refines.
#[local] Hint Resolve refines_refl : refines.

Ltac refines_step :=
  first
    [ apply refines_refl
    | apply refines_bind; [|intros ?]
    | apply refines_try_await; [|intros ?]
    | solve [auto with refines]
    | match goal with
      | |- refines (match ?x with _ => _ end) _ => destruct x
      | |- refines (if ?x then _ else _) _ => destruct x
      | |- refines (let _ := _ in _) _ => cbv zeta
      end ].

Ltac solve_refines := repeat refines_step.

Section InstanceRefines.

Variable untyped : Untyped.
Variable instance1 instance2 : Config -> Promise AxiosResponse.
Hypothesis instance_refines : forall config, refines (instance1 config) (instance2 config).

Lemma refines_http_request (config : Config) :
  refines (Wired.http.request instance1 config) (Wired.http.request instance2 config).
Proof. unfold Wired.http.request. solve_refines. Qed.

Lemma refines_http_post (url : string) (data : option JSON) :
  refines (Wired.authService.http_post instance1 url data)
          (Wired.authService.http_post instance2 url data).
Proof.
  unfold Wired.authService.http_post, Wired.http.post.
  pose proof refines_http_request. solve_refines.
Qed.

Lemma refines_service_refreshToken :
  refines (Wired.authService.refreshToken untyped instance1)
          (Wired.authService.refreshToken untyped instance2).
Proof.
  unfold Wired.authService.refreshToken. pose proof refines_http_post. solve_refines.
Qed.

Lemma refines_service_logout :
  refines (Wired.authService.logout instance1) (Wired.authService.logout instance2).
Proof.
  unfold Wired.authService.logout. pose proof refines_http_post. solve_refines.
Qed.

End InstanceRefines.

Lemma refines_instance_request (transport : Config -> Oracle AxiosResponse)
    (refresher1 refresher2 handler1 handler2 : Promise unit)
    (axios1 axios2 : Config -> Promise AxiosResponse) (config : Config) :
  refines refresher1 refresher2 -> refines handler1 handler2 ->
  (forall c, refines (axios1 c) (axios2 c)) ->
  refines (Wired.interceptors.instance_request transport refresher1 handler1 axios1 config)
          (Wired.interceptors.instance_request transport refresher2 handler2 axios2 config).
Proof.
  intros Hr Hl Ha w r. unfold Wired.interceptors.instance_request.
  destruct ((Wired.interceptors.request_onFulfilled config
               ≫= interceptors.dispatchRequest transport) w) as [[response|error] w1];
    [trivial|].
  assert (Hrej : refines (Wired.interceptors.response_onRejected refresher1 handler1 error)
                         (Wired.interceptors.response_onRejected refresher2 handler2 error)).
  { unfold Wired.interceptors.response_onRejected. solve_refines. }
  destruct (Wired.interceptors.response_onRejected refresher1 handler1 error w1)
    as [[[[config'|networkError]|e] w2]|] eqn:Hverdict; [| | |discriminate];
    rewrite (Hrej _ _ Hverdict); [apply Ha | trivial | trivial].
Qed.

Lemma axios_one_more (untyped : Untyped) (transport : Config -> Oracle AxiosResponse)
    (fuel : nat) :
  forall config,
    refines (Wired.axios untyped transport fuel config)
            (Wired.axios untyped transport (S fuel) config).
Proof.
  induction fuel as [|n IH]; intros config; [intros w r; discriminate|].
  change (Wired.axios untyped transport (S (S n)))
    with (Wired.interceptors.instance_request transport
            (Wired.authService.refreshToken untyped (Wired.axios untyped transport (S n)))
            (Wired.authService.logout (Wired.axios untyped transport (S n)))
            (Wired.axios untyped transport (S n))).
  change (Wired.axios untyped transport (S n) config)
    with (Wired.interceptors.instance_request transport
            (Wired.authService.refreshToken untyped (Wired.axios untyped transport n))
            (Wired.authService.logout (Wired.axios untyped transport n))
            (Wired.axios untyped transport n) config).
  apply refines_instance_request.
  - now apply refines_service_refreshToken.
  - now apply refines_service_logout.
  - exact IH.
Qed.

(** What a request has settled with, it settles with whatever the bound. *)
Lemma axios_fuel_monotone (untyped : Untyped) (transport : Config -> Oracle AxiosResponse)
    (n m : nat) (config : Config) :
  (n <= m)%nat ->
  refines (Wired.axios untyped transport n config) (Wired.axios untyped transport m config).
Proof.
  induction 1 as [|m Hle IH]; [apply refines_refl|].
  intros w r Hn. apply axios_one_more, IH, Hn.
Qed.

(** ** A remote end that answers 401 to everything *)


Ltac prun :=
  repeat
    (progress
       (unfold mbind, Promise_bind, M_bind, mret, Promise_ret, M_ret, await, try_await,
          pending, try_catch, emit, throw, perform,
          logger.info, logger.debug, logger.warn, logger.error,
          errorTracker.trackApiError, console_error, Date_now, Platform_OS,
          AuthProvider.setStatus, AuthProvider.setUser, AuthProvider.setToken, logged;
        cbv beta iota;
        cbn [get_prop assoc device env session trace status user token
             with_trace with_env with_session fst snd negb])).







(** ** What has been logged stays logged *)

Lemma grows_ret {A : Type} (a : A) : grows (mret a : M A).
Proof. intros w. now exists []. Qed.

Lemma grows_throw {A : Type} (e : JsError) : grows (throw e : M A).
Proof. intros w. now exists []. Qed.

Lemma grows_emit (ev : Event) : grows (emit ev).
Proof. intros w. now exists [ev]. Qed.

Lemma grows_bind {A B : Type} (m : M A) (f : A -> M B) :
  grows m -> (forall a, grows (f a)) -> grows (m ≫= f).
Proof.
  intros Hm Hf w. unfold mbind, M_bind. destruct (Hm w) as [t Ht].
  destruct (m w) as [[a|e] w1]; cbn [snd] in *; [|now exists t].
  destruct (Hf a w1) as [t' Ht']. exists (t' ++ t)%list.
  now rewrite Ht', Ht, app_assoc.
Qed.

Lemma grows_try_catch {A : Type} (m : M A) (h : JsError -> M A) :
  grows m -> (forall e, grows (h e)) -> grows (try_catch m h).
Proof.
  intros Hm Hh w. unfold try_catch. destruct (Hm w) as [t Ht].
  destruct (m w) as [[a|e] w1]; cbn [snd] in *; [now exists t|].
  destruct (Hh e w1) as [t' Ht']. exists (t' ++ t)%list.
  now rewrite Ht', Ht, app_assoc.
Qed.

Lemma grows_promise_all2 {A B : Type} (m1 : M A) (m2 : M B) :
  grows m1 -> grows m2 -> grows (promise_all2 m1 m2).
Proof.
  intros H1 H2 w. unfold promise_all2. destruct (H1 w) as [t1 Ht1].
  destruct (m1 w) as [r1 w1]. destruct (H2 w1) as [t2 Ht2].
  destruct (m2 w1) as [r2 w2]. cbn [snd] in *.
  exists (t2 ++ t1)%list.
  destruct r1, r2; cbn [snd]; now rewrite Ht2, Ht1, app_assoc.
Qed.

Lemma grows_native_remove (b : Backend) (k : string) : grows (native_remove b k).
Proof. intros w. unfold native_remove. destruct (faulty _ _ _ _); now exists []. Qed.

Lemma grows_Platform_OS : grows Platform_OS.
Proof. intros w. now exists []. Qed.

Create HintDb grows.
#[local] Hint Resolve grows_ret grows_throw grows_emit grows_native_remove
  grows_Platform_OS : grows.

Ltac grows_step :=
  first
    [ apply grows_bind; [|intros ?]
    | apply grows_try_catch; [|intros ?]
    | apply grows_promise_all2
    | solve [auto with grows]
    | match goal with
      | |- grows (match ?x with _ => _ end) => destruct x
      | |- grows (let _ := _ in _) => cbv zeta
      end ].

Ltac solve_grows := repeat grows_step.

Lemma grows_clearAll : grows authStorage.clearAll.
Proof.
  unfold authStorage.clearAll, authStorage.clearToken, authStorage.clearUser,
    secureStorage.removeItem, cacheStorage.removeItem, console_error,
    logger.info, logger.debug, logger.error.
  solve_grows.
Qed.

Lemma logged_stays (w : World) (ev : Event) :
  In ev (trace w) -> In ev (trace (snd (authStorage.clearAll w))).
Proof.
  intros Hin. destruct (grows_clearAll w) as [t ->]. apply in_or_app. now right.
Qed.

(** [clearAll] rejects with the error of a removal that failed. *)
Lemma clearAll_rejects_with (w w' : World) (err : JsError) :
  authStorage.clearAll w = (Rejected err, w') ->
  exists e : Entry,
    err = NativeError (entry_backend (device w) e) OpRemove (entry_key e)
    /\ faulty (device w) (entry_backend (device w) e) OpRemove (entry_key e) = true.
Proof.
  unfold authStorage.clearAll, authStorage.clearToken, authStorage.clearUser.
  unfold try_catch, mbind, M_bind, promise_all2.
  rewrite secure_removeItem_eq. cbv zeta.
  destruct (faulty (device w) _ OpRemove STORAGE_KEYS.AUTH_TOKEN) eqn:Ha.
  2: rewrite secure_removeItem_eq; cbv zeta; cbn [with_env device];
     destruct (faulty (device w) _ OpRemove STORAGE_KEYS.REFRESH_TOKEN) eqn:Hr.
  3: rewrite cache_removeItem_eq; cbn [with_env device];
     destruct (faulty (device w) _ OpRemove STORAGE_KEYS.TOKEN_EXPIRE_TIME) eqn:He.
  all: run; rewrite cache_removeItem_eq; cbn [with_trace with_env device];
    destruct (faulty (device w) _ OpRemove STORAGE_KEYS.USER_INFO) eqn:Hu; run;
    try discriminate; intros [= <- <-].
  all: first [ exists AccessTokenEntry; split; [reflexivity | assumption]
             | exists RefreshTokenEntry; split; [reflexivity | assumption]
             | exists TokenExpireAtEntry; split; [reflexivity | assumption]
             | exists UserEntry; split; [reflexivity | assumption] ].
Qed.

(** [clearAll], as its callers need it. *)
Lemma clearAll_outcome (w : World) :
  exists (r : Outcome unit) (w' : World),
    authStorage.clearAll w = (r, w')
    /\ device w' = device w /\ session w' = session w
    /\ (forall ev, In ev (trace w) -> In ev (trace w'))
    /\ (reliable (device w) OpRemove ->
        r = Resolved tt /\ forall e : Entry, stored w' e = None)
    /\ (forall err, r = Rejected err ->
        exists e : Entry,
          err = NativeError (entry_backend (device w) e) OpRemove (entry_key e)
          /\ faulty (device w) (entry_backend (device w) e) OpRemove (entry_key e)
             = true).
Proof.
  pose proof (logged_stays w) as Hstays.
  pose proof (clearAll_rejects_with w) as Hrej.
  pose proof (clearAll_reliable w) as Hrel.
  pose proof (frame_clearAll w) as [Hd Hs].
  destruct (authStorage.clearAll w) as [r w']. cbn [snd] in *.
  exists r, w'. split; [reflexivity|]. split; [exact Hd|]. split; [exact Hs|].
  split; [exact Hstays|]. split.
  - intros Hreliable. specialize (Hrel Hreliable). injection Hrel as -> ->.
    split; [reflexivity|]. intros e. after_clear.
  - intros err ->. now apply (Hrej w').
Qed.

Lemma stored_with_trace (t : list Event) (w : World) (e : Entry) :
  stored (with_trace t w) e = stored w e.
Proof. reflexivity. Qed.

(* ================================================================== *)
(** * Logout                                                           *)
(* ================================================================== *)

(** [logout] once its request has settled. *)
Lemma service_logout_once_answered :
  forall (instance : Config -> Promise AxiosResponse) (w : World)
         (post : Outcome (option JSON)) (w1 : World),
    Wired.authService.http_post instance API_ENDPOINTS.auth_logout None
      (logged INFO "Attempting logout" "AuthService" w) = Some (post, w1) ->
    exists (r : Outcome unit) (w' : World),
      Wired.authService.logout instance w = Some (r, w')
      /\ (forall err, post = Rejected err ->
          In (Logged WARN "Logout API call failed, continuing with local cleanup"
                "AuthService") (trace w'))
      /\ (reliable (device w1) OpRemove ->
          r = Resolved tt /\ forall e : Entry, stored w' e = None)
      /\ (forall err, r = Rejected err ->
          exists e : Entry,
            err = NativeError (entry_backend (device w1) e) OpRemove (entry_key e)
            /\ faulty (device w1) (entry_backend (device w1) e) OpRemove (entry_key e)
               = true).
Proof.
  intros instance w post w1 Hpost. unfold logged in Hpost.
  unfold Wired.authService.logout. prun. rewrite Hpost.
  destruct post as [a|err]; prun.
  - destruct (clearAll_outcome w1) as (r & w3 & -> & Hd & _ & Htrace & Hrel & Hrej).
    destruct r as [[]|e]; prun; do 2 eexists; (split; [reflexivity|]);
      (split; [discriminate|]); split.
    + intros Hreliable. split; [reflexivity|]. intros e.
      rewrite !stored_with_trace. now apply Hrel.
    + discriminate.
    + intros Hreliable. now destruct (Hrel Hreliable).
    + intros err [= <-]. now apply Hrej.
  - match goal with
    | |- context [authStorage.clearAll ?w0] =>
        destruct (clearAll_outcome w0) as (r & w3 & -> & Hd & _ & Htrace & Hrel & Hrej)
    end.
    cbn [device trace with_trace] in Hd, Htrace, Hrel, Hrej.
    destruct r as [[]|e]; prun; do 2 eexists; (split; [reflexivity|]); split.
    + intros _ _. right. apply Htrace. now left.
    + split; [|discriminate]. intros Hreliable. split; [reflexivity|]. intros e.
      rewrite !stored_with_trace. now apply Hrel.
    + intros _ _. do 3 right. apply Htrace. now left.
    + split; [intros Hreliable; now destruct (Hrel Hreliable)|].
      intros err' [= <-]. now apply Hrej.
Qed.




(* ================================================================== *)
(** * The auth check                                                   *)
(* ================================================================== *)






(* ================================================================== *)
(** * Startup                                                          *)
(* ================================================================== *)





(** A failed refresh does not always clear the store.  On a device whose
    secure store refuses removals, a refresh attempted without a refresh
    token rejects with the error of the removal, not with "No refresh token
    available", and the access token is still stored. *)
Lemma refreshToken_failure_may_keep_the_token :
  fst (authService.refreshToken http_offline
         (world_of sticky_device env_without_refresh_token))
  = Rejected (NativeError SecureStore OpRemove STORAGE_KEYS.AUTH_TOKEN)
  /\ stored (snd (authService.refreshToken http_offline
                    (world_of sticky_device env_without_refresh_token)))
       AccessTokenEntry = Some "A1"
  /\ http_calls (trace (snd (authService.refreshToken http_offline
                               (world_of sticky_device env_without_refresh_token))))
     = 0%nat.
Proof. vm_compute. repeat split; reflexivity. Qed.

(* ================================================================== *)
(** * The auth service on its own client: failures on the way          *)
(* ================================================================== *)

Ltac request_world W :=
  match goal with
  | |- context [Wired.authService.http_post _ _ _ ?w0] => change w0 with W
  | |- context [Wired.authService.http_put _ _ _ ?w0] => change w0 with W
  | |- context [Wired.authService.http_get _ _ ?w0] => change w0 with W
  end.

(** X11. A login whose request is rejected rejects with the same error,
    through the auth service and through the provider, and a login whose
    request is pending is pending.  After the request nothing more is done to
    the device: the platform is as the request left it and no further call of
    the client is made.  The error is logged and tracked, the session
    becomes UNAUTHENTICATED, and its user and token stay what they were.  A
    registration behaves the same way.  (What the request itself has done is
    another matter: answered 401, it has run the client's refresh and
    logout.) *)
Theorem failed_login_does_nothing_after_the_request :
  forall (untyped : Untyped) (transport : Config -> Oracle AxiosResponse) (fuel : nat)
         (w : World),
    (forall params,
        match Wired.authService.http_post (Wired.axios untyped transport fuel)
                API_ENDPOINTS.auth_login
                (Some (Wired.authService.LoginParams_json params))
                (login_request_world w) with
        | Some (Rejected err, w1) =>
            exists w',
              Wired.AuthProvider.login untyped (Wired.axios untyped transport fuel) params w
              = Some (Rejected err, w')
              /\ env w' = env w1
              /\ session w' = {| status := UNAUTHENTICATED; user := user (session w);
                                 token := token (session w) |}
              /\ http_calls (trace w') = http_calls (trace w1)
              /\ In (TrackedApiError "登录失败") (trace w')
        | Some (Resolved _, _) => True
        | None =>
            Wired.AuthProvider.login untyped (Wired.axios untyped transport fuel) params w
            = None
        end)
    /\ (forall params,
          match Wired.authService.http_post (Wired.axios untyped transport fuel)
                  API_ENDPOINTS.auth_register
                  (Some (Wired.authService.RegisterParams_json params))
                  (register_request_world w) with
          | Some (Rejected err, w1) =>
              exists w',
                Wired.AuthProvider.register untyped (Wired.axios untyped transport fuel)
                  params w = Some (Rejected err, w')
                /\ env w' = env w1
                /\ session w' = {| status := UNAUTHENTICATED; user := user (session w);
                                   token := token (session w) |}
                /\ http_calls (trace w') = http_calls (trace w1)
                /\ In (TrackedApiError "注册失败") (trace w')
          | Some (Resolved _, _) => True
          | None =>
              Wired.AuthProvider.register untyped (Wired.axios untyped transport fuel)
                params w = None
          end).
Proof.
  intros untyped transport fuel w. split; intros params.
  - pose proof (pframe_http_post (Wired.axios untyped transport fuel)
                  (pframe_axios untyped transport fuel) API_ENDPOINTS.auth_login
                  (Some (Wired.authService.LoginParams_json params))
                  (login_request_world w)) as Hframe.
    unfold Wired.AuthProvider.login, Wired.authService.login. prun.
    request_world (login_request_world w).
    destruct (Wired.authService.http_post _ _ _ _) as [[[a|err] w1]|]; [exact I| |reflexivity].
    destruct (Hframe _ _ eq_refl) as [_ Hsession].
    eexists. split; [reflexivity|].
    cbn [env session trace device with_trace with_env with_session status user token
         http_calls is_http_call In Nat.add].
    rewrite Hsession. repeat split; auto 10.
  - pose proof (pframe_http_post (Wired.axios untyped transport fuel)
                  (pframe_axios untyped transport fuel) API_ENDPOINTS.auth_register
                  (Some (Wired.authService.RegisterParams_json params))
                  (register_request_world w)) as Hframe.
    unfold Wired.AuthProvider.register, Wired.authService.register. prun.
    request_world (register_request_world w).
    destruct (Wired.authService.http_post _ _ _ _) as [[[a|err] w1]|]; [exact I| |reflexivity].
    destruct (Hframe _ _ eq_refl) as [_ Hsession].
    eexists. split; [reflexivity|].
    cbn [env session trace device with_trace with_env with_session status user token
         http_calls is_http_call In Nat.add].
    rewrite Hsession. repeat split; auto 10.
Qed.

Lemma failed_login_witness :
  login_request_500 = Some (Rejected answered_500, world_after login_request_500)
  /\ exists w',
       Wired.AuthProvider.login untyped_refused
         (Wired.axios untyped_refused transport_always_500 1) alice_params
         (world_of sound_device signed_in_env) = Some (Rejected answered_500, w')
       /\ env w' = env (world_after login_request_500)
       /\ session w' = {| status := UNAUTHENTICATED; user := None; token := None |}
       /\ http_calls (trace w') = http_calls (trace (world_after login_request_500))
       /\ In (TrackedApiError "登录失败") (trace w').
Proof.
  assert (Hrun : login_request_500
                 = Some (Rejected answered_500, world_after login_request_500))
    by (vm_compute; reflexivity).
  split; [exact Hrun|].
  pose proof (proj1 (failed_login_does_nothing_after_the_request untyped_refused
                       transport_always_500 1 (world_of sound_device signed_in_env))
                alice_params) as H.
  change (Wired.authService.http_post _ _ _ _) with login_request_500 in H.
  rewrite Hrun in H. exact H.
Defined.

(** X15. [getCurrentUser] never rejects.  With no user record on the device
    it gives [null] without asking the server.  With a record, it asks the
    server: while the request is pending so is [getCurrentUser]; when the
    request fails, or when the answer cannot be written to the device, it
    gives the record it found on the device; and otherwise it gives the
    answer, which is then the record on the device. *)
Theorem getCurrentUser_falls_back_to_the_record :
  forall (untyped : Untyped) (instance : Config -> Promise AxiosResponse) (w : World),
    (forall r w',
        Wired.authService.getCurrentUser untyped instance w = Some (r, w') ->
        exists u, r = Resolved u)
    /\ (truthy (saved_user w) = false ->
        exists w',
          Wired.authService.getCurrentUser untyped instance w
          = Some (Resolved (Some JNull), w')
          /\ env w' = env w
          /\ http_calls (trace w') = http_calls (trace w))
    /\ (truthy (saved_user w) = true ->
        match Wired.authService.http_get instance USER_ENDPOINTS.user_profile w with
        | None => Wired.authService.getCurrentUser untyped instance w = None
        | Some (Rejected _, w1) =>
            exists w',
              Wired.authService.getCurrentUser untyped instance w
              = Some (Resolved (Some (saved_user w)), w')
              /\ env w' = env w1
        | Some (Resolved serverUser, w1) =>
            match Wired.authStorage.saveUser untyped serverUser w1 with
            | (Resolved _, w2) =>
                Wired.authService.getCurrentUser untyped instance w
                = Some (Resolved serverUser, w2)
                /\ (forall u, serverUser = Some u ->
                    asyncStorage (env w2) !! STORAGE_KEYS.USER_INFO
                    = Some (JSON_stringify u))
            | (Rejected _, w2) =>
                exists w',
                  Wired.authService.getCurrentUser untyped instance w
                  = Some (Resolved (Some (saved_user w)), w')
                  /\ env w' = env w2
            end
        end).
Proof.
  intros untyped instance w.
  assert (Hnone : truthy (saved_user w) = false ->
                  exists w',
                    Wired.authService.getCurrentUser untyped instance w
                    = Some (Resolved (Some JNull), w')
                    /\ env w' = env w
                    /\ http_calls (trace w') = http_calls (trace w)).
  { intros Hfalsy. unfold Wired.authService.getCurrentUser. prun.
    destruct (getUser_quiet w) as (t & -> & Ht). rewrite Hfalsy. cbn [negb].
    eexists. split; [reflexivity|]. split; [reflexivity|].
    apply http_calls_quiet, Ht. }
  assert (Hsome : truthy (saved_user w) = true ->
                  Wired.authService.getCurrentUser untyped instance w =
                  match Wired.authService.http_get instance USER_ENDPOINTS.user_profile w with
                  | None => None
                  | Some (Rejected _, w1) =>
                      Some (Resolved (Some (saved_user w)),
                            logged WARN "Failed to fetch user from server, using cached data"
                              "AuthService" w1)
                  | Some (Resolved serverUser, w1) =>
                      match Wired.authStorage.saveUser untyped serverUser w1 with
                      | (Resolved _, w2) => Some (Resolved serverUser, w2)
                      | (Rejected _, w2) =>
                          Some (Resolved (Some (saved_user w)),
                                logged WARN
                                  "Failed to fetch user from server, using cached data"
                                  "AuthService" w2)
                      end
                  end).
  { intros Htruthy.
    assert (Hread : authStorage.getUser w = (Resolved (saved_user w), w))
      by (apply getUser_saved_user; exact Htruthy).
    unfold Wired.authService.getCurrentUser. prun. rewrite Hread, Htruthy. cbn [negb].
    destruct (Wired.authService.http_get instance USER_ENDPOINTS.user_profile w)
      as [[[serverUser|err] w1]|]; [|reflexivity..].
    destruct (Wired.authStorage.saveUser untyped serverUser w1) as [[[]|err] w2];
      reflexivity. }
  split; [|split; [exact Hnone|]].
  - intros r w' Hrun. destruct (truthy (saved_user w)).
    + rewrite (Hsome eq_refl) in Hrun.
      destruct (Wired.authService.http_get instance USER_ENDPOINTS.user_profile w)
        as [[[serverUser|err] w1]|]; [| |discriminate].
      * destruct (Wired.authStorage.saveUser untyped serverUser w1) as [[[]|err] w2];
          injection Hrun as <- _; eauto.
      * injection Hrun as <- _. eauto.
    + destruct (Hnone eq_refl) as (w2 & Heq & _). rewrite Heq in Hrun.
      injection Hrun as <- _. eauto.
  - intros Htruthy. rewrite (Hsome Htruthy).
    destruct (Wired.authService.http_get instance USER_ENDPOINTS.user_profile w)
      as [[[serverUser|err] w1]|]; [| |reflexivity].
    + pose proof (fun u => saveUser_write_fails u w1) as Hfails.
      pose proof (fun u => saveUser_writes u w1) as Hwrites.
      destruct serverUser as [u|].
      * cbn [Wired.authStorage.saveUser] in *.
        destruct (faulty (device w1) AsyncStorage OpSet STORAGE_KEYS.USER_INFO) eqn:Hfaulty.
        -- destruct (Hfails u eq_refl) as (w2 & -> & _). eexists. split; reflexivity.
        -- destruct (authStorage.saveUser u w1) as [[[]|err] w2] eqn:Hsave.
           ++ split; [reflexivity|]. intros u' [= <-].
              assert (Hu : u <> JNull).
              { intros ->. revert Hsave. unfold authStorage.saveUser. run.
                destruct (cacheStorage.setObject _ _ _) as [[[]|e0] w0]; discriminate. }
              rewrite (Hwrites u eq_refl Hu) in Hsave. injection Hsave as <-.
              cbn [env with_trace with_env with_store asyncStorage]. apply lookup_insert_eq.
           ++ eexists. split; reflexivity.
      * destruct (Wired.authStorage.saveUser untyped None w1) as [[[]|err] w2].
        -- split; [reflexivity|]. discriminate.
        -- eexists. split; reflexivity.
    + eexists. split; reflexivity.
Qed.

(* ================================================================== *)
(** * The provider on the wired client: what the session is left as    *)
(* ================================================================== *)

(** [initAuth] on a device that holds none of the four entries. *)
Lemma wired_initAuth_nothing_stored (untyped : Untyped)
    (instance : Config -> Promise AxiosResponse) (w : World) :
  (forall e, stored w e = None) ->
  exists w2,
    Wired.AuthProvider.initAuth untyped instance w = Some (Resolved tt, w2)
    /\ session w2 = {| status := UNAUTHENTICATED; user := user (session w);
                       token := token (session w) |}
    /\ http_calls (trace w2) = http_calls (trace w).
Proof.
  intros Hnone.
  assert (Hread : forall w0 e, device w0 = device w -> env w0 = env w ->
                               readable w0 e = None).
  { intros w0 e Hd He. unfold readable. rewrite Hd.
    destruct (faulty _ _ _ _); [reflexivity|].
    unfold stored. rewrite Hd, He. apply Hnone. }
  unfold Wired.AuthProvider.initAuth. prun.
  change (with_trace _ (with_session _ w)) with (loading w).
  unfold promise_all2.
  destruct (getAccessToken_quiet (loading w)) as (t1 & -> & Ht1).
  rewrite (Hread (loading w) AccessTokenEntry eq_refl eq_refl).
  destruct (getUser_quiet (with_trace (t1 ++ trace (loading w))%list (loading w)))
    as (t2 & -> & Ht2).
  unfold saved_user.
  rewrite (Hread (with_trace (t1 ++ trace (loading w))%list (loading w)) UserEntry
             eq_refl eq_refl).
  cbn [truthy_str andb].
  prun. eexists. split; [reflexivity|].
  cbn [session trace with_trace with_session status user token loading].
  split; [reflexivity|].
  cbn [http_calls is_http_call Nat.add].
  rewrite !http_calls_app, Ht1, Ht2. reflexivity.
Qed.

(** X16. The provider's [logout] settles exactly as the auth service's
    logout does, pending while that one is pending, and whether it resolves
    or rejects it leaves the session UNAUTHENTICATED with no user and no
    token.  Once the request to the logout endpoint has settled, on a device
    whose removals do not fail, it resolves with the four entries gone, and
    starting the application again afterwards restores nothing: [initAuth]
    ends UNAUTHENTICATED with no user and no token, without any request to
    the server. *)
Theorem provider_logout_signs_out_once_settled :
  forall (instance : Config -> Promise AxiosResponse) (w : World),
    match Wired.authService.logout instance
            (logged INFO "Logout initiated" "AuthContext" w) with
    | None => Wired.AuthProvider.logout instance w = None
    | Some (r, w1) =>
        exists w',
          Wired.AuthProvider.logout instance w = Some (r, w')
          /\ session w' = signed_out
          /\ env w' = env w1 /\ device w' = device w1
    end
    /\ (forall post w1,
          Wired.authService.http_post instance API_ENDPOINTS.auth_logout None
            (logout_request_world w) = Some (post, w1) ->
          reliable (device w1) OpRemove ->
          exists w',
            Wired.AuthProvider.logout instance w = Some (Resolved tt, w')
            /\ session w' = signed_out
            /\ (forall e : Entry, stored w' e = None)
            /\ forall (untyped' : Untyped) (instance' : Config -> Promise AxiosResponse)
                      (later : Z),
                 exists w2,
                   Wired.AuthProvider.initAuth untyped' instance' (restarted later w')
                   = Some (Resolved tt, w2)
                   /\ session w2 = signed_out
                   /\ http_calls (trace w2) = 0%nat).
Proof.
  intros instance w.
  assert (Hfollows :
            match Wired.authService.logout instance
                    (logged INFO "Logout initiated" "AuthContext" w) with
            | None => Wired.AuthProvider.logout instance w = None
            | Some (r, w1) =>
                exists w',
                  Wired.AuthProvider.logout instance w = Some (r, w')
                  /\ session w' = signed_out
                  /\ env w' = env w1 /\ device w' = device w1
            end).
  { unfold Wired.AuthProvider.logout. prun.
    match goal with
    | |- context [Wired.authService.logout instance ?w0] =>
        change w0 with (logged INFO "Logout initiated" "AuthContext" w)
    end.
    destruct (Wired.authService.logout instance _) as [[[[]|e] w1]|];
      [| |reflexivity]; eexists; (split; [reflexivity|]); repeat split. }
  split; [exact Hfollows|].
  intros post w1 Hpost Hreliable.
  destruct (service_logout_once_answered instance
              (logged INFO "Logout initiated" "AuthContext" w) post w1 Hpost)
    as (r & w2 & Hlogout & _ & Hrel & _).
  destruct (Hrel Hreliable) as [-> Hgone].
  rewrite Hlogout in Hfollows. destruct Hfollows as (w' & Heq & Hsession & Henv & Hdev).
  exists w'. split; [exact Heq|]. split; [exact Hsession|].
  assert (Hgone' : forall e : Entry, stored w' e = None).
  { intros e. unfold stored. rewrite Henv, Hdev. apply Hgone. }
  split; [exact Hgone'|].
  intros untyped' instance' later.
  destruct (wired_initAuth_nothing_stored untyped' instance' (restarted later w'))
    as (w3 & Hinit & Hs3 & Hcalls).
  { intros e. specialize (Hgone' e). unfold stored, restarted in *.
    cbn [device env at_time with_env with_trace with_session] in *.
    destruct (entry_backend (device w') e); exact Hgone'. }
  exists w3. split; [exact Hinit|]. split; [|exact Hcalls].
  rewrite Hs3. reflexivity.
Qed.

(** X17. The provider's [refreshToken] follows the auth service's.  When the
    service's refresh rejects, the provider rejects with the same error and
    leaves the session UNAUTHENTICATED with no user and no token.  When it
    resolves, the provider resolves and only the token of the session
    changes: it becomes the access token read from the store, and the status
    and the user stay.  While it is pending the provider's refresh is
    pending.  The service's refresh itself, on the intercepted client, leaves
    the session as it was. *)
Theorem provider_refreshToken_follows_the_service :
  forall (untyped : Untyped) (instance : Config -> Promise AxiosResponse) (w : World),
    match Wired.authService.refreshToken untyped instance
            (logged DEBUG "Token refresh initiated" "AuthContext" w) with
    | None => Wired.AuthProvider.refreshToken untyped instance w = None
    | Some (Rejected e, w1) =>
        exists w',
          Wired.AuthProvider.refreshToken untyped instance w = Some (Rejected e, w')
          /\ session w' = signed_out
          /\ env w' = env w1
    | Some (Resolved _, w1) =>
        exists w',
          Wired.AuthProvider.refreshToken untyped instance w = Some (Resolved tt, w')
          /\ session w' = {| status := status (session w1); user := user (session w1);
                             token := readable w1 AccessTokenEntry |}
          /\ env w' = env w1
    end
    /\ (forall (transport : Config -> Oracle AxiosResponse) (fuel : nat) r w1,
          Wired.authService.refreshToken untyped (Wired.axios untyped transport fuel)
            (logged DEBUG "Token refresh initiated" "AuthContext" w) = Some (r, w1) ->
          session w1 = session w).
Proof.
  intros untyped instance w. split.
  - unfold Wired.AuthProvider.refreshToken. prun.
    match goal with
    | |- context [Wired.authService.refreshToken untyped instance ?w0] =>
        change w0 with (logged DEBUG "Token refresh initiated" "AuthContext" w)
    end.
    destruct (Wired.authService.refreshToken untyped instance _) as [[[[]|e] w1]|];
      [| |reflexivity].
    + destruct (getAccessToken_readable w1) as (Hfst & Henv & _).
      destruct (frame_getAccessToken w1) as [_ Hsession].
      destruct (authStorage.getAccessToken w1) as [rt w2]. cbn [fst snd] in *. subst rt.
      prun. eexists. split; [reflexivity|].
      cbn [session env with_trace with_session status user token].
      rewrite Hsession, Henv. split; reflexivity.
    + eexists. split; [reflexivity|]. split; reflexivity.
  - intros transport fuel r w1 Hrun.
    apply (pframe_service_refreshToken untyped (Wired.axios untyped transport fuel)
             (pframe_axios untyped transport fuel)) in Hrun.
    destruct Hrun as [_ Hsession]. exact Hsession.
Qed.

